(* ===== verification/_CoqProject ===== *)
-Q . S2P
Prelude.v
Effects.v
Proto.v
RustStd.v
Platform.v
RefPlatform.v
Rfc7748.v
SecretBox.v
ProtectedMem.v
X25519.v
Crypto.v
Telemetry.v
TelemetryThreads.v
KeyTypes.v
Process.v
Registry.v
Reaper.v
ArcStore.v
Boundary.v
Service.v
Lifetime.v
Formatting.v
KpsCore.v
WsCore.v
KpsSpec.v
Kps.v
WsSpec.v
Layout.v
Ws.v
Independence.v
Interleaving.v
Poisoned.v
CryptoTheorems.v
BoundaryTheorems.v
RegistryTheorems.v
KpsTheorems.v
WsTheorems.v
Listings.v
Hygiene.v
Atomicity.v
Reporting.v
EndToEnd.v
Delivery.v
Harness.v
Fuzzing.v
FuzzDecapSeal.v
FuzzOpen.v
TestKit.v
KmTests.v
X25519Tests.v
ProcessTests.v
RedactionTests.v
KernelTests.v
KpsTests.v
WsTests.v
