(* ===== verification/Prelude.v ===== *)
(** * Key Protection Module: a verification library

    The Key Protection Module keeps private keys in two "key custody cores", Rust
    libraries that Go servers load and call through a C interface.  The workload
    service's core holds binding keys; the key protection service's core
    (KPS) holds KEM keys, each bound to the public binding key of one workload.  A
    client encapsulates a secret to a KEM key; the KPS decapsulates it and reseals
    it to the bound key; the workload service opens it.  Both cores are built on
    the crate km_common.  This library models that Rust code and proves what makes
    it correct.

    ** The parts of the program and where they are

    All paths are under src/.

    - [Prelude], [Effects]: bytes, codecs, automation; computations that return,
      fail, panic or have undefined behaviour, with the rules ([wp], [Steps],
      [Outcome_is]) the proofs use.
    - [RustStd]: [Duration], [Instant] and raw memory.  [Platform]: everything
      that is not in the repository (the kernel, the crates zeroize,
      clear_on_drop, uuid, prost, bssl-crypto, the build profile) as classes of
      operations, each with a class of the laws the code relies on.
      [RefPlatform]: one concrete platform that satisfies all the laws, on which
      every example runs.
    - [Proto]: km_common/src/keymanager.rs (enumerations, names, discriminants).
    - [SecretBox]: km_common/src/crypto/secret_box.rs; [ProtectedMem]:
      km_common/src/protected_mem.rs ([Vault]).
    - [X25519], [Crypto]: km_common/src/crypto/x25519.rs and
      km_common/src/crypto.rs, with RFC 9180's Encap and Decap as the
      specification.
    - [Telemetry]: km_common/src/telemetry.rs.  [TelemetryThreads]: the same
      functions as steps of threads that share the once-cells.  [Process]: km_common/src/lib.rs
      ([ffi_call] and its variants) and the state of a process: the registry, its
      lock, the caller's memory, the telemetry cells and what the platform keeps.
    - [KeyTypes], [Registry], [Reaper]: km_common/src/key_types.rs, the creation
      of keys, the registry as calls see it, the reaper's thread.  [ArcStore]: the
      same registry with its reference counts, every lock-protected section being
      one step, for all interleavings of concurrent calls.
    - [KpsCore]: key_protection_service/key_custody_core/src/lib.rs; [WsCore]:
      workload_service/key_custody_core/src/lib.rs.  Every entry point is one
      definition with the name of the code, on top of the [_internal] function it
      calls.  [Boundary]: what both share.
    - [KpsSpec], [WsSpec]: a specification of each entry point as a relation
      between the process before, the status, and registry and memory after, with
      the refinement proofs.  [Service]: what a core promises to its host, as an
      interface with laws, and the transition system of a running service (calls,
      reaper rounds, passing time, writes of the host).  [Kps], [Ws]: the two
      implementations of the interface.  [Lifetime]: what many steps of a service do
      to one key.  [Layout]: the readers of the C structs a
      listing writes.  [Independence], [Interleaving]: what of a call does not
      depend on the registry or the telemetry, and calls among other threads.
    - [Formatting]: what [Debug] and [Display] print of the types that hold keys.
    - [Harness]: Rust programs that drive a core through its C interface.
      [Fuzzing], [FuzzDecapSeal], [FuzzOpen]: the two fuzz targets
      (key_custody_core/fuzz/fuzz_targets of both services).  [TestKit],
      [KmTests], [KpsTests], [WsTests]: the unit tests of the three crates,
      translated test by test and run against the model; [X25519Tests] and
      [ProcessTests]: those with test vectors, and those that need a reporter or a
      child process; [RedactionTests]: km_common/tests and the [redaction_tests]
      modules; [KernelTests]: the test that reads /proc/self/maps.  [Rfc7748]: X25519 and HKDF-SHA256 by their standards, for the
      vectors.

    ** What the theorems show

    - [EndToEnd], [Delivery]: the secret a client encapsulated is what the workload
      opens, whatever other clients do to both services in between; a key lives
      until it expires or is destroyed, and then never comes back.
    - [KpsTheorems], [WsTheorems]: in every reachable state every call within its
      documented safety contract returns, without undefined behaviour or panic,
      writes only the caller's output buffers and reports each failure once; the
      registries hold only well-formed keys; every entry point refines its
      specification on every branch;
      expired keys are unusable; destruction is final; a generation refused for
      its buffer's size leaves its key behind (this one is a defect).
    - [Listings]: the flag of a page of either listing is exact, for every limit.
      [Hygiene]: in every reachable state of either service, what it gave back of
      secrets was zeroed, no descriptor is open, and its events name it exactly as
      it was configured.
    - [Atomicity]: every call touches the registry once, and among other threads
      it has the effect of an undisturbed call at the registry it found.
    - [Reporting]: among other threads, at any time of the initialisation, a call
      reports its one failure at most once, under the configured name or the default
      read before it was set; in full once an initialisation has returned; no thread
      waits for ever.
    - [Poisoned]: after a panic under the registry's lock every call still returns,
      fails, and reports it.
    - [RegistryTheorems]: lookups and expiry; pages cover the live keys whatever
      the order of the hash map; the reaper removes exactly the expired keys when
      it finds the lock unpoisoned, every key in the end if it does so again and
      again, and stops when told; under
      every interleaving a record in use is intact, a key looked up stays usable
      while it is held, an unused record is zeroed, and the counted store
      implements the registry.
    - [CryptoTheorems]: decapsulation is RFC 9180's; encapsulation and HPKE round
      trips; unsupported suites are refused before anything happens; what key
      creation yields.
    - [BoundaryTheorems]: secret boxes, vaults, statuses, telemetry and the FFI
      wrapper.  [Formatting]: no printed text depends on a secret
      ([no_secret_in_debug_output]).
    - [FuzzDecapSeal], [FuzzOpen]: no sequence of fuzzer inputs makes a target fail.
    - [KmTests], [KpsTests], [WsTests], [ProcessTests], [RedactionTests],
      [KernelTests]: the repository's own tests
      pass, by computation, on the reference platform ([km_tests_pass] and so on).
      [X25519Tests]: on a platform with the real X25519 and HKDF-SHA256, the
      model's encapsulation and decapsulation compute the vectors of RFC 9180.

    ** Conventions, bounds and assumptions

    Every definition is executable on a concrete platform.  No definition that
    models the code has fuel: all recursions are structural, and the reaper's
    endless loop recurses over a schedule of arbitrary length.  (The reference
    platform's codec of numbers has, ten bytes, which hold 64 bits; and [sleep] in
    a test, as many readings of the clock as pass in the time it sleeps.)  [usize] and [u64] are [N] below [2^64]
    (64-bit target); the sum of an enumeration panics or wraps on overflow, as the
    build profile says, and is proved not to; counts returned as [i32] are
    truncated by [as_i32].  [Instant] is [Z] nanoseconds whose seconds fit [i64].
    A raw pointer is an address in a byte-addressed memory; reads outside it, null
    or misaligned pointers and oversized slices are undefined behaviour.  Buffers
    that overlap while the slices over them are live, two output buffers or an
    output and an input, are also outside Rust's rules; the model does not treat
    them as undefined, it reads what is there and keeps the bytes written last.
    The contracts ([kps_buffers], [ws_buffers]) are those of the documentation,
    which does not ask for disjoint buffers either: of such a call the theorems say
    what the model does, and no more.  Theorems that read two outputs back ask for
    disjoint buffers.
    A handle is drawn at random; that two draws differ is nowhere assumed, and
    theorems about the life of a key ask that no generation draws its handle again.
    A reachable registry is assumed to hold at most [2^64 - 1] keys ([fits]).
    The initialiser of [KEY_REGISTRY] starts the reaper; [init_proc] is the process
    after that, on the assumption that the operating system can create the thread.
    ([std::thread::spawn] panics if it cannot; then every call that needs the
    registry would panic at the [LazyLock] and return [InternalError], as it does
    under a poisoned lock.)
    The vectors that BoringSSL's binding returns may have room behind their
    contents ([RecipientContext_open_spare], [Kem_generate_keypair_spare]), which
    [SecretBox] then copies and zeroes.  The ephemeral secret of an encapsulation
    (code for tests only) is freed without being zeroed, in the source as here.

    The clock is a non-decreasing function of the number of readings; that it
    advances without bound is a hypothesis of the reaper's liveness alone.  Calls
    are sequential in [Process]; [ArcStore] interleaves the sections under the
    lock, where the address of a freed record may be used again,
    [Interleaving] lets other threads change the registry during a call, and
    [TelemetryThreads] the telemetry cells.  What they
    do to the clock and the source of randomness needs no steps of its own: both
    are arbitrary functions of the number of the reading.  The vectors that receive a listing in the tests are as long as
    the argument of [kps_tests] says, a hundred in the source and three in
    [kps_tests_pass]; no test lists more than that many keys.

    The hash map's order of iteration is that of stdpp's finite map, and a theorem
    shows that no listing can observe it.  Cryptographic strength is not claimed:
    the laws of [BsslLaws] are algebra (sizes, commuting Diffie-Hellman, open
    after seal), and a vault's contents are protected by the kernel.

    ** What is not modelled

    The Go servers, agent and attestation service, generated Go code, and build
    scripts: no Rust code of the running program.  Of the Rust code: the text of
    debug assertions, what the default panic hook prints before telemetry is
    initialised, and copies of secrets the compiler leaves in registers or on the
    stack ([clear_stack_on_return] is required to be transparent, no more).  The
    kernel's answers in [KernelTests], on ASCII text, are parameters, and so is how
    the secrecy, uuid and prost crates print their types.  The large vault of a test
    is a kilobyte when it is run, a megabyte in the source.  Output of a child
    process is compared as events, before they become JSON; an event is written at
    once, and a subscriber takes effect at once for every thread.

    ** Plan

    The Rust code is modelled as far as the above says; what remains is the Go
    layer, whose calls of the C interface are those of [Harness]. *)

From Stdlib Require Export ZArith NArith Lia.
From Stdlib Require Import Strings.Byte.
From stdpp Require Export base tactics option list gmap sorting strings numbers.

(** ** Notations and hint databases of the library *)

Declare Scope kpm_scope.
Delimit Scope kpm_scope with kpm.
#[export] Set Default Goal Selector "!".

Create HintDb kpm discriminated.
Create HintDb steps discriminated.
Create HintDb free discriminated.
Create Rewrite HintDb kpm.

(** ** Bytes *)

Abbreviation byte := Corelib.Init.Byte.byte.
Abbreviation bytes := (list Corelib.Init.Byte.byte).
Abbreviation x00 := Corelib.Init.Byte.x00.

#[export] Instance byte_eq_decision : EqDecision byte := Byte.byte_eq_dec.
#[export] Instance byte_inhabited : Inhabited byte := populate x00.

(** The length of a slice as a [usize]. *)
Definition lenN {A} (l : list A) : N := N.of_nat (length l).

Definition zeros (n : nat) : bytes := replicate n x00.

Definition all_zero (b : bytes) : Prop := Forall (λ x, x = x00) b.

(** A literal byte string ([b"..."]). *)
Definition lit (s : string) : bytes := String.list_byte_of_string s.

(** The low byte of a machine word. *)
Definition byte_of_N (v : N) : byte := default x00 (Byte.of_N (v mod 256)).

(** [n] little-endian bytes of [v], and the word a byte string spells. *)
Fixpoint le_bytes (n : nat) (v : N) : bytes :=
  match n with
  | O => []
  | S n => byte_of_N v :: le_bytes n (v / 256)
  end.

Fixpoint le_value (b : bytes) : N :=
  match b with
  | [] => 0
  | x :: b => (Byte.to_N x + 256 * le_value b)%N
  end.

(** [n] big-endian bytes of [v] ([u16::to_be_bytes] for [n = 2]). *)
Definition be_bytes (n : nat) (v : N) : bytes := reverse (le_bytes n v).

(** [iter.skip(n)] and [iter.take(n)] for a [usize] [n]: the count is cut at the
    length first, so that they compute for every word. *)
Definition skipN {A} (n : N) (l : list A) : list A := drop (N.to_nat (N.min n (lenN l))) l.
Definition takeN {A} (n : N) (l : list A) : list A := take (N.to_nat (N.min n (lenN l))) l.

Definition usize_max : N := 18446744073709551615.
Definition isize_max : N := 9223372036854775807.

(** [x as i32]: the low 32 bits, read in two's complement. *)
Definition as_i32 (x : N) : Z :=
  let w := (Z.of_N x mod 4294967296)%Z in
  if (w <? 2147483648)%Z then w else (w - 4294967296)%Z.

(** ** Tactics *)

(** Case analysis on the conditions and matches of the goal, with the equations kept. *)
Ltac split_ifs :=
  repeat match goal with
  | |- context [if decide ?P then _ else _] => destruct (decide P)
  | |- context [if ?b then _ else _] => destruct b eqn:?
  end.

Ltac bool_props :=
  repeat match goal with
  | H : (_ && _) = true |- _ => apply andb_true_iff in H as [??]
  | H : (_ || _) = false |- _ => apply orb_false_iff in H as [??]
  | H : negb _ = true |- _ => apply negb_true_iff in H
  | H : negb _ = false |- _ => apply negb_false_iff in H
  | H : (_ =? _)%N = true |- _ => apply N.eqb_eq in H
  | H : (_ =? _)%N = false |- _ => apply N.eqb_neq in H
  | H : (_ =? _)%Z = true |- _ => apply Z.eqb_eq in H
  | H : (_ =? _)%Z = false |- _ => apply Z.eqb_neq in H
  | H : (_ <? _)%N = true |- _ => apply N.ltb_lt in H
  | H : (_ <? _)%N = false |- _ => apply N.ltb_ge in H
  | H : (_ <=? _)%N = true |- _ => apply N.leb_le in H
  | H : (_ <=? _)%N = false |- _ => apply N.leb_gt in H
  | H : (_ <? _)%Z = true |- _ => apply Z.ltb_lt in H
  | H : (_ <? _)%Z = false |- _ => apply Z.ltb_ge in H
  | H : (_ <=? _)%Z = true |- _ => apply Z.leb_le in H
  | H : (_ <=? _)%Z = false |- _ => apply Z.leb_gt in H
  end.

(** ** Lemmas on bytes and words *)

Lemma lenN_nil {A} : lenN (@nil A) = 0%N.
Proof. done. Qed.

Lemma lenN_app {A} (l k : list A) : lenN (l ++ k) = (lenN l + lenN k)%N.
Proof. unfold lenN. rewrite length_app. lia. Qed.

Lemma lenN_length {A} (l : list A) n : lenN l = N.of_nat n ↔ length l = n.
Proof. unfold lenN. lia. Qed.

Lemma length_pos_nonempty {A} (l : list A) : 0 < length l ↔ l ≠ [].
Proof. destruct l; simpl; split; try done; lia. Qed.

Lemma length_zeros n : length (zeros n) = n.
Proof. apply length_replicate. Qed.

Lemma zeros_all_zero n : all_zero (zeros n).
Proof. by apply (Forall_replicate (λ x, x = x00)). Qed.

Lemma all_zero_zeros b : all_zero b → b = zeros (length b).
Proof. induction 1 as [|x b -> _ IH]; [done|]. cbn. by f_equal. Qed.

#[export] Instance all_zero_decision b : Decision (all_zero b) := _.

Lemma byte_to_N_lt x : (Byte.to_N x < 256)%N.
Proof. pose proof (Byte.to_N_bounded x). lia. Qed.

Lemma byte_of_N_small v : (v < 256)%N → Byte.to_N (byte_of_N v) = v.
Proof.
  intros Hv. unfold byte_of_N. rewrite N.mod_small by done.
  destruct (Byte.of_N v) as [b|] eqn:E; simpl.
  - by apply Byte.to_of_N.
  - apply Byte.of_N_None_iff in E. lia.
Qed.

Lemma byte_of_N_mod v : byte_of_N v = byte_of_N (v mod 256).
Proof. unfold byte_of_N. by rewrite N.Div0.mod_mod. Qed.

Lemma byte_of_to_N x : byte_of_N (Byte.to_N x) = x.
Proof.
  unfold byte_of_N. rewrite N.mod_small by apply byte_to_N_lt.
  by rewrite Byte.of_to_N.
Qed.

Lemma length_le_bytes n v : length (le_bytes n v) = n.
Proof. revert v. induction n; intros; simpl; auto. Qed.

Lemma lenN_le_bytes n v : lenN (le_bytes n v) = N.of_nat n.
Proof. unfold lenN. by rewrite length_le_bytes. Qed.

Lemma length_be_bytes n v : length (be_bytes n v) = n.
Proof. unfold be_bytes. by rewrite length_reverse, length_le_bytes. Qed.

Lemma le_value_le_bytes n v : (v < 256 ^ N.of_nat n)%N → le_value (le_bytes n v) = v.
Proof.
  revert v. induction n as [|n IH]; intros v Hv; simpl.
  - simpl in Hv. lia.
  - rewrite Nat2N.inj_succ, N.pow_succ_r' in Hv.
    rewrite IH by (apply N.Div0.div_lt_upper_bound; lia).
    rewrite byte_of_N_mod, byte_of_N_small by (apply N.mod_lt; lia).
    pose proof (N.Div0.div_mod v 256). lia.
Qed.

Lemma le_value_lt b : (le_value b < 256 ^ lenN b)%N.
Proof.
  induction b as [|x b IH]; simpl; [done|].
  unfold lenN in *. simpl length. rewrite Nat2N.inj_succ, N.pow_succ_r'.
  pose proof (byte_to_N_lt x). lia.
Qed.

Lemma le_bytes_le_value b : le_bytes (length b) (le_value b) = b.
Proof.
  induction b as [|x b IH]; simpl; [done|].
  pose proof (byte_to_N_lt x). f_equal.
  - rewrite byte_of_N_mod.
    replace ((Byte.to_N x + 256 * le_value b) mod 256)%N with (Byte.to_N x).
    + apply byte_of_to_N.
    + rewrite N.mul_comm, N.Div0.mod_add, N.mod_small; lia.
  - replace ((Byte.to_N x + 256 * le_value b) / 256)%N with (le_value b); [done|].
    rewrite N.mul_comm, N.div_add, N.div_small; lia.
Qed.

Lemma skipN_drop {A} n (l : list A) : skipN n l = drop (N.to_nat n) l.
Proof.
  unfold skipN, lenN. destruct (decide (n ≤ N.of_nat (length l))%N).
  - by rewrite N.min_l.
  - rewrite N.min_r, Nat2N.id by lia. rewrite !drop_ge; [done|lia..].
Qed.

Lemma fmap_lookup_head {A B} (f : A → B) (l : list A) (b : B) (t : list B) :
  f <$> l = b :: t → ∃ a, l !! 0 = Some a ∧ f a = b.
Proof. destruct l as [|a l]; [done|]. intros [= <- _]. by exists a. Qed.

Lemma takeN_take {A} n (l : list A) : takeN n l = take (N.to_nat n) l.
Proof.
  unfold takeN, lenN. destruct (decide (n ≤ N.of_nat (length l))%N).
  - by rewrite N.min_l.
  - rewrite N.min_r, Nat2N.id by lia. rewrite !take_ge; [done|lia..].
Qed.

Lemma as_i32_small x : (x < 2147483648)%N → as_i32 x = Z.of_N x.
Proof.
  intros Hx. unfold as_i32. rewrite Z.mod_small by lia.
  destruct (Z.ltb_spec (Z.of_N x) 2147483648); lia.
Qed.

Lemma as_i32_range x : (-2147483648 ≤ as_i32 x < 2147483648)%Z.
Proof.
  unfold as_i32. pose proof (Z.mod_pos_bound (Z.of_N x) 4294967296).
  destruct (Z.ltb_spec (Z.of_N x mod 4294967296) 2147483648); lia.
Qed.

#[export] Hint Resolve zeros_all_zero : kpm.
#[export] Hint Rewrite @lenN_app length_zeros length_le_bytes length_be_bytes : kpm.
