(* ===== verification/Effects.v ===== *)
(** * Effects: fallible, stateful code

    The Rust code returns [Result<T, E>], may panic, and dereferences raw
    pointers.  A computation is a state transformer whose outcome is one of
    the four things a call can do; a panic or an error keeps the state the
    code had reached, since [catch_unwind] and [?] do not roll anything back. *)

From S2P Require Import Prelude.

(** [Ok] and [Err] are the [Result]; [Panic] unwinds; [Ub] is the undefined
    behaviour of an unsafe operation whose contract is broken. *)
Inductive Outcome (E A : Type) : Type :=
| Ok (a : A)
| Err (e : E)
| Panic
| Ub.
Arguments Ok {E A} a.
Arguments Err {E A} e.
Arguments Panic {E A}.
Arguments Ub {E A}.

#[export] Instance Outcome_eq_dec {E A} `{EqDecision E, EqDecision A} : EqDecision (Outcome E A).
Proof. solve_decision. Defined.

Definition is_ok {E A} (o : Outcome E A) : bool := match o with Ok _ => true | _ => false end.

Definition M (S E A : Type) : Type := S → Outcome E A * S.

Section operations.
Context {S E : Type}.

Definition ret {A} (a : A) : M S E A := λ s, (Ok a, s).
Definition throw {A} (e : E) : M S E A := λ s, (Err e, s).
Definition panic {A} : M S E A := λ s, (Panic, s).
Definition ub {A} : M S E A := λ s, (Ub, s).

Definition bind {A B} (m : M S E A) (k : A → M S E B) : M S E B := λ s,
  match m s with
  | (Ok a, s') => k a s'
  | (Err e, s') => (Err e, s')
  | (Panic, s') => (Panic, s')
  | (Ub, s') => (Ub, s')
  end.

Definition gets {A} (f : S → A) : M S E A := λ s, (Ok (f s), s).
Definition modify (f : S → S) : M S E unit := λ s, (Ok tt, f s).

(** [opt.ok_or(e)?] *)
Definition ok_or {A} (o : option A) (e : E) : M S E A :=
  match o with Some a => ret a | None => throw e end.

(** [opt.unwrap()] *)
Definition unwrap {A} (o : option A) : M S E A :=
  match o with Some a => ret a | None => panic end.

(** Run [fin] when the body is left, whichever way it is left: the drop of a
    local at the end of its scope, on [return Err(..)] and on unwinding. *)
Definition finally {A} (m : M S E A) (fin : S → S) : M S E A := λ s,
  let '(o, s') := m s in (o, fin s').

(** Run [fin] when the body panics: the drop of a value the caller moved in. *)
Definition on_unwind {A} (m : M S E A) (fin : S → S) : M S E A := λ s,
  match m s with
  | (Panic, s') => (Panic, fin s')
  | r => r
  end.
End operations.

(** [r.map_err(|_| e)] *)
Definition map_err {S E E' A} (f : E → E') (m : M S E A) : M S E' A := λ s,
  match m s with
  | (Ok a, s') => (Ok a, s')
  | (Err e, s') => (Err (f e), s')
  | (Panic, s') => (Panic, s')
  | (Ub, s') => (Ub, s')
  end.

(** A computation on a part of the state. *)
Definition zoom {S T E A} (get : S → T) (set : T → S → S) (m : M T E A) : M S E A := λ s,
  let '(o, t) := m (get s) in (o, set t s).

Notation "'let*' x := m 'in' k" := (bind m (λ x, k))
  (at level 10, x name, m at level 100, k at level 200, format "'let*'  x  :=  m  'in' '//' k") : kpm_scope.
Notation "'let*' ' p := m 'in' k" := (bind m (λ x, match x with p => k end))
  (at level 10, p pattern, m at level 100, k at level 200) : kpm_scope.
Notation "'do*' m ; k" := (bind m (λ _, k))
  (at level 10, m at level 100, k at level 200, format "'do*'  m ; '//' k") : kpm_scope.
Open Scope kpm_scope.

(** ** Running a computation *)

Section laws.
Context {S E : Type}.

Lemma bind_ret {A B} (a : A) (k : A → M S E B) s : bind (ret a) k s = k a s.
Proof. done. Qed.

Lemma bind_gets {A B} (f : S → A) (k : A → M S E B) s : bind (gets f) k s = k (f s) s.
Proof. done. Qed.

Lemma bind_modify {B} (f : S → S) (k : unit → M S E B) s : bind (modify f) k s = k tt (f s).
Proof. done. Qed.

Lemma bind_ok {A B} (m : M S E A) (k : A → M S E B) s a s' :
  m s = (Ok a, s') → bind m k s = k a s'.
Proof. intros H. unfold bind. by rewrite H. Qed.

Lemma bind_err {A B} (m : M S E A) (k : A → M S E B) s e s' :
  m s = (Err e, s') → bind m k s = (Err e, s').
Proof. intros H. unfold bind. by rewrite H. Qed.

Lemma bind_assoc {A B C} (m : M S E A) (k : A → M S E B) (h : B → M S E C) s :
  bind (bind m k) h s = bind m (λ a, bind (k a) h) s.
Proof. unfold bind. by destruct (m s) as [[]?]. Qed.

(** A successful sequence succeeded in both parts. *)
Lemma bind_ok_inv {A B} (m : M S E A) (k : A → M S E B) s b s'' :
  bind m k s = (Ok b, s'') → ∃ a s', m s = (Ok a, s') ∧ k a s' = (Ok b, s'').
Proof. unfold bind. destruct (m s) as [[] s'] eqn:?; intros; simplify_eq; eauto. Qed.

Lemma ok_or_ok_inv {A} (o : option A) (e : E) (s : S) a s' :
  ok_or o e s = (Ok a, s') → o = Some a ∧ s' = s.
Proof. destruct o; simpl; intros H; inversion H; auto. Qed.
End laws.

Lemma run_fst {A B} (x : A * B) a : fst x = a → x = (a, snd x).
Proof. intros <-. by destruct x. Qed.

(** ** Weakest preconditions *)

Definition wp {S E A} (m : M S E A) (Q : Outcome E A → S → Prop) (s : S) : Prop :=
  Q (fst (m s)) (snd (m s)).

(** The outcomes that are not [Ok] end a sequence. *)
Definition chain {S E A B} (k : A → S → Prop) (Q : Outcome E B → S → Prop)
    (o : Outcome E A) (s : S) : Prop :=
  match o with
  | Ok a => k a s
  | Err e => Q (Err e) s
  | Panic => Q Panic s
  | Ub => Q Ub s
  end.

Section wp.
Context {S E : Type}.

Lemma wp_mono {A} (m : M S E A) (Q Q' : Outcome E A → S → Prop) s :
  wp m Q s → (∀ o s', Q o s' → Q' o s') → wp m Q' s.
Proof. unfold wp. auto. Qed.

Lemma wp_bind {A B} (m : M S E A) (k : A → M S E B) Q s :
  wp m (chain (λ a, wp (k a) Q) Q) s → wp (bind m k) Q s.
Proof. unfold wp, chain, bind. by destruct (m s) as [[]?]. Qed.

Lemma wp_run {A} (m : M S E A) Q s o s' : wp m Q s → m s = (o, s') → Q o s'.
Proof. unfold wp. intros H E1. by rewrite E1 in H. Qed.

Lemma wp_eq {A} (m : M S E A) Q s o s' : m s = (o, s') → Q o s' → wp m Q s.
Proof. unfold wp. by intros ->. Qed.
End wp.

(** ** Outcomes that do not depend on the state *)

Definition Outcome_is {S E A} (m : M S E A) (o : Outcome E A) : Prop := ∀ s, fst (m s) = o.

Section outcome.
Context {S E : Type}.

Lemma outcome_run {A} (m : M S E A) o s : Outcome_is m o → m s = (o, snd (m s)).
Proof. intros H. specialize (H s). destruct (m s). simpl in *. by subst. Qed.

Lemma outcome_bind {A B} (m : M S E A) (k : A → M S E B) a o :
  Outcome_is m (Ok a) → Outcome_is (k a) o → Outcome_is (bind m k) o.
Proof. intros Hm Hk s. rewrite (bind_ok _ _ _ _ _ (outcome_run _ _ s Hm)). apply Hk. Qed.

Lemma outcome_bind_err {A B} (m : M S E A) (k : A → M S E B) e :
  Outcome_is m (Err e) → Outcome_is (bind m k) (Err e).
Proof. intros Hm s. by rewrite (bind_err _ _ _ _ _ (outcome_run _ _ s Hm)). Qed.

Lemma outcome_finally {A} (m : M S E A) fin o : Outcome_is m o → Outcome_is (finally m fin) o.
Proof. intros Hm s. specialize (Hm s). unfold finally. by destruct (m s). Qed.

Lemma outcome_ret {A} (a : A) : Outcome_is (@ret S E A a) (Ok a).
Proof. by intros s. Qed.
Lemma outcome_throw {A} (e : E) : Outcome_is (@throw S E A e) (Err e).
Proof. by intros s. Qed.
Lemma outcome_ok_or {A} (o : option A) (e : E) :
  Outcome_is (@ok_or S E A o e) (match o with Some a => Ok a | None => Err e end).
Proof. by intros s; destruct o. Qed.
End outcome.

#[export] Hint Resolve outcome_ret outcome_throw outcome_ok_or : kpm.

(** ** Computations that respect a relation between states

    [Steps R m]: whatever the outcome, the state [m] leaves is [R]-related to
    the one it started in.  For a preorder [R] this composes, so frame
    conditions, monotone logs and invariants ([R s s' := I s → I s']) are all
    proved by following the structure of the code. *)

Definition Steps {S E A} (R : relation S) (m : M S E A) : Prop := ∀ s, R s (snd (m s)).

Section steps.
Context {S : Type} (R : relation S).

Lemma steps_run {E A} (m : M S E A) s o s' : Steps R m → m s = (o, s') → R s s'.
Proof. intros H E1. specialize (H s). by rewrite E1 in H. Qed.

Lemma steps_pure {E A} (m : M S E A) `{!Reflexive R} : (∀ s, snd (m s) = s) → Steps R m.
Proof. intros H s. by rewrite H. Qed.

Lemma steps_ret `{!Reflexive R} {E A} (a : A) : Steps R (@ret S E A a).
Proof. by intros s. Qed.
Lemma steps_throw `{!Reflexive R} {E A} (e : E) : Steps R (@throw S E A e).
Proof. by intros s. Qed.
Lemma steps_panic `{!Reflexive R} {E A} : Steps R (@panic S E A).
Proof. by intros s. Qed.
Lemma steps_ub `{!Reflexive R} {E A} : Steps R (@ub S E A).
Proof. by intros s. Qed.
Lemma steps_gets `{!Reflexive R} {E A} (f : S → A) : Steps R (@gets S E A f).
Proof. by intros s. Qed.
Lemma steps_ok_or `{!Reflexive R} {E A} (o : option A) (e : E) : Steps R (@ok_or S E A o e).
Proof. by intros s; destruct o. Qed.
Lemma steps_unwrap `{!Reflexive R} {E A} (o : option A) : Steps R (@unwrap S E A o).
Proof. by intros s; destruct o. Qed.
Lemma steps_modify {E} (f : S → S) : (∀ s, R s (f s)) → Steps R (@modify S E f).
Proof. by intros H s. Qed.

Lemma steps_bind `{!PreOrder R} {E A B} (m : M S E A) (k : A → M S E B) :
  Steps R m → (∀ a, Steps R (k a)) → Steps R (bind m k).
Proof.
  intros Hm Hk s. specialize (Hm s). unfold bind.
  destruct (m s) as [[a|e| |] s'] eqn:?; simpl in *; try done.
  etrans; [done|apply Hk].
Qed.

Lemma steps_finally `{!PreOrder R} {E A} (m : M S E A) (fin : S → S) :
  Steps R m → (∀ s, R s (fin s)) → Steps R (finally m fin).
Proof.
  intros Hm Hf s. specialize (Hm s). unfold finally.
  destruct (m s) as [o s']. simpl in *. by etrans.
Qed.

Lemma steps_on_unwind `{!PreOrder R} {E A} (m : M S E A) (fin : S → S) :
  Steps R m → (∀ s, R s (fin s)) → Steps R (on_unwind m fin).
Proof.
  intros Hm Hf s. specialize (Hm s). unfold on_unwind.
  destruct (m s) as [[] s']; simpl in *; by try etrans.
Qed.

Lemma steps_map_err {E E' A} (f : E → E') (m : M S E A) : Steps R m → Steps R (map_err f m).
Proof. intros H s. specialize (H s). unfold map_err. by destruct (m s) as [[]?]. Qed.
End steps.

Lemma steps_mono {S E A} (R R' : relation S) (m : M S E A) :
  (∀ s s', R s s' → R' s s') → Steps R m → Steps R' m.
Proof. intros H Hm s. apply H, Hm. Qed.

Lemma steps_zoom {S T E A} (get : S → T) (set : T → S → S) (RS : relation S) (RT : relation T)
    (m : M T E A) :
  (∀ s t, RT (get s) t → RS s (set t s)) → Steps RT m → Steps RS (zoom get set m).
Proof.
  intros H Hm s. specialize (Hm (get s)). unfold zoom.
  destruct (m (get s)) as [o t]. simpl in *. auto.
Qed.

#[export] Hint Resolve steps_ret steps_throw steps_panic steps_ub steps_gets steps_ok_or
  steps_unwrap : steps.

(** Follow the code: binds, branches and matches, then the lemmas of the hint database. *)
Ltac steps_go :=
  repeat first
    [ match goal with |- ∀ _, _ => intro end
    | apply steps_bind
    | apply steps_map_err
    | match goal with
      | |- Steps _ (if ?b then _ else _) => destruct b
      | |- Steps _ (match ?x with _ => _ end) => destruct x
      | |- Steps _ (let '(_, _) := ?x in _) => destruct x
      end
    | solve [eauto with steps typeclass_instances]
    | apply steps_finally ].

(** Run a computation forward, one bind at a time: [run_ok H] rewrites the head
    of the goal's computation with the equation [H : m s = (Ok a, s')]. *)
Ltac run_ok H := first [rewrite (bind_ok _ _ _ _ _ H) | rewrite H]; cbv beta iota zeta.
