(* ===== verification/Proto.v ===== *)
(** * Protocol-buffer types: km_common/src/keymanager.rs

    The enumerations with their discriminants and proto names, the messages,
    [HpkeAlgorithm] among them, and the [Status] every FFI entry point returns.
    The derive macros of the [prost] crate (the wire codec and the
    [TryFrom<i32>] of an enumeration) are the operations of [ProstCrate]. *)

From S2P Require Import Prelude.
Open Scope string_scope.

(** ** Algorithm identifiers *)

Inductive KemAlgorithm := Kem_Unspecified | DhkemX25519HkdfSha256.
Inductive KdfAlgorithm := Kdf_Unspecified | HkdfSha256.
Inductive AeadAlgorithm := Aead_Unspecified | Aes256Gcm.

Inductive Status :=
| Status_Unspecified
| Success
| InternalError
| InvalidArgument
| NotFound
| AlreadyExists
| PermissionDenied
| Unauthenticated
| UnsupportedAlgorithm
| InvalidKey
| CryptoError
| DecryptionFailure
| EncryptionFailure
| DecapsulationFailure.

#[export] Instance KemAlgorithm_eq_dec : EqDecision KemAlgorithm.
Proof. solve_decision. Defined.
#[export] Instance KdfAlgorithm_eq_dec : EqDecision KdfAlgorithm.
Proof. solve_decision. Defined.
#[export] Instance AeadAlgorithm_eq_dec : EqDecision AeadAlgorithm.
Proof. solve_decision. Defined.
#[export] Instance Status_eq_dec : EqDecision Status.
Proof. solve_decision. Defined.

(** [self as i32]: the [repr(i32)] discriminants. *)
Definition KemAlgorithm_as_i32 (a : KemAlgorithm) : Z :=
  match a with Kem_Unspecified => 0 | DhkemX25519HkdfSha256 => 1 end.
Definition KdfAlgorithm_as_i32 (a : KdfAlgorithm) : Z :=
  match a with Kdf_Unspecified => 0 | HkdfSha256 => 1 end.
Definition AeadAlgorithm_as_i32 (a : AeadAlgorithm) : Z :=
  match a with Aead_Unspecified => 0 | Aes256Gcm => 1 end.
Definition Status_as_i32 (s : Status) : Z :=
  match s with
  | Status_Unspecified => 0
  | Success => 1
  | InternalError => 2
  | InvalidArgument => 3
  | NotFound => 4
  | AlreadyExists => 5
  | PermissionDenied => 6
  | Unauthenticated => 7
  | UnsupportedAlgorithm => 8
  | InvalidKey => 9
  | CryptoError => 10
  | DecryptionFailure => 11
  | EncryptionFailure => 12
  | DecapsulationFailure => 13
  end.

(** ** Proto names *)

Definition KemAlgorithm_as_str_name (a : KemAlgorithm) : string :=
  match a with
  | Kem_Unspecified => "KEM_ALGORITHM_UNSPECIFIED"
  | DhkemX25519HkdfSha256 => "KEM_ALGORITHM_DHKEM_X25519_HKDF_SHA256"
  end.
Definition KemAlgorithm_from_str_name (value : string) : option KemAlgorithm :=
  if String.eqb value "KEM_ALGORITHM_UNSPECIFIED" then Some Kem_Unspecified
  else if String.eqb value "KEM_ALGORITHM_DHKEM_X25519_HKDF_SHA256" then Some DhkemX25519HkdfSha256
  else None.

Definition KdfAlgorithm_as_str_name (a : KdfAlgorithm) : string :=
  match a with
  | Kdf_Unspecified => "KDF_ALGORITHM_UNSPECIFIED"
  | HkdfSha256 => "KDF_ALGORITHM_HKDF_SHA256"
  end.
Definition KdfAlgorithm_from_str_name (value : string) : option KdfAlgorithm :=
  if String.eqb value "KDF_ALGORITHM_UNSPECIFIED" then Some Kdf_Unspecified
  else if String.eqb value "KDF_ALGORITHM_HKDF_SHA256" then Some HkdfSha256
  else None.

Definition AeadAlgorithm_as_str_name (a : AeadAlgorithm) : string :=
  match a with
  | Aead_Unspecified => "AEAD_ALGORITHM_UNSPECIFIED"
  | Aes256Gcm => "AEAD_ALGORITHM_AES_256_GCM"
  end.
Definition AeadAlgorithm_from_str_name (value : string) : option AeadAlgorithm :=
  if String.eqb value "AEAD_ALGORITHM_UNSPECIFIED" then Some Aead_Unspecified
  else if String.eqb value "AEAD_ALGORITHM_AES_256_GCM" then Some Aes256Gcm
  else None.

Definition Status_as_str_name (s : Status) : string :=
  match s with
  | Status_Unspecified => "STATUS_UNSPECIFIED"
  | Success => "STATUS_SUCCESS"
  | InternalError => "STATUS_INTERNAL_ERROR"
  | InvalidArgument => "STATUS_INVALID_ARGUMENT"
  | NotFound => "STATUS_NOT_FOUND"
  | AlreadyExists => "STATUS_ALREADY_EXISTS"
  | PermissionDenied => "STATUS_PERMISSION_DENIED"
  | Unauthenticated => "STATUS_UNAUTHENTICATED"
  | UnsupportedAlgorithm => "STATUS_UNSUPPORTED_ALGORITHM"
  | InvalidKey => "STATUS_INVALID_KEY"
  | CryptoError => "STATUS_CRYPTO_ERROR"
  | DecryptionFailure => "STATUS_DECRYPTION_FAILURE"
  | EncryptionFailure => "STATUS_ENCRYPTION_FAILURE"
  | DecapsulationFailure => "STATUS_DECAPSULATION_FAILURE"
  end.
Definition Status_from_str_name (value : string) : option Status :=
  if String.eqb value "STATUS_UNSPECIFIED" then Some Status_Unspecified
  else if String.eqb value "STATUS_SUCCESS" then Some Success
  else if String.eqb value "STATUS_INTERNAL_ERROR" then Some InternalError
  else if String.eqb value "STATUS_INVALID_ARGUMENT" then Some InvalidArgument
  else if String.eqb value "STATUS_NOT_FOUND" then Some NotFound
  else if String.eqb value "STATUS_ALREADY_EXISTS" then Some AlreadyExists
  else if String.eqb value "STATUS_PERMISSION_DENIED" then Some PermissionDenied
  else if String.eqb value "STATUS_UNAUTHENTICATED" then Some Unauthenticated
  else if String.eqb value "STATUS_UNSUPPORTED_ALGORITHM" then Some UnsupportedAlgorithm
  else if String.eqb value "STATUS_INVALID_KEY" then Some InvalidKey
  else if String.eqb value "STATUS_CRYPTO_ERROR" then Some CryptoError
  else if String.eqb value "STATUS_DECRYPTION_FAILURE" then Some DecryptionFailure
  else if String.eqb value "STATUS_ENCRYPTION_FAILURE" then Some EncryptionFailure
  else if String.eqb value "STATUS_DECAPSULATION_FAILURE" then Some DecapsulationFailure
  else None.

Close Scope string_scope.

(** ** The algorithm suite

    Open enumerations: a field holds any [i32] that came over the wire. *)
Record HpkeAlgorithm := mkHpkeAlgorithm { kem : Z; kdf : Z; aead : Z }.

#[export] Instance HpkeAlgorithm_eq_dec : EqDecision HpkeAlgorithm.
Proof. solve_decision. Defined.

Definition is_i32 (z : Z) : Prop := (-2147483648 ≤ z < 2147483648)%Z.
Definition HpkeAlgorithm_wf (a : HpkeAlgorithm) : Prop :=
  is_i32 (kem a) ∧ is_i32 (kdf a) ∧ is_i32 (aead a).

(** The suite every key of the module uses. *)
Definition x25519_suite : HpkeAlgorithm :=
  mkHpkeAlgorithm (KemAlgorithm_as_i32 DhkemX25519HkdfSha256)
    (KdfAlgorithm_as_i32 HkdfSha256) (AeadAlgorithm_as_i32 Aes256Gcm).

(** ** The messages of the service's catalogue of algorithms

    [oneof] is an option of a variant, a message field an option. *)

Inductive algorithm_params_Params := KemId (value : Z).
Record AlgorithmParams := mkAlgorithmParams { AlgorithmParams_params : option algorithm_params_Params }.
Record AlgorithmDetails := mkAlgorithmDetails {
  AlgorithmDetails_type : string;
  AlgorithmDetails_params : option AlgorithmParams;
}.
Record SupportedAlgorithm := mkSupportedAlgorithm { SupportedAlgorithm_algorithm : option AlgorithmDetails }.

(** ** The prost crate *)

Class ProstCrate := {
  KemAlgorithm_try_from : Z → option KemAlgorithm;
  KdfAlgorithm_try_from : Z → option KdfAlgorithm;
  AeadAlgorithm_try_from : Z → option AeadAlgorithm;
  HpkeAlgorithm_encode_to_vec : HpkeAlgorithm → bytes;
  HpkeAlgorithm_decode : bytes → option HpkeAlgorithm;
}.

(** What the crate documents: [TryFrom<i32>] accepts exactly the declared
    discriminants, decoding reverses encoding, and a message of three [int32]
    fields takes at most three times one tag byte and ten varint bytes. *)
Class ProstLaws `{ProstCrate} : Prop := {
  kem_try_from_spec z a : KemAlgorithm_try_from z = Some a ↔ KemAlgorithm_as_i32 a = z;
  kdf_try_from_spec z a : KdfAlgorithm_try_from z = Some a ↔ KdfAlgorithm_as_i32 a = z;
  aead_try_from_spec z a : AeadAlgorithm_try_from z = Some a ↔ AeadAlgorithm_as_i32 a = z;
  decode_encode a : HpkeAlgorithm_wf a → HpkeAlgorithm_decode (HpkeAlgorithm_encode_to_vec a) = Some a;
  length_encode a : HpkeAlgorithm_wf a → length (HpkeAlgorithm_encode_to_vec a) ≤ 33;
}.

(** The three-way check that guards every use of an algorithm suite
    ([let (Ok(..), Ok(..), Ok(..)) = (..) else ..]). *)
Definition suite_supported `{ProstCrate} (algo : HpkeAlgorithm) : bool :=
  match KemAlgorithm_try_from (kem algo), KdfAlgorithm_try_from (kdf algo),
        AeadAlgorithm_try_from (aead algo) with
  | Some DhkemX25519HkdfSha256, Some HkdfSha256, Some Aes256Gcm => true
  | _, _, _ => false
  end.

(** ** Enumerations with proto names *)

(** What a proto enumeration promises: names and discriminants identify variants. *)
Class ProtoEnum (A : Type) := {
  enum_as_i32 : A → Z;
  enum_as_str_name : A → string;
  enum_from_str_name : string → option A;
  enum_as_i32_inj : Inj (=) (=) enum_as_i32;
  enum_from_as a : enum_from_str_name (enum_as_str_name a) = Some a;
  enum_as_from s a : enum_from_str_name s = Some a → enum_as_str_name a = s;
}.

Ltac solve_from_str :=
  intros ? ?; repeat (case_match; [
    match goal with H : String.eqb _ _ = true |- _ => apply String.eqb_eq in H as -> end;
    by intros [= <-] | ]); done.

#[export] Instance KemAlgorithm_enum : ProtoEnum KemAlgorithm.
Proof.
  refine {| enum_as_i32 := KemAlgorithm_as_i32; enum_as_str_name := KemAlgorithm_as_str_name;
            enum_from_str_name := KemAlgorithm_from_str_name |}.
  - by intros [] [].
  - by intros [].
  - unfold KemAlgorithm_from_str_name. solve_from_str.
Defined.
#[export] Instance KdfAlgorithm_enum : ProtoEnum KdfAlgorithm.
Proof.
  refine {| enum_as_i32 := KdfAlgorithm_as_i32; enum_as_str_name := KdfAlgorithm_as_str_name;
            enum_from_str_name := KdfAlgorithm_from_str_name |}.
  - by intros [] [].
  - by intros [].
  - unfold KdfAlgorithm_from_str_name. solve_from_str.
Defined.
#[export] Instance AeadAlgorithm_enum : ProtoEnum AeadAlgorithm.
Proof.
  refine {| enum_as_i32 := AeadAlgorithm_as_i32; enum_as_str_name := AeadAlgorithm_as_str_name;
            enum_from_str_name := AeadAlgorithm_from_str_name |}.
  - by intros [] [].
  - by intros [].
  - unfold AeadAlgorithm_from_str_name. solve_from_str.
Defined.
#[export] Instance Status_enum : ProtoEnum Status.
Proof.
  refine {| enum_as_i32 := Status_as_i32; enum_as_str_name := Status_as_str_name;
            enum_from_str_name := Status_from_str_name |}.
  - by intros [] [].
  - by intros [].
  - unfold Status_from_str_name. solve_from_str.
Defined.

Lemma enum_names `{ProtoEnum A} (s : string) (a : A) :
  enum_from_str_name s = Some a ↔ s = enum_as_str_name a.
Proof. split; [intros Hs; symmetry; by apply enum_as_from|intros ->; apply enum_from_as]. Qed.

(** ** The suite check *)

Lemma x25519_suite_wf : HpkeAlgorithm_wf x25519_suite.
Proof. unfold HpkeAlgorithm_wf, is_i32. simpl. lia. Qed.

Section suite.
Context `{ProstLaws}.

Lemma suite_supported_iff algo : suite_supported algo = true ↔ algo = x25519_suite.
Proof.
  destruct algo as [k d a]. unfold suite_supported, x25519_suite. simpl. split.
  - destruct (KemAlgorithm_try_from k) as [[]|] eqn:E1; try done.
    destruct (KdfAlgorithm_try_from d) as [[]|] eqn:E2; try done.
    destruct (AeadAlgorithm_try_from a) as [[]|] eqn:E3; try done. intros _.
    apply kem_try_from_spec in E1. apply kdf_try_from_spec in E2.
    apply aead_try_from_spec in E3. simpl in *. by subst.
  - intros [= -> -> ->].
    by rewrite (proj2 (kem_try_from_spec 1 DhkemX25519HkdfSha256) eq_refl),
      (proj2 (kdf_try_from_spec 1 HkdfSha256) eq_refl),
      (proj2 (aead_try_from_spec 1 Aes256Gcm) eq_refl).
Qed.

Lemma suite_supported_true : suite_supported x25519_suite = true.
Proof. by apply suite_supported_iff. Qed.

Lemma suite_supported_false algo : algo ≠ x25519_suite → suite_supported algo = false.
Proof. intros Hne. apply not_true_iff_false. by rewrite suite_supported_iff. Qed.

Lemma kem_try_from_x25519 : KemAlgorithm_try_from (kem x25519_suite) = Some DhkemX25519HkdfSha256.
Proof. by apply kem_try_from_spec. Qed.
End suite.

#[export] Hint Resolve x25519_suite_wf : kpm.
