(* ===== verification/RustStd.v ===== *)
(** * The parts of the Rust language and standard library the code uses

    [Duration] and [Instant] arithmetic, and the memory that raw pointers
    address: a finite map from addresses to bytes, owned by the caller of the
    FFI. An access outside it, a null or misaligned pointer, or a slice longer
    than [isize::MAX] is undefined behaviour ([Ub]). *)

From S2P Require Import Prelude Effects.

(** ** Time *)

(** A [Duration] in nanoseconds; an [Instant] in nanoseconds since the epoch of
    the monotonic clock, whose seconds are an [i64]. *)
Definition nanos_per_sec : Z := 1000000000.
Definition i64_max : Z := 9223372036854775807.
Definition u64_max : N := 18446744073709551615.

Definition Duration_from_secs (secs : N) : Z := Z.of_N secs * nanos_per_sec.
Definition Duration_as_secs (d : Z) : N := Z.to_N (d / nanos_per_sec).

(** [Instant::checked_add] fails when the seconds overflow. *)
Definition Instant_checked_add (t d : Z) : option Z :=
  if (i64_max <? (t + d) / nanos_per_sec)%Z then None else Some (t + d)%Z.

(** [Instant::saturating_duration_since]: zero for a later instant. *)
Definition Instant_saturating_duration_since (t earlier : Z) : Z := Z.max 0 (t - earlier).

Lemma checked_add_Some t d t' :
  Instant_checked_add t d = Some t' ↔ t' = (t + d)%Z ∧ ((t + d) / nanos_per_sec ≤ i64_max)%Z.
Proof.
  unfold Instant_checked_add. destruct (Z.ltb_spec i64_max ((t + d) / nanos_per_sec)).
  - split; [done|lia].
  - split; [intros [= <-]; auto|intros [-> _]; done].
Qed.

Lemma as_secs_from_secs n : Duration_as_secs (Duration_from_secs n) = n.
Proof. unfold Duration_as_secs, Duration_from_secs. rewrite Z.div_mul by done. lia. Qed.

Lemma saturating_as_secs_le t t0 n :
  (t - t0 ≤ Duration_from_secs n)%Z →
  (Duration_as_secs (Instant_saturating_duration_since t t0) ≤ n)%N.
Proof.
  unfold Duration_as_secs, Instant_saturating_duration_since, Duration_from_secs, nanos_per_sec.
  intros H. assert (Z.max 0 (t - t0) / 1000000000 ≤ Z.of_N n)%Z; [|lia].
  apply Z.div_le_upper_bound; lia.
Qed.

(** ** Memory *)

Abbreviation Memory := (gmap N byte).

(** A raw pointer is an address; null is zero. *)
Definition is_null (p : N) : bool := (p =? 0)%N.

Fixpoint read_bytes (m : Memory) (p : N) (n : nat) : option bytes :=
  match n with
  | O => Some []
  | S n =>
      match m !! p, read_bytes m (p + 1) n with
      | Some b, Some bs => Some (b :: bs)
      | _, _ => None
      end
  end.

Fixpoint write_bytes (m : Memory) (p : N) (bs : bytes) : Memory :=
  match bs with
  | [] => m
  | b :: bs => <[p := b]> (write_bytes m (p + 1) bs)
  end.

(** The buffer of [n] bytes at [p] is allocated. *)
Definition valid_buffer (m : Memory) (p n : N) : Prop :=
  p ≠ 0%N ∧ (n ≤ isize_max)%N ∧ is_Some (read_bytes m p (N.to_nat n)).

#[export] Instance valid_buffer_dec m p n : Decision (valid_buffer m p n).
Proof. unfold valid_buffer. apply _. Defined.

Definition aligned8 (p : N) : bool := (p mod 8 =? 0)%N.

(** A [&mut [u8]]: where it is and how long it is. *)
Record MutSlice := mkMutSlice { ms_ptr : N; ms_len : N }.

Section pointers.
Context {E : Type}.

(** [slice::from_raw_parts]: the bytes the shared slice shows. *)
Definition from_raw_parts (p len : N) : M Memory E bytes := λ m,
  if is_null p || (isize_max <? len)%N then (Ub, m)
  else match read_bytes m p (N.to_nat len) with
       | Some bs => (Ok bs, m)
       | None => (Ub, m)
       end.

(** [slice::from_raw_parts_mut]. That no other slice in use overlaps this one is
    left to the caller: Rust calls such an overlap undefined, this memory does not. *)
Definition from_raw_parts_mut (p len : N) : M Memory E MutSlice := λ m,
  if is_null p || (isize_max <? len)%N then (Ub, m)
  else match read_bytes m p (N.to_nat len) with
       | Some _ => (Ok (mkMutSlice p len), m)
       | None => (Ub, m)
       end.

(** [dst.copy_from_slice(src)] panics when the lengths differ. *)
Definition copy_from_slice (dst : MutSlice) (src : bytes) : M Memory E unit := λ m,
  if (ms_len dst =? lenN src)%N then (Ok tt, write_bytes m (ms_ptr dst) src) else (Panic, m).

(** [&mut s[..n]] panics past the end. *)
Definition slice_to (s : MutSlice) (n : N) : M Memory E MutSlice :=
  if (n <=? ms_len s)%N then ret (mkMutSlice (ms_ptr s) n) else panic.

(** [*p] for a pointer to a [usize] or [u64]. *)
Definition read_u64 (p : N) : M Memory E N := λ m,
  if is_null p || negb (aligned8 p) then (Ub, m)
  else match read_bytes m p 8 with
       | Some bs => (Ok (le_value bs), m)
       | None => (Ub, m)
       end.

(** [*p = v]. *)
Definition write_u64 (p : N) (v : N) : M Memory E unit := λ m,
  if is_null p || negb (aligned8 p) then (Ub, m)
  else match read_bytes m p 8 with
       | Some _ => (Ok tt, write_bytes m p (le_bytes 8 v))
       | None => (Ub, m)
       end.

(** [*p = b] for a [&mut bool]. *)
Definition write_bool (p : N) (b : bool) : M Memory E unit := λ m,
  match m !! p with
  | Some _ => (Ok tt, <[p := if b then Corelib.Init.Byte.x01 else x00]> m)
  | None => (Ub, m)
  end.
End pointers.

(** ** Reading and writing *)

Lemma lookup_write_bytes m p bs a :
  write_bytes m p bs !! a =
    if decide (p ≤ a < p + lenN bs)%N then bs !! N.to_nat (a - p) else m !! a.
Proof.
  revert p. induction bs as [|b bs IH]; intros p; simpl.
  - unfold lenN. simpl. rewrite decide_False by lia. done.
  - rewrite lookup_insert. unfold lenN in *. simpl length.
    destruct (decide (p = a)) as [<-|Hne].
    + rewrite decide_True by lia. by rewrite N.sub_diag.
    + rewrite IH. destruct (decide (p + 1 ≤ a < p + 1 + N.of_nat (length bs))%N).
      * rewrite decide_True by lia.
        replace (N.to_nat (a - p)) with (S (N.to_nat (a - (p + 1)))) by lia. done.
      * by rewrite decide_False by lia.
Qed.

Lemma read_bytes_Some m p n bs :
  read_bytes m p n = Some bs ↔
  length bs = n ∧ ∀ i, i < n → m !! (p + N.of_nat i)%N = bs !! i.
Proof.
  revert p bs. induction n as [|n IH]; intros p bs; simpl.
  - split; [intros [= <-]; split; [done|lia]|].
    intros [H _]. by destruct bs.
  - split.
    + destruct (m !! p) as [b|] eqn:E1; [|done].
      destruct (read_bytes m (p + 1) n) as [bs'|] eqn:E2; [|done].
      intros [= <-]. apply IH in E2 as [Hl Hi]. split; [simpl; lia|].
      intros [|i] Hlt; simpl; [by rewrite N.add_0_r|].
      rewrite <- Hi by lia. f_equal. lia.
    + intros [Hl Hi]. destruct bs as [|b bs]; [done|]. simpl in Hl.
      pose proof (Hi 0 ltac:(lia)) as H0. rewrite N.add_0_r in H0. rewrite H0. simpl.
      rewrite (proj2 (IH (p + 1)%N bs)); [done|]. split; [lia|].
      intros i Hlt. specialize (Hi (S i) ltac:(lia)). simpl in Hi. rewrite <- Hi. f_equal. lia.
Qed.

Lemma length_read_bytes m p n bs : read_bytes m p n = Some bs → length bs = n.
Proof. intros H. by apply read_bytes_Some in H as [? _]. Qed.

Lemma read_write_bytes_same m p bs :
  read_bytes (write_bytes m p bs) p (length bs) = Some bs.
Proof.
  apply read_bytes_Some. split; [done|]. intros i Hi. rewrite lookup_write_bytes.
  unfold lenN. rewrite decide_True by lia. f_equal. lia.
Qed.

Lemma read_bytes_ext m m' p n :
  (∀ i, i < n → m !! (p + N.of_nat i)%N = m' !! (p + N.of_nat i)%N) →
  read_bytes m p n = read_bytes m' p n.
Proof.
  intros H. destruct (read_bytes m p n) as [bs|] eqn:E1.
  - apply read_bytes_Some in E1 as [Hl Hi]. symmetry. apply read_bytes_Some.
    split; [done|]. intros i Hlt. rewrite <- H by done. auto.
  - destruct (read_bytes m' p n) as [bs|] eqn:E2; [|done].
    apply read_bytes_Some in E2 as [Hl Hi].
    rewrite (proj2 (read_bytes_Some m p n bs)) in E1; [done|].
    split; [done|]. intros i Hlt. rewrite H by done. auto.
Qed.

Definition disjoint (p n q k : N) : Prop := (p + n ≤ q)%N ∨ (q + k ≤ p)%N.

Lemma read_write_bytes_disjoint m p n q bs :
  disjoint p (N.of_nat n) q (lenN bs) →
  read_bytes (write_bytes m q bs) p n = read_bytes m p n.
Proof.
  intros H. apply read_bytes_ext. intros i Hi. rewrite lookup_write_bytes.
  rewrite decide_False; [done|]. unfold disjoint in H. lia.
Qed.

(** Writing over allocated bytes allocates nothing. *)
Lemma dom_write_bytes m p bs :
  is_Some (read_bytes m p (length bs)) → dom (write_bytes m p bs) = dom m.
Proof.
  intros [old Hold]. apply read_bytes_Some in Hold as [Hl Hi].
  apply set_eq. intros a. rewrite !elem_of_dom, lookup_write_bytes.
  destruct (decide (p ≤ a < p + lenN bs)%N) as [Hin|]; [|done].
  unfold lenN in Hin. split; intros _.
  - specialize (Hi (N.to_nat (a - p)) ltac:(lia)).
    replace (p + N.of_nat (N.to_nat (a - p)))%N with a in Hi by lia. rewrite Hi.
    apply lookup_lt_is_Some. lia.
  - apply lookup_lt_is_Some. lia.
Qed.

Lemma read_bytes_dom m m' p n :
  dom m = dom m' → is_Some (read_bytes m p n) → is_Some (read_bytes m' p n).
Proof.
  intros Hd. revert p. induction n as [|n IH]; intros p; simpl; [eauto|].
  intros [bs Hbs]. destruct (m !! p) as [b|] eqn:E1; [|done].
  destruct (read_bytes m (p + 1) n) as [bs'|] eqn:E2; [|done].
  assert (p ∈ dom m') as [b' Hb']%elem_of_dom by (rewrite <- Hd; by apply elem_of_dom_2 in E1).
  rewrite Hb'. destruct (IH (p + 1)%N ltac:(eauto)) as [? ->]. eauto.
Qed.

(** Two adjacent writes are one. *)
Lemma write_bytes_app m p a b :
  write_bytes (write_bytes m p a) (p + lenN a) b = write_bytes m p (a ++ b).
Proof.
  apply map_eq. intros x. rewrite !lookup_write_bytes. rewrite lenN_app. unfold lenN.
  repeat case_decide; try lia.
  - rewrite lookup_app_r by lia. f_equal. lia.
  - by rewrite lookup_app_l by lia.
  - done.
Qed.

Lemma write_bytes_nil m p : write_bytes m p [] = m.
Proof. done. Qed.

Lemma read_bytes_is_Some m p n :
  is_Some (read_bytes m p n) ↔ ∀ i, i < n → is_Some (m !! (p + N.of_nat i)%N).
Proof.
  split.
  - intros [bs Hbs] i Hi. apply read_bytes_Some in Hbs as [Hl Hb].
    rewrite Hb by done. apply lookup_lt_is_Some. lia.
  - revert p. induction n as [|n IH]; intros p Hs; [by exists []|]. simpl.
    destruct (Hs 0 ltac:(lia)) as [b Hb]. rewrite N.add_0_r in Hb. rewrite Hb.
    destruct (IH (p + 1)%N) as [bs Hbs]; [|by rewrite Hbs; eauto].
    intros i Hi. specialize (Hs (S i) ltac:(lia)).
    by replace (p + 1 + N.of_nat i)%N with (p + N.of_nat (S i))%N by lia.
Qed.

(** Writing never takes a buffer away. *)
Lemma read_bytes_write m p n q b :
  is_Some (read_bytes m p n) → is_Some (read_bytes (write_bytes m q b) p n).
Proof.
  rewrite !read_bytes_is_Some. intros Hs i Hi. rewrite lookup_write_bytes.
  case_decide; [|by apply Hs]. apply lookup_lt_is_Some. unfold lenN in *. lia.
Qed.

Lemma valid_buffer_dom m m' p n : dom m = dom m' → valid_buffer m p n → valid_buffer m' p n.
Proof. intros ? (?&?&?). split_and!; eauto using read_bytes_dom. Qed.

Lemma is_Some_write_bytes m q b a : is_Some (m !! a) → is_Some (write_bytes m q b !! a).
Proof.
  intros Hs. rewrite lookup_write_bytes. case_decide; [|done].
  apply lookup_lt_is_Some. unfold lenN in *. lia.
Qed.

Lemma valid_buffer_write m p n q b : valid_buffer m p n → valid_buffer (write_bytes m q b) p n.
Proof. intros (?&?&?). split_and!; auto using read_bytes_write. Qed.

#[global] Arguments read_bytes : simpl never.
#[global] Arguments write_bytes : simpl never.

(** ** The pointer operations succeed on valid buffers *)

Section pointer_lemmas.
Context {E : Type}.

Lemma from_raw_parts_ok m p len :
  valid_buffer m p len →
  ∃ bs, @from_raw_parts E p len m = (Ok bs, m) ∧
    read_bytes m p (N.to_nat len) = Some bs ∧ lenN bs = len.
Proof.
  intros (Hp&Hl&[bs Hbs]). exists bs. unfold from_raw_parts, is_null.
  destruct (N.eqb_spec p 0); [done|]. destruct (N.ltb_spec isize_max len); [lia|]. simpl.
  rewrite Hbs. split_and!; [done|done|]. apply length_read_bytes in Hbs. unfold lenN. lia.
Qed.

Lemma from_raw_parts_read m p len bs :
  valid_buffer m p len → read_bytes m p (N.to_nat len) = Some bs →
  @from_raw_parts E p len m = (Ok bs, m).
Proof. intros Hv Hr. destruct (from_raw_parts_ok m p len Hv) as (bs'&->&Hr'&_). congruence. Qed.

Lemma from_raw_parts_mut_ok m p len :
  valid_buffer m p len → @from_raw_parts_mut E p len m = (Ok (mkMutSlice p len), m).
Proof.
  intros (Hp&Hl&[bs Hbs]). unfold from_raw_parts_mut, is_null.
  destruct (N.eqb_spec p 0); [done|]. destruct (N.ltb_spec isize_max len); [lia|]. simpl.
  by rewrite Hbs.
Qed.

Lemma copy_from_slice_ok m p len src :
  len = lenN src →
  @copy_from_slice E (mkMutSlice p len) src m = (Ok tt, write_bytes m p src).
Proof. intros ->. unfold copy_from_slice. simpl. by rewrite N.eqb_refl. Qed.

Lemma slice_to_ok p len n m :
  (n ≤ len)%N → @slice_to E (mkMutSlice p len) n m = (Ok (mkMutSlice p n), m).
Proof. intros H. unfold slice_to. simpl. by destruct (N.leb_spec n len); [|lia]. Qed.

Definition valid_u64 (m : Memory) (p : N) : Prop :=
  p ≠ 0%N ∧ aligned8 p = true ∧ is_Some (read_bytes m p 8).

#[export] Instance valid_u64_dec m p : Decision (valid_u64 m p).
Proof. unfold valid_u64. apply _. Defined.

Lemma read_u64_ok m p bs :
  valid_u64 m p → read_bytes m p 8 = Some bs → @read_u64 E p m = (Ok (le_value bs), m).
Proof.
  intros (Hp&Ha&_) Hr. unfold read_u64, is_null. rewrite Ha.
  destruct (N.eqb_spec p 0); [done|]. simpl. by rewrite Hr.
Qed.

Lemma write_u64_ok m p v :
  valid_u64 m p → @write_u64 E p v m = (Ok tt, write_bytes m p (le_bytes 8 v)).
Proof.
  intros (Hp&Ha&[bs Hr]). unfold write_u64, is_null. rewrite Ha.
  destruct (N.eqb_spec p 0); [done|]. simpl. by rewrite Hr.
Qed.

Lemma valid_u64_dom m m' p : dom m = dom m' → valid_u64 m p → valid_u64 m' p.
Proof. intros ? (?&?&?). split_and!; eauto using read_bytes_dom. Qed.

Lemma valid_u64_write m p q b : valid_u64 m p → valid_u64 (write_bytes m q b) p.
Proof. intros (?&?&?). split_and!; auto using read_bytes_write. Qed.

(** Reading through a pointer leaves the memory alone. *)
Lemma steps_from_raw_parts R `{!Reflexive R} p len : Steps R (@from_raw_parts E p len).
Proof. intros m. unfold from_raw_parts. by repeat case_match. Qed.
Lemma steps_from_raw_parts_mut R `{!Reflexive R} p len : Steps R (@from_raw_parts_mut E p len).
Proof. intros m. unfold from_raw_parts_mut. by repeat case_match. Qed.
Lemma steps_slice_to R `{!Reflexive R} s n : Steps R (@slice_to E s n).
Proof. intros m. unfold slice_to. by case_match. Qed.
Lemma steps_read_u64 R `{!Reflexive R} p : Steps R (@read_u64 E p).
Proof. intros m. unfold read_u64. by repeat case_match. Qed.
End pointer_lemmas.

#[export] Hint Resolve steps_from_raw_parts steps_from_raw_parts_mut steps_slice_to steps_read_u64 : steps.
