(* ===== verification/Platform.v ===== *)
(** * The world around the module: operating system and third-party crates

    Code that is not in the repository is a field of one of the classes below,
    and what the module relies on is a field of the matching [..Laws] class.
    [Platform] and [PlatformLaws] bundle them.  The second half of the file is
    the part of a process every component touches: the clock, the source of
    randomness, the descriptors and the log of released secret buffers. *)

From S2P Require Import Prelude Effects Proto RustStd.

(** ** The state of the process that is not the module's own *)

(** [released] holds the contents of the secret-bearing buffers and mappings at
    the moment each one was given back, newest first. *)
Record Sys := mkSys {
  clock_reads : nat;
  entropy : nat;
  syscalls : nat;
  open_fds : gset Z;
  released : list bytes;
}.

Definition init_sys : Sys := mkSys 0 0 0 ∅ [].

(** ** Classes of operations *)

(** The kernel and libc, as the [memfd_secret] code and [Instant::now] see them.
    The first argument of an operation numbers the call: the environment may
    answer each one differently. *)
Class Os := {
  clock : nat → Z;
  memfd_secret : nat → gset Z → Z;
  set_len : nat → Z → N → bool;
  map_mut : nat → Z → N → option bytes;
}.

(** The build profile: whether debug assertions and arithmetic overflow checks are
    compiled in (both in Cargo's dev profile, neither in its release profile). *)
Class Build := { debug_assertions : bool }.

(** [zeroize]: overwrite a buffer with zeros. *)
Class ZeroizeCrate := { zeroize : bytes → bytes }.

(** [clear_on_drop]: run a closure, then overwrite the stack it used. *)
Class ClearOnDropCrate := {
  clear_stack_on_return : ∀ {E A : Type}, nat → M Sys E A → M Sys E A;
}.

(** [uuid]: sixteen-byte identifiers with their derived order. *)
Class UuidCrate := {
  Uuid : Type;
  Uuid_eq_dec :: EqDecision Uuid;
  Uuid_countable :: Countable Uuid;
  Uuid_le : relation Uuid;
  Uuid_le_dec :: RelDecision Uuid_le;
  Uuid_new_v4 : nat → Uuid;
  Uuid_as_bytes : Uuid → bytes;
  Uuid_from_slice : bytes → option Uuid;
  Uuid_from_bytes : bytes → Uuid;
}.

(** [bssl-crypto]: X25519, HKDF-SHA256 and HPKE over BoringSSL.  [hpke_params]
    is [hpke::Params::new(X25519HkdfSha256, HkdfSha256, Aes256Gcm)]. *)
Class BsslCrate := {
  Prk : Type;
  Params : Type;
  SenderContext : Type;
  RecipientContext : Type;
  hpke_params : Params;
  Kem_generate_keypair : nat → bytes * bytes;
  X25519_to_public : bytes → bytes;
  X25519_compute_shared_key : bytes → bytes → option bytes;
  Hkdf_extract : bytes → bytes → Prk;
  Hkdf_expand_into : Prk → bytes → nat → option bytes;
  SenderContext_new : nat → Params → bytes → bytes → option (SenderContext * bytes);
  SenderContext_seal : SenderContext → bytes → bytes → SenderContext * bytes;
  RecipientContext_new : Params → bytes → bytes → bytes → option RecipientContext;
  RecipientContext_open : RecipientContext → bytes → bytes → RecipientContext * option bytes;
  (** What lies in the allocations of the secret [Vec]s the crate returns (a private
      key, a plaintext) past their lengths. *)
  Kem_generate_keypair_spare : nat → bytes;
  RecipientContext_open_spare : RecipientContext → bytes → bytes → bytes;
}.

(** ** Laws *)

Class OsLaws `{Os} : Prop := {
  (** [Instant::now] counts from the boot of the machine and never goes back. *)
  clock_nonneg : (0 ≤ clock 0)%Z;
  clock_mono n : (clock n ≤ clock (S n))%Z;
  (** A descriptor the kernel hands out is not one already open. *)
  memfd_secret_fresh n fds : (0 ≤ memfd_secret n fds)%Z → memfd_secret n fds ∉ fds;
  (** [MmapMut::map_mut] maps the whole file. *)
  map_mut_length n fd len bs : map_mut n fd len = Some bs → lenN bs = len;
}.

Class ZeroizeLaws `{ZeroizeCrate} : Prop := {
  zeroize_zeros b : zeroize b = zeros (length b);
}.

Class ClearOnDropLaws `{ClearOnDropCrate} : Prop := {
  clear_stack_transparent {E A} pages (m : M Sys E A) s : clear_stack_on_return pages m s = m s;
}.

Class UuidLaws `{UuidCrate} : Prop := {
  Uuid_le_trans :: Transitive Uuid_le;
  Uuid_le_antisymm :: AntiSymm (=) Uuid_le;
  Uuid_le_total :: Total Uuid_le;
  Uuid_as_bytes_length u : length (Uuid_as_bytes u) = 16;
  Uuid_from_slice_length b : is_Some (Uuid_from_slice b) ↔ length b = 16;
  Uuid_from_slice_bytes b : length b = 16 → Uuid_from_slice b = Some (Uuid_from_bytes b);
  Uuid_from_as u : Uuid_from_slice (Uuid_as_bytes u) = Some u;
  Uuid_as_from b u : Uuid_from_slice b = Some u → Uuid_as_bytes u = b;
}.

Class BsslLaws `{BsslCrate} : Prop := {
  (** A generated pair is an X25519 key pair. *)
  keypair_lengths n : length (fst (Kem_generate_keypair n)) = 32 ∧ length (snd (Kem_generate_keypair n)) = 32;
  keypair_public n : X25519_to_public (snd (Kem_generate_keypair n)) = fst (Kem_generate_keypair n);
  to_public_length sk : length sk = 32 → length (X25519_to_public sk) = 32;
  (** Diffie-Hellman: both sides compute one secret. *)
  dh_agree a b : length a = 32 → length b = 32 →
    X25519_compute_shared_key a (X25519_to_public b) = X25519_compute_shared_key b (X25519_to_public a);
  (** HKDF-Expand produces as many bytes as asked, up to 255 hash lengths. *)
  expand_ok prk info len : (N.of_nat len ≤ 8160)%N →
    ∃ out, Hkdf_expand_into prk info len = Some out ∧ length out = len;
  (** An X25519 encapsulation is 32 bytes, an AES-256-GCM tag 16. *)
  sender_enc_length n pk info ctx enc :
    SenderContext_new n hpke_params pk info = Some (ctx, enc) → length enc = 32;
  sender_seal_length n pk info ctx enc pt aad :
    SenderContext_new n hpke_params pk info = Some (ctx, enc) →
    length (snd (SenderContext_seal ctx pt aad)) = length pt + 16;
  (** HPKE: the holder of the private key opens the first message sealed to it. *)
  hpke_correct n sk info ctx enc pt aad :
    length sk = 32 →
    SenderContext_new n hpke_params (X25519_to_public sk) info = Some (ctx, enc) →
    ∃ r, RecipientContext_new hpke_params sk enc info = Some r ∧
      snd (RecipientContext_open r (snd (SenderContext_seal ctx pt aad)) aad) = Some pt;
}.

Class Platform := {
  platform_build :: Build;
  platform_os :: Os;
  platform_zeroize :: ZeroizeCrate;
  platform_clear_on_drop :: ClearOnDropCrate;
  platform_uuid :: UuidCrate;
  platform_prost :: ProstCrate;
  platform_bssl :: BsslCrate;
}.

Class PlatformLaws `{Platform} : Prop := {
  platform_os_laws :: OsLaws;
  platform_zeroize_laws :: ZeroizeLaws;
  platform_clear_on_drop_laws :: ClearOnDropLaws;
  platform_uuid_laws :: UuidLaws;
  platform_prost_laws :: ProstLaws;
  platform_bssl_laws :: BsslLaws;
}.

(** ** What a process uses of it *)

Definition release (b : bytes) (s : Sys) : Sys :=
  mkSys (clock_reads s) (entropy s) (syscalls s) (open_fds s) (b :: released s).
Definition set_fds (f : gset Z → gset Z) (s : Sys) : Sys :=
  mkSys (clock_reads s) (entropy s) (syscalls s) (f (open_fds s)) (released s).

Section sys.
Context `{Platform} {E : Type}.

(** [Instant::now()] *)
Definition Instant_now : M Sys E Z := λ s,
  (Ok (clock (clock_reads s)),
   mkSys (S (clock_reads s)) (entropy s) (syscalls s) (open_fds s) (released s)).

(** A draw from the random generator, as the index of the draw. *)
Definition draw : M Sys E nat := λ s,
  (Ok (entropy s), mkSys (clock_reads s) (S (entropy s)) (syscalls s) (open_fds s) (released s)).

(** The number of the next system call. *)
Definition syscall : M Sys E nat := λ s,
  (Ok (syscalls s), mkSys (clock_reads s) (entropy s) (S (syscalls s)) (open_fds s) (released s)).
End sys.

Section sys_lemmas.
Context `{Platform} {E : Type}.

Lemma bind_Instant_now {B} (k : Z → M Sys E B) s :
  bind Instant_now k s =
    k (clock (clock_reads s))
      (mkSys (S (clock_reads s)) (entropy s) (syscalls s) (open_fds s) (released s)).
Proof. done. Qed.

Lemma bind_draw {B} (k : nat → M Sys E B) s :
  bind draw k s =
    k (entropy s) (mkSys (clock_reads s) (S (entropy s)) (syscalls s) (open_fds s) (released s)).
Proof. done. Qed.
End sys_lemmas.

(** ** Invariants of every sys-level computation *)

(** No cursor goes back, no descriptor is left open, and what is released is zero. *)
Record sys_le (s s' : Sys) : Prop := mkSysLe {
  sys_le_clock : clock_reads s ≤ clock_reads s';
  sys_le_entropy : entropy s ≤ entropy s';
  sys_le_fds : open_fds s' = open_fds s;
  sys_le_released : ∃ new, released s' = new ++ released s ∧ Forall all_zero new;
}.

#[export] Instance sys_le_preorder : PreOrder sys_le.
Proof.
  split.
  - intros s. constructor; [done..|]. by exists [].
  - intros s1 s2 s3 [? ? ? (n1&Hn1&?)] [? ? ? (n2&Hn2&?)]. constructor; [lia|lia|congruence|].
    exists (n2 ++ n1). rewrite Hn2, Hn1, app_assoc. split; [done|]. by apply Forall_app.
Qed.

Lemma clock_mono_le `{OsLaws} n m : n ≤ m → (clock n ≤ clock m)%Z.
Proof. induction 1; [lia|]. pose proof (clock_mono m). lia. Qed.

Lemma steps_Instant_now `{Platform} E : Steps sys_le (@Instant_now _ E).
Proof. intros s. constructor; simpl; [lia|done|done|]. by exists []. Qed.
Lemma steps_draw `{Platform} E : Steps sys_le (@draw E).
Proof. intros s. constructor; simpl; [done|lia|done|]. by exists []. Qed.
Lemma steps_syscall `{Platform} E : Steps sys_le (@syscall E).
Proof. intros s. constructor; simpl; [done|done|done|]. by exists []. Qed.
Lemma sys_le_release_zero s b : all_zero b → sys_le s (release b s).
Proof. intros Hb. constructor; simpl; [done..|]. exists [b]. by split; [|constructor]. Qed.

Lemma steps_clear_stack `{PlatformLaws} {E A} (R : relation Sys) n (m : M Sys E A) :
  Steps R m → Steps R (clear_stack_on_return n m).
Proof. intros Hm s. rewrite clear_stack_transparent. apply Hm. Qed.

#[export] Hint Resolve steps_clear_stack steps_Instant_now steps_draw steps_syscall sys_le_release_zero : steps.
