(* ===== verification/RefPlatform.v ===== *)
(** * A reference platform

    A concrete environment that satisfies every law of Platform.v, so that the
    theorems stated for all platforms can be run on inputs: a clock of one second
    per reading, an OS that grants every request, identifiers numbered in order,
    the proto3 wire format, and toy cryptography with the algebra of the real one
    (a commutative Diffie-Hellman, an expansion of any length, an authenticated
    cipher with a 16-byte tag).  It says nothing about security. *)

From S2P Require Import Prelude Effects Proto RustStd Platform.

(** ** Operating system *)

Definition ref_fd (fds : gset Z) : Z := (foldr Z.max 2 (elements fds) + 1)%Z.

Definition ref_os : Os := {|
  clock n := (Z.of_nat n * nanos_per_sec)%Z;
  memfd_secret _ fds := ref_fd fds;
  set_len _ _ _ := true;
  map_mut _ _ len := Some (zeros (N.to_nat len));
|}.

Lemma ref_fd_fresh fds : ref_fd fds ∉ fds.
Proof.
  unfold ref_fd. rewrite <- elem_of_elements. intros Hin.
  assert (∀ l z, z ∈ l → (z ≤ foldr Z.max 2 l)%Z) as Hmax.
  { intros l z. induction 1; simpl; lia. }
  apply Hmax in Hin. lia.
Qed.

Lemma ref_os_laws : @OsLaws ref_os.
Proof.
  split; simpl.
  - done.
  - intros n. unfold nanos_per_sec. lia.
  - intros _ fds _. apply ref_fd_fresh.
  - intros _ _ len bs [= <-]. unfold lenN. rewrite length_zeros. lia.
Qed.

(** ** Identifiers: sixteen big-endian bytes, ordered as numbers *)

Definition u128 : Type := { n : N | (n <? 2 ^ 128)%N = true }.

Definition u128_val (u : u128) : N := proj1_sig u.

Lemma u128_eq (a b : u128) : u128_val a = u128_val b → a = b.
Proof. apply (sig_eq_pi _). Qed.

Definition u128_of (n : N) : u128 :=
  match decide ((n <? 2 ^ 128)%N = true) with
  | left H => exist _ n H
  | right _ => exist _ 0%N eq_refl
  end.

Lemma u128_of_small n : (n < 2 ^ 128)%N → u128_val (u128_of n) = n.
Proof.
  intros Hn. unfold u128_of. destruct (decide _) as [?|Hf]; [done|].
  destruct Hf. by apply N.ltb_lt.
Qed.

Definition u128_bytes (u : u128) : bytes := be_bytes 16 (u128_val u).
Definition u128_of_bytes (b : bytes) : u128 := u128_of (le_value (reverse b)).

Lemma u128_bytes_of b : length b = 16 → u128_bytes (u128_of_bytes b) = b.
Proof.
  intros Hb. unfold u128_bytes, u128_of_bytes, be_bytes.
  rewrite u128_of_small.
  - replace 16 with (length (reverse b)) by (rewrite length_reverse; lia).
    by rewrite le_bytes_le_value, reverse_involutive.
  - pose proof (le_value_lt (reverse b)) as Hlt. unfold lenN in Hlt.
    by rewrite length_reverse, Hb in Hlt.
Qed.

Lemma u128_of_bytes_bytes u : u128_of_bytes (u128_bytes u) = u.
Proof.
  assert (u128_val u < 2 ^ 128)%N as Hu by (apply N.ltb_lt; exact (proj2_sig u)).
  apply u128_eq. unfold u128_of_bytes, u128_bytes, be_bytes.
  by rewrite reverse_involutive, le_value_le_bytes, u128_of_small.
Qed.

Definition u128_le : relation u128 := λ a b, (u128_val a ≤ u128_val b)%N.

#[export] Instance u128_le_dec : RelDecision u128_le.
Proof. intros a b. unfold u128_le. apply _. Defined.

Definition ref_uuid : UuidCrate := {|
  Uuid := u128;
  Uuid_le := u128_le;
  Uuid_new_v4 n := u128_of (N.of_nat n);
  Uuid_as_bytes := u128_bytes;
  Uuid_from_slice b := if length b =? 16 then Some (u128_of_bytes b) else None;
  Uuid_from_bytes := u128_of_bytes;
|}.

Lemma ref_uuid_laws : @UuidLaws ref_uuid.
Proof.
  split.
  - intros a b c. simpl. unfold u128_le. lia.
  - intros a b. simpl. unfold u128_le. intros ??. apply u128_eq. lia.
  - intros a b. simpl. unfold u128_le. lia.
  - intros u. cbn [Uuid_as_bytes ref_uuid]. unfold u128_bytes. by rewrite length_be_bytes.
  - intros b. simpl. destruct (Nat.eqb_spec (length b) 16); [by eauto|].
    split; [by intros []|done].
  - intros b Hb. simpl. by rewrite Hb.
  - intros u. cbn [Uuid_from_slice Uuid_as_bytes ref_uuid]. replace (length (u128_bytes u)) with 16.
    + simpl. f_equal. apply u128_of_bytes_bytes.
    + unfold u128_bytes. by rewrite length_be_bytes.
  - intros b u. simpl. destruct (Nat.eqb_spec (length b) 16); [|done]. intros [= <-]. by apply u128_bytes_of.
Qed.

(** ** The proto3 wire format of [HpkeAlgorithm] *)

Fixpoint varint (fuel : nat) (v : N) : bytes :=
  match fuel with
  | O => []
  | S fuel =>
      if (v <? 128)%N then [byte_of_N v]
      else byte_of_N (128 + v mod 128) :: varint fuel (v / 128)
  end.

Fixpoint read_varint (fuel : nat) (bs : bytes) : option (N * bytes) :=
  match fuel, bs with
  | S fuel, b :: bs =>
      if (Byte.to_N b <? 128)%N then Some (Byte.to_N b, bs)
      else
        '(v, rest) ← read_varint fuel bs;
        Some (Byte.to_N b - 128 + 128 * v, rest)%N
  | _, _ => None
  end.

Lemma read_varint_last fuel v rest :
  (v < 128)%N → read_varint (S fuel) (byte_of_N v :: rest) = Some (v, rest).
Proof.
  intros Hv. cbn [read_varint]. rewrite byte_of_N_small by lia.
  by rewrite (proj2 (N.ltb_lt v 128) Hv).
Qed.

Lemma read_varint_more fuel d rest :
  (d < 128)%N →
  read_varint (S fuel) (byte_of_N (128 + d) :: rest) =
    ('(v, rest) ← read_varint fuel rest; Some (d + 128 * v, rest)%N).
Proof.
  intros Hd. cbn [read_varint]. rewrite byte_of_N_small by lia.
  rewrite (proj2 (N.ltb_ge (128 + d) 128)) by (apply N.le_add_r).
  replace (128 + d - 128)%N with d by lia. done.
Qed.

Lemma read_varint_varint fuel v rest :
  (v < 128 ^ N.of_nat (S fuel))%N → read_varint (S fuel) (varint (S fuel) v ++ rest) = Some (v, rest).
Proof.
  revert v. induction fuel as [|fuel IH]; intros v Hv.
  - change (128 ^ N.of_nat 1)%N with 128%N in Hv. cbn [varint].
    rewrite (proj2 (N.ltb_lt v 128) Hv). by apply read_varint_last.
  - rewrite (Nat2N.inj_succ (S fuel)), N.pow_succ_r' in Hv.
    change (varint (S (S fuel)) v) with
      (if (v <? 128)%N then [byte_of_N v] else byte_of_N (128 + v mod 128) :: varint (S fuel) (v / 128)).
    destruct (N.ltb_spec v 128) as [Hs|Hs]; [by apply read_varint_last|]. cbn [app].
    rewrite read_varint_more by (by apply N.mod_lt).
    rewrite IH by (by apply N.Div0.div_lt_upper_bound). cbn [mbind option_bind].
    do 2 f_equal. pose proof (N.Div0.div_mod v 128). lia.
Qed.

Lemma length_varint fuel v : length (varint fuel v) ≤ fuel.
Proof.
  revert v. induction fuel as [|fuel IH]; intros v; [done|].
  cbn [varint]. destruct (N.ltb v 128); simpl; [lia|]. specialize (IH (v / 128)%N). lia.
Qed.

(** An [int32] travels sign-extended to 64 bits; the default is left out. *)
Definition i32_word (z : Z) : N := Z.to_N (z mod 18446744073709551616).
Definition field (tag : N) (z : Z) : bytes :=
  if (z =? 0)%Z then [] else byte_of_N (8 * tag) :: varint 10 (i32_word z).

Lemma as_i32_word z : is_i32 z → as_i32 (i32_word z) = z.
Proof.
  unfold is_i32, as_i32, i32_word. intros Hz. rewrite Z2N.id by (apply Z.mod_pos_bound; lia).
  rewrite Z.mod_mod_divide by (by exists 4294967296%Z).
  destruct (decide (0 ≤ z)%Z).
  - rewrite Z.mod_small by lia. destruct (Z.ltb_spec z 2147483648); lia.
  - replace (z mod 4294967296)%Z with (z + 4294967296)%Z
      by (rewrite <- (Z_mod_plus_full z 1), Z.mod_small; lia).
    destruct (Z.ltb_spec (z + 4294967296) 2147483648); lia.
Qed.

Definition wire_encode (a : HpkeAlgorithm) : bytes :=
  field 1 (kem a) ++ field 2 (kdf a) ++ field 3 (aead a).

Definition set_field (tag : N) (v : Z) (a : HpkeAlgorithm) : option HpkeAlgorithm :=
  if (tag =? 1)%N then Some (mkHpkeAlgorithm v (kdf a) (aead a))
  else if (tag =? 2)%N then Some (mkHpkeAlgorithm (kem a) v (aead a))
  else if (tag =? 3)%N then Some (mkHpkeAlgorithm (kem a) (kdf a) v)
  else if (tag =? 0)%N then None else Some a.

(** The last occurrence of a field wins; other wire types are refused. *)
Fixpoint wire_fields (fuel : nat) (bs : bytes) (a : HpkeAlgorithm) : option HpkeAlgorithm :=
  match bs, fuel with
  | [], _ => Some a
  | _, O => None
  | _, S fuel =>
      '(key, rest) ← read_varint 10 bs;
      if negb (key mod 8 =? 0)%N then None
      else
        '(v, rest) ← read_varint 10 rest;
        a ← set_field (key / 8) (as_i32 v) a;
        wire_fields fuel rest a
  end.

Definition wire_decode (bs : bytes) : option HpkeAlgorithm :=
  wire_fields (3 + length bs) bs (mkHpkeAlgorithm 0 0 0).

Lemma wire_fields_mono fuel fuel' bs a b :
  fuel ≤ fuel' → wire_fields fuel bs a = Some b → wire_fields fuel' bs a = Some b.
Proof.
  revert fuel' bs a. induction fuel as [|fuel IH]; intros fuel' bs a Hle.
  - destruct bs; [|done]. by destruct fuel'.
  - destruct fuel' as [|fuel']; [lia|]. destruct bs as [|x bs]; [done|]. cbn [wire_fields].
    destruct (read_varint 10 (x :: bs)) as [[key rest]|]; [|done]. cbn [mbind option_bind].
    destruct (negb _); [done|]. destruct (read_varint 10 rest) as [[v rest']|]; [|done].
    cbn [mbind option_bind]. destruct (set_field _ _ a); [|done]. cbn [mbind option_bind]. apply IH. lia.
Qed.

(** One written field is read back as one update; a field left out is none. *)
Lemma wire_fields_field tag z fuel rest a b :
  is_i32 z → (0 < tag < 16)%N →
  set_field tag z a = Some b → (z = 0%Z → a = b) →
  ∀ c, wire_fields fuel rest b = Some c → wire_fields (S fuel) (field tag z ++ rest) a = Some c.
Proof.
  intros Hz Ht Hset Hzero c Hc. unfold field. destruct (Z.eqb_spec z 0) as [->|Hne].
  - rewrite Hzero by done. eapply wire_fields_mono; [|exact Hc]. lia.
  - cbn [app wire_fields].
    rewrite read_varint_last by lia. cbn [mbind option_bind].
    replace ((8 * tag) mod 8)%N with 0%N by (rewrite N.mul_comm; symmetry; apply N.Div0.mod_mul).
    replace ((8 * tag) / 8)%N with tag by (rewrite N.mul_comm, N.div_mul; lia).
    cbn [N.eqb negb]. rewrite read_varint_varint.
    + cbn [mbind option_bind]. rewrite as_i32_word by done. by rewrite Hset.
    + unfold i32_word. pose proof (Z.mod_pos_bound z 18446744073709551616). simpl. lia.
Qed.

Lemma wire_decode_encode a : HpkeAlgorithm_wf a → wire_decode (wire_encode a) = Some a.
Proof.
  destruct a as [k d e]. intros (Hk&Hd&He). simpl in *. unfold wire_decode, wire_encode.
  apply (wire_fields_mono 3); [lia|]. cbn [kem kdf aead].
  eapply wire_fields_field; [done|lia|reflexivity|by intros ->|]. cbn [kem kdf aead].
  eapply wire_fields_field; [done|lia|reflexivity|by intros ->|]. cbn [kem kdf aead].
  rewrite <- (app_nil_r (field 3 e)).
  by eapply wire_fields_field; [done|lia|reflexivity|by intros ->|].
Qed.

Lemma length_field tag z : length (field tag z) ≤ 11.
Proof. unfold field. pose proof (length_varint 10 (i32_word z)).
  destruct (z =? 0)%Z; cbn [length]; lia. Qed.

Definition ref_try_from {A} (as_i32 : A → Z) (variants : list A) (z : Z) : option A :=
  head (filter (λ a, as_i32 a = z) variants).

Lemma ref_try_from_spec {A} (as_i32 : A → Z) variants z a :
  Inj (=) (=) as_i32 → a ∈ variants → ref_try_from as_i32 variants z = Some a ↔ as_i32 a = z.
Proof.
  intros Hinj Ha. unfold ref_try_from. set (l := filter _ variants).
  assert (∀ b, b ∈ l ↔ as_i32 b = z ∧ b ∈ variants) as Hl by (intros b; unfold l; by rewrite list_elem_of_filter).
  split.
  - intros Hh. apply head_Some_elem_of in Hh. by apply Hl.
  - intros Hz. assert (a ∈ l) as Hin by (by apply Hl). destruct l as [|b l']; [by apply elem_of_nil in Hin|].
    simpl. f_equal. apply Hinj. rewrite Hz. apply (Hl b). left.
Qed.

Definition ref_prost : ProstCrate := {|
  KemAlgorithm_try_from := ref_try_from KemAlgorithm_as_i32 [Kem_Unspecified; DhkemX25519HkdfSha256];
  KdfAlgorithm_try_from := ref_try_from KdfAlgorithm_as_i32 [Kdf_Unspecified; HkdfSha256];
  AeadAlgorithm_try_from := ref_try_from AeadAlgorithm_as_i32 [Aead_Unspecified; Aes256Gcm];
  HpkeAlgorithm_encode_to_vec := wire_encode;
  HpkeAlgorithm_decode := wire_decode;
|}.

Lemma ref_prost_laws : @ProstLaws ref_prost.
Proof.
  split; simpl.
  - intros z a. apply ref_try_from_spec; [apply KemAlgorithm_enum|destruct a; repeat constructor].
  - intros z a. apply ref_try_from_spec; [apply KdfAlgorithm_enum|destruct a; repeat constructor].
  - intros z a. apply ref_try_from_spec; [apply AeadAlgorithm_enum|destruct a; repeat constructor].
  - apply wire_decode_encode.
  - intros a _. unfold wire_encode. rewrite !length_app.
    pose proof (length_field 1 (kem a)). pose proof (length_field 2 (kdf a)).
    pose proof (length_field 3 (aead a)). lia.
Qed.

(** ** Cryptography *)

Definition byte_add (a b : byte) : byte := byte_of_N (Byte.to_N a + Byte.to_N b).
Definition byte_sub (a b : byte) : byte := byte_of_N (Byte.to_N a + 256 - Byte.to_N b).

Definition one : byte := Corelib.Init.Byte.x01.

Definition toy_public (sk : bytes) : bytes := byte_add one <$> sk.
Definition toy_shared (sk pk : bytes) : option bytes :=
  if length pk =? 32 then Some (zip_with byte_add sk pk) else None.

(** The key stream is the secret's first byte; the tag covers the sum of the
    ciphertext's bytes and the additional data. *)
Definition toy_shift (key : bytes) : byte := default x00 (head key).
Definition toy_tag (key aad body : bytes) : bytes := resize 16 x00 (foldr byte_add x00 body :: aad ++ key).
Definition toy_seal (key pt aad : bytes) : bytes :=
  let body := byte_add (toy_shift key) <$> pt in body ++ toy_tag key aad body.
Definition toy_open (key ct aad : bytes) : option bytes :=
  let n := length ct - 16 in
  if decide (drop n ct = toy_tag key aad (take n ct))
  then Some ((λ b, byte_sub b (toy_shift key)) <$> take n ct) else None.

Definition toy_keypair (n : nat) : bytes * bytes :=
  let sk := le_bytes 32 (N.of_nat n + 1) in (toy_public sk, sk).

Lemma length_toy_public sk : length (toy_public sk) = length sk.
Proof. apply length_fmap. Qed.

#[local] Arguments toy_keypair : simpl never.
#[local] Arguments toy_public : simpl never.
#[local] Arguments toy_shared : simpl never.

Definition ref_bssl : BsslCrate := {|
  Prk := bytes;
  Params := unit;
  SenderContext := bytes;
  RecipientContext := bytes;
  hpke_params := tt;
  Kem_generate_keypair := toy_keypair;
  X25519_to_public := toy_public;
  X25519_compute_shared_key := toy_shared;
  Hkdf_extract ikm salt := salt ++ ikm;
  Hkdf_expand_into prk info n := if (N.of_nat n <=? 8160)%N then Some (resize n x00 (reverse prk ++ info)) else None;
  SenderContext_new n _ pk info :=
    let '(pkE, skE) := toy_keypair n in
    dh ← toy_shared skE pk; Some (dh ++ info, pkE);
  SenderContext_seal key pt aad := (key, toy_seal key pt aad);
  RecipientContext_new _ sk enc info := dh ← toy_shared sk enc; Some (dh ++ info);
  RecipientContext_open key ct aad := (key, toy_open key ct aad);
  Kem_generate_keypair_spare _ := [];
  (* the plaintext comes in an allocation of the ciphertext's size *)
  RecipientContext_open_spare key ct aad := drop (length ct - 16) ct;
|}.

Lemma byte_eq x y : Byte.to_N x = Byte.to_N y → x = y.
Proof. intros H. rewrite <- (byte_of_to_N x), <- (byte_of_to_N y). by rewrite H. Qed.

Lemma to_N_byte_of_N v : Byte.to_N (byte_of_N v) = (v mod 256)%N.
Proof. rewrite byte_of_N_mod. apply byte_of_N_small, N.mod_lt. lia. Qed.

Lemma byte_add_public a b : byte_add a (byte_add one b) = byte_add b (byte_add one a).
Proof.
  apply byte_eq. unfold byte_add. rewrite !to_N_byte_of_N, !N.Div0.add_mod_idemp_r.
  f_equal. lia.
Qed.

Lemma byte_sub_add k b : byte_sub (byte_add k b) k = b.
Proof.
  apply byte_eq. unfold byte_sub, byte_add. rewrite !to_N_byte_of_N.
  pose proof (byte_to_N_lt k). pose proof (byte_to_N_lt b).
  rewrite <- N.add_sub_assoc by lia.
  rewrite N.Div0.add_mod_idemp_l.
  replace (Byte.to_N k + Byte.to_N b + (256 - Byte.to_N k))%N with (Byte.to_N b + 1 * 256)%N by lia.
  rewrite N.Div0.mod_add. by apply N.mod_small.
Qed.

Lemma toy_dh a b : length a = 32 → length b = 32 → toy_shared a (toy_public b) = toy_shared b (toy_public a).
Proof.
  intros Ha Hb. unfold toy_shared, toy_public. rewrite !length_fmap, Ha, Hb. simpl. f_equal.
  rewrite <- Hb in Ha. clear Hb. revert b Ha.
  induction a as [|x a IH]; intros [|y b] Hl; simplify_eq/=; [done|].
  f_equal; [apply byte_add_public|by apply IH].
Qed.

Lemma toy_open_seal key pt aad : toy_open key (toy_seal key pt aad) aad = Some pt.
Proof.
  unfold toy_open, toy_seal. set (body := _ <$> pt). rewrite length_app.
  replace (length body) with (length pt) by (unfold body; by rewrite length_fmap).
  replace (length (toy_tag key aad body)) with 16 by (unfold toy_tag; by rewrite length_resize).
  replace (length pt + 16 - 16) with (length pt) by lia.
  rewrite drop_app_length', take_app_length' by (unfold body; by rewrite length_fmap).
  rewrite decide_True by done. f_equal. unfold body. rewrite <- list_fmap_compose.
  rewrite <- (list_fmap_id pt) at 2. apply list_fmap_ext. intros i b _. apply byte_sub_add.
Qed.

Lemma toy_keypair_spec n : ∃ sk, toy_keypair n = (toy_public sk, sk) ∧ length sk = 32.
Proof. eexists. split; [reflexivity|]. apply length_le_bytes. Qed.

Lemma ref_bssl_laws : @BsslLaws ref_bssl.
Proof.
  split;
    cbn [Kem_generate_keypair X25519_to_public X25519_compute_shared_key Hkdf_expand_into hpke_params
         SenderContext_new SenderContext_seal RecipientContext_new RecipientContext_open ref_bssl].
  - intros n. destruct (toy_keypair_spec n) as (sk&->&Hl). cbn [fst snd]. by rewrite length_toy_public.
  - intros n. by destruct (toy_keypair_spec n) as (sk&->&Hl).
  - intros sk Hl. by rewrite length_toy_public.
  - apply toy_dh.
  - intros prk info len Hlen. rewrite (proj2 (N.leb_le _ _) Hlen).
    eexists. split; [reflexivity|]. apply length_resize.
  - intros n pk info ctx enc. destruct (toy_keypair_spec n) as (skE&->&HlE).
    destruct (toy_shared skE pk); intros ?; simplify_eq/=. by rewrite length_toy_public.
  - intros n pk info ctx enc pt aad _. cbn [snd]. unfold toy_seal, toy_tag. by rewrite length_app, length_fmap, length_resize.
  - intros n sk info ctx enc pt aad Hl. destruct (toy_keypair_spec n) as (skE&->&HlE).
    rewrite toy_dh by done.
    destruct (toy_shared sk (toy_public skE)) as [dh|] eqn:Hdh; intros ?; simplify_eq/=.
    rewrite Hdh. eexists. split; [reflexivity|]. apply toy_open_seal.
Qed.

(** ** The platform *)

Definition ref_platform : Platform := {|
  platform_build := {| debug_assertions := false |};
  platform_os := ref_os;
  platform_zeroize := {| zeroize b := zeros (length b) |};
  platform_clear_on_drop := {| clear_stack_on_return _ _ _ m := m |};
  platform_uuid := ref_uuid;
  platform_prost := ref_prost;
  platform_bssl := ref_bssl;
|}.

Lemma ref_platform_laws : @PlatformLaws ref_platform.
Proof.
  split.
  - apply ref_os_laws.
  - by split.
  - by split.
  - apply ref_uuid_laws.
  - apply ref_prost_laws.
  - apply ref_bssl_laws.
Qed.

(** Settle a decidable fact about concrete values by evaluating it. *)
Ltac by_compute := apply (bool_decide_unpack _); vm_compute; exact I.

(** The instances, where a file wants its examples on this platform. *)
Module RefInstances.
#[export] Existing Instance ref_platform.
#[export] Existing Instance ref_platform_laws.
End RefInstances.
