(* ===== verification/Rfc7748.v ===== *)
(** * X25519 and HKDF-SHA256 by their standards

    The functions bssl-crypto provides to x25519.rs, written from RFC 7748 (X25519),
    FIPS 180-4 (SHA-256), RFC 2104 (HMAC) and RFC 5869 (HKDF) on machine integers,
    so that the test vectors of RFC 9180 in the repository can be computed.  They
    instantiate the parameters of Platform.v; nothing is proved about them here
    beyond their own test vectors. *)

From Stdlib Require Import Uint63.
From S2P Require Import Prelude.

Definition int_of_byte (b : byte) : int := Uint63.of_Z (Z.of_N (Byte.to_N b)).
Definition byte_of_int (x : int) : byte := byte_of_N (Z.to_N (Uint63.to_Z x)).

(** ** SHA-256 *)

(** FIPS 180-4, 4.2.2 and 5.3.3: the constants are the first 32 bits of the
    fractional parts of the cube roots of the first 64 primes, the initial state
    those of the square roots of the first eight. *)
Definition primes : list Z :=
  Eval vm_compute in filter (λ n, forallb (λ d, negb (n mod d =? 0)%Z) (Z.of_nat <$> seq 2 (Z.to_nat n - 2)) = true)
                (Z.of_nat <$> seq 2 310).

(** The largest [r] with [r ^ 3 <= n], bit by bit. *)
Fixpoint cube_root (bits : nat) (r n : Z) : Z :=
  match bits with
  | O => r
  | S bits =>
      let r' := (r + 2 ^ Z.of_nat bits)%Z in
      cube_root bits (if (r' * r' * r' <=? n)%Z then r' else r) n
  end.

Definition sha256_constants : list int :=
  Eval vm_compute in (λ q, Uint63.of_Z (cube_root 36 0 (q * 2 ^ 96) mod 2 ^ 32)) <$> primes.
Definition sha256_initial : list int :=
  Eval vm_compute in (λ q, Uint63.of_Z (Z.sqrt (q * 2 ^ 64) mod 2 ^ 32)) <$> take 8 primes.

Section sha256.
Local Open Scope uint63_scope.

Definition mask32 : int := 0xffffffff.
Definition add32 (x y : int) : int := (x + y) land mask32.
Definition rotr (n x : int) : int := ((x >> n) lor (x << (32 - n))) land mask32.

Definition Ch (x y z : int) : int := (x land y) lxor ((x lxor mask32) land z).
Definition Maj (x y z : int) : int := (x land y) lxor (x land z) lxor (y land z).
Definition Sigma0 (x : int) : int := rotr 2 x lxor rotr 13 x lxor rotr 22 x.
Definition Sigma1 (x : int) : int := rotr 6 x lxor rotr 11 x lxor rotr 25 x.
Definition sigma0 (x : int) : int := rotr 7 x lxor rotr 18 x lxor (x >> 3).
Definition sigma1 (x : int) : int := rotr 17 x lxor rotr 19 x lxor (x >> 10).

(** The continuation runs when the numbers of the list have been computed. *)
Fixpoint forced (l : list int) : bool :=
  match l with
  | [] => true
  | x :: l => if (0 <=? x) then forced l else false
  end.
Definition after {A} (l : list int) (k : list int → A) : A := if forced l then k l else k l.

(** The rounds, over the next sixteen words of the message schedule. *)
Fixpoint sha256_rounds (ks schedule state : list int) : list int :=
  match ks, schedule, state with
  | k :: ks, w0 :: rest, [a; b; c; d; e; f; g; h] =>
      let t1 := h + Sigma1 e + Ch e f g + k + w0 in
      let t2 := Sigma0 a + Maj a b c in
      let w16 := add32 (sigma1 (nth 13 rest 0)) (nth 8 rest 0 + sigma0 (nth 0 rest 0) + w0) in
      after [add32 t1 t2; a; b; c; add32 d t1; e; f; g] (λ state,
      after (rest ++ [w16]) (λ schedule, sha256_rounds ks schedule state))
  | _, _, _ => state
  end.

Fixpoint sha256_blocks (words state : list int) : list int :=
  match words with
  | w0 :: w1 :: w2 :: w3 :: w4 :: w5 :: w6 :: w7 :: w8 :: w9 :: w10 :: w11 :: w12 :: w13 :: w14 :: w15 :: words =>
      let block := [w0; w1; w2; w3; w4; w5; w6; w7; w8; w9; w10; w11; w12; w13; w14; w15] in
      after (zip_with add32 state (sha256_rounds sha256_constants block state)) (sha256_blocks words)
  | _ => state
  end.

Fixpoint words_of_bytes (b : bytes) : list int :=
  match b with
  | b0 :: b1 :: b2 :: b3 :: b =>
      ((int_of_byte b0 << 24) + (int_of_byte b1 << 16) + (int_of_byte b2 << 8) + int_of_byte b3)
        :: words_of_bytes b
  | _ => []
  end.
Definition bytes_of_word (w : int) : bytes :=
  [byte_of_int (w >> 24); byte_of_int (w >> 16); byte_of_int (w >> 8); byte_of_int w].
End sha256.

Definition sha256_padding (len : nat) : bytes :=
  byte_of_N 128 :: zeros ((119 - len mod 64) mod 64) ++ be_bytes 8 (8 * N.of_nat len).

Definition sha256 (msg : bytes) : bytes :=
  concat (bytes_of_word <$> sha256_blocks (words_of_bytes (msg ++ sha256_padding (length msg))) sha256_initial).

(** ** HMAC and HKDF *)

Definition xor_byte (v : N) (b : byte) : byte := byte_of_N (N.lxor v (Byte.to_N b)).

Definition hmac_sha256 (key msg : bytes) : bytes :=
  let key := if (64 <? length key)%nat then sha256 key else key in
  let block := key ++ zeros (64 - length key) in
  sha256 ((xor_byte 0x5c <$> block) ++ sha256 ((xor_byte 0x36 <$> block) ++ msg)).

Definition hkdf_extract (ikm salt : bytes) : bytes := hmac_sha256 salt ikm.

(** T(n), T(n+1), ... until [len] bytes are there. *)
Fixpoint hkdf_blocks (count : nat) (prk info previous : bytes) (n : N) : bytes :=
  match count with
  | O => []
  | S count =>
      let t := hmac_sha256 prk (previous ++ info ++ [byte_of_N n]) in
      t ++ hkdf_blocks count prk info t (n + 1)
  end.
Definition hkdf_expand (prk info : bytes) (len : nat) : option bytes :=
  if (N.of_nat len <=? 8160)%N then Some (take len (hkdf_blocks ((len + 31) / 32) prk info [] 1)) else None.

(** ** X25519 *)

(** A field element: fifteen limbs of seventeen bits, little end first. *)
Section field.
Local Open Scope uint63_scope.

Definition mask17 : int := 0x1ffff.
Definition limbs : list nat := seq 0 15.

(** Propagate carries; what leaves the last limb comes back as 19 times it. *)
Fixpoint carry (c : int) (a : list int) : list int * int :=
  match a with
  | [] => ([], c)
  | x :: a =>
      let v := x + c in
      let '(r, out) := carry (v >> 17) a in (v land mask17 :: r, out)
  end.
Definition carry_around (a : list int) : list int :=
  match carry 0 a with
  | (x :: r, out) => x + 19 * out :: r
  | (r, _) => r
  end.
Definition reduce (a : list int) : list int := after (carry_around (carry_around a)) (λ r, r).

Definition fadd (a b : list int) : list int := reduce (zip_with (λ x y, x + y) a b).
(** Four times the prime keeps the limbs of the difference positive. *)
Definition fsub (a b : list int) : list int :=
  reduce (zip_with (λ x y, x - y) (zip_with (λ x y, x + y) a (0x7ffb4 :: replicate 14 0x7fffc)) b).

Fixpoint padded_sum (a b : list int) : list int :=
  match a, b with
  | [], b => b
  | a, [] => a
  | x :: a, y :: b => x + y :: padded_sum a b
  end.
Fixpoint product (a b : list int) : list int :=
  match a with
  | [] => []
  | x :: a => padded_sum ((λ y, x * y) <$> b) (0 :: product a b)
  end.
Definition fmul (a b : list int) : list int :=
  let p := product a b in
  reduce (padded_sum (take 15 p) ((λ x, 19 * x) <$> drop 15 p)).

Fixpoint fpow (a : list int) (e : positive) : list int :=
  match e with
  | xH => a
  | xO e => let r := fpow a e in fmul r r
  | xI e => let r := fpow a e in fmul a (fmul r r)
  end.
End field.

Definition p25519 : Z := (2 ^ 255 - 19)%Z.

Definition field_of_Z (v : Z) : list int := (λ i, Uint63.of_Z (Z.land (Z.shiftr v (17 * Z.of_nat i)) 0x1ffff)) <$> limbs.
Definition Z_of_field (a : list int) : Z := (foldr (λ x v, Uint63.to_Z x + 2 ^ 17 * v) 0 a mod p25519)%Z.

(** One step of the ladder, for one bit of the scalar. *)
Definition ladder_step (x1 : list int) (bit : bool) (s : list int * list int * list int * list int)
    : list int * list int * list int * list int :=
  let '(x2, z2, x3, z3) := s in
  let '(x2, z2, x3, z3) := if bit then (x3, z3, x2, z2) else (x2, z2, x3, z3) in
  let a := fadd x2 z2 in
  let aa := fmul a a in
  let b := fsub x2 z2 in
  let bb := fmul b b in
  let e := fsub aa bb in
  let da := fmul (fsub x3 z3) a in
  let cb := fmul (fadd x3 z3) b in
  let sum := fadd da cb in
  let diff := fsub da cb in
  let x3 := fmul sum sum in
  let z3 := fmul x1 (fmul diff diff) in
  let x2 := fmul aa bb in
  let z2 := fmul e (fadd aa (fmul (field_of_Z 121665) e)) in
  if bit then (x3, z3, x2, z2) else (x2, z2, x3, z3).

(** The bits of a scalar from 254 down to 0, clamped as RFC 7748 says. *)
Definition scalar_bits (k : bytes) : list bool :=
  let n := Z.of_N (le_value k) in
  (λ i, match i with
        | 0 | 1 | 2 => false
        | 254 => true
        | _ => Z.testbit n (Z.of_nat i)
        end) <$> reverse (seq 0 255).

Definition x25519 (k u : bytes) : bytes :=
  let x1 := field_of_Z (Z.land (Z.of_N (le_value u)) (2 ^ 255 - 1) mod p25519) in
  let '(x2, z2, _, _) :=
    foldl (λ s bit, ladder_step x1 bit s) (field_of_Z 1, field_of_Z 0, x1, field_of_Z 1) (scalar_bits k) in
  le_bytes 32 (Z.to_N (Z_of_field (fmul x2 (fpow z2 (Z.to_pos (p25519 - 2)))))).

Definition x25519_base : bytes := le_bytes 32 9.

(** BoringSSL refuses a shared secret of zeros. *)
Definition x25519_shared (sk pk : bytes) : option bytes :=
  let dh := x25519 sk pk in
  if bool_decide (dh = zeros 32) then None else Some dh.

(** ** Their own test vectors *)

Definition hex_digit (c : byte) : option N :=
  let n := Byte.to_N c in
  if ((48 <=? n) && (n <=? 57))%N then Some (n - 48)%N
  else if ((97 <=? n) && (n <=? 102))%N then Some (n - 87)%N else None.

(** [hex::decode(s)] on lower-case digits. *)
Fixpoint hex_decode_bytes (s : bytes) : option bytes :=
  match s with
  | [] => Some []
  | [_] => None
  | c :: d :: s =>
      x ← hex_digit c; y ← hex_digit d; rest ← hex_decode_bytes s;
      Some (byte_of_N (16 * x + y) :: rest)
  end.
Definition hex_decode (s : string) : option bytes := hex_decode_bytes (lit s).

Definition hex_encode_digit (n : N) : byte := byte_of_N (if (n <? 10)%N then n + 48 else n + 87).
Definition hex_encode (b : bytes) : string :=
  String.string_of_list_byte
    (concat ((λ x, let n := Byte.to_N x in [hex_encode_digit (n / 16); hex_encode_digit (n mod 16)]) <$> b)).

Example sha256_abc :
  hex_encode (sha256 (lit "abc")) = "ba7816bf8f01cfea414140de5dae2223b00361a396177a9cb410ff61f20015ad".
Proof. vm_compute. reflexivity. Qed.

(** RFC 7748, section 5.2. *)
Example x25519_vector :
  (k ← hex_decode "a546e36bf0527c9d3b16154b82465edd62144c0ac1fc5a18506a2244ba449ac4";
   u ← hex_decode "e6db6867583030db3594c1a424b15f7c726624ec26b3353b10a903a6d0ab1c4c";
   Some (hex_encode (x25519 k u))) =
  Some "c3da55379de9c6908e94ea4df28d084f32eccf03491c71f754b4075577a28552"%string.
Proof. vm_compute. reflexivity. Qed.
