(* ===== verification/SecretBox.v ===== *)
(** * Heap secrets: km_common/src/crypto/secret_box.rs

    A [SecretBox] owns exactly the secret's bytes.  Its constructor takes a
    [Vec], whose buffer may be larger than its contents; whatever buffer is
    given back is overwritten first. *)

From S2P Require Import Prelude Effects RustStd Proto Platform.

(** A [Vec<u8>]: the whole allocation and how much of it is in use. *)
Record Vec := mkVec { vec_buf : bytes; vec_len : nat }.

Definition Vec_capacity (v : Vec) : nat := length (vec_buf v).
Definition Vec_as_slice (v : Vec) : bytes := take (vec_len v) (vec_buf v).
Definition Vec_wf (v : Vec) : Prop := vec_len v ≤ Vec_capacity v.

(** [slice.to_vec()], [[..].concat()], [vec![..]]: an allocation of the exact size. *)
Definition Vec_exact (b : bytes) : Vec := mkVec b (length b).
(** A [Vec] another crate returns: its allocation may go on past the contents. *)
Definition Vec_spare (b spare : bytes) : Vec := mkVec (b ++ spare) (length b).

Record SecretBox := mkSecretBox { SecretBox_as_slice : bytes }.

#[export] Instance SecretBox_eq_dec : EqDecision SecretBox.
Proof. solve_decision. Defined.

Section secret_box.
Context `{Platform}.

Definition SecretBox_new {E} (data : Vec) : M Sys E SecretBox :=
  if vec_len data <? Vec_capacity data then
    let b := Vec_as_slice data in
    do* modify (release (zeroize (vec_buf data)));
    ret (mkSecretBox b)
  else ret (mkSecretBox (vec_buf data)).

(** [AsRef<[u8]>] and [From<Vec<u8>>] *)
Definition SecretBox_as_ref (b : SecretBox) : bytes := SecretBox_as_slice b.
Definition SecretBox_from_vec {E} (data : Vec) : M Sys E SecretBox := SecretBox_new data.

(** [secret.as_mut_slice()[i] = v]: a write through the slice, which cannot change
    its length; past the end it panics. *)
Definition SecretBox_as_mut_slice {E} (b : SecretBox) (i : nat) (v : byte) : M Sys E SecretBox :=
  if i <? length (SecretBox_as_slice b) then ret (mkSecretBox (<[i := v]> (SecretBox_as_slice b))) else panic.

(** [Drop]: the buffer is overwritten, then freed. *)
Definition SecretBox_drop (b : SecretBox) (s : Sys) : Sys :=
  release (zeroize (SecretBox_as_slice b)) s.

(** The scope of a local [SecretBox]: dropped however the scope is left. *)
Definition with_secret {E A} (b : SecretBox) (body : M Sys E A) : M Sys E A :=
  finally body (SecretBox_drop b).
End secret_box.

Notation "'let_secret' x := m 'in' k" := (bind m (λ x, with_secret x k))
  (at level 10, x name, m at level 100, k at level 200) : kpm_scope.

(** ** Properties *)

Section properties.
Context `{PlatformLaws} {E : Type}.

Lemma zeroize_all_zero b : all_zero (zeroize b).
Proof. rewrite zeroize_zeros. apply zeros_all_zero. Qed.
#[local] Hint Resolve zeroize_all_zero : steps.

Lemma steps_SecretBox_drop b s : sys_le s (SecretBox_drop b s).
Proof. apply sys_le_release_zero, zeroize_all_zero. Qed.

Lemma steps_SecretBox_new data : Steps sys_le (@SecretBox_new _ E data).
Proof.
  unfold SecretBox_new. destruct (_ <? _); [|eauto with steps typeclass_instances].
  apply steps_bind; [apply _| |eauto with steps typeclass_instances].
  apply steps_modify. eauto with steps.
Qed.

Lemma steps_with_secret {A} b (m : M Sys E A) : Steps sys_le m → Steps sys_le (with_secret b m).
Proof. intros Hm. apply steps_finally; [apply _|done|apply steps_SecretBox_drop]. Qed.

Lemma SecretBox_new_exact b s : @SecretBox_new _ E (Vec_exact b) s = (Ok (mkSecretBox b), s).
Proof. unfold SecretBox_new, Vec_capacity, Vec_exact. simpl. by rewrite Nat.ltb_irrefl. Qed.

Lemma outcome_SecretBox_new_exact b : Outcome_is (@SecretBox_new _ E (Vec_exact b)) (Ok (mkSecretBox b)).
Proof. intros s. by rewrite SecretBox_new_exact. Qed.

Lemma outcome_with_secret {A} b (m : M Sys E A) o : Outcome_is m o → Outcome_is (with_secret b m) o.
Proof. apply outcome_finally. Qed.

(** The box holds the vector's contents whatever its capacity, and the only
    buffer given back, if any, is the vector's, overwritten over its whole
    capacity. *)
Lemma SecretBox_new_spec v s :
  Vec_wf v →
  ∃ s', @SecretBox_new _ E v s = (Ok (mkSecretBox (Vec_as_slice v)), s') ∧
    (s' = s ∨ vec_len v < Vec_capacity v ∧ s' = release (zeros (Vec_capacity v)) s).
Proof.
  intros Hwf. unfold SecretBox_new, Vec_wf, Vec_as_slice, Vec_capacity in *.
  destruct (Nat.ltb_spec (vec_len v) (length (vec_buf v))).
  - eexists. split; [reflexivity|]. rewrite zeroize_zeros. auto.
  - eexists. split; [|by left]. rewrite take_ge by lia. done.
Qed.

Lemma SecretBox_new_spare b spare s :
  ∃ s', @SecretBox_new _ E (Vec_spare b spare) s = (Ok (mkSecretBox b), s') ∧
    (s' = s ∨ s' = release (zeros (length (b ++ spare))) s).
Proof.
  destruct (SecretBox_new_spec (Vec_spare b spare) s) as (s'&Hr&Hs).
  { unfold Vec_wf, Vec_capacity. cbn. rewrite length_app. lia. }
  exists s'. unfold Vec_as_slice in Hr. cbn in Hr. rewrite take_app_length in Hr. split; [done|].
  destruct Hs as [->|[_ ->]]; auto.
Qed.

Lemma outcome_SecretBox_new_spare b spare :
  Outcome_is (@SecretBox_new _ E (Vec_spare b spare)) (Ok (mkSecretBox b)).
Proof. intros s. by destruct (SecretBox_new_spare b spare s) as (s'&->&_). Qed.

Lemma with_secret_run {A} b (m : M Sys E A) s o s' :
  m s = (o, s') → with_secret b m s = (o, SecretBox_drop b s').
Proof. unfold with_secret, finally. by intros ->. Qed.
End properties.

#[export] Hint Resolve zeroize_all_zero steps_SecretBox_drop steps_SecretBox_new
  steps_with_secret : steps.
