(* ===== verification/ProtectedMem.v ===== *)
(** * Memory protection with [memfd_secret]: km_common/src/protected_mem.rs

    A [Vault] holds a copy of a secret in a mapping of a secret memory file.
    Creating one is a sequence of system calls that may each fail; the
    descriptor is closed and the source secret is overwritten on every path. *)

From S2P Require Import Prelude Effects RustStd Proto Platform SecretBox.

Record Vault := mkVault { mmap : bytes }.

#[export] Instance Vault_eq_dec : EqDecision Vault.
Proof. solve_decision. Defined.

(** [std::io::Error], of which only the presence matters to the callers. *)
Inductive IoError := IoError_last_os_error.

Section vault.
Context `{Platform}.

(** The life of a [File]: open from here, closed when the scope is left. *)
Definition with_file {A} (fd : Z) (body : M Sys IoError A) : M Sys IoError A :=
  do* modify (set_fds (union {[fd]}));
  finally body (set_fds (λ fds, fds ∖ {[fd]})).

Definition Vault_new (data : SecretBox) : M Sys IoError Vault :=
  with_secret data
   (let* n := syscall in
    let* fds := gets open_fds in
    let fd := memfd_secret n fds in
    if (fd <? 0)%Z then throw IoError_last_os_error
    else
      with_file fd
       (let* n := syscall in
        if set_len n fd (lenN (SecretBox_as_slice data)) then
          let* n := syscall in
          match map_mut n fd (lenN (SecretBox_as_slice data)) with
          | None => throw IoError_last_os_error
          | Some mapping =>
              (* mmap.copy_from_slice(data.as_slice()) *)
              if (lenN mapping =? lenN (SecretBox_as_slice data))%N
              then ret (mkVault (SecretBox_as_slice data))
              else panic
          end
        else throw IoError_last_os_error)).

Definition Vault_get_secret {E} (v : Vault) : M Sys E SecretBox :=
  SecretBox_new (Vec_exact (mmap v)).

(** [Debug] and [Display] write the same word whatever the vault holds: what a
    formatter has written so far grows by [REDACTED] (km_common/src/lib.rs). *)
Definition REDACTED : string := "[REDACTED]".
Definition fmt_redacted (f : string) : string := String.append f REDACTED.
Definition Vault_fmt (self : Vault) (f : string) : string := fmt_redacted f.

(** [Drop]: the mapping is overwritten, then unmapped. *)
Definition Vault_drop (v : Vault) (s : Sys) : Sys := release (zeroize (mmap v)) s.
End vault.

(** ** Properties *)

Section properties.
Context `{PlatformLaws}.

Lemma steps_Vault_drop v s : sys_le s (Vault_drop v s).
Proof. apply sys_le_release_zero. rewrite zeroize_zeros. apply zeros_all_zero. Qed.

Lemma Vault_get_secret_run E v s :
  @Vault_get_secret _ E v s = (Ok (mkSecretBox (mmap v)), s).
Proof. apply SecretBox_new_exact. Qed.

Lemma steps_Vault_get_secret E v : Steps sys_le (@Vault_get_secret _ E v).
Proof. apply steps_SecretBox_new. Qed.

Lemma fds_close_opened fd (fds : gset Z) : fd ∉ fds → ({[fd]} ∪ fds) ∖ {[fd]} = fds.
Proof.
  intros Hfd. rewrite difference_union_distr_l_L, difference_diag_L, (left_id_L ∅ (∪)).
  apply difference_disjoint_L, disjoint_singleton_r, Hfd.
Qed.

(** The body of [with_file] may not touch the descriptors. *)
Lemma steps_with_file {A} fd (body : M Sys IoError A) s :
  Steps sys_le body → fd ∉ open_fds s → sys_le s (snd (with_file fd body s)).
Proof.
  intros Hb Hfd. unfold with_file, bind, modify, finally. simpl.
  pose proof (Hb (set_fds (union {[fd]}) s)) as Hs.
  destruct (body _) as [o s']. simpl in *.
  destruct Hs as [? ? Hf ?]. simpl in *. constructor; simpl; [done..| |done].
  rewrite Hf. by apply fds_close_opened.
Qed.

Lemma steps_Vault_new data : Steps sys_le (Vault_new data).
Proof.
  unfold Vault_new. apply steps_with_secret.
  apply steps_bind; [apply _|apply steps_syscall|]. intros n s.
  rewrite bind_gets. cbv zeta.
  destruct (Z.ltb_spec (memfd_secret n (open_fds s)) 0); [reflexivity|].
  apply steps_with_file; [|by apply memfd_secret_fresh]. steps_go.
Qed.

(** Creation either fails with an I/O error or yields a vault with exactly
    the secret; the panic of [copy_from_slice] is unreachable. *)
Lemma Vault_new_outcome data s :
  fst (Vault_new data s) = Err IoError_last_os_error ∨
  fst (Vault_new data s) = Ok (mkVault (SecretBox_as_slice data)).
Proof.
  unfold Vault_new, with_secret, with_file, finally, bind, gets, modify, throw, ret, panic. simpl.
  destruct (Z.ltb _ 0); simpl; [auto|].
  match goal with |- context [if set_len ?n ?f ?l then _ else _] => destruct (set_len n f l) end;
    simpl; [|auto].
  match goal with |- context [map_mut ?n ?f ?l] => destruct (map_mut n f l) as [b|] eqn:Hm end;
    simpl; [|auto].
  apply map_mut_length in Hm. rewrite Hm, N.eqb_refl. simpl. auto.
Qed.

(** It reads neither the clock nor the random generator. *)
Lemma Vault_new_clock data s : clock_reads (snd (Vault_new data s)) = clock_reads s.
Proof.
  unfold Vault_new, with_secret, with_file, finally, bind, gets, modify, throw, ret, panic. simpl.
  destruct (Z.ltb _ 0); simpl; [done|].
  match goal with |- context [if set_len ?n ?f ?l then _ else _] => destruct (set_len n f l) end;
    simpl; [|done].
  match goal with |- context [map_mut ?n ?f ?l] => destruct (map_mut n f l) as [b|] end;
    simpl; [|done].
  by destruct (N.eqb _ _).
Qed.

(** On every path the source secret is overwritten, once, and nothing else is
    given back; the descriptors are those that were open. *)
Lemma Vault_new_released data s :
  released (snd (Vault_new data s)) = zeros (length (SecretBox_as_slice data)) :: released s ∧
  open_fds (snd (Vault_new data s)) = open_fds s.
Proof.
  split; [|apply steps_Vault_new].
  rewrite <- zeroize_zeros.
  unfold Vault_new, with_secret, with_file, finally, bind, gets, modify, throw, ret, panic. simpl.
  destruct (Z.ltb _ 0); simpl; [done|].
  match goal with |- context [if set_len ?n ?f ?l then _ else _] => destruct (set_len n f l) end;
    simpl; [|done].
  match goal with |- context [map_mut ?n ?f ?l] => destruct (map_mut n f l) as [b|] end;
    simpl; [|done].
  by destruct (N.eqb _ _).
Qed.

Lemma Vault_new_ok_inv data s v s' :
  Vault_new data s = (Ok v, s') → mmap v = SecretBox_as_slice data.
Proof.
  intros Hr. destruct (Vault_new_outcome data s) as [Ho|Ho]; rewrite Hr in Ho; by simplify_eq/=.
Qed.
End properties.

#[export] Hint Resolve steps_Vault_drop steps_Vault_get_secret steps_Vault_new : steps.
