(* ===== verification/X25519.v ===== *)
(** * X25519 keys: km_common/src/crypto/x25519.rs

    DHKEM(X25519, HKDF-SHA256) decapsulation, written out in the module over
    the primitives of bssl-crypto, and HPKE seal/open, which BoringSSL does.
    The traits [PublicKeyOps] and [PrivateKeyOps] of km_common/src/crypto.rs
    are classes here; this file holds the X25519 instances. *)

From S2P Require Import Prelude Effects RustStd Proto Platform SecretBox.

(** [X25519PublicKey([u8; 32])]. *)
Record X25519PublicKey := mkX25519PublicKey { X25519PublicKey_as_bytes : bytes }.
(** [X25519PrivateKey(SecretBox)]. *)
Record X25519PrivateKey := mkX25519PrivateKey { X25519PrivateKey_secret : SecretBox }.

#[export] Instance X25519PublicKey_eq_dec : EqDecision X25519PublicKey.
Proof. solve_decision. Defined.

(** [PublicKey] and [PrivateKey] of crypto.rs: one variant each. *)
Inductive PublicKey := PublicKey_X25519 (pk : X25519PublicKey).
Inductive PrivateKey := PrivateKey_X25519 (sk : X25519PrivateKey).

#[export] Instance PublicKey_eq_dec : EqDecision PublicKey.
Proof. solve_decision. Defined.

Class PublicKeyOps `{Platform} (K : Type) := {
  hpke_seal_internal : K → SecretBox → bytes → HpkeAlgorithm → M Sys Status (bytes * bytes);
  encap_internal : K → option PrivateKey → M Sys Status (SecretBox * bytes);
  as_bytes : K → bytes;
}.

Class PrivateKeyOps `{Platform} (K : Type) := {
  decaps_internal : K → bytes → M Sys Status SecretBox;
  hpke_open_internal : K → bytes → bytes → bytes → HpkeAlgorithm → M Sys Status SecretBox;
}.

(** [[b'K', b'E', b'M', 0, 0x20]] *)
Definition kem_suite_id : bytes :=
  [Init.Byte.x4b; Init.Byte.x45; Init.Byte.x4d; x00; Init.Byte.x20].

Section x25519.
Context `{Platform}.

Definition labeled_extract {E} (salt label ikm suite_id : bytes) : M Sys E Prk :=
  let_secret labeled_ikm := SecretBox_new (Vec_exact (lit "HPKE-v1" ++ suite_id ++ label ++ ikm)) in
  ret (Hkdf_extract (SecretBox_as_slice labeled_ikm) salt).

Definition labeled_expand (prk : Prk) (label info suite_id : bytes) (len : N) : M Sys Status SecretBox :=
  let_secret labeled_info :=
    SecretBox_new (Vec_exact (be_bytes 2 len ++ lit "HPKE-v1" ++ suite_id ++ label ++ info)) in
  let* result := ok_or (Hkdf_expand_into prk (SecretBox_as_slice labeled_info) (N.to_nat len))
                   DecapsulationFailure in
  SecretBox_new (Vec_exact result).

(** [x25519::PrivateKey(slice.try_into().map_err(|_| e)?)]: a 32-byte array or an error. *)
Definition try_into_array32 {E} (b : bytes) (e : E) : M Sys E bytes :=
  if (lenN b =? 32)%N then ret b else throw e.

Definition x25519_hpke_seal_internal (self : X25519PublicKey) (plaintext : SecretBox) (aad : bytes)
    (algo : HpkeAlgorithm) : M Sys Status (bytes * bytes) :=
  if negb (suite_supported algo) then throw UnsupportedAlgorithm
  else
    let* n := draw in
    let* ' (sender_ctx, encapsulated_key) :=
      ok_or (SenderContext_new n hpke_params (X25519PublicKey_as_bytes self) []) EncryptionFailure in
    let ciphertext := snd (SenderContext_seal sender_ctx (SecretBox_as_slice plaintext) aad) in
    ret (encapsulated_key, ciphertext).

(** The ephemeral key's [Vec] becomes an array; its buffer is freed as it is (the
    function is compiled for tests only). *)
Definition x25519_encap_internal (self : X25519PublicKey) (ephemeral_sk : option PrivateKey)
    : M Sys Status (SecretBox * bytes) :=
  let* ' (pk_e_bytes, sk_e_bytes) :=
    match ephemeral_sk with
    | Some (PrivateKey_X25519 sk) =>
        let* sk_e := try_into_array32 (SecretBox_as_slice (X25519PrivateKey_secret sk)) InvalidArgument in
        ret (X25519_to_public sk_e, SecretBox_as_slice (X25519PrivateKey_secret sk))
    | None => let* n := draw in ret (Kem_generate_keypair n)
    end in
  let* sk_e := finally (try_into_array32 sk_e_bytes CryptoError) (release sk_e_bytes) in
  let pk_r := X25519PublicKey_as_bytes self in
  let* dh := ok_or (X25519_compute_shared_key sk_e pk_r) CryptoError in
  let_secret shared_key := SecretBox_new (Vec_exact dh) in
  let* prk := labeled_extract [] (lit "eae_prk") (SecretBox_as_slice shared_key) kem_suite_id in
  let info := pk_e_bytes ++ pk_r in
  let* shared_secret := labeled_expand prk (lit "shared_secret") info kem_suite_id 32 in
  ret (shared_secret, pk_e_bytes).

Definition x25519_decaps_internal (self : X25519PrivateKey) (enc : bytes) : M Sys Status SecretBox :=
  let* priv_key := try_into_array32 (SecretBox_as_slice (X25519PrivateKey_secret self)) InvalidArgument in
  let* enc32 := try_into_array32 enc DecapsulationFailure in
  let* dh := ok_or (X25519_compute_shared_key priv_key enc32) DecapsulationFailure in
  let_secret shared_key := SecretBox_new (Vec_exact dh) in
  let* prk := labeled_extract [] (lit "eae_prk") (SecretBox_as_slice shared_key) kem_suite_id in
  let pub_key := X25519_to_public priv_key in
  let info := enc ++ pub_key in
  labeled_expand prk (lit "shared_secret") info kem_suite_id 32.

Definition x25519_hpke_open_internal (self : X25519PrivateKey) (enc ciphertext aad : bytes)
    (algo : HpkeAlgorithm) : M Sys Status SecretBox :=
  if negb (suite_supported algo) then throw UnsupportedAlgorithm
  else
    let* recipient_ctx :=
      ok_or (RecipientContext_new hpke_params (SecretBox_as_slice (X25519PrivateKey_secret self)) enc [])
        DecryptionFailure in
    let* plaintext := ok_or (snd (RecipientContext_open recipient_ctx ciphertext aad)) DecryptionFailure in
    SecretBox_new (Vec_spare plaintext (RecipientContext_open_spare recipient_ctx ciphertext aad)).

#[export] Instance X25519PublicKey_ops : PublicKeyOps X25519PublicKey := {|
  hpke_seal_internal := x25519_hpke_seal_internal;
  encap_internal := x25519_encap_internal;
  as_bytes := X25519PublicKey_as_bytes;
|}.

#[export] Instance X25519PrivateKey_ops : PrivateKeyOps X25519PrivateKey := {|
  decaps_internal := x25519_decaps_internal;
  hpke_open_internal := x25519_hpke_open_internal;
|}.

(** [expect] panics unless BoringSSL returned a 32-byte public key. *)
Definition x25519_generate_keypair {E} : M Sys E (X25519PublicKey * X25519PrivateKey) :=
  let* n := draw in
  let '(pk, sk) := Kem_generate_keypair n in
  if (lenN pk =? 32)%N then
    let* secret := SecretBox_new (Vec_spare sk (Kem_generate_keypair_spare n)) in
    ret (mkX25519PublicKey pk, mkX25519PrivateKey secret)
  else panic.
End x25519.

(** ** The specification: RFC 9180, section 4.1 *)

Section rfc9180.
Context `{Platform}.

(** I2OSP(n, w) *)
Definition I2OSP (n : N) (w : nat) : bytes := be_bytes w n.

Definition LabeledExtract (suite_id salt label ikm : bytes) : Prk :=
  Hkdf_extract (lit "HPKE-v1" ++ suite_id ++ label ++ ikm) salt.

Definition LabeledExpand (suite_id : bytes) (prk : Prk) (label info : bytes) (L : N) : option bytes :=
  Hkdf_expand_into prk (I2OSP L 2 ++ lit "HPKE-v1" ++ suite_id ++ label ++ info) (N.to_nat L).

(** ExtractAndExpand(dh, kem_context), with suite_id = "KEM" || I2OSP(kem_id, 2),
    kem_id = 0x0020 and Nsecret = 32. *)
Definition ExtractAndExpand (dh kem_context : bytes) : option bytes :=
  let suite_id := lit "KEM" ++ I2OSP 32 2 in
  let eae_prk := LabeledExtract suite_id [] (lit "eae_prk") dh in
  LabeledExpand suite_id eae_prk (lit "shared_secret") kem_context 32.

(** Decap(enc, skR) *)
Definition Decap (enc skR : bytes) : option bytes :=
  dh ← X25519_compute_shared_key skR enc;
  ExtractAndExpand dh (enc ++ X25519_to_public skR).

(** Encap(pkR) with the ephemeral key skE: the shared secret and enc. *)
Definition Encap (pkR skE : bytes) : option (bytes * bytes) :=
  dh ← X25519_compute_shared_key skE pkR;
  let enc := X25519_to_public skE in
  ss ← ExtractAndExpand dh (enc ++ pkR);
  Some (ss, enc).
End rfc9180.

(** ** The code implements the specification *)

Lemma kem_suite_id_spec : kem_suite_id = lit "KEM" ++ I2OSP 32 2.
Proof. reflexivity. Qed.

Section correctness.
Context `{PlatformLaws}.

Lemma steps_labeled_extract E salt label ikm sid : Steps sys_le (@labeled_extract _ E salt label ikm sid).
Proof. unfold labeled_extract. steps_go. Qed.
Lemma steps_labeled_expand prk label info sid len : Steps sys_le (labeled_expand prk label info sid len).
Proof. unfold labeled_expand. steps_go. Qed.
Lemma steps_try_into_array32 E R `{!Reflexive R} b (e : E) : Steps R (@try_into_array32 E b e).
Proof. unfold try_into_array32. steps_go. Qed.
#[local] Hint Resolve steps_labeled_extract steps_labeled_expand steps_try_into_array32 : steps.

Lemma steps_x25519_hpke_seal_internal pk pt aad algo :
  Steps sys_le (x25519_hpke_seal_internal pk pt aad algo).
Proof. unfold x25519_hpke_seal_internal. steps_go. Qed.
Lemma steps_x25519_hpke_open_internal sk enc ct aad algo :
  Steps sys_le (x25519_hpke_open_internal sk enc ct aad algo).
Proof. unfold x25519_hpke_open_internal. steps_go. Qed.
Lemma steps_x25519_decaps_internal sk enc : Steps sys_le (x25519_decaps_internal sk enc).
Proof. unfold x25519_decaps_internal. steps_go. Qed.
Lemma steps_x25519_generate_keypair E : Steps sys_le (@x25519_generate_keypair _ E).
Proof. unfold x25519_generate_keypair. steps_go. Qed.

Lemma outcome_labeled_extract E salt label ikm sid :
  Outcome_is (@labeled_extract _ E salt label ikm sid) (Ok (LabeledExtract sid salt label ikm)).
Proof.
  unfold labeled_extract. eapply outcome_bind; [apply outcome_SecretBox_new_exact|].
  apply outcome_with_secret, outcome_ret.
Qed.

Lemma outcome_labeled_expand prk label info sid len :
  Outcome_is (labeled_expand prk label info sid len)
    (match LabeledExpand sid prk label info len with
     | Some b => Ok (mkSecretBox b)
     | None => Err DecapsulationFailure
     end).
Proof.
  unfold labeled_expand. eapply outcome_bind; [apply outcome_SecretBox_new_exact|].
  apply outcome_with_secret. unfold LabeledExpand, I2OSP. cbn [SecretBox_as_slice].
  destruct (Hkdf_expand_into _ _ _) as [b|]; [|apply outcome_bind_err, outcome_throw].
  eapply outcome_bind; [apply outcome_ret|apply outcome_SecretBox_new_exact].
Qed.

Lemma outcome_try_into_array32 E b (e : E) :
  Outcome_is (@try_into_array32 E b e) (if decide (length b = 32) then Ok b else Err e).
Proof.
  intros s. unfold try_into_array32.
  destruct (N.eqb_spec (lenN b) 32); case_decide; unfold lenN in *; done || lia.
Qed.

(** The shared part of both directions: from the Diffie-Hellman result to the secret. *)
Lemma outcome_extract_and_expand dh ctx :
  Outcome_is
    (let_secret shared_key := SecretBox_new (Vec_exact dh) in
     let* prk := labeled_extract [] (lit "eae_prk") (SecretBox_as_slice shared_key) kem_suite_id in
     labeled_expand prk (lit "shared_secret") ctx kem_suite_id 32)
    (match ExtractAndExpand dh ctx with
     | Some b => Ok (mkSecretBox b)
     | None => Err DecapsulationFailure
     end).
Proof.
  eapply outcome_bind; [apply outcome_SecretBox_new_exact|]. apply outcome_with_secret.
  eapply outcome_bind; [apply outcome_labeled_extract|]. apply outcome_labeled_expand.
Qed.

Lemma ExtractAndExpand_ok dh ctx :
  ∃ ss, ExtractAndExpand dh ctx = Some ss ∧ length ss = 32.
Proof. apply expand_ok. simpl. lia. Qed.

(** Decapsulation is RFC 9180's Decap, with the module's error for each failure. *)
Lemma outcome_decaps sk enc :
  Outcome_is (x25519_decaps_internal sk enc)
    (let skR := SecretBox_as_slice (X25519PrivateKey_secret sk) in
     if decide (length skR = 32) then
       if decide (length enc = 32) then
         match Decap enc skR with
         | Some ss => Ok (mkSecretBox ss)
         | None => Err DecapsulationFailure
         end
       else Err DecapsulationFailure
     else Err InvalidArgument).
Proof.
  unfold x25519_decaps_internal. cbv zeta.
  pose proof (outcome_try_into_array32 Status (SecretBox_as_slice (X25519PrivateKey_secret sk))
                InvalidArgument) as Hsk.
  case_decide; [eapply outcome_bind; [exact Hsk|]|by apply outcome_bind_err].
  pose proof (outcome_try_into_array32 Status enc DecapsulationFailure) as Henc.
  case_decide; [eapply outcome_bind; [exact Henc|]|by apply outcome_bind_err].
  unfold Decap. destruct (X25519_compute_shared_key _ _) as [dh|]; simpl;
    [|apply outcome_bind_err, outcome_throw].
  eapply outcome_bind; [apply outcome_ret|]. apply outcome_extract_and_expand.
Qed.

(** Encapsulation, once the ephemeral pair is chosen, is RFC 9180's Encap. *)
Lemma outcome_encap_with pk_r pk_e sk_e :
  length sk_e = 32 →
  Outcome_is
    (let* sk_e := finally (try_into_array32 sk_e CryptoError) (release sk_e) in
     let* dh := ok_or (X25519_compute_shared_key sk_e pk_r) CryptoError in
     let_secret shared_key := SecretBox_new (Vec_exact dh) in
     let* prk := labeled_extract [] (lit "eae_prk") (SecretBox_as_slice shared_key) kem_suite_id in
     let* shared_secret := labeled_expand prk (lit "shared_secret") (pk_e ++ pk_r) kem_suite_id 32 in
     ret (shared_secret, pk_e))
    (match X25519_compute_shared_key sk_e pk_r with
     | None => Err CryptoError
     | Some dh => match ExtractAndExpand dh (pk_e ++ pk_r) with
                  | Some ss => Ok (mkSecretBox ss, pk_e)
                  | None => Err DecapsulationFailure
                  end
     end).
Proof.
  intros Hl. pose proof (outcome_try_into_array32 Status sk_e CryptoError) as Hsk.
  rewrite decide_True in Hsk by done. eapply outcome_bind; [apply outcome_finally, Hsk|].
  destruct (X25519_compute_shared_key sk_e pk_r) as [dh|]; simpl;
    [|apply outcome_bind_err, outcome_throw].
  eapply outcome_bind; [apply outcome_ret|].
  eapply outcome_bind; [apply outcome_SecretBox_new_exact|]. apply outcome_with_secret.
  eapply outcome_bind; [apply outcome_labeled_extract|].
  pose proof (outcome_labeled_expand (LabeledExtract kem_suite_id [] (lit "eae_prk") dh)
                (lit "shared_secret") (pk_e ++ pk_r) kem_suite_id 32) as Hexp.
  unfold ExtractAndExpand. rewrite <- kem_suite_id_spec. cbn [SecretBox_as_slice].
  destruct (LabeledExpand _ _ _ _ _) as [ss|]; [|by apply outcome_bind_err].
  eapply outcome_bind; [exact Hexp|apply outcome_ret].
Qed.

Lemma x25519_encap_Encap pk s ss enc :
  fst (x25519_encap_internal pk None s) = Ok (ss, enc) →
  ∃ skE, length skE = 32 ∧
    Encap (X25519PublicKey_as_bytes pk) skE = Some (SecretBox_as_slice ss, enc).
Proof.
  pose proof (keypair_lengths (entropy s)) as [_ Hls].
  pose proof (keypair_public (entropy s)) as Hpub.
  unfold x25519_encap_internal. rewrite bind_assoc.
  rewrite bind_draw, bind_ret.
  destruct (Kem_generate_keypair (entropy s)) as [pkE skE]. simpl in *. subst pkE.
  rewrite (outcome_encap_with _ _ _ Hls). intros Hr. exists skE. split; [done|].
  unfold Encap. destruct (X25519_compute_shared_key skE _) as [dh|]; simpl in *; [|done].
  destruct (ExtractAndExpand dh _) as [ss'|]; simpl in *; by simplify_eq/=.
Qed.

(** Whoever encapsulated to [pk(skR)] shares the secret with the holder of [skR]. *)
Lemma Encap_Decap skR skE ss enc :
  length skR = 32 → length skE = 32 →
  Encap (X25519_to_public skR) skE = Some (ss, enc) →
  length enc = 32 ∧ Decap enc skR = Some ss.
Proof.
  intros HR HE Henc. unfold Encap, Decap in *. rewrite dh_agree in Henc by done.
  destruct (X25519_compute_shared_key skR (X25519_to_public skE)) as [dh|] eqn:Hdh; [|done].
  simpl in Henc. destruct (ExtractAndExpand dh _) as [ss'|] eqn:Hss; simplify_eq/=.
  split; [by apply to_public_length|]. by rewrite Hdh.
Qed.
End correctness.

#[export] Hint Resolve steps_x25519_hpke_seal_internal steps_x25519_hpke_open_internal
  steps_x25519_decaps_internal steps_x25519_generate_keypair : steps.
