(* ===== verification/Crypto.v ===== *)
(** * Cryptographic entry points: km_common/src/crypto.rs

    The [PublicKey]/[PrivateKey] enums dispatch to the X25519 implementations,
    and every public function runs with its stack cleared on return. *)

From S2P Require Import Prelude Effects RustStd Proto Platform SecretBox X25519.

Definition CLEAR_STACK_PAGES : nat := 2.

Section crypto.
Context `{Platform}.

Definition PublicKey_as_bytes (self : PublicKey) : bytes :=
  match self with PublicKey_X25519 pk => as_bytes pk end.

(** [impl TryFrom<Vec<u8>> for PublicKey] *)
Definition PublicKey_try_from (value : bytes) : M Sys Status PublicKey :=
  let* b := map_err (λ _ : unit, InvalidArgument) (try_into_array32 value tt) in
  ret (PublicKey_X25519 (mkX25519PublicKey b)).

#[export] Instance PublicKey_ops : PublicKeyOps PublicKey := {|
  hpke_seal_internal self plaintext aad algo :=
    match self with PublicKey_X25519 pk => hpke_seal_internal pk plaintext aad algo end;
  encap_internal self ephemeral_sk :=
    match self with PublicKey_X25519 pk => encap_internal pk ephemeral_sk end;
  as_bytes := PublicKey_as_bytes;
|}.

(** [impl From<SecretBox> for PrivateKey] and back. *)
Definition PrivateKey_from (secret : SecretBox) : PrivateKey :=
  PrivateKey_X25519 (mkX25519PrivateKey secret).
Definition SecretBox_from (key : PrivateKey) : SecretBox :=
  match key with PrivateKey_X25519 sk => X25519PrivateKey_secret sk end.

#[export] Instance PrivateKey_ops : PrivateKeyOps PrivateKey := {|
  decaps_internal self enc :=
    match self with PrivateKey_X25519 sk => decaps_internal sk enc end;
  hpke_open_internal self enc ciphertext aad algo :=
    match self with PrivateKey_X25519 sk => hpke_open_internal sk enc ciphertext aad algo end;
|}.

Definition generate_keypair (algo : KemAlgorithm) : M Sys Status (PublicKey * PrivateKey) :=
  clear_stack_on_return CLEAR_STACK_PAGES
    (match algo with
     | DhkemX25519HkdfSha256 =>
         let* ' (pk, sk) := x25519_generate_keypair in
         ret (PublicKey_X25519 pk, PrivateKey_X25519 sk)
     | _ => throw UnsupportedAlgorithm
     end).

Definition encap (pub_key : PublicKey) : M Sys Status (SecretBox * bytes) :=
  clear_stack_on_return CLEAR_STACK_PAGES (encap_internal pub_key None).

Definition decaps (priv_key : PrivateKey) (enc : bytes) : M Sys Status SecretBox :=
  clear_stack_on_return CLEAR_STACK_PAGES (decaps_internal priv_key enc).

Definition hpke_open (priv_key : PrivateKey) (enc ciphertext aad : bytes) (algo : HpkeAlgorithm)
    : M Sys Status SecretBox :=
  clear_stack_on_return CLEAR_STACK_PAGES (hpke_open_internal priv_key enc ciphertext aad algo).

Definition hpke_seal (pub_key : PublicKey) (plaintext : SecretBox) (aad : bytes) (algo : HpkeAlgorithm)
    : M Sys Status (bytes * bytes) :=
  clear_stack_on_return CLEAR_STACK_PAGES (hpke_seal_internal pub_key plaintext aad algo).

(** The private key [sk] opens what is sealed to [pk]. *)
Definition is_key_pair (pk : PublicKey) (secret : bytes) : Prop :=
  length secret = 32 ∧ PublicKey_as_bytes pk = X25519_to_public secret.

Definition PublicKey_wf (pk : PublicKey) : Prop := length (PublicKey_as_bytes pk) = 32.

(** An HPKE message sealed with fresh randomness. *)
Definition Sealed (pk pt aad enc ct : bytes) : Prop :=
  ∃ n ctx, SenderContext_new n hpke_params pk [] = Some (ctx, enc) ∧
    ct = snd (SenderContext_seal ctx pt aad).

(** What the holder of [sk] reads in an HPKE message. *)
Definition Opened (sk enc ct aad : bytes) : option bytes :=
  r ← RecipientContext_new hpke_params sk enc [];
  snd (RecipientContext_open r ct aad).
End crypto.

#[export] Instance PublicKey_wf_dec `{Platform} pk : Decision (PublicKey_wf pk).
Proof. unfold PublicKey_wf. apply _. Defined.

Section properties.
Context `{PlatformLaws}.

Lemma steps_PublicKey_try_from v : Steps sys_le (PublicKey_try_from v).
Proof. unfold PublicKey_try_from. steps_go. apply steps_try_into_array32, _. Qed.
Lemma steps_generate_keypair algo : Steps sys_le (generate_keypair algo).
Proof. apply steps_clear_stack. steps_go. Qed.
Lemma steps_decaps sk enc : Steps sys_le (decaps sk enc).
Proof. apply steps_clear_stack. destruct sk. apply steps_x25519_decaps_internal. Qed.
Lemma steps_hpke_open sk enc ct aad algo : Steps sys_le (hpke_open sk enc ct aad algo).
Proof. apply steps_clear_stack. destruct sk. apply steps_x25519_hpke_open_internal. Qed.
Lemma steps_hpke_seal pk pt aad algo : Steps sys_le (hpke_seal pk pt aad algo).
Proof. apply steps_clear_stack. destruct pk. apply steps_x25519_hpke_seal_internal. Qed.

Lemma PublicKey_try_from_run v s :
  PublicKey_try_from v s =
    (if decide (length v = 32) then Ok (PublicKey_X25519 (mkX25519PublicKey v))
     else Err InvalidArgument, s).
Proof.
  unfold PublicKey_try_from, bind, map_err, try_into_array32, lenN.
  destruct (N.eqb_spec (N.of_nat (length v)) 32); case_decide; done || lia.
Qed.

Lemma is_key_pair_wf pk secret : is_key_pair pk secret → PublicKey_wf pk.
Proof. intros [Hl Hpk]. unfold PublicKey_wf. rewrite Hpk. by apply to_public_length. Qed.

Lemma PublicKey_wf_lenN pk : PublicKey_wf pk → lenN (PublicKey_as_bytes pk) = 32%N.
Proof. unfold PublicKey_wf, lenN. by intros ->. Qed.

(** Generation always succeeds for X25519 (the [expect] holds) and gives a key pair. *)
Lemma generate_keypair_x25519 s :
  ∃ pk secret s',
    generate_keypair DhkemX25519HkdfSha256 s = (Ok (pk, PrivateKey_from (mkSecretBox secret)), s') ∧
    is_key_pair pk secret ∧ sys_le s s' ∧
    entropy s' = S (entropy s) ∧ clock_reads s' = clock_reads s.
Proof.
  pose proof (steps_generate_keypair DhkemX25519HkdfSha256 s) as Hle.
  unfold generate_keypair in *. rewrite clear_stack_transparent in *.
  unfold x25519_generate_keypair, draw, bind in *.
  pose proof (keypair_lengths (entropy s)) as [Hpk Hsk].
  pose proof (keypair_public (entropy s)) as Hpub.
  destruct (Kem_generate_keypair (entropy s)) as [pk sk]. simpl in *.
  unfold lenN in *. rewrite Hpk in *. simpl in *.
  match goal with |- context [SecretBox_new (Vec_spare sk ?sp) ?s1] =>
    destruct (SecretBox_new_spare (E := Status) sk sp s1) as (s'&Hr&Hs') end.
  rewrite Hr in *. simpl in *. eexists _, _, _. split_and!; [reflexivity| |done|..].
  - by split.
  - by destruct Hs' as [-> | ->].
  - by destruct Hs' as [-> | ->].
Qed.

Lemma generate_keypair_unsupported algo s :
  algo ≠ DhkemX25519HkdfSha256 → generate_keypair algo s = (Err UnsupportedAlgorithm, s).
Proof. intros Hne. unfold generate_keypair. rewrite clear_stack_transparent. by destruct algo. Qed.

(** A suite other than X25519/HKDF-SHA256/AES-256-GCM is refused before any
    cryptography, in both directions. *)
Lemma hpke_seal_unsupported pk pt aad algo s :
  algo ≠ x25519_suite → hpke_seal pk pt aad algo s = (Err UnsupportedAlgorithm, s).
Proof.
  intros Hne. unfold hpke_seal. rewrite clear_stack_transparent. destruct pk. simpl.
  unfold x25519_hpke_seal_internal. by rewrite suite_supported_false.
Qed.

Lemma hpke_open_unsupported sk enc ct aad algo s :
  algo ≠ x25519_suite → hpke_open sk enc ct aad algo s = (Err UnsupportedAlgorithm, s).
Proof.
  intros Hne. unfold hpke_open. rewrite clear_stack_transparent. destruct sk. simpl.
  unfold x25519_hpke_open_internal. by rewrite suite_supported_false.
Qed.

(** Sealing under the supported suite fails only when BoringSSL cannot set up
    the sender, and its sizes are fixed. *)
Lemma hpke_seal_cases pk pt aad s :
  (fst (hpke_seal pk pt aad x25519_suite s) = Err EncryptionFailure ∧
   SenderContext_new (entropy s) hpke_params (PublicKey_as_bytes pk) [] = None) ∨
  ∃ ctx enc, SenderContext_new (entropy s) hpke_params (PublicKey_as_bytes pk) [] = Some (ctx, enc) ∧
    fst (hpke_seal pk pt aad x25519_suite s) =
      Ok (enc, snd (SenderContext_seal ctx (SecretBox_as_slice pt) aad)).
Proof.
  unfold hpke_seal. rewrite clear_stack_transparent. destruct pk as [pk]. simpl.
  unfold x25519_hpke_seal_internal. rewrite suite_supported_true. simpl.
  unfold draw, bind. simpl.
  destruct (SenderContext_new _ _ _ _) as [[ctx enc]|]; simpl; [|by left].
  right. by exists ctx, enc.
Qed.

Lemma hpke_seal_lengths pk pt aad s enc ct :
  fst (hpke_seal pk pt aad x25519_suite s) = Ok (enc, ct) →
  length enc = 32 ∧ length ct = length (SecretBox_as_slice pt) + 16.
Proof.
  intros Hr. destruct (hpke_seal_cases pk pt aad s) as [[He _]|(ctx&enc'&Hnew&He)];
    rewrite He in Hr; simplify_eq.
  split; [by eapply sender_enc_length|by eapply sender_seal_length].
Qed.

Lemma hpke_seal_sealed pk pt aad s :
  fst (hpke_seal pk pt aad x25519_suite s) = Err EncryptionFailure ∨
  ∃ enc ct, fst (hpke_seal pk pt aad x25519_suite s) = Ok (enc, ct) ∧
    Sealed (PublicKey_as_bytes pk) (SecretBox_as_slice pt) aad enc ct ∧
    length enc = 32 ∧ length ct = length (SecretBox_as_slice pt) + 16.
Proof.
  destruct (hpke_seal_cases pk pt aad s) as [[He _]|(ctx&enc&Hnew&He)]; [by left|right].
  exists enc, (snd (SenderContext_seal ctx (SecretBox_as_slice pt) aad)). split; [done|].
  split; [by exists (entropy s), ctx|]. by eapply hpke_seal_lengths.
Qed.

(** Opening is a function of the message and the key. *)
Lemma hpke_open_outcome secret enc ct aad :
  Outcome_is (hpke_open (PrivateKey_from (mkSecretBox secret)) enc ct aad x25519_suite)
    (match Opened secret enc ct aad with
     | Some pt => Ok (mkSecretBox pt)
     | None => Err DecryptionFailure
     end).
Proof.
  intros s. unfold hpke_open. rewrite clear_stack_transparent. simpl.
  unfold x25519_hpke_open_internal, Opened. rewrite suite_supported_true. simpl.
  destruct (RecipientContext_new _ _ _ _) as [r|]; [|done]. cbn [ok_or mbind option_bind].
  rewrite bind_ret. destruct (snd _) as [pt|]; [|done]. cbn [ok_or].
  rewrite bind_ret. apply outcome_SecretBox_new_spare.
Qed.

(** What was sealed to [pk(sk)] is what its holder reads. *)
Lemma Sealed_Opened secret pt aad enc ct :
  length secret = 32 → Sealed (X25519_to_public secret) pt aad enc ct →
  Opened secret enc ct aad = Some pt.
Proof.
  intros Hl (n&ctx&Hnew&->).
  destruct (hpke_correct _ _ _ _ _ pt aad Hl Hnew) as (r&Hr&Ho). unfold Opened. by rewrite Hr.
Qed.

(** HPKE round trip, whatever the states the two calls run in. *)
Lemma hpke_seal_open pk secret pt aad s enc ct :
  is_key_pair pk secret →
  fst (hpke_seal pk pt aad x25519_suite s) = Ok (enc, ct) →
  Outcome_is (hpke_open (PrivateKey_from (mkSecretBox secret)) enc ct aad x25519_suite) (Ok pt).
Proof.
  intros [Hl Hpk] Hr s2. destruct (hpke_seal_cases pk pt aad s) as [[He _]|(ctx&enc'&Hnew&He)];
    rewrite He in Hr; simplify_eq.
  rewrite Hpk in Hnew.
  destruct (hpke_correct _ _ _ _ _ (SecretBox_as_slice pt) aad Hl Hnew) as (r&Hr&Ho).
  unfold hpke_open. rewrite clear_stack_transparent. simpl.
  unfold x25519_hpke_open_internal. rewrite suite_supported_true. simpl.
  rewrite Hr. cbn [ok_or]. rewrite bind_ret, Ho. cbn [ok_or]. rewrite bind_ret, outcome_SecretBox_new_spare.
  by destruct pt.
Qed.

(** Decapsulation through the public wrapper. *)
Lemma decaps_outcome secret enc :
  length secret = 32 →
  Outcome_is (decaps (PrivateKey_from (mkSecretBox secret)) enc)
    (if decide (length enc = 32) then
       match Decap enc secret with
       | Some ss => Ok (mkSecretBox ss)
       | None => Err DecapsulationFailure
       end
     else Err DecapsulationFailure).
Proof.
  intros Hl s. unfold decaps. rewrite clear_stack_transparent. simpl.
  pose proof (outcome_decaps (mkX25519PrivateKey (mkSecretBox secret)) enc s) as Ho.
  simpl in Ho. rewrite decide_True in Ho by done. exact Ho.
Qed.

(** A secret the client encapsulated to [pk] is what [decaps] recovers. *)
Lemma encap_decaps pk secret s ss enc :
  is_key_pair pk secret →
  fst (encap pk s) = Ok (ss, enc) →
  length enc = 32 ∧ length (SecretBox_as_slice ss) = 32 ∧
  Outcome_is (decaps (PrivateKey_from (mkSecretBox secret)) enc) (Ok ss).
Proof.
  intros [Hl Hpk] Hr. unfold encap in Hr. rewrite clear_stack_transparent in Hr.
  destruct pk as [pk]. simpl in Hr, Hpk.
  destruct (x25519_encap_Encap _ _ _ _ Hr) as (skE&Hls&Henc).
  assert (length (SecretBox_as_slice ss) = 32) as Hss.
  { revert Henc. unfold Encap. destruct (X25519_compute_shared_key skE _) as [dh|]; simpl; [|done].
    match goal with |- context [ExtractAndExpand dh ?c] =>
      destruct (ExtractAndExpand_ok dh c) as (b&->&Hb) end. simpl. by intros [= -> _]. }
  rewrite Hpk in Henc. destruct (Encap_Decap _ _ _ _ Hl Hls Henc) as [Hle Hd].
  split_and!; [done|done|]. intros s2.
  rewrite (decaps_outcome secret _ Hl s2), decide_True, Hd by done. by destruct ss.
Qed.
End properties.

#[export] Hint Resolve steps_PublicKey_try_from steps_generate_keypair steps_decaps
  steps_hpke_open steps_hpke_seal : steps.
