(* ===== verification/Telemetry.v ===== *)
(** * Sanitized telemetry: km_common/src/telemetry.rs

    The operations and failures the FFI boundary reports, the process-wide
    once-cells (service name, subscriber, panic hook) and the events they emit.
    An event carries only static names, a status name and the service name. *)

From S2P Require Import Prelude Effects RustStd Proto.

(** ** Operations and failures *)

Inductive KccOperation :=
| GenerateKemKeypair
| DestroyKemKey
| EnumerateKemKeys
| DecapAndSeal
| GetKemKey
| GenerateBindingKeypair
| DestroyBindingKey
| DestroyAllBindingKeys
| Open
| EnumerateBindingKeys
| GetBindingKey.

#[export] Instance KccOperation_eq_dec : EqDecision KccOperation.
Proof. solve_decision. Defined.

Record OperationDescriptor := mkOperationDescriptor { descriptor_name : string }.

Definition KccOperation_descriptor (self : KccOperation) : OperationDescriptor :=
  match self with
  | GenerateKemKeypair => mkOperationDescriptor "generate_kem_keypair"
  | DestroyKemKey => mkOperationDescriptor "destroy_kem_key"
  | EnumerateKemKeys => mkOperationDescriptor "enumerate_kem_keys"
  | DecapAndSeal => mkOperationDescriptor "decap_and_seal"
  | GetKemKey => mkOperationDescriptor "get_kem_key"
  | GenerateBindingKeypair => mkOperationDescriptor "generate_binding_keypair"
  | DestroyBindingKey => mkOperationDescriptor "destroy_binding_key"
  | DestroyAllBindingKeys => mkOperationDescriptor "destroy_all_binding_keys"
  | Open => mkOperationDescriptor "open"
  | EnumerateBindingKeys => mkOperationDescriptor "enumerate_binding_keys"
  | GetBindingKey => mkOperationDescriptor "get_binding_key"
  end.

Definition KccOperation_as_str (self : KccOperation) : string :=
  descriptor_name (KccOperation_descriptor self).

Inductive FailureKind := FailureKind_Error | FailureKind_Panic.

Definition FailureKind_as_str (self : FailureKind) : string :=
  match self with FailureKind_Error => "error" | FailureKind_Panic => "panic" end.

Record Failure := mkFailure { operation : KccOperation; status : Status; kind : FailureKind }.

(** ** Process-wide state *)

(** One JSON line of the subscriber: target, fields and message. *)
Record Event := mkEvent { ev_target : string; ev_fields : list (string * string); ev_message : string }.

(** [SERVICE_NAME], [INIT_TELEMETRY], [PANIC_HOOK], and the events written to
    standard output, newest first. *)
Record Telemetry := mkTelemetry {
  service_name : option string;
  subscriber_set : bool;
  panic_hook_set : bool;
  events : list Event;
}.

Definition init_telemetry : Telemetry := mkTelemetry None false false [].

Definition default_service_name : string := "key_protection_service".

Definition get_service_name (t : Telemetry) : string :=
  match service_name t with Some s => s | None => default_service_name end.

(** [tracing::error!]: without a subscriber the event goes nowhere. *)
Definition emit (e : Event) (t : Telemetry) : Telemetry :=
  if subscriber_set t
  then mkTelemetry (service_name t) (subscriber_set t) (panic_hook_set t) (e :: events t)
  else t.

(** What the hook [install_sanitized_panic_hook] sets writes, once it has read the
    service name: it ignores the panic's payload. *)
Definition panic_line (name : string) : Event :=
  mkEvent "rust_kcc" [("failure_kind", "panic"); ("service.name", name)] "fatal_panic_occurred".
Definition panic_event (t : Telemetry) : Event := panic_line (get_service_name t).

Definition run_panic_hook (t : Telemetry) : Telemetry :=
  if panic_hook_set t then emit (panic_event t) t else t.

Definition install_sanitized_panic_hook (t : Telemetry) : Telemetry :=
  mkTelemetry (service_name t) (subscriber_set t) true (events t).

Definition ensure_telemetry_initialized (t : Telemetry) : Telemetry :=
  mkTelemetry (service_name t) true (panic_hook_set t) (events t).

Definition failure_line (f : Failure) (name : string) : Event :=
  mkEvent "rust_kcc"
    [("operation", KccOperation_as_str (operation f));
     ("status", Status_as_str_name (status f));
     ("failure_kind", FailureKind_as_str (kind f));
     ("service.name", name)]
    "kcc_operation_failed".
Definition failure_event (f : Failure) (t : Telemetry) : Event := failure_line f (get_service_name t).

Definition report_failure (f : Failure) (t : Telemetry) : Telemetry := emit (failure_event f t) t.

(** [OnceLock::set]: only the first call writes. *)
Definition set_service_name (name : string) (t : Telemetry) : Telemetry :=
  match service_name t with
  | Some _ => t
  | None => mkTelemetry (Some name) (subscriber_set t) (panic_hook_set t) (events t)
  end.

(** ** [str::from_utf8] *)

Definition byte_in (lo hi : N) (b : byte) : bool :=
  (lo <=? Byte.to_N b)%N && (Byte.to_N b <=? hi)%N.
Definition utf8_cont : byte → bool := byte_in 128 191.

(** Well-formed byte sequences (Unicode, table 3-7). *)
Fixpoint utf8_valid (bs : bytes) : bool :=
  match bs with
  | [] => true
  | b0 :: r0 =>
      if (Byte.to_N b0 <? 128)%N then utf8_valid r0
      else match r0 with
      | [] => false
      | b1 :: r1 =>
          if byte_in 194 223 b0 then utf8_cont b1 && utf8_valid r1
          else match r1 with
          | [] => false
          | b2 :: r2 =>
              if byte_in 224 224 b0 then byte_in 160 191 b1 && utf8_cont b2 && utf8_valid r2
              else if byte_in 225 236 b0 || byte_in 238 239 b0
              then utf8_cont b1 && utf8_cont b2 && utf8_valid r2
              else if byte_in 237 237 b0 then byte_in 128 159 b1 && utf8_cont b2 && utf8_valid r2
              else match r2 with
              | [] => false
              | b3 :: r3 =>
                  if byte_in 240 240 b0
                  then byte_in 144 191 b1 && utf8_cont b2 && utf8_cont b3 && utf8_valid r3
                  else if byte_in 241 243 b0
                  then utf8_cont b1 && utf8_cont b2 && utf8_cont b3 && utf8_valid r3
                  else if byte_in 244 244 b0
                  then byte_in 128 143 b1 && utf8_cont b2 && utf8_cont b3 && utf8_valid r3
                  else false
              end
          end
      end
  end.

Definition str_from_utf8 (bs : bytes) : option string :=
  if utf8_valid bs then Some (String.string_of_list_byte bs) else None.

(** ** [key_manager_init_telemetry] *)

Definition service_name_of (bs : bytes) : string :=
  match str_from_utf8 bs with Some s => s | None => default_service_name end.

Definition install_telemetry (name : string) (t : Telemetry) : Telemetry :=
  install_sanitized_panic_hook (ensure_telemetry_initialized (set_service_name name t)).

Definition key_manager_init_telemetry {E} (service_name_ptr service_name_len : N)
    : M (Memory * Telemetry) E unit :=
  let* name :=
    if is_null service_name_ptr || (service_name_len =? 0)%N then ret default_service_name
    else
      let* slice := zoom fst (λ m p, (m, snd p)) (from_raw_parts service_name_ptr service_name_len) in
      ret (service_name_of slice) in
  modify (λ p, (fst p, install_telemetry name (snd p))).

(** ** Properties *)

Definition all_operations : list KccOperation :=
  [GenerateKemKeypair; DestroyKemKey; EnumerateKemKeys; DecapAndSeal; GetKemKey;
   GenerateBindingKeypair; DestroyBindingKey; DestroyAllBindingKeys; Open;
   EnumerateBindingKeys; GetBindingKey].

Lemma all_operations_complete op : op ∈ all_operations.
Proof. destruct op; unfold all_operations; set_solver. Qed.

Definition snake_case_char (b : byte) : bool :=
  byte_in 97 122 b || byte_in 48 57 b || (Byte.to_N b =? 95)%N.

Lemma emit_events e t :
  events (emit e t) = if subscriber_set t then e :: events t else events t.
Proof. unfold emit. by destruct (subscriber_set t). Qed.

Lemma emit_state e t :
  service_name (emit e t) = service_name t ∧ subscriber_set (emit e t) = subscriber_set t ∧
  panic_hook_set (emit e t) = panic_hook_set t.
Proof. unfold emit. by destruct (subscriber_set t) eqn:?. Qed.

(** The vocabulary of events: everything in one is static, a status name, or
    the service name the host configured. *)
Definition sanitized (name : string) (e : Event) : Prop :=
  e = panic_line name ∨ ∃ f, e = failure_line f name.

Lemma panic_event_sanitized t : sanitized (get_service_name t) (panic_event t).
Proof. by left. Qed.
Lemma failure_event_sanitized f t : sanitized (get_service_name t) (failure_event f t).
Proof. right. by exists f. Qed.
