(* ===== verification/TelemetryThreads.v ===== *)
(** * Telemetry under concurrent calls: km_common/src/telemetry.rs

    The functions of telemetry.rs may run on many threads at once.  Here each is a
    sequence of the steps the standard library makes atomic: one access to
    [SERVICE_NAME], one transition of a [Once], one event written.  Threads start
    at any time, with any request, and are scheduled at will.  Telemetry.v has the
    same functions run without interruption; [alone_sequential] relates the two. *)

From S2P Require Import Prelude Effects RustStd Proto Telemetry.

(** ** The shared cells *)

(** [std::sync::Once]: a closure is run by the first thread that comes; a thread
    that comes while it runs waits; afterwards every thread passes. *)
Inductive Once := Incomplete | Running | Complete.

#[export] Instance Once_eq_dec : EqDecision Once.
Proof. solve_decision. Defined.

(** [INIT_TELEMETRY] and [PANIC_HOOK]. *)
Inductive Guard := Subscriber | Hook.

#[export] Instance Guard_eq_dec : EqDecision Guard.
Proof. solve_decision. Defined.

Record Cells := mkCells { tel : Telemetry; init_once : Once; hook_once : Once }.

Definition once (g : Guard) (c : Cells) : Once :=
  match g with Subscriber => init_once c | Hook => hook_once c end.
Definition set_once (g : Guard) (o : Once) (c : Cells) : Cells :=
  match g with
  | Subscriber => mkCells (tel c) o (hook_once c)
  | Hook => mkCells (tel c) (init_once c) o
  end.
Definition on_tel (f : Telemetry → Telemetry) (c : Cells) : Cells :=
  mkCells (f (tel c)) (init_once c) (hook_once c).

(** The effect of the closure behind each guard, and what it is for. *)
Definition closure (g : Guard) : Telemetry → Telemetry :=
  match g with
  | Subscriber => ensure_telemetry_initialized
  | Hook => install_sanitized_panic_hook
  end.
Definition installed (g : Guard) (t : Telemetry) : bool :=
  match g with Subscriber => subscriber_set t | Hook => panic_hook_set t end.

(** ** The threads *)

(** A call of [key_manager_init_telemetry], its name decoded; or the end of an FFI
    call that failed: [report_failure], after the panic hook if it panicked. *)
Inductive Request := InitTelemetry (name : string) | ReportFailure (failure : Failure).

(** What a thread does next. *)
Inductive Task :=
| Set_name (name : string)
| Enter (g : Guard)
| Run_closure (g : Guard)
| Exit (g : Guard)
| Panic_hook (f : Failure)
| Panic_name (f : Failure)
| Panic_emit (f : Failure) (name : string)
| Report_name (f : Failure)
| Report_emit (f : Failure) (name : string)
| Done.

Definition first_task (r : Request) : Task :=
  match r with
  | InitTelemetry name => Set_name name
  | ReportFailure f =>
      match kind f with FailureKind_Panic => Panic_hook f | FailureKind_Error => Report_name f end
  end.

(** [ensure_telemetry_initialized(); install_sanitized_panic_hook();] *)
Definition after_guard (g : Guard) : Task :=
  match g with Subscriber => Enter Hook | Hook => Done end.

(** The events an emission writes: none without a subscriber. *)
Definition written_by (e : Event) (t : Telemetry) : list Event := if subscriber_set t then [e] else [].

(** One step: the cells and the task after it, and what it wrote.  [None]: the
    thread waits for another one's closure, or is done. *)
Definition thread_step (c : Cells) (task : Task) : option (Cells * Task * list Event) :=
  match task with
  | Set_name name => Some (on_tel (set_service_name name) c, Enter Subscriber, [])
  | Enter g =>
      match once g c with
      | Incomplete => Some (set_once g Running c, Run_closure g, [])
      | Running => None
      | Complete => Some (c, after_guard g, [])
      end
  | Run_closure g => Some (on_tel (closure g) c, Exit g, [])
  | Exit g => Some (set_once g Complete c, after_guard g, [])
  | Panic_hook f => Some (c, if panic_hook_set (tel c) then Panic_name f else Report_name f, [])
  | Panic_name f => Some (c, Panic_emit f (get_service_name (tel c)), [])
  | Panic_emit f name =>
      Some (on_tel (emit (panic_line name)) c, Report_name f, written_by (panic_line name) (tel c))
  | Report_name f => Some (c, Report_emit f (get_service_name (tel c)), [])
  | Report_emit f name =>
      Some (on_tel (emit (failure_line f name)) c, Done, written_by (failure_line f name) (tel c))
  | Done => None
  end.

(** A thread remembers what it was asked, and what it has written, newest first. *)
Record Thread := mkThread { request : Request; task : Task; written : list Event }.
Definition start (r : Request) : Thread := mkThread r (first_task r) [].
Definition moved (th : Thread) (next : Task) (new : list Event) : Thread :=
  mkThread (request th) next (new ++ written th).

Record World := mkWorld { cells : Cells; threads : list Thread }.
Definition init_world : World := mkWorld (mkCells init_telemetry Incomplete Incomplete) [].

(** The scheduler lets thread [i] make a step. *)
Definition advance (i : nat) (w : World) : option World :=
  th ← threads w !! i;
  '(c, next, new) ← thread_step (cells w) (task th);
  Some (mkWorld c (<[i := moved th next new]> (threads w))).

Definition spawn (r : Request) (w : World) : World := mkWorld (cells w) (threads w ++ [start r]).

Definition advances (w w' : World) : Prop := ∃ i, advance i w = Some w'.

Inductive world_step : relation World :=
| step_spawn w r : world_step w (spawn r w)
| step_advance w w' : advances w w' → world_step w w'.

Definition world_reachable (w : World) : Prop := rtc world_step init_world w.

(** ** The same, without interruption *)

Definition sequential (r : Request) (t : Telemetry) : Telemetry :=
  match r with
  | InitTelemetry name => install_telemetry name t
  | ReportFailure f =>
      report_failure f
        (match kind f with FailureKind_Panic => run_panic_hook t | FailureKind_Error => t end)
  end.

(** At most [n] steps of one thread. *)
Fixpoint alone (n : nat) (c : Cells) (task : Task) : Cells * Task :=
  match n with
  | O => (c, task)
  | S n =>
      match thread_step c task with
      | Some (c', next, _) => alone n c' next
      | None => (c, task)
      end
  end.

(** Nobody is inside a closure, and what a guard has let through is installed. *)
Definition quiet (c : Cells) : Prop :=
  ∀ g, once g c ≠ Running ∧ (once g c = Complete → installed g (tel c) = true).

(** Seven steps are enough for any request: the longest path is an initialisation
    that runs both closures. *)
Lemma alone_sequential r c : quiet c →
  snd (alone 7 c (first_task r)) = Done ∧ tel (fst (alone 7 c (first_task r))) = sequential r (tel c).
Proof.
  intros Hq. destruct c as [t io ho].
  destruct (Hq Subscriber) as [Hi1 Hi2], (Hq Hook) as [Hh1 Hh2]. cbn in Hi1, Hi2, Hh1, Hh2.
  destruct r as [name|f]; cbn [first_task].
  - destruct t as [[n|] s h evs], io, ho; try done; cbn in *;
      rewrite ?Hi2, ?Hh2 by done; by vm_compute.
  - destruct f as [op st []]; cbn [kind]; [by vm_compute|].
    destruct t as [n [] [] evs]; by vm_compute.
Qed.

(** ** Schedules *)

Inductive Choice := Start (r : Request) | Step (i : nat).

Definition choose (ch : Choice) (w : World) : option World :=
  match ch with Start r => Some (spawn r w) | Step i => advance i w end.

Fixpoint run_schedule (chs : list Choice) (w : World) : option World :=
  match chs with
  | [] => Some w
  | ch :: chs => w' ← choose ch w; run_schedule chs w'
  end.

Lemma run_schedule_steps chs w w' : run_schedule chs w = Some w' → rtc world_step w w'.
Proof.
  revert w. induction chs as [|ch chs IH]; intros w; cbn; [by intros [= ->]|].
  destruct (choose ch w) as [w1|] eqn:Hc; cbn; [|done]. intros Hr. apply rtc_l with w1; [|by apply IH].
  destruct ch as [r|i]; cbn in Hc; [simplify_eq; apply step_spawn|]. apply step_advance. by exists i.
Qed.

Lemma run_steps_advances steps w w' : run_schedule (Step <$> steps) w = Some w' → rtc advances w w'.
Proof.
  revert w. induction steps as [|i steps IH]; intros w; cbn; [by intros [= ->]|].
  destruct (advance i w) as [w1|] eqn:Hi; cbn; [|done]. intros Hr. apply rtc_l with w1; [by exists i|by apply IH].
Qed.

(** ** The cells only grow *)

Record cells_le (c c' : Cells) : Prop := {
  le_name n : service_name (tel c) = Some n → service_name (tel c') = Some n;
  le_installed g : installed g (tel c) = true → installed g (tel c') = true;
  le_complete g : once g c = Complete → once g c' = Complete;
}.

#[export] Instance cells_le_preorder : PreOrder cells_le.
Proof. split; [by constructor|]. intros c1 c2 c3 [] []. constructor; eauto. Qed.

Lemma on_emit_le e c : cells_le c (on_tel (emit e) c).
Proof.
  destruct (emit_state e (tel c)) as (Hn&Hs&Hh).
  constructor; [|intros []|by intros []]; cbn; congruence.
Qed.

Lemma thread_step_le c t c' next new : thread_step c t = Some (c', next, new) → cells_le c c'.
Proof.
  destruct t as [name|g|g|g|f|f|f name|f|f name|]; cbn; intros Hs; simplify_eq; try reflexivity.
  - constructor; [|intros []|by intros []]; unfold set_service_name; cbn.
    + intros n Hn. by rewrite Hn.
    + by destruct (service_name (tel c)).
    + by destruct (service_name (tel c)).
  - destruct (once g c) eqn:Ho; simplify_eq; [|reflexivity]. destruct g; constructor; try done; intros []; cbn in *; congruence.
  - destruct g; constructor; try done; intros []; cbn; done.
  - destruct g; constructor; try done; intros []; cbn in *; congruence.
  - apply on_emit_le.
  - apply on_emit_le.
Qed.

(** ** What a scheduler's choice does *)

Lemma advance_Some i w w' :
  advance i w = Some w' ↔
  ∃ th c next new, threads w !! i = Some th ∧ thread_step (cells w) (task th) = Some (c, next, new) ∧
    w' = mkWorld c (<[i := moved th next new]> (threads w)).
Proof.
  unfold advance. split.
  - destruct (threads w !! i) as [th|] eqn:Hth; cbn; [|done].
    destruct (thread_step (cells w) (task th)) as [[[c next] new]|] eqn:Hs; cbn; [|done].
    intros [= <-]. by exists th, c, next, new.
  - by intros (th&c&next&new&->&Hs&->); cbn; rewrite Hs.
Qed.

Lemma world_step_le w w' : world_step w w' → cells_le (cells w) (cells w').
Proof.
  intros [w1 r|w1 w2 [i Hi]]; [reflexivity|].
  apply advance_Some in Hi as (th&c&next&new&_&Hs&->). by apply thread_step_le in Hs.
Qed.

Lemma world_steps_le w w' : rtc world_step w w' → cells_le (cells w) (cells w').
Proof. induction 1 as [|w1 w2 w3 H1 _ IH]; [reflexivity|]. etrans; [by apply world_step_le|done]. Qed.

(** A property of every thread that holds when it starts, is kept by its own steps
    and, as the cells grow, by the others', is invariant. *)
Lemma threads_step (P : Cells → nat → Thread → Prop) w w' :
  (∀ c c' i th, cells_le c c' → P c i th → P c' i th) →
  (∀ i r, length (threads w) ≤ i → P (cells w) i (start r)) →
  (∀ i th c next new, threads w !! i = Some th → P (cells w) i th →
     thread_step (cells w) (task th) = Some (c, next, new) → P c i (moved th next new)) →
  (∀ i th, threads w !! i = Some th → P (cells w) i th) →
  world_step w w' → ∀ i th, threads w' !! i = Some th → P (cells w') i th.
Proof.
  intros Hle Hstart Hown Hall Hstep i th Hi. destruct Hstep as [w r|w w' [j Hj]]; cbn in Hi |- *.
  - apply lookup_app_Some in Hi as [Hi|[Hlen Hi]]; [by apply Hall|].
    apply list_lookup_singleton_Some in Hi as [_ <-]. by apply Hstart.
  - apply advance_Some in Hj as (th1&c&next&new&Hth1&Hs&->). cbn in Hi |- *.
    apply list_lookup_insert_Some in Hi as [(<-&<-&_)|[_ Hi]].
    + apply (Hown j th1 c next new); [done|by apply Hall|done].
    + apply (Hle (cells w)); [by eapply thread_step_le|by apply Hall].
Qed.

Lemma threads_grow w w' : world_step w w' → length (threads w) ≤ length (threads w').
Proof.
  intros [w1 r|w1 w2 [i Hi]]; cbn; [rewrite length_app; lia|].
  apply advance_Some in Hi as (th&c&next&new&_&_&->). cbn. by rewrite length_insert.
Qed.

(** ** What a failing call writes *)

(** The tasks of a report, which an initialisation never has. *)
Definition reports_task (t : Task) : bool :=
  match t with
  | Panic_hook _ | Panic_name _ | Panic_emit _ _ | Report_name _ | Report_emit _ _ => true
  | _ => false
  end.


Section reporting.
Context (names : string → Prop) (certain : Prop).

(** The line of the panic hook, under an admissible name; when it is not [certain]
    that telemetry has been initialised, the line may be missing. *)
Inductive hook_wrote (f : Failure) : list Event → Prop :=
| no_panic : kind f = FailureKind_Error → hook_wrote f []
| panic_wrote name : kind f = FailureKind_Panic → names name → hook_wrote f [panic_line name]
| panic_lost : kind f = FailureKind_Panic → ¬ certain → hook_wrote f [].

Inductive failure_wrote (f : Failure) : list Event → Prop :=
| report_wrote name evs : hook_wrote f evs → names name → failure_wrote f (failure_line f name :: evs)
| report_lost evs : hook_wrote f evs → ¬ certain → failure_wrote f evs.

(** How far a thread has come: an initialisation writes nothing. *)
Definition reporting (th : Thread) : Prop :=
  match request th with
  | InitTelemetry _ => reports_task (task th) = false ∧ written th = []
  | ReportFailure f =>
      match task th with
      | Panic_hook f' | Panic_name f' => f' = f ∧ kind f = FailureKind_Panic ∧ written th = []
      | Panic_emit f' name => f' = f ∧ kind f = FailureKind_Panic ∧ names name ∧ written th = []
      | Report_name f' => f' = f ∧ hook_wrote f (written th)
      | Report_emit f' name => f' = f ∧ names name ∧ hook_wrote f (written th)
      | Done => failure_wrote f (written th)
      | _ => False
      end
  end.

Lemma reporting_start r : reporting (start r).
Proof. destruct r as [n|[op st []]]; cbn; try done. split; [done|]. by apply no_panic. Qed.
End reporting.

Lemma hook_wrote_mono (names names' : string → Prop) certain f evs :
  (∀ n, names n → names' n) → hook_wrote names certain f evs → hook_wrote names' certain f evs.
Proof. intros Hn [Hk|n Hk Hv|Hk Hl]; [by apply no_panic|apply panic_wrote; auto|by apply panic_lost]. Qed.

Lemma reporting_mono (names names' : string → Prop) certain th :
  (∀ n, names n → names' n) → reporting names certain th → reporting names' certain th.
Proof.
  intros Hn. unfold reporting. destruct (request th) as [name|f]; [done|].
  destruct (task th) as [| | | |? |? |? ?|? |? ?|]; try done.
  - intros (?&?&?&?). auto.
  - intros [? ?]. eauto using hook_wrote_mono.
  - intros (?&?&?). eauto using hook_wrote_mono.
  - intros [n evs Hw Hv|evs Hw Hl]; [eapply report_wrote|eapply report_lost]; eauto using hook_wrote_mono.
Qed.

(** A thread's own step: it reads an admissible name; when [certain], its events
    reach the subscriber and its panic the hook. *)
Lemma reporting_own (names : string → Prop) (certain : Prop) c th c' next new :
  reporting names certain th → thread_step c (task th) = Some (c', next, new) →
  names (get_service_name (tel c)) → (certain → ∀ g, installed g (tel c) = true) →
  reporting names certain (moved th next new).
Proof.
  intros Hr Hs Hn Hc. unfold reporting in *. destruct th as [r t evs]. cbn in *.
  assert (∀ g, installed g (tel c) = false → ¬ certain) as Hlost.
  { intros g Hg Hy. by rewrite (Hc Hy g) in Hg. }
  destruct r as [name|f].
  - destruct Hr as [Ht ->].
    destruct t as [|[]|g|[]|? |?|? ?|?|? ?|]; cbn in *; repeat case_match; by simplify_eq.
  - destruct t as [|g|g|g|f'|f'|f' n|f'|f' n|]; cbn in *; try done; simplify_eq.
    + destruct Hr as (->&Hk&->). destruct (panic_hook_set _) eqn:Hh; cbn; [done|].
      split; [done|]. apply panic_lost; [done|by apply (Hlost Hook)].
    + by destruct Hr as (->&Hk&->).
    + destruct Hr as (->&Hk&Hv&->). split; [done|]. unfold written_by.
      destruct (subscriber_set _) eqn:Hsub; [by apply panic_wrote|].
      apply panic_lost; [done|by apply (Hlost Subscriber)].
    + by destruct Hr as [-> Hw].
    + destruct Hr as (->&Hv&Hw). unfold written_by.
      destruct (subscriber_set _) eqn:Hsub; [by apply report_wrote|].
      apply report_lost; [done|by apply (Hlost Subscriber)].
Qed.

(** The lines of a failure: of the report, and before it of a panic. *)
Definition report_lines (f : Failure) (name panic_name : string) : list Event :=
  failure_line f name :: match kind f with FailureKind_Panic => [panic_line panic_name] | FailureKind_Error => [] end.

(** A thread writes each of its lines at most once, and no other. *)
Definition wrote_at_most (names : string → Prop) (th : Thread) : Prop :=
  match request th with
  | InitTelemetry _ => written th = []
  | ReportFailure f =>
      ∃ name panic_name, names name ∧ names panic_name ∧ written th `sublist_of` report_lines f name panic_name
  end.

Lemma hook_wrote_at_most names certain f evs name :
  names name → hook_wrote names certain f evs →
  ∃ panic_name, names panic_name ∧ ∀ n, failure_line f n :: evs `sublist_of` report_lines f n panic_name.
Proof.
  intros Hn [Hk|n Hk Hv|Hk _]; unfold report_lines; rewrite Hk; [by exists name|by exists n|].
  exists name. split; [done|]. intros n. constructor. apply sublist_nil_l.
Qed.

Lemma reporting_at_most names certain th name :
  names name → reporting names certain th → wrote_at_most names th.
Proof.
  intros Hn. unfold reporting, wrote_at_most. destruct (request th) as [m|f]; [by intros [_ ?]|].
  assert (written th = [] → ∃ n1 n2, names n1 ∧ names n2 ∧ written th `sublist_of` report_lines f n1 n2) as Hnil.
  { intros ->. exists name, name. split_and!; [done..|]. apply sublist_nil_l. }
  assert (∀ evs, hook_wrote names certain f evs →
    ∃ n1 n2, names n1 ∧ names n2 ∧ evs `sublist_of` report_lines f n1 n2) as Hhook.
  { intros evs Hw. destruct (hook_wrote_at_most _ _ _ _ _ Hn Hw) as (n&?&Hs). exists name, n. split_and!; [done..|].
    etrans; [|apply Hs]. by constructor. }
  destruct (task th) as [| | | |? |? |? ?|? |? ?|]; try done.
  - intros (_&_&?). by apply Hnil.
  - intros (_&_&?). by apply Hnil.
  - intros (_&_&_&?). by apply Hnil.
  - intros [_ Hw]. by apply Hhook.
  - intros (_&_&Hw). by apply Hhook.
  - intros [n evs Hw Hv|evs Hw _]; [|by apply Hhook].
    destruct (hook_wrote_at_most _ _ _ _ _ Hn Hw) as (n2&?&Hs). exists n, n2. by split_and!.
Qed.

Lemma reported_exactly name th f :
  reporting (λ n, n = name) True th → request th = ReportFailure f → task th = Done →
  written th = report_lines f name name.
Proof.
  unfold reporting. intros Hr Hq Ht. rewrite Hq, Ht in Hr. unfold report_lines.
  destruct Hr as [n evs [Hk|n' Hk ->|Hk Hl] ->|evs _ Hl]; rewrite ?Hk; naive_solver.
Qed.

(** ** Initialisations *)

(** What an initialisation has achieved when it comes to a task. *)
Definition initializing (c : Cells) (th : Thread) : Prop :=
  match request th with
  | InitTelemetry name =>
      (task th = Set_name name ∨ is_Some (service_name (tel c))) ∧
      match task th with
      | Set_name m => m = name
      | Exit Subscriber | Enter Hook | Run_closure Hook => installed Subscriber (tel c) = true
      | Exit Hook | Done => ∀ g, installed g (tel c) = true
      | _ => True
      end
  | ReportFailure _ => True
  end.

Lemma initializing_mono c c' th : cells_le c c' → initializing c th → initializing c' th.
Proof.
  intros [Hn Hi Ho]. unfold initializing. destruct (request th) as [name|f]; [|done].
  intros [Hs Ht]. split.
  - destruct Hs as [?|[n Hs]]; [by left|right]. exists n. by apply Hn.
  - destruct (task th) as [|[]|[]|[]| | | | | |]; eauto.
Qed.

Lemma initializing_own c th c' next new :
  (∀ g, once g c = Complete → installed g (tel c) = true) → reports_task (task th) = false →
  initializing c th → thread_step c (task th) = Some (c', next, new) → initializing c' (moved th next new).
Proof.
  intros Hc Ht Hi Hs. destruct th as [[name|f] t evs]; [|done]. unfold initializing in *. cbn in *.
  destruct Hi as [Hn Hi].
  assert (t ≠ Set_name name → is_Some (service_name (tel c))) as Hnamed by (intros ?; by destruct Hn).
  destruct t as [m|g|g|g| | | | | |]; cbn in *; try done.
  - simplify_eq. cbn. split; [right|done]. unfold set_service_name. by destruct (service_name (tel c)) eqn:?; cbn; eauto.
  - destruct (once g c) eqn:Ho; simplify_eq; [destruct g; cbn in *; by auto|].
    specialize (Hc g Ho). destruct g; cbn in *; (split; [by auto|]); [done|by intros []].
  - simplify_eq. destruct g; cbn in *; (split; [by auto|]); [done|by intros []].
  - simplify_eq. destruct g; cbn in *; (split; [by auto|]); done.
Qed.

(** ** The invariant *)

(** A name an event may carry: the configured one, or, if it was read before any was
    set, the default. *)
Definition admissible (c : Cells) (name : string) : Prop :=
  name = default_service_name ∨ service_name (tel c) = Some name.

Lemma admissible_mono c c' name : cells_le c c' → admissible c name → admissible c' name.
Proof. intros [Hn _ _] [->|Hs]; [by left|right; by apply Hn]. Qed.

Lemma admissible_read c : admissible c (get_service_name (tel c)).
Proof. unfold admissible, get_service_name. destruct (service_name (tel c)); auto. Qed.

Definition inside (g : Guard) (t : Task) : bool :=
  match t with Run_closure h | Exit h => bool_decide (g = h) | _ => false end.

Record invariant (w : World) : Prop := {
  inv_initializing i th : threads w !! i = Some th → initializing (cells w) th;
  inv_reporting i th : threads w !! i = Some th → reporting (admissible (cells w)) False th;
  inv_once g : once g (cells w) = Complete → installed g (tel (cells w)) = true;
  inv_running g : once g (cells w) = Running → ∃ i th, threads w !! i = Some th ∧ inside g (task th) = true;
  inv_name n : service_name (tel (cells w)) = Some n →
    ∃ i th, threads w !! i = Some th ∧ request th = InitTelemetry n;
  inv_events : events (tel (cells w)) ≡ₚ concat (written <$> threads w);
}.

Lemma init_invariant : invariant init_world.
Proof. by split; [| |intros []|intros []| |]. Qed.

Lemma reporting_init names certain th name :
  reporting names certain th → request th = InitTelemetry name → reports_task (task th) = false.
Proof. unfold reporting. intros Hr Hq. rewrite Hq in Hr. by destruct Hr. Qed.

Lemma initializing_step w w' : invariant w → world_step w w' →
  ∀ i th, threads w' !! i = Some th → initializing (cells w') th.
Proof.
  intros Hinv. apply (threads_step (λ c _ th, initializing c th)); [| | |apply Hinv].
  - intros c c' _ th. apply initializing_mono.
  - intros i [n|f] _; [|done]. split; [by left|done].
  - intros i th c next new Hth Hi Hs. destruct (request th) as [n|f] eqn:Hq.
    + eapply initializing_own; [apply Hinv| |done..].
      by eapply reporting_init, Hq; eapply (inv_reporting w Hinv).
    + unfold initializing. cbn. by rewrite Hq.
Qed.

Lemma reporting_step w w' : invariant w → world_step w w' →
  ∀ i th, threads w' !! i = Some th → reporting (admissible (cells w')) False th.
Proof.
  intros Hinv. apply (threads_step (λ c _ th, reporting (admissible c) False th)); [| | |apply Hinv].
  - intros c c' _ th Hle. apply reporting_mono. intros n. by apply admissible_mono.
  - intros i r _. apply reporting_start.
  - intros i th c next new Hth Hi Hs. apply (reporting_mono (admissible (cells w))).
    { intros n. apply admissible_mono. by eapply thread_step_le. }
    by eapply reporting_own; [| |apply admissible_read|].
Qed.

Lemma concat_insert_written (ths : list Thread) i th next new :
  ths !! i = Some th → concat (written <$> <[i := moved th next new]> ths) ≡ₚ new ++ concat (written <$> ths).
Proof.
  revert i. induction ths as [|th' ths IH]; intros [|i] Hi; cbn in *; simplify_eq/=; [by rewrite app_assoc|].
  rewrite (IH i Hi), !app_assoc. by rewrite (Permutation_app_comm new).
Qed.

Lemma thread_step_events c t c' next new :
  thread_step c t = Some (c', next, new) → events (tel c') = new ++ events (tel c).
Proof.
  destruct t as [name|[]|[]|[]|f|f|f name|f|f name|]; cbn; intros Hs; repeat case_match; simplify_eq; try done; cbn.
  - unfold set_service_name. by destruct (service_name (tel c)).
  - rewrite emit_events. unfold written_by. by destruct (subscriber_set (tel c)).
  - rewrite emit_events. unfold written_by. by destruct (subscriber_set (tel c)).
Qed.

(** Who entered a closure is inside, until the guard is complete. *)
Lemma thread_step_running c t c' next new g :
  thread_step c t = Some (c', next, new) → once g c' = Running →
  inside g next = true ∨ once g c = Running ∧ inside g t = false.
Proof.
  destruct g, t as [name|[]|[]|[]|f|f|f name|f|f name|]; cbn; intros Hs Hr;
    repeat case_match; simplify_eq; cbn in *; auto; congruence.
Qed.

Lemma thread_step_once c t c' next new :
  (∀ g, t = Exit g → installed g (tel c) = true) →
  (∀ g, once g c = Complete → installed g (tel c) = true) →
  thread_step c t = Some (c', next, new) →
  ∀ g, once g c' = Complete → installed g (tel c') = true.
Proof.
  intros Hx Ho Hs g Hg. pose proof (thread_step_le _ _ _ _ _ Hs) as [_ Hi _]. apply Hi. clear Hi.
  destruct t as [name|h|h|h|f|f|f name|f|f name|]; cbn in Hs; repeat case_match; simplify_eq; auto.
  - apply Ho. by destruct g, h.
  - destruct (decide (g = h)) as [->|Hne]; [by apply Hx|]. apply Ho. by destruct g, h.
Qed.

Lemma thread_step_name c t c' next new n :
  thread_step c t = Some (c', next, new) → service_name (tel c') = Some n →
  service_name (tel c) = Some n ∨ t = Set_name n.
Proof.
  destruct t as [name|[]|[]|[]|f|f|f name|f|f name|]; cbn; intros Hs Hn; repeat case_match; simplify_eq; auto; cbn in *.
  - unfold set_service_name in Hn. destruct (service_name (tel c)) eqn:Hc; cbn in *; [left|right]; congruence.
  - left. by rewrite <- Hn, (proj1 (emit_state _ _)).
  - left. by rewrite <- Hn, (proj1 (emit_state _ _)).
Qed.

Lemma initializing_exit c th g certain names :
  initializing c th → reporting names certain th → task th = Exit g → installed g (tel c) = true.
Proof.
  unfold initializing, reporting. intros Hi Hr Ht. rewrite Ht in Hi, Hr.
  destruct (request th); [|done]. destruct g; [apply Hi|]. by apply (proj2 Hi).
Qed.

Lemma invariant_spawn w r : invariant w → invariant (spawn r w).
Proof.
  intros Hinv. pose proof (step_spawn w r) as Hstep.
  pose proof (initializing_step _ _ Hinv Hstep). pose proof (reporting_step _ _ Hinv Hstep).
  destruct Hinv as [_ _ Ho Hrun Hn He].
  assert (∀ P : Thread → Prop, (∃ i th, threads w !! i = Some th ∧ P th) →
    ∃ i th, threads (spawn r w) !! i = Some th ∧ P th) as Hkeep.
  { intros P (i&th&Hth&HP). exists i, th. split; [|done]. by apply lookup_app_l_Some. }
  split; [done..| | | |].
  - done.
  - intros g Hg. by apply (Hkeep (λ th, inside g (task th) = true)), Hrun.
  - intros n Hg. by apply (Hkeep (λ th, request th = InitTelemetry n)), Hn.
  - cbn. rewrite fmap_app, concat_app. cbn. by rewrite app_nil_r.
Qed.

Lemma invariant_advance w w' i : invariant w → advance i w = Some w' → invariant w'.
Proof.
  intros Hinv Hi. assert (world_step w w') as Hstep by (apply step_advance; by exists i).
  pose proof (initializing_step _ _ Hinv Hstep). pose proof (reporting_step _ _ Hinv Hstep).
  destruct Hinv as [Hin Hr Ho Hrun Hn He].
  apply advance_Some in Hi as (th&c&next&new&Hth&Hs&->).
  assert (<[i := moved th next new]> (threads w) !! i = Some (moved th next new)) as Hself.
  { apply list_lookup_insert_eq. by eapply lookup_lt_Some. }
  split; [done..| | | |]; cbn.
  - apply (thread_step_once _ _ _ _ _) with (3 := Hs); [|done].
    intros h. eapply initializing_exit; [by eapply Hin|by eapply Hr].
  - intros g Hg. destruct (thread_step_running _ _ _ _ _ _ Hs Hg) as [Hg'|[Hg' Hout]]; [by eexists i, _|].
    destruct (Hrun g Hg') as (j&th'&Hth'&Hg1). exists j, th'. split; [|done].
    rewrite list_lookup_insert_ne; [done|]. intros ->. simplify_eq. congruence.
  - intros n Hn'. specialize (Hin i th Hth). specialize (Hr i th Hth). unfold initializing, reporting in *.
    destruct (thread_step_name _ _ _ _ _ _ Hs Hn') as [Hn1|Ht].
    + destruct (Hn n Hn1) as (j&th'&Hth'&Hq). destruct (decide (i = j)) as [->|Hne].
      * simplify_eq. by eexists j, _.
      * exists j, th'. by rewrite list_lookup_insert_ne.
    + eexists i, _. split; [done|]. cbn.
      destruct (request th) as [m|f]; [|by rewrite Ht in Hr]. rewrite Ht in Hin. by destruct Hin as [_ ->].
  - by rewrite (thread_step_events _ _ _ _ _ Hs), (concat_insert_written _ _ _ _ _ Hth), He.
Qed.

Lemma reachable_invariant w : world_reachable w → invariant w.
Proof.
  unfold world_reachable. apply (rtc_ind_r invariant); [apply init_invariant|].
  intros w1 w2 _ [w3 r|w3 w4 [i Hi]] IH; [by apply invariant_spawn|by eapply invariant_advance].
Qed.

(** ** After an initialisation has returned *)

(** A name is configured, and subscriber and hook are installed. *)
Definition configured (name : string) (c : Cells) : Prop :=
  service_name (tel c) = Some name ∧ ∀ g, installed g (tel c) = true.

Lemma configured_mono name c c' : cells_le c c' → configured name c → configured name c'.
Proof. intros [Hn Hi _] [Hname Hins]. split; [by apply Hn|]. intros g. by apply Hi. Qed.

Lemma initialized_configured w i th name :
  world_reachable w → threads w !! i = Some th → request th = InitTelemetry name → task th = Done →
  ∃ first, configured first (cells w).
Proof.
  intros Hw Hth Hq Ht. pose proof (inv_initializing _ (reachable_invariant w Hw) i th Hth) as Hi.
  unfold initializing in Hi. rewrite Hq, Ht in Hi. destruct Hi as [[Hs|[first Hn]] Hg]; [congruence|].
  by exists first.
Qed.

(** Whoever starts then writes everything, under the configured name. *)
Lemma started_later name w w' :
  configured name (cells w) → rtc world_step w w' →
  ∀ i th, threads w' !! i = Some th → length (threads w) ≤ i → reporting (λ n, n = name) True th.
Proof.
  set (P := λ c i th, configured name c ∧ (length (threads w) ≤ i → reporting (λ n, n = name) True th)).
  intros Hc Hsteps i th Hi.
  enough (∀ i th, threads w' !! i = Some th → P (cells w') i th) as HP by apply (HP i th Hi).
  clear i th Hi. revert w' Hsteps.
  apply (rtc_ind_r (λ w', ∀ i th, threads w' !! i = Some th → P (cells w') i th)).
  - intros i th Hi. split; [done|]. apply lookup_lt_Some in Hi. lia.
  - intros w1 w2 Hsteps Hs IH.
    assert (configured name (cells w1)) as Hc1.
    { eapply configured_mono, Hc. by apply world_steps_le. }
    apply (threads_step P w1 w2); [| | |done..].
    + intros c c' i th Hle [HcP Hr]. split; [by eapply configured_mono|done].
    + intros i r _. split; [done|]. intros _. apply reporting_start.
    + intros i th c next new _ [HcP Hr] Hstep. split; [by eapply configured_mono, HcP; eapply thread_step_le|].
      intros Hle. eapply reporting_own; [by apply Hr|done| |intros _; apply HcP].
      unfold get_service_name. by destruct HcP as [-> _].
Qed.

(** ** Progress *)

(** How many steps a task is away from the end, at most. *)
Definition remaining (t : Task) : nat :=
  match t with
  | Set_name _ => 7 | Enter Subscriber => 6 | Run_closure Subscriber => 5 | Exit Subscriber => 4
  | Enter Hook => 3 | Run_closure Hook => 2 | Exit Hook => 1
  | Panic_hook _ => 5 | Panic_name _ => 4 | Panic_emit _ _ => 3 | Report_name _ => 2 | Report_emit _ _ => 1
  | Done => 0
  end.
Definition work (w : World) : nat := sum_list (remaining ∘ task <$> threads w).

Lemma thread_step_remaining c t c' next new :
  thread_step c t = Some (c', next, new) → remaining next < remaining t.
Proof.
  destruct t as [name|[]|[]|[]|f|f|f name|f|f name|]; cbn; intros Hs; repeat case_match; simplify_eq; cbn; lia.
Qed.

Lemma sum_list_insert (l : list nat) i x y :
  l !! i = Some x → y < x → sum_list (<[i := y]> l) < sum_list l.
Proof.
  revert i. induction l as [|z l IH]; intros [|i] Hi Hlt; csimpl in *; simplify_eq; [lia|].
  specialize (IH i Hi Hlt). lia.
Qed.

Lemma advances_work w w' : advances w w' → work w' < work w.
Proof.
  intros [i Hi]. apply advance_Some in Hi as (th&c&next&new&Hth&Hs&->). unfold work. cbn.
  rewrite list_fmap_insert. eapply sum_list_insert; [by rewrite list_lookup_fmap, Hth|].
  cbn. by eapply thread_step_remaining.
Qed.

Lemma nsteps_work n w w' : nsteps advances n w w' → n + work w' ≤ work w.
Proof.
  induction 1 as [w|n w1 w2 w3 Hs _ IH]; [done|]. apply advances_work in Hs. lia.
Qed.

(** A thread that cannot step waits for one that can. *)
Lemma waits_or_done c t : thread_step c t = None → t = Done ∨ ∃ g, t = Enter g ∧ once g c = Running.
Proof.
  destruct t as [name|g|g|g|f|f|f name|f|f name|]; cbn; intros Hs; simplify_eq; [|by left].
  right. exists g. by destruct (once g c) eqn:Ho; simplify_eq.
Qed.

Lemma inside_steps c t g : inside g t = true → is_Some (thread_step c t).
Proof. destruct t as [name|h|h|h|f|f|f name|f|f name|]; cbn; eauto; done. Qed.

Lemma stuck_done w : world_reachable w → (∀ w', ¬ advances w w') →
  ∀ i th, threads w !! i = Some th → task th = Done.
Proof.
  intros Hw Hstuck i th Hth.
  assert (∀ i th, threads w !! i = Some th → thread_step (cells w) (task th) = None) as Hnone.
  { intros j th' Hj. destruct (thread_step (cells w) (task th')) as [[[c next] new]|] eqn:Hs; [|done].
    edestruct Hstuck. exists j. apply advance_Some. by eexists _, _, _, _. }
  destruct (waits_or_done _ _ (Hnone i th Hth)) as [?|(g&_&Hg)]; [done|].
  destruct (inv_running _ (reachable_invariant w Hw) g Hg) as (j&th'&Hj&Hin).
  destruct (inside_steps (cells w) _ _ Hin) as [r Hr]. by rewrite (Hnone j th' Hj) in Hr.
Qed.
