(* ===== verification/KeyTypes.v ===== *)
(** * Keys and their creation: km_common/src/key_types.rs, [KeyRecord]

    The data of a stored key and the constructors that generate one.  The
    registry itself is in Registry.v. *)

From S2P Require Import Prelude Effects RustStd Proto Platform SecretBox ProtectedMem X25519 Crypto.

Section data.
Context `{Platform}.

Inductive KeySpec :=
| KemWithBindingPub (algo : HpkeAlgorithm) (kem_public_key binding_public_key : PublicKey)
| Binding (algo : HpkeAlgorithm) (binding_public_key : PublicKey).

Record KeyMetadata := mkKeyMetadata {
  id : Uuid;
  created_at : Z;
  delete_after : Z;
  spec : KeySpec;
}.

Record KeyRecord := mkKeyRecord { meta : KeyMetadata; private_key : Vault }.

(** [get_private_key]: a fresh copy of the secret. *)
Definition get_private_key {E} (self : KeyRecord) : M Sys E PrivateKey :=
  let* secret := Vault_get_secret (private_key self) in
  ret (PrivateKey_from secret).

(** The vault is a local until the record is built: the early return on an
    overflowing expiry drops it. *)
Definition create_key_internal (algo : HpkeAlgorithm) (expiry : Z)
    (spec_builder : HpkeAlgorithm → PublicKey → KeySpec) : M Sys Status KeyRecord :=
  if negb (suite_supported algo) then throw UnsupportedAlgorithm
  else
    let* ' (pub_key, priv_key) := generate_keypair DhkemX25519HkdfSha256 in
    let* n := draw in
    let id := Uuid_new_v4 n in
    let* vault := map_err (λ _, CryptoError) (Vault_new (SecretBox_from priv_key)) in
    let* now := Instant_now in
    match Instant_checked_add now expiry with
    | None => do* modify (Vault_drop vault); throw UnsupportedAlgorithm
    | Some delete_after =>
        ret (mkKeyRecord (mkKeyMetadata id now delete_after (spec_builder algo pub_key)) vault)
    end.

Definition create_binding_key (algo : HpkeAlgorithm) (expiry : Z) : M Sys Status KeyRecord :=
  create_key_internal algo expiry Binding.

Definition create_bound_kem_key (algo : HpkeAlgorithm) (binding_public_key : PublicKey) (expiry : Z)
    : M Sys Status KeyRecord :=
  match binding_public_key, KemAlgorithm_try_from (kem algo) with
  | PublicKey_X25519 _, Some DhkemX25519HkdfSha256 =>
      create_key_internal algo expiry
        (λ algo pub_key, KemWithBindingPub algo pub_key binding_public_key)
  | _, _ => throw InvalidKey
  end.

(** ** Well-formed keys *)

(** Every stored key uses the supported suite, its public key belongs to its
    secret, and it expires no earlier than it was created and within the clock's
    range. *)
Definition spec_wf (s : KeySpec) (secret : bytes) : Prop :=
  match s with
  | KemWithBindingPub algo kpk bpk => algo = x25519_suite ∧ is_key_pair kpk secret ∧ PublicKey_wf bpk
  | Binding algo bpk => algo = x25519_suite ∧ is_key_pair bpk secret
  end.

Definition record_wf (r : KeyRecord) : Prop :=
  spec_wf (spec (meta r)) (mmap (private_key r)) ∧ (created_at (meta r) ≤ delete_after (meta r))%Z ∧
  (delete_after (meta r) / nanos_per_sec ≤ i64_max)%Z.

Definition is_kem_spec (s : KeySpec) : bool :=
  match s with KemWithBindingPub _ _ _ => true | Binding _ _ => false end.
End data.

Section creation.
Context `{PlatformLaws}.

Lemma steps_get_private_key E r : Steps sys_le (@get_private_key _ E r).
Proof. unfold get_private_key. steps_go. Qed.

Lemma outcome_get_private_key E r :
  Outcome_is (@get_private_key _ E r) (Ok (PrivateKey_from (mkSecretBox (mmap (private_key r))))).
Proof.
  intros s. unfold get_private_key.
  by rewrite (bind_ok _ _ _ _ _ (Vault_get_secret_run _ _ _)).
Qed.

Lemma get_private_key_run E r s :
  @get_private_key _ E r s = (Ok (PrivateKey_from (mkSecretBox (mmap (private_key r)))), s).
Proof.
  unfold get_private_key. by rewrite (bind_ok _ _ _ _ _ (Vault_get_secret_run _ _ _)).
Qed.

Lemma steps_create_key_internal algo expiry sb : Steps sys_le (create_key_internal algo expiry sb).
Proof.
  unfold create_key_internal. steps_go. apply steps_modify. intros s. apply steps_Vault_drop.
Qed.
Lemma steps_create_binding_key algo expiry : Steps sys_le (create_binding_key algo expiry).
Proof. apply steps_create_key_internal. Qed.
Lemma steps_create_bound_kem_key algo bpk expiry : Steps sys_le (create_bound_kem_key algo bpk expiry).
Proof.
  unfold create_bound_kem_key. destruct bpk.
  destruct (KemAlgorithm_try_from _) as [[]|]; eauto using steps_create_key_internal with steps typeclass_instances.
Qed.

Lemma create_key_internal_unsupported algo expiry sb s :
  algo ≠ x25519_suite → create_key_internal algo expiry sb s = (Err UnsupportedAlgorithm, s).
Proof. intros Hne. unfold create_key_internal. by rewrite suite_supported_false. Qed.

(** What a successful creation promises. *)
Definition created (sb : HpkeAlgorithm → PublicKey → KeySpec) (expiry : Z) (s : Sys) (r : KeyRecord) : Prop :=
  ∃ pk, spec (meta r) = sb x25519_suite pk ∧ is_key_pair pk (mmap (private_key r)) ∧
    id (meta r) = Uuid_new_v4 (S (entropy s)) ∧
    created_at (meta r) = clock (clock_reads s) ∧
    delete_after (meta r) = (created_at (meta r) + expiry)%Z ∧
    (delete_after (meta r) / nanos_per_sec ≤ i64_max)%Z.

(** For the supported suite, creation fails only because the kernel refuses
    the vault, or because the expiry overflows the clock. *)
Lemma create_key_internal_cases expiry sb s :
  match fst (create_key_internal x25519_suite expiry sb s) with
  | Ok r => created sb expiry s r
  | Err e => e = CryptoError ∨
             e = UnsupportedAlgorithm ∧
             (i64_max < (clock (clock_reads s) + expiry) / nanos_per_sec)%Z
  | Panic | Ub => False
  end.
Proof.
  unfold create_key_internal. rewrite suite_supported_true. cbn [negb].
  destruct (generate_keypair_x25519 s) as (pk&secret&s1&Hgen&Hkp&_&He1&Hc1).
  rewrite (bind_ok _ _ _ _ _ Hgen). cbn beta iota. rewrite bind_draw, He1.
  set (s2 := mkSys _ _ _ _ _).
  assert (clock_reads (snd (Vault_new (SecretBox_from (PrivateKey_from (mkSecretBox secret))) s2))
          = clock_reads s) as Hc2.
  { rewrite <- Hc1. change (clock_reads s1) with (clock_reads s2). apply Vault_new_clock. }
  destruct (Vault_new_outcome (SecretBox_from (PrivateKey_from (mkSecretBox secret))) s2) as [Ho|Ho].
  all: destruct (Vault_new _ s2) as [o s3] eqn:Hv; simpl in Ho, Hc2; subst o.
  - rewrite (bind_err _ _ _ CryptoError s3); [by left|]. unfold map_err. by rewrite Hv.
  - rewrite (bind_ok _ _ _ (mkVault secret) s3) by (unfold map_err; by rewrite Hv).
    rewrite bind_Instant_now, Hc2.
    destruct (Instant_checked_add _ expiry) as [t|] eqn:Hadd; simpl.
    + apply checked_add_Some in Hadd as [-> Hb]. exists pk. simpl. by split_and!.
    + right. split; [done|]. unfold Instant_checked_add in Hadd.
      by destruct (Z.ltb_spec i64_max ((clock (clock_reads s) + expiry) / nanos_per_sec)).
Qed.

Lemma create_bound_kem_key_unsupported algo bpk expiry s :
  algo ≠ x25519_suite →
  create_bound_kem_key algo bpk expiry s =
    (Err (if (kem algo =? 1)%Z then UnsupportedAlgorithm else InvalidKey), s).
Proof.
  intros Hne. unfold create_bound_kem_key. destruct bpk as [bpk].
  destruct (KemAlgorithm_try_from (kem algo)) as [a|] eqn:Hk.
  - apply kem_try_from_spec in Hk. destruct a; rewrite <- Hk; simpl; [done|].
    by rewrite create_key_internal_unsupported.
  - destruct (Z.eqb_spec (kem algo) 1) as [Hz|]; [|done].
    by rewrite (proj2 (kem_try_from_spec (kem algo) DhkemX25519HkdfSha256)) in Hk.
Qed.

(** Whatever the outcome, the secret's source buffer was given back zeroed. *)
Lemma create_key_internal_released expiry sb s :
  let s' := snd (create_key_internal x25519_suite expiry sb s) in
  open_fds s' = open_fds s ∧ ∃ new, released s' = new ++ released s ∧ Forall all_zero new ∧ new ≠ [].
Proof.
  cbv zeta. pose proof (steps_create_key_internal x25519_suite expiry sb s) as [_ _ Hf (new&Hn&Hz)].
  split; [done|]. exists new. split_and!; [done..|]. intros ->.
  assert (length (released s) < length (released (snd (create_key_internal x25519_suite expiry sb s))));
    [|rewrite Hn in *; simpl in *; lia].
  clear Hf Hn Hz. unfold create_key_internal. rewrite suite_supported_true. cbn [negb].
  destruct (generate_keypair_x25519 s) as (pk&secret&s1&Hgen&_&[_ _ _ (n1&Hn1&_)]&_).
  rewrite (bind_ok _ _ _ _ _ Hgen). cbn beta iota. rewrite bind_draw.
  set (s2 := mkSys _ _ _ _ _).
  destruct (Vault_new_released (SecretBox_from (PrivateKey_from (mkSecretBox secret))) s2) as [Hr _].
  assert (length (released s) < length (released (snd (Vault_new (SecretBox_from (PrivateKey_from (mkSecretBox secret))) s2)))) as Hlt
    by (rewrite Hr; simpl; rewrite Hn1, length_app; lia).
  unfold bind at 1, map_err. destruct (Vault_new _ s2) as [[v|e| |] s3]; simpl in *; try done.
  rewrite bind_Instant_now. destruct (Instant_checked_add _ _); simpl; lia.
Qed.

Lemma created_wf_binding expiry s r : (0 ≤ expiry)%Z → created Binding expiry s r → record_wf r.
Proof.
  intros He (pk&Hs&Hkp&_&_&Hd&Hb). split_and!; [|lia|done]. rewrite Hs. by split.
Qed.

Lemma created_wf_kem bpk expiry s r :
  (0 ≤ expiry)%Z → PublicKey_wf bpk →
  created (λ algo pub_key, KemWithBindingPub algo pub_key bpk) expiry s r → record_wf r.
Proof.
  intros He Hb (pk&Hs&Hkp&_&_&Hd&Hr). split_and!; [|lia|done]. rewrite Hs. by split_and!.
Qed.
End creation.

#[export] Hint Resolve steps_get_private_key steps_create_binding_key steps_create_bound_kem_key : steps.
