(* ===== verification/Process.v ===== *)
(** * A key custody core process and its FFI boundary: km_common/src/lib.rs

    The state one process holds: the registry's map behind its lock, the
    caller's memory, the telemetry cells, and what the platform keeps for it.
    [ffi_call] and [ffi_call_i32] turn the outcome of an entry point into the
    status or integer the C caller sees, and report each failure once. *)

From S2P Require Import Prelude Effects RustStd Proto Platform SecretBox ProtectedMem X25519 Crypto.
From S2P Require Import Telemetry KeyTypes.

(** The registry is [Arc<RwLock<HashMap<KeyHandle, Arc<KeyRecord>>>>]: the map,
    and whether the lock is poisoned. *)
Record Proc `{Platform} := mkProc {
  p_sys : Sys;
  p_keys : gmap Uuid KeyRecord;
  p_poisoned : bool;
  p_mem : Memory;
  p_tel : Telemetry;
}.

Section process.
Context `{Platform}.

Definition set_sys (s : Sys) (p : Proc) : Proc :=
  mkProc _ s (p_keys p) (p_poisoned p) (p_mem p) (p_tel p).
Definition set_keys (k : gmap Uuid KeyRecord) (p : Proc) : Proc :=
  mkProc _ (p_sys p) k (p_poisoned p) (p_mem p) (p_tel p).
Definition set_mem (m : Memory) (p : Proc) : Proc :=
  mkProc _ (p_sys p) (p_keys p) (p_poisoned p) m (p_tel p).
Definition set_tel (t : Telemetry) (p : Proc) : Proc :=
  mkProc _ (p_sys p) (p_keys p) (p_poisoned p) (p_mem p) t.

Definition in_sys {E A} : M Sys E A → M Proc E A := zoom p_sys set_sys.
Definition in_mem {E A} : M Memory E A → M Proc E A := zoom p_mem set_mem.

(** A process before its first call: [LazyLock] builds an empty registry. Its
    initialiser also starts the reaper; that the operating system can create the
    thread is assumed ([std::thread::spawn] panics if it cannot). *)
Definition init_proc (m : Memory) : Proc := mkProc _ init_sys ∅ false m init_telemetry.

(** ** The FFI boundary *)

(** [catch_unwind]: the hook runs before the stack is unwound. *)
Definition caught_panic (p : Proc) : Proc := set_tel (run_panic_hook (p_tel p)) p.

Definition ffi_call_with_reporter (operation : KccOperation) (f : M Proc Status unit)
    (reporter : Failure → Proc → Proc) : M Proc Empty_set Status := λ p,
  match f p with
  | (Ok tt, p') => (Ok Success, p')
  | (Err status, p') => (Ok status, reporter (mkFailure operation status FailureKind_Error) p')
  | (Panic, p') =>
      (Ok InternalError,
       reporter (mkFailure operation InternalError FailureKind_Panic) (caught_panic p'))
  | (Ub, p') => (Ub, p')
  end.

Definition report_to_tel (f : Failure) (p : Proc) : Proc := set_tel (report_failure f (p_tel p)) p.

Definition ffi_call (operation : KccOperation) (f : M Proc Status unit) : M Proc Empty_set Status :=
  ffi_call_with_reporter operation f report_to_tel.

Definition ffi_call_i32_with_reporter (operation : KccOperation) (f : M Proc Status Z)
    (reporter : Failure → Proc → Proc) : M Proc Empty_set Z := λ p,
  match f p with
  | (Ok val, p') => (Ok val, p')
  | (Err status, p') =>
      (Ok (- Status_as_i32 status)%Z, reporter (mkFailure operation status FailureKind_Error) p')
  | (Panic, p') =>
      (Ok (- Status_as_i32 InternalError)%Z,
       reporter (mkFailure operation InternalError FailureKind_Panic) (caught_panic p'))
  | (Ub, p') => (Ub, p')
  end.

Definition ffi_call_i32 (operation : KccOperation) (f : M Proc Status Z) : M Proc Empty_set Z :=
  ffi_call_i32_with_reporter operation f report_to_tel.
End process.

(** ** Relations between the states of a process *)

Section relations.
Context `{Platform}.

(** Component by component; no computation poisons the lock. *)
Record proc_rel (RK : relation (gmap Uuid KeyRecord)) (RM : relation Memory) (RT : relation Telemetry)
    (p p' : Proc) : Prop := mkProcRel {
  rel_sys : sys_le (p_sys p) (p_sys p');
  rel_keys : RK (p_keys p) (p_keys p');
  rel_poisoned : p_poisoned p' = p_poisoned p;
  rel_mem : RM (p_mem p) (p_mem p');
  rel_tel : RT (p_tel p) (p_tel p');
}.

#[export] Instance proc_rel_preorder RK RM RT `{!PreOrder RK, !PreOrder RM, !PreOrder RT} :
  PreOrder (proc_rel RK RM RT).
Proof.
  split.
  - intros p. by constructor.
  - intros p1 p2 p3 [????] [????]. constructor; try (by etrans); congruence.
Qed.

Context (RK : relation (gmap Uuid KeyRecord)) (RM : relation Memory) (RT : relation Telemetry).
Context `{!PreOrder RK, !PreOrder RM, !PreOrder RT}.

Lemma steps_in_sys {E A} (m : M Sys E A) : Steps sys_le m → Steps (proc_rel RK RM RT) (in_sys m).
Proof. apply steps_zoom. intros p s Hs. by constructor. Qed.

Lemma steps_in_mem {E A} (m : M Memory E A) : Steps RM m → Steps (proc_rel RK RM RT) (in_mem m).
Proof. apply steps_zoom. intros p s Hs. by constructor. Qed.

Lemma proc_rel_set_keys k p : RK (p_keys p) k → proc_rel RK RM RT p (set_keys k p).
Proof. intros Hk. by constructor. Qed.

Lemma proc_rel_set_tel t p : RT (p_tel p) t → proc_rel RK RM RT p (set_tel t p).
Proof. intros Ht. by constructor. Qed.
End relations.

#[export] Hint Resolve steps_in_sys steps_in_mem : steps.

(** ** Lifted runs *)

Section lifted.
Context `{Platform} {E : Type}.

Lemma in_sys_run {A} (m : M Sys E A) p o s :
  m (p_sys p) = (o, s) → in_sys m p = (o, set_sys s p).
Proof. unfold in_sys, zoom. by intros ->. Qed.

Lemma in_mem_run {A} (m : M Memory E A) p o s :
  m (p_mem p) = (o, s) → in_mem m p = (o, set_mem s p).
Proof. unfold in_mem, zoom. by intros ->. Qed.

(** A read of the caller's memory leaves the process as it was. *)
Lemma in_mem_read {A} (m : M Memory E A) p o :
  m (p_mem p) = (o, p_mem p) → in_mem m p = (o, p).
Proof. intros Hr. rewrite (in_mem_run _ _ _ _ Hr). by destruct p. Qed.
End lifted.

(** ** Telemetry only grows *)

Definition tel_le (t t' : Telemetry) : Prop :=
  service_name t' = service_name t ∧ subscriber_set t' = subscriber_set t ∧
  panic_hook_set t' = panic_hook_set t ∧
  (subscriber_set t = false → events t' = events t) ∧
  ∃ new, events t' = new ++ events t ∧ Forall (sanitized (get_service_name t)) new.

#[export] Instance tel_le_preorder : PreOrder tel_le.
Proof.
  split.
  - intros t. split_and!; try done. by exists [].
  - intros t1 t2 t3 (Hn&Hs&?&Hq&n1&He1&Hf1) (Hn'&?&?&Hq'&n2&He2&Hf2). split_and!; try congruence.
    { intros Hoff. by rewrite Hq', Hq by congruence. }
    exists (n2 ++ n1). rewrite He2, He1, app_assoc. split; [done|]. apply Forall_app. split; [|done].
    unfold get_service_name in *. by rewrite Hn in Hf2.
Qed.

Lemma tel_le_emit e t : sanitized (get_service_name t) e → tel_le t (emit e t).
Proof.
  intros Hs. destruct (emit_state e t) as (?&?&?). split_and!; try done.
  { rewrite emit_events. by intros ->. }
  rewrite emit_events. destruct (subscriber_set t).
  - exists [e]. by split; [|constructor].
  - by exists [].
Qed.

Lemma tel_le_report f t : tel_le t (report_failure f t).
Proof. apply tel_le_emit, failure_event_sanitized. Qed.
Lemma tel_le_panic_hook t : tel_le t (run_panic_hook t).
Proof.
  unfold run_panic_hook. destruct (panic_hook_set t); [|done].
  apply tel_le_emit, panic_event_sanitized.
Qed.

Section ffi.
Context `{Platform} (RK : relation (gmap Uuid KeyRecord)) (RM : relation Memory).
Context `{!PreOrder RK, !PreOrder RM}.

Lemma proc_rel_report f p : proc_rel RK RM tel_le p (report_to_tel f p).
Proof. apply proc_rel_set_tel; try apply _. apply tel_le_report. Qed.
Lemma proc_rel_caught_panic p : proc_rel RK RM tel_le p (caught_panic p).
Proof. apply proc_rel_set_tel; try apply _. apply tel_le_panic_hook. Qed.

Lemma steps_ffi_call op f :
  Steps (proc_rel RK RM tel_le) f → Steps (proc_rel RK RM tel_le) (ffi_call op f).
Proof.
  intros Hf p. specialize (Hf p). unfold ffi_call, ffi_call_with_reporter.
  destruct (f p) as [[[]|e| |] p']; simpl in *; [done| | |done].
  - etrans; [done|apply proc_rel_report].
  - etrans; [done|]. etrans; [apply proc_rel_caught_panic|apply proc_rel_report].
Qed.

Lemma steps_ffi_call_i32 op f :
  Steps (proc_rel RK RM tel_le) f → Steps (proc_rel RK RM tel_le) (ffi_call_i32 op f).
Proof.
  intros Hf p. specialize (Hf p). unfold ffi_call_i32, ffi_call_i32_with_reporter.
  destruct (f p) as [[v|e| |] p']; simpl in *; [done| | |done].
  - etrans; [done|apply proc_rel_report].
  - etrans; [done|]. etrans; [apply proc_rel_caught_panic|apply proc_rel_report].
Qed.

(** A call that fails with a status reports exactly that status, once. *)
Lemma ffi_call_ok op f p p' : f p = (Ok tt, p') → ffi_call op f p = (Ok Success, p').
Proof. unfold ffi_call, ffi_call_with_reporter. by intros ->. Qed.

Lemma ffi_call_i32_ok op f p v p' : f p = (Ok v, p') → ffi_call_i32 op f p = (Ok v, p').
Proof. unfold ffi_call_i32, ffi_call_i32_with_reporter. by intros ->. Qed.

Lemma ffi_call_err op f p e p' :
  f p = (Err e, p') → ffi_call op f p = (Ok e, report_to_tel (mkFailure op e FailureKind_Error) p').
Proof. unfold ffi_call, ffi_call_with_reporter. by intros ->. Qed.
End ffi.

#[export] Hint Resolve steps_ffi_call steps_ffi_call_i32 : steps.
