(* ===== verification/Registry.v ===== *)
(** * The key registry: km_common/src/key_types.rs, [KeyRegistry]

    A map from handles to records behind a read-write lock.  Lookups and
    listings hide expired keys; removal does not look at the expiry. *)

From S2P Require Import Prelude Effects RustStd Proto Platform SecretBox ProtectedMem X25519 Crypto.
From S2P Require Import Telemetry KeyTypes Process.

Section registry.
Context `{Platform}.

(** [self.keys.write().unwrap()] / [.read().unwrap()]: a poisoned lock panics. *)
Definition lock_keys {E} : M Proc E (gmap Uuid KeyRecord) := λ p,
  if p_poisoned p then (Panic, p) else (Ok (p_keys p), p).

(** [keys.values()], in the order the map yields them. *)
Definition map_values (keys : gmap Uuid KeyRecord) : list KeyRecord := snd <$> map_to_list keys.

(** The drop of a record's last [Arc]: its vault is overwritten and unmapped.
    Within one call the registry's reference is the only one left behind;
    ArcStore.v counts the references of concurrent calls. *)
Definition drop_record (record : KeyRecord) (p : Proc) : Proc :=
  set_sys (Vault_drop (private_key record) (p_sys p)) p.
Definition drop_records (records : list KeyRecord) (p : Proc) : Proc :=
  foldl (flip drop_record) p records.

(** [insert] returns the record it displaced, which the caller drops. *)
Definition add_key {E} (record : KeyRecord) : M Proc E unit :=
  let* keys := on_unwind lock_keys (drop_record record) in
  do* modify (set_keys (<[id (meta record) := record]> keys));
  modify (drop_records (option_list (keys !! id (meta record)))).

Definition remove_key {E} (id : Uuid) : M Proc E (option KeyRecord) :=
  let* keys := lock_keys in
  do* modify (set_keys (delete id keys));
  ret (keys !! id).

Definition remove_all_keys {E} : M Proc E unit :=
  let* keys := lock_keys in
  do* modify (set_keys ∅);
  modify (drop_records (map_values keys)).

(** [record.meta.delete_after > now] *)
Definition live (now : Z) (record : KeyRecord) : bool := (now <? delete_after (meta record))%Z.

Definition get_key {E} (id : Uuid) : M Proc E (option KeyRecord) :=
  let* keys := lock_keys in
  match keys !! id with
  | None => ret None
  | Some record =>
      let* now := in_sys Instant_now in
      ret (if live now record then Some record else None)
  end.

(** The sort key of a listing: creation time, then handle. *)
Definition key_order : relation KeyRecord := λ a b,
  (created_at (meta a) < created_at (meta b))%Z ∨
  created_at (meta a) = created_at (meta b) ∧ Uuid_le (id (meta a)) (id (meta b)).

#[export] Instance key_order_dec : RelDecision key_order.
Proof. intros a b. unfold key_order. apply _. Defined.

(** A listing of the values in the order the map yields them. *)
Definition list_page (now : Z) (values : list KeyRecord) (offset limit : N)
    : list KeyMetadata * N :=
  let refs := filter (λ record, live now record = true) values in
  let total_count := lenN refs in
  let sorted := merge_sort key_order refs in
  (meta <$> takeN limit (skipN offset sorted), total_count).

Definition list_all_keys {E} (offset limit : N) : M Proc E (list KeyMetadata * N) :=
  let* keys := lock_keys in
  let* now := in_sys Instant_now in
  ret (list_page now (map_values keys) offset limit).

(** ** Well-formed registries *)

(** Every record is stored under its own handle and satisfies [P]. *)
Definition keys_wf (P : KeyRecord → Prop) (keys : gmap Uuid KeyRecord) : Prop :=
  map_Forall (λ i r, id (meta r) = i ∧ P r) keys.

(** The live keys, in listing order. *)
Definition live_sorted (now : Z) (keys : gmap Uuid KeyRecord) : list KeyRecord :=
  merge_sort key_order (filter (λ record, live now record = true) (map_values keys)).
End registry.

(** ** Lookups, insertions, removals *)

Section operations.
Context `{Platform}.

Lemma lock_keys_run E p : p_poisoned p = false → @lock_keys _ E p = (Ok (p_keys p), p).
Proof. unfold lock_keys. by intros ->. Qed.

Lemma add_key_run E r p :
  p_poisoned p = false →
  @add_key _ E r p =
    (Ok tt, drop_records (option_list (p_keys p !! id (meta r)))
              (set_keys (<[id (meta r) := r]> (p_keys p)) p)).
Proof.
  intros Hp. unfold add_key.
  by rewrite (bind_ok _ _ p (p_keys p) p) by (unfold on_unwind; by rewrite lock_keys_run).
Qed.

Lemma remove_key_run E i p :
  p_poisoned p = false →
  @remove_key _ E i p = (Ok (p_keys p !! i), set_keys (delete i (p_keys p)) p).
Proof. intros Hp. unfold remove_key. by rewrite (bind_ok _ _ _ _ _ (lock_keys_run _ _ Hp)). Qed.

Lemma remove_all_keys_run E p :
  p_poisoned p = false →
  @remove_all_keys _ E p = (Ok tt, drop_records (map_values (p_keys p)) (set_keys ∅ p)).
Proof. intros Hp. unfold remove_all_keys. by rewrite (bind_ok _ _ _ _ _ (lock_keys_run _ _ Hp)). Qed.

(** The clock after one more reading. *)
Definition ticked (p : Proc) : Proc :=
  set_sys (mkSys (S (clock_reads (p_sys p))) (entropy (p_sys p)) (syscalls (p_sys p))
             (open_fds (p_sys p)) (released (p_sys p))) p.
Definition proc_now (p : Proc) : Z := clock (clock_reads (p_sys p)).

(** A lookup finds a key exactly when it is stored and the clock has not
    reached its expiry; the registry is not changed. *)
Lemma get_key_run E i p :
  p_poisoned p = false →
  @get_key _ E i p =
    match p_keys p !! i with
    | None => (Ok None, p)
    | Some r => (Ok (if live (proc_now p) r then Some r else None), ticked p)
    end.
Proof.
  intros Hp. unfold get_key. rewrite (bind_ok _ _ _ _ _ (lock_keys_run _ _ Hp)).
  by destruct (p_keys p !! i).
Qed.

Lemma get_key_Some_inv E i p r p' :
  @get_key _ E i p = (Ok (Some r), p') →
  p_keys p !! i = Some r ∧ (proc_now p < delete_after (meta r))%Z ∧ p' = ticked p.
Proof.
  destruct (p_poisoned p) eqn:Hp.
  { unfold get_key, lock_keys, bind. by rewrite Hp. }
  rewrite get_key_run by done. destruct (p_keys p !! i) as [r'|]; [|done].
  intros Hr. simplify_eq. unfold live in *. case_match; simplify_eq. bool_props. done.
Qed.

Lemma list_all_keys_run E offset limit p :
  p_poisoned p = false →
  @list_all_keys _ E offset limit p =
    (Ok (list_page (proc_now p) (map_values (p_keys p)) offset limit), ticked p).
Proof. intros Hp. unfold list_all_keys. by rewrite (bind_ok _ _ _ _ _ (lock_keys_run _ _ Hp)). Qed.
End operations.

(** ** Steps *)

Section steps.
Context `{PlatformLaws} (RK : relation (gmap Uuid KeyRecord)) (RM : relation Memory) (RT : relation Telemetry).
Context `{!PreOrder RK, !PreOrder RM, !PreOrder RT}.

Lemma steps_lock_keys E : Steps (proc_rel RK RM RT) (@lock_keys _ E).
Proof. intros p. unfold lock_keys. by destruct (p_poisoned p). Qed.

Lemma steps_get_key E i : Steps (proc_rel RK RM RT) (@get_key _ E i).
Proof.
  unfold get_key. apply steps_bind; [apply _|apply steps_lock_keys|]. intros keys.
  destruct (keys !! i); steps_go.
Qed.

Lemma steps_list_all_keys E o l : Steps (proc_rel RK RM RT) (@list_all_keys _ E o l).
Proof. unfold list_all_keys. apply steps_bind; [apply _|apply steps_lock_keys|]. steps_go. Qed.

Lemma drop_records_fields rs p :
  p_keys (drop_records rs p) = p_keys p ∧ p_poisoned (drop_records rs p) = p_poisoned p ∧
  p_mem (drop_records rs p) = p_mem p ∧ p_tel (drop_records rs p) = p_tel p ∧
  clock_reads (p_sys (drop_records rs p)) = clock_reads (p_sys p).
Proof. revert p. induction rs as [|r rs IH]; intros p; [done|]. apply (IH (drop_record r p)). Qed.

(** Every vault dropped is zeroed in full. *)
Lemma drop_records_released rs p :
  released (p_sys (drop_records rs p)) =
    reverse ((λ r, zeros (length (mmap (private_key r)))) <$> rs) ++ released (p_sys p).
Proof.
  revert p. induction rs as [|r rs IH]; intros p; [done|].
  rewrite fmap_cons, reverse_cons, <- app_assoc. unfold drop_records in *. cbn [foldl flip].
  rewrite IH. do 2 f_equal. simpl. by rewrite zeroize_zeros.
Qed.

Lemma proc_rel_drop_record r p : proc_rel RK RM RT p (drop_record r p).
Proof. constructor; try done. apply steps_Vault_drop. Qed.

Lemma proc_rel_drop_records rs p : proc_rel RK RM RT p (drop_records rs p).
Proof.
  revert p. induction rs as [|r rs IH]; intros p; [done|].
  etrans; [apply proc_rel_drop_record|apply (IH (drop_record r p))].
Qed.

Lemma steps_add_key E r : (∀ k, RK k (<[id (meta r) := r]> k)) → Steps (proc_rel RK RM RT) (@add_key _ E r).
Proof.
  intros HR p. unfold add_key, on_unwind, bind, lock_keys, modify.
  destruct (p_poisoned p); simpl; [apply proc_rel_drop_record|].
  etrans; [apply proc_rel_set_keys; auto; apply _|apply proc_rel_drop_records].
Qed.

Lemma steps_remove_key E i : (∀ k, RK k (delete i k)) → Steps (proc_rel RK RM RT) (@remove_key _ E i).
Proof.
  intros HR p. unfold remove_key, bind, lock_keys, modify, ret. destruct (p_poisoned p); simpl; [done|].
  apply proc_rel_set_keys; auto; apply _.
Qed.

Lemma steps_remove_all_keys E : (∀ k, RK k ∅) → Steps (proc_rel RK RM RT) (@remove_all_keys _ E).
Proof.
  intros HR p. unfold remove_all_keys, bind, lock_keys, modify. destruct (p_poisoned p); simpl; [done|].
  etrans; [apply proc_rel_set_keys; auto; apply _|apply proc_rel_drop_records].
Qed.
End steps.

#[export] Hint Resolve steps_get_key steps_list_all_keys steps_add_key steps_remove_key
  steps_remove_all_keys proc_rel_drop_record proc_rel_drop_records : steps.

(** ** The invariant *)

Section invariant.
Context `{Platform} (P : KeyRecord → Prop).

Lemma keys_wf_empty : keys_wf P ∅.
Proof. apply map_Forall_empty. Qed.
Lemma keys_wf_insert keys r : P r → keys_wf P keys → keys_wf P (<[id (meta r) := r]> keys).
Proof. intros Hr Hk. by apply map_Forall_insert_2. Qed.
Lemma keys_wf_delete keys i : keys_wf P keys → keys_wf P (delete i keys).
Proof. apply map_Forall_delete. Qed.
Lemma keys_wf_subseteq keys keys' : keys' ⊆ keys → keys_wf P keys → keys_wf P keys'.
Proof. intros Hsub Hk i r Hr. apply Hk. by eapply lookup_weaken. Qed.
Lemma keys_wf_lookup keys i r : keys_wf P keys → keys !! i = Some r → id (meta r) = i ∧ P r.
Proof. intros Hk Hr. by apply (Hk i r). Qed.
End invariant.

#[export] Hint Resolve keys_wf_empty keys_wf_insert keys_wf_delete : kpm.

(** ** Listings *)

Section order.
Context `{PlatformLaws}.

#[export] Instance key_order_trans : Transitive key_order.
Proof.
  intros a b c [?|[??]] [?|[??]]; unfold key_order; [left; lia..|].
  right. split; [lia|]. by etrans.
Qed.

#[export] Instance key_order_total : Total key_order.
Proof.
  intros a b. unfold key_order.
  destruct (Z.lt_trichotomy (created_at (meta a)) (created_at (meta b))) as [?|[?|?]]; [auto| |auto].
  destruct (total Uuid_le (id (meta a)) (id (meta b))); auto.
Qed.

(** Two records the order cannot tell apart have the same handle. *)
Lemma key_order_antisymm a b : key_order a b → key_order b a → id (meta a) = id (meta b).
Proof. intros [?|[??]] [?|[??]]; [lia..|]. by apply (anti_symm Uuid_le). Qed.

Definition distinct_ids (l : list KeyRecord) : Prop := NoDup ((λ r, id (meta r)) <$> l).

Lemma distinct_ids_inj l a b :
  distinct_ids l → a ∈ l → b ∈ l → id (meta a) = id (meta b) → a = b.
Proof.
  unfold distinct_ids. intros Hnd Ha Hb Hid.
  apply list_elem_of_lookup in Ha as [i Hi], Hb as [j Hj].
  assert (i = j) as <-; [|congruence].
  eapply NoDup_lookup; [done| |]; rewrite list_lookup_fmap.
  - by rewrite Hi.
  - rewrite Hj. simpl. by rewrite Hid.
Qed.

Lemma distinct_ids_sublist l k : sublist l k → distinct_ids k → distinct_ids l.
Proof. intros Hs Hnd. eapply sublist_NoDup; [exact Hnd|by apply fmap_sublist]. Qed.

(** The sort has one possible result: the order the map yields its values in
    cannot be observed. *)
Lemma merge_sort_unique l k :
  distinct_ids l → l ≡ₚ k → merge_sort key_order l = merge_sort key_order k.
Proof.
  intros Hnd Hp. apply (Sorted_unique_strong key_order).
  - intros a b Ha Hb Hab Hba. rewrite merge_sort_Permutation in Ha, Hb.
    apply (distinct_ids_inj l); [done|done|by rewrite Hp|by apply key_order_antisymm].
  - apply Sorted_merge_sort, _.
  - apply Sorted_merge_sort, _.
  - by rewrite !merge_sort_Permutation.
Qed.

Lemma list_page_permutation now values values' offset limit :
  distinct_ids values → values ≡ₚ values' →
  list_page now values offset limit = list_page now values' offset limit.
Proof.
  intros Hnd Hp. unfold list_page.
  assert (filter (λ r, live now r = true) values ≡ₚ filter (λ r, live now r = true) values') as Hf
    by by rewrite Hp.
  f_equal.
  - do 3 f_equal. apply merge_sort_unique; [|done].
    eapply distinct_ids_sublist; [apply sublist_filter|done].
  - unfold lenN. by rewrite Hf.
Qed.

Lemma map_values_distinct P keys : keys_wf P keys → distinct_ids (map_values keys).
Proof.
  intros Hk. unfold distinct_ids, map_values. rewrite <- list_fmap_compose.
  rewrite (list_fmap_ext _ fst).
  - apply NoDup_fst_map_to_list.
  - intros i [j r] Hj. simpl. apply list_elem_of_lookup_2, elem_of_map_to_list in Hj.
    by apply (keys_wf_lookup P keys).
Qed.

Lemma elem_of_map_values keys r : r ∈ map_values keys ↔ ∃ i, keys !! i = Some r.
Proof.
  unfold map_values. rewrite list_elem_of_fmap. split.
  - intros [[i r'] [-> Hin]]. exists i. by apply elem_of_map_to_list.
  - intros [i Hi]. exists (i, r). by rewrite elem_of_map_to_list.
Qed.

Lemma elem_of_live_sorted now keys r :
  r ∈ live_sorted now keys ↔ (now < delete_after (meta r))%Z ∧ ∃ i, keys !! i = Some r.
Proof.
  unfold live_sorted. rewrite merge_sort_Permutation, list_elem_of_filter, elem_of_map_values.
  unfold live. by rewrite Z.ltb_lt.
Qed.

Lemma live_sorted_sorted now keys : StronglySorted key_order (live_sorted now keys).
Proof. apply StronglySorted_merge_sort; apply _. Qed.

Lemma live_sorted_distinct P now keys : keys_wf P keys → distinct_ids (live_sorted now keys).
Proof.
  intros Hk. unfold distinct_ids, live_sorted. rewrite merge_sort_Permutation.
  eapply distinct_ids_sublist; [apply sublist_filter|by eapply map_values_distinct].
Qed.

Lemma elem_of_listed P now keys i :
  keys_wf P keys →
  i ∈ id <$> (meta <$> live_sorted now keys) ↔ ∃ r, keys !! i = Some r ∧ (now < delete_after (meta r))%Z.
Proof.
  intros Hk. rewrite <- list_fmap_compose, list_elem_of_fmap. split.
  - intros (r&->&Hr). apply elem_of_live_sorted in Hr as (Hlive&j&Hj). simpl.
    destruct (keys_wf_lookup _ _ _ _ Hk Hj) as [-> _]. by exists r.
  - intros (r&Hr&Hlive). exists r. destruct (keys_wf_lookup _ _ _ _ Hk Hr) as [Hi _]. split; [done|].
    apply elem_of_live_sorted. eauto.
Qed.

(** A page is a segment of the live keys in listing order. *)
Lemma list_page_spec now keys offset limit :
  list_page now (map_values keys) offset limit =
    (meta <$> take (N.to_nat limit) (drop (N.to_nat offset) (live_sorted now keys)),
     lenN (live_sorted now keys)).
Proof.
  unfold list_page, live_sorted. rewrite takeN_take, skipN_drop. f_equal.
  unfold lenN. by rewrite merge_sort_Permutation.
Qed.

Lemma list_page_length now keys offset limit metas total :
  list_page now (map_values keys) offset limit = (metas, total) →
  lenN metas = N.min limit (total - offset) ∧ total = lenN (live_sorted now keys).
Proof.
  rewrite list_page_spec. intros ?; simplify_eq. split; [|done].
  unfold lenN. rewrite length_fmap, length_take, length_drop. lia.
Qed.

(** [offset + count] cannot overflow: a page is only non-empty below the total. *)
Lemma list_page_bound now keys offset limit metas total :
  list_page now (map_values keys) offset limit = (metas, total) →
  metas = [] ∨ (offset + lenN metas ≤ total)%N.
Proof.
  intros Hp. apply list_page_length in Hp as [Hl _].
  destruct (decide (offset < total)%N); [right; lia|left].
  apply length_zero_iff_nil. unfold lenN in *. lia.
Qed.
End order.

(** Consecutive segments of a list, glued. *)
Lemma concat_segments {A} (l : list A) (n k : nat) :
  concat ((λ i, take n (drop (i * n) l)) <$> seq 0 k) = take (k * n) l.
Proof.
  induction k as [|k IH]; [done|].
  rewrite seq_S, fmap_app, concat_app, IH. simpl. rewrite app_nil_r.
  replace (n + k * n) with (k * n + n) by lia. by rewrite take_take_drop.
Qed.

Lemma fmap_concat {A B} (f : A → B) (ls : list (list A)) : f <$> concat ls = concat ((λ l : list A, f <$> l) <$> ls).
Proof. induction ls as [|l ls IH]; [done|]. cbn. by rewrite fmap_app, IH. Qed.
