(* ===== verification/Reaper.v ===== *)
(** * The reaper thread: km_common/src/key_types.rs, [start_reaper]

    One round takes the write lock and drops every expired record; the loop
    sleeps, looks at the stop flag and does a round.  What the other threads do
    while the reaper sleeps is an argument of the loop. *)

From S2P Require Import Prelude Effects RustStd Proto Platform RefPlatform SecretBox ProtectedMem X25519.
From S2P Require Import Crypto Telemetry KeyTypes Process Registry.

(** [REAPER_INTERVAL_SECS] of the non-test build. *)
Definition REAPER_INTERVAL_SECS : N := 60.

Section reaper.
Context `{Platform}.

Definition expired (now : Z) (r : KeyRecord) : bool := negb (live now r).

(** [keys.retain(|_, key| key.meta.delete_after > now)] *)
Definition retain_live (now : Z) (p : Proc) : Proc :=
  drop_records (filter (λ r, expired now r = true) (map_values (p_keys p)))
    (set_keys (filter (λ ir, live now ir.2 = true) (p_keys p)) p).

(** The body of the loop after the stop flag was found clear; a poisoned lock
    is passed over. *)
Definition reaper_round {E} : M Proc E unit :=
  let* now := in_sys Instant_now in
  let* poisoned := gets p_poisoned in
  if poisoned then ret tt else modify (retain_live now).

(** The loop over a schedule: for each sleep, what the other threads did and
    the flag the reaper saw when it woke up.  [true] is the [break]; an empty
    schedule is a process still asleep. *)
Fixpoint start_reaper {E} (sleeps : list ((Proc → Proc) * bool)) : M Proc E unit :=
  match sleeps with
  | [] => ret tt
  | (others, stop_signal) :: sleeps =>
      do* modify others;
      if stop_signal : bool then ret tt
      else
        do* reaper_round;
        start_reaper sleeps
  end.

(** What the reaper finds when it wakes up for the [n]-th time, and what it
    leaves, when its flag stays clear and [others n] happens during the [n]-th sleep. *)
Fixpoint left_by_round (others : nat → Proc → Proc) (p : Proc) (n : nat) : Proc :=
  match n with
  | O => p
  | S n => snd (@reaper_round Empty_set (others n (left_by_round others p n)))
  end.
Definition found_by_round (others : nat → Proc → Proc) (p : Proc) (n : nat) : Proc :=
  others n (left_by_round others p n).

(** Nothing the registry holds is past its expiry at [now]. *)
Definition reaped (now : Z) (keys : gmap Uuid KeyRecord) : Prop :=
  map_Forall (λ _ r, (now < delete_after (meta r))%Z) keys.
End reaper.

(** ** Properties *)

Section properties.
Context `{PlatformLaws}.
Implicit Types (p : Proc).

Lemma reaper_round_run E p :
  @reaper_round _ E p =
    (Ok tt, if p_poisoned p then ticked p else retain_live (proc_now p) (ticked p)).
Proof.
  unfold reaper_round. rewrite (bind_ok _ _ p (proc_now p) (ticked p)) by done.
  rewrite bind_gets. cbn [p_poisoned ticked set_sys]. by destruct (p_poisoned p).
Qed.

Lemma start_reaper_clear E sleeps sleeps' p :
  Forall (λ sl, sl.2 = false) sleeps →
  @start_reaper _ E (sleeps ++ sleeps') p =
    start_reaper sleeps' (foldl (λ q sl, snd (@reaper_round _ Empty_set (sl.1 q))) p sleeps).
Proof.
  intros Hs. revert p. induction Hs as [|[act stop] sleeps Hstop _ IH]; intros p; [done|].
  simpl in Hstop. subst stop. cbn [app start_reaper foldl fst]. rewrite bind_modify.
  rewrite (bind_ok _ _ _ _ _ (reaper_round_run _ (act p))), IH. by rewrite reaper_round_run.
Qed.

Lemma left_by_round_run E others p n :
  @start_reaper _ E ((λ i, (others i, false)) <$> seq 0 n) p = (Ok tt, left_by_round others p n).
Proof.
  rewrite <- (app_nil_r (fmap _ _)), start_reaper_clear by (apply Forall_fmap; by apply list.Forall_forall).
  cbn [start_reaper]. unfold ret. f_equal.
  induction n as [|n IH]; [done|]. rewrite seq_S, fmap_app, foldl_app, IH. done.
Qed.

Lemma lookup_retain_live now p i r :
  p_keys (retain_live now p) !! i = Some r ↔
    p_keys p !! i = Some r ∧ (now < delete_after (meta r))%Z.
Proof.
  unfold retain_live. rewrite (proj1 (drop_records_fields _ _)). cbn [p_keys set_keys].
  rewrite map_lookup_filter_Some. unfold live. cbn [snd]. by rewrite Z.ltb_lt.
Qed.

Lemma retain_live_subseteq now p : p_keys (retain_live now p) ⊆ p_keys p.
Proof. apply map_subseteq_spec. intros i r Hr. by apply lookup_retain_live in Hr as [? _]. Qed.

Lemma retain_live_fields now p :
  p_poisoned (retain_live now p) = p_poisoned p ∧ p_mem (retain_live now p) = p_mem p ∧
  p_tel (retain_live now p) = p_tel p ∧ clock_reads (p_sys (retain_live now p)) = clock_reads (p_sys p).
Proof.
  unfold retain_live.
  destruct (drop_records_fields (filter (λ r, expired now r = true) (map_values (p_keys p)))
    (set_keys (filter (λ ir, live now ir.2 = true) (p_keys p)) p)) as (_&?&?&?&?). done.
Qed.

Lemma retain_live_released now p :
  ∃ dead, dead ≡ₚ filter (λ r, expired now r = true) (map_values (p_keys p)) ∧
    released (p_sys (retain_live now p)) =
      ((λ r, zeros (length (mmap (private_key r)))) <$> dead) ++ released (p_sys p).
Proof.
  eexists (reverse _). split; [apply reverse_Permutation|]. unfold retain_live.
  rewrite drop_records_released, fmap_reverse. done.
Qed.

(** An expired record leaves the registry with its vault overwritten. *)
Lemma retain_live_expired now p i r :
  p_keys p !! i = Some r → (delete_after (meta r) ≤ now)%Z →
  p_keys (retain_live now p) !! i = None ∧
  zeros (length (mmap (private_key r))) ∈ released (p_sys (retain_live now p)).
Proof.
  intros Hr He. split.
  - apply eq_None_not_Some. intros [r' [Hr' Hlive]%lookup_retain_live]. simplify_eq. lia.
  - destruct (retain_live_released now p) as (dead&Hdead&->). apply elem_of_app. left.
    apply list_elem_of_fmap. exists r. split; [done|]. rewrite Hdead, list_elem_of_filter. split.
    + unfold expired, live. destruct (Z.ltb_spec now (delete_after (meta r))); [lia|done].
    + apply elem_of_map_values. eauto.
Qed.

Lemma proc_rel_retain_live now p :
  proc_rel (flip (⊆)) eq eq p (retain_live now p).
Proof.
  destruct (retain_live_fields now p) as (?&?&?&?). constructor; try done.
  - apply (rel_sys eq eq eq _ _ (proc_rel_drop_records eq eq eq _ (set_keys _ p))).
  - apply retain_live_subseteq.
Qed.
End properties.
