(* ===== verification/ArcStore.v ===== *)
(** * Shared records: the [Arc]s of the registry under concurrent calls

    key_types.rs keeps [Arc<KeyRecord>]s: a lookup clones one out of the map and
    the caller uses it after the lock is released, while other threads may
    remove the key.  Every lock-protected section of [KeyRegistry] is one step
    here, and the references in-flight calls hold are explicit, so that all
    interleavings are runs of [arc_step].  The vault of a record is overwritten
    when its last reference goes ([Drop for Vault]). *)

From S2P Require Import Prelude Effects RustStd Proto Platform SecretBox ProtectedMem X25519 Crypto.
From S2P Require Import Telemetry KeyTypes Process Registry Reaper.

Section store.
Context `{Platform}.

(** An [ArcInner<KeyRecord>]: its strong count, the record, and what the
    record's mapping holds now. *)
Record Cell := mkCell { strong : nat; cell_record : KeyRecord; mapping : bytes }.

(** The map from handles to allocations, the allocations, the references held
    by calls in progress, and the clock. *)
Record ArcStore := mkArcStore {
  arc_keys : gmap Uuid N;
  arc_heap : gmap N Cell;
  arc_held : list N;
  arc_now : Z;
}.

Definition init_store (now : Z) : ArcStore := mkArcStore ∅ ∅ [] now.

(** ** Reference counting *)

(** [Arc::clone] *)
Definition arc_clone (a : N) (h : gmap N Cell) : gmap N Cell :=
  alter (λ c, mkCell (S (strong c)) (cell_record c) (mapping c)) a h.

(** [drop(arc)]: the last one drops the record, whose vault is overwritten. *)
Definition arc_drop (a : N) (h : gmap N Cell) : gmap N Cell :=
  alter (λ c, if strong c =? 1 then mkCell 0 (cell_record c) (zeroize (mapping c))
              else mkCell (strong c - 1) (cell_record c) (mapping c)) a h.

Definition arc_drops (l : list N) (h : gmap N Cell) : gmap N Cell := foldl (flip arc_drop) h l.

(** ** The operations of [KeyRegistry] *)

(** [add_key]: the displaced [Arc], if any, is dropped. *)
Definition arc_add_key (a : N) (r : KeyRecord) (s : ArcStore) : ArcStore :=
  mkArcStore (<[id (meta r) := a]> (arc_keys s))
    (arc_drops (option_list (arc_keys s !! id (meta r)))
       (<[a := mkCell 1 r (mmap (private_key r))]> (arc_heap s)))
    (arc_held s) (arc_now s).

(** [remove_key]: the caller is handed the map's [Arc]. *)
Definition arc_remove_key (i : Uuid) (s : ArcStore) : ArcStore :=
  mkArcStore (delete i (arc_keys s)) (arc_heap s)
    (option_list (arc_keys s !! i) ++ arc_held s) (arc_now s).

Definition arc_values (keys : gmap Uuid N) : list N := snd <$> map_to_list keys.

Definition arc_remove_all_keys (s : ArcStore) : ArcStore :=
  mkArcStore ∅ (arc_drops (arc_values (arc_keys s)) (arc_heap s)) (arc_held s) (arc_now s).

Definition cell_live (now : Z) (h : gmap N Cell) (a : N) : bool :=
  match h !! a with Some c => live now (cell_record c) | None => false end.

(** [get_key]: a clone for the caller if the key is live. *)
Definition arc_get_key (i : Uuid) (s : ArcStore) : ArcStore :=
  match arc_keys s !! i with
  | Some a =>
      if cell_live (arc_now s) (arc_heap s) a
      then mkArcStore (arc_keys s) (arc_clone a (arc_heap s)) (a :: arc_held s) (arc_now s)
      else s
  | None => s
  end.

(** The reaper's [retain]; it read the clock before it took the lock. *)
Definition arc_retain (now : Z) (s : ArcStore) : ArcStore :=
  let keep := λ ia : Uuid * N, cell_live now (arc_heap s) ia.2 = true in
  mkArcStore (filter keep (arc_keys s))
    (arc_drops (arc_values (filter (λ ia, ¬ keep ia) (arc_keys s))) (arc_heap s))
    (arc_held s) (arc_now s).

(** A call in progress drops one of the references it holds. *)
Definition arc_release (k : nat) (s : ArcStore) : ArcStore :=
  match arc_held s !! k with
  | Some a => mkArcStore (arc_keys s) (arc_drop a (arc_heap s)) (delete k (arc_held s)) (arc_now s)
  | None => s
  end.

(** ** Interleavings *)

(** Where the allocator may put a new record: an address never used, or one
    whose record was given back. *)
Definition arc_free (s : ArcStore) (a : N) : Prop := from_option (λ c, strong c = 0) True (arc_heap s !! a).

Inductive arc_step : relation ArcStore :=
| arc_step_add a r s : arc_free s a → arc_step s (arc_add_key a r s)
| arc_step_remove i s : arc_step s (arc_remove_key i s)
| arc_step_remove_all s : arc_step s (arc_remove_all_keys s)
| arc_step_get i s : arc_step s (arc_get_key i s)
| arc_step_reap now s : (now ≤ arc_now s)%Z → arc_step s (arc_retain now s)
| arc_step_release k s : arc_step s (arc_release k s)
| arc_step_time t s : (arc_now s ≤ t)%Z →
    arc_step s (mkArcStore (arc_keys s) (arc_heap s) (arc_held s) t).

(** A step after which some call still holds a reference to [a]. *)
Definition arc_step_holding (a : N) : relation ArcStore := λ s s', arc_step s s' ∧ a ∈ arc_held s'.

Definition arc_reachable (s : ArcStore) : Prop := ∃ now, rtc arc_step (init_store now) s.

(** ** The invariant *)

Definition count (a : N) (l : list N) : nat := length (filter (λ b, b = a) l).

(** Who refers to an allocation: the map's entries and the calls in progress. *)
Definition references (s : ArcStore) (a : N) : nat :=
  count a (arc_values (arc_keys s)) + count a (arc_held s).

(** A cell referred to is intact and counts its references; one that is not
    was given back, all zero. *)
Definition cell_ok (n : nat) (c : Cell) : Prop :=
  strong c = n ∧
  (n ≠ 0 → mapping c = mmap (private_key (cell_record c))) ∧
  (n = 0 → mapping c = zeros (length (mmap (private_key (cell_record c))))).

Definition counted (h : gmap N Cell) (refs : N → nat) : Prop :=
  (∀ a c, h !! a = Some c → cell_ok (refs a) c) ∧ (∀ a, h !! a = None → refs a = 0).

(** Every handle leads to a record that carries it. *)
Definition arc_inv (s : ArcStore) : Prop :=
  counted (arc_heap s) (references s) ∧
  map_Forall (λ i a, ∃ c, arc_heap s !! a = Some c ∧ id (meta (cell_record c)) = i) (arc_keys s).

(** ** The abstraction: the registry of Registry.v *)

Definition deref (h : gmap N Cell) (a : N) : option KeyRecord := cell_record <$> h !! a.
Definition arc_abs (s : ArcStore) : gmap Uuid KeyRecord := omap (deref (arc_heap s)) (arc_keys s).
End store.

#[global] Arguments count : simpl never.

(** ** Counting *)

Section counting.
Context `{Platform}.

Lemma count_app a l k : count a (l ++ k) = count a l + count a k.
Proof. unfold count. by rewrite list.filter_app, length_app. Qed.

Lemma count_nil a : count a [] = 0.
Proof. done. Qed.

Lemma count_cons a b l : count a (b :: l) = (if decide (b = a) then 1 else 0) + count a l.
Proof. unfold count. rewrite filter_cons. by case_decide. Qed.

Lemma count_Permutation a l k : l ≡ₚ k → count a l = count a k.
Proof. intros Hp. unfold count. by rewrite Hp. Qed.

Lemma count_elem a l : a ∈ l → count a l ≠ 0.
Proof.
  induction 1 as [a l|a b l _ IH]; rewrite count_cons; [by rewrite decide_True|]. lia.
Qed.

Lemma count_not_elem a l : a ∉ l → count a l = 0.
Proof.
  induction l as [|b l IH]; intros Ha; [done|]. apply not_elem_of_cons in Ha as [Hne Ha].
  rewrite count_cons, IH, decide_False by done. done.
Qed.

Lemma arc_values_insert keys i a :
  keys !! i = None → arc_values (<[i := a]> keys) ≡ₚ a :: arc_values keys.
Proof. intros Hi. unfold arc_values. by rewrite map_to_list_insert. Qed.

Lemma count_delete a keys i b :
  keys !! i = Some b → count a (arc_values keys) = count a [b] + count a (arc_values (delete i keys)).
Proof.
  intros Hi. rewrite <- (insert_delete_id keys i b Hi) at 1.
  rewrite (count_Permutation _ _ _ (arc_values_insert _ _ _ (lookup_delete_eq keys i))).
  by rewrite (count_cons a b), (count_cons a b []), Nat.add_0_r.
Qed.

Lemma count_partition a (P : Uuid * N → Prop) `{!∀ x, Decision (P x)} keys :
  count a (arc_values keys) =
    count a (arc_values (filter P keys)) + count a (arc_values (filter (λ x, ¬ P x) keys)).
Proof.
  induction keys as [|i b keys Hi IH] using map_ind; [by rewrite !map_filter_empty|].
  rewrite (count_Permutation _ _ _ (arc_values_insert _ _ b Hi)), count_cons, IH.
  assert (∀ (Q : Uuid * N → Prop) `{!∀ x, Decision (Q x)}, filter Q keys !! i = None) as Hnone
    by (intros Q ?; apply map_lookup_filter_None; by left).
  rewrite !map_filter_insert, (delete_id keys i) by done.
  destruct (decide (P (i, b))), (decide (¬ P (i, b))); try done.
  - rewrite (count_Permutation _ _ _ (arc_values_insert _ _ b (Hnone P _))), count_cons. lia.
  - rewrite (count_Permutation _ _ _ (arc_values_insert _ _ b (Hnone (λ x, ¬ P x) _))), count_cons. lia.
Qed.
End counting.

(** ** The invariant is inductive *)

Section invariant.
Context `{PlatformLaws}.

Lemma counted_ext h f g : (∀ a, f a = g a) → counted h f → counted h g.
Proof.
  intros He [H1' H2']. split.
  - intros a c Hc. rewrite <- He. auto.
  - intros a Hc. rewrite <- He. auto.
Qed.

Lemma deref_drop a h b : deref (arc_drop a h) b = deref h b.
Proof.
  unfold deref, arc_drop. destruct (decide (a = b)) as [->|Hne].
  - rewrite lookup_alter_eq. destruct (h !! b) as [c|]; [|done]. simpl. by destruct (strong c =? 1).
  - by rewrite lookup_alter_ne.
Qed.

Lemma deref_drops l h b : deref (arc_drops l h) b = deref h b.
Proof.
  revert h. induction l as [|a l IH]; intros h; [done|].
  change (arc_drops (a :: l) h) with (arc_drops l (arc_drop a h)). by rewrite IH, deref_drop.
Qed.

Lemma deref_clone a h b : deref (arc_clone a h) b = deref h b.
Proof.
  unfold deref, arc_clone. destruct (decide (a = b)) as [->|Hne].
  - rewrite lookup_alter_eq. by destruct (h !! b).
  - by rewrite lookup_alter_ne.
Qed.

Lemma counted_drop h refs a :
  counted h (λ b, (if decide (a = b) then 1 else 0) + refs b) → counted (arc_drop a h) refs.
Proof.
  intros [Hok Hnone]. split.
  - intros b c Hc. unfold arc_drop in Hc. destruct (decide (a = b)) as [->|Hne].
    + rewrite lookup_alter_eq in Hc. destruct (h !! b) as [c0|] eqn:Hb; [|done].
      specialize (Hok b c0 Hb) as (Hs&Hm&_). rewrite decide_True in * by done. cbn in Hc, Hs, Hm.
      injection Hc as <-. destruct (Nat.eqb_spec (strong c0) 1) as [H1'|H1'].
      * assert (refs b = 0) as Hr by lia. split_and!; cbn; [lia|lia|]. intros _.
        by rewrite zeroize_zeros, Hm by lia.
      * split_and!; cbn; [lia|auto|lia].
    + rewrite lookup_alter_ne in Hc by done. specialize (Hok b c Hc). by rewrite decide_False in Hok.
  - intros b Hb. unfold arc_drop in Hb.
    assert (h !! b = None) as Hb' by (destruct (decide (a = b)) as [->|]; [by apply lookup_alter_None in Hb|];
      by rewrite lookup_alter_ne in Hb).
    specialize (Hnone b Hb'). cbv beta in Hnone. lia.
Qed.

Lemma counted_drops h refs l :
  counted h (λ b, count b l + refs b) → counted (arc_drops l h) refs.
Proof.
  revert h. induction l as [|a l IH]; intros h Hc; [done|].
  change (arc_drops (a :: l) h) with (arc_drops l (arc_drop a h)). apply IH, counted_drop.
  eapply counted_ext; [|exact Hc]. intros b. cbv beta. rewrite count_cons. lia.
Qed.

Lemma counted_clone h refs a :
  refs a ≠ 0 → counted h refs → counted (arc_clone a h) (λ b, (if decide (a = b) then 1 else 0) + refs b).
Proof.
  intros Ha [Hok Hnone]. split.
  - intros b c Hc. unfold arc_clone in Hc. destruct (decide (a = b)) as [->|Hne].
    + rewrite lookup_alter_eq in Hc. destruct (h !! b) as [c0|] eqn:Hb; [|done].
      specialize (Hok b c0 Hb) as (Hs&Hm&_). cbn in Hc. injection Hc as <-.
      split_and!; cbn; [lia|auto|lia].
    + rewrite lookup_alter_ne in Hc by done. exact (Hok b c Hc).
  - intros b Hb. unfold arc_clone in Hb.
    assert (h !! b = None) as Hb' by (destruct (decide (a = b)) as [->|]; [by apply lookup_alter_None in Hb|];
      by rewrite lookup_alter_ne in Hb).
    specialize (Hnone b Hb'). case_decide; subst; [done|lia].
Qed.

Lemma counted_alloc h refs a r :
  refs a = 0 → counted h refs →
  counted (<[a := mkCell 1 r (mmap (private_key r))]> h) (λ b, (if decide (a = b) then 1 else 0) + refs b).
Proof.
  intros Ha [Hok Hnone]. split.
  - intros b c. destruct (decide (a = b)) as [->|Hne].
    + rewrite lookup_insert_eq. intros [= <-]. rewrite Ha. by split_and!.
    + rewrite lookup_insert_ne by done. apply Hok.
  - intros b Hb. apply lookup_insert_None in Hb as [Hb Hne]. rewrite decide_False by done. by apply Hnone.
Qed.

Lemma deref_Some h a r : deref h a = Some r ↔ ∃ c, h !! a = Some c ∧ cell_record c = r.
Proof. unfold deref. rewrite fmap_Some. by split; intros (c&?&?); exists c. Qed.

(** Entries of the map survive any change of the heap that keeps the records. *)
Lemma ids_preserved (keys : gmap Uuid N) h h' :
  (∀ a r, deref h a = Some r → deref h' a = Some r) →
  map_Forall (λ (i : Uuid) a, ∃ c, h !! a = Some c ∧ id (meta (cell_record c)) = i) keys →
  map_Forall (λ (i : Uuid) a, ∃ c, h' !! a = Some c ∧ id (meta (cell_record c)) = i) keys.
Proof.
  intros Hd Hk i a Ha. destruct (Hk i a Ha) as (c&Hc&Hi).
  destruct (proj1 (deref_Some h' a (cell_record c))) as (c'&Hc'&Hr); [apply Hd, deref_Some; eauto|].
  exists c'. split; [done|]. by rewrite Hr.
Qed.

Lemma map_Forall_subseteq (P : Uuid → N → Prop) (k k' : gmap Uuid N) :
  k' ⊆ k → map_Forall P k → map_Forall P k'.
Proof. intros Hs Hk i a Ha. apply Hk. by eapply lookup_weaken. Qed.

Lemma references_key s i a : arc_keys s !! i = Some a → references s a ≠ 0.
Proof.
  intros Hi. unfold references. assert (count a (arc_values (arc_keys s)) ≠ 0); [|lia].
  apply count_elem. unfold arc_values. apply list_elem_of_fmap. exists (i, a).
  by rewrite elem_of_map_to_list.
Qed.

Lemma references_held s a : a ∈ arc_held s → references s a ≠ 0.
Proof. intros Ha%count_elem. unfold references. lia. Qed.

Lemma free_unreferenced s a : arc_inv s → arc_free s a → references s a = 0.
Proof.
  intros [[Hok Hnone] _]. unfold arc_free. destruct (arc_heap s !! a) as [c|] eqn:Hc; [|auto].
  cbn. intros Hs. destruct (Hok a c Hc) as (?&_). congruence.
Qed.

(** A new record does not take the place of one referred to. *)
Lemma deref_alloc s a r b :
  arc_inv s → arc_free s a → references s b ≠ 0 →
  deref (<[a := mkCell 1 r (mmap (private_key r))]> (arc_heap s)) b = deref (arc_heap s) b.
Proof.
  intros Hinv Ha Hb. unfold deref. rewrite lookup_insert_ne; [done|]. intros ->.
  by apply Hb, free_unreferenced.
Qed.

Lemma inv_add a r s : arc_free s a → arc_inv s → arc_inv (arc_add_key a r s).
Proof.
  intros Ha Hinv. pose proof (free_unreferenced _ _ Hinv Ha) as Href. pose proof Hinv as [Hc Hk]. split; cbn.
  - apply counted_drops. eapply counted_ext; [|by apply counted_alloc].
    intros b. unfold references. cbn.
    rewrite <- (insert_delete_eq (arc_keys s)).
    rewrite (count_Permutation b _ _ (arc_values_insert _ _ a (lookup_delete_eq (arc_keys s) (id (meta r))))), count_cons.
    destruct (arc_keys s !! id (meta r)) as [a'|] eqn:Hi; cbn.
    + rewrite (count_delete b _ _ _ Hi). lia.
    + rewrite delete_id, count_nil by done. lia.
  - apply map_Forall_insert_2.
    + apply (ids_preserved {[id (meta r) := a]} (<[a := mkCell 1 r (mmap (private_key r))]> (arc_heap s)));
        [intros ??; by rewrite deref_drops| |apply lookup_singleton_eq].
      apply map_Forall_singleton. eexists. by rewrite lookup_insert_eq.
    + intros i b Hb. destruct (Hk i b Hb) as (c&Hcb&Hi).
      destruct (proj1 (deref_Some (arc_heap (arc_add_key a r s)) b (cell_record c))) as (c'&Hc'&Hr).
      * cbn. rewrite deref_drops, deref_alloc by eauto using references_key. apply deref_Some. eauto.
      * exists c'. split; [done|]. by rewrite Hr.
Qed.

Lemma inv_remove i s : arc_inv s → arc_inv (arc_remove_key i s).
Proof.
  intros [Hc Hk]. split; cbn.
  - eapply counted_ext; [|exact Hc]. intros b. unfold references. cbn. rewrite count_app.
    destruct (arc_keys s !! i) as [a|] eqn:Hi; cbn.
    + rewrite (count_delete b _ _ _ Hi). lia.
    + by rewrite delete_id.
  - by apply map_Forall_delete.
Qed.

Lemma inv_remove_all s : arc_inv s → arc_inv (arc_remove_all_keys s).
Proof. intros [Hc Hk]. split; cbn; [by apply counted_drops|apply map_Forall_empty]. Qed.

Lemma inv_get i s : arc_inv s → arc_inv (arc_get_key i s).
Proof.
  intros Hinv. unfold arc_get_key. destruct (arc_keys s !! i) as [a|] eqn:Hi; [|done].
  destruct (cell_live _ _ a); [|done]. destruct Hinv as [Hc Hk]. split; cbn.
  - eapply counted_ext; [|apply counted_clone; [by eapply references_key|exact Hc]].
    intros b. unfold references. cbn. rewrite count_cons. lia.
  - eapply ids_preserved; [|exact Hk]. intros b r. by rewrite deref_clone.
Qed.

Lemma inv_retain now s : arc_inv s → arc_inv (arc_retain now s).
Proof.
  intros [Hc Hk]. split; cbn.
  - apply counted_drops. eapply counted_ext; [|exact Hc]. intros b. unfold references. cbn.
    rewrite (count_partition b (λ ia, cell_live now (arc_heap s) ia.2 = true) (arc_keys s)). lia.
  - apply (ids_preserved _ (arc_heap s)); [intros ??; by rewrite deref_drops|].
    eapply map_Forall_subseteq; [|exact Hk]. apply map_filter_subseteq.
Qed.

Lemma inv_release k s : arc_inv s → arc_inv (arc_release k s).
Proof.
  intros Hinv. unfold arc_release. destruct (arc_held s !! k) as [a|] eqn:Hk'; [|done].
  destruct Hinv as [Hc Hk]. split; cbn.
  - apply counted_drop. eapply counted_ext; [|exact Hc]. intros b. unfold references. cbn.
    rewrite (count_Permutation b (arc_held s) (a :: delete k (arc_held s)))
      by (by apply delete_Permutation). rewrite count_cons. lia.
  - eapply ids_preserved; [|exact Hk]. intros b r. by rewrite deref_drop.
Qed.

Lemma arc_step_inv s s' : arc_step s s' → arc_inv s → arc_inv s'.
Proof.
  destruct 1; eauto using inv_add, inv_remove, inv_remove_all, inv_get, inv_retain, inv_release.
Qed.

Lemma init_store_inv now : arc_inv (init_store now).
Proof.
  split; [|apply map_Forall_empty]. split; [by intros a c|]. intros a _.
  unfold references, arc_values. cbn. by rewrite map_to_list_empty.
Qed.

Lemma arc_reachable_inv s : arc_reachable s → arc_inv s.
Proof.
  intros [now Hr]. remember (init_store now) as s0 eqn:H0'.
  assert (arc_inv s0) as Hi by (subst; apply init_store_inv). clear H0'.
  induction Hr; eauto using arc_step_inv.
Qed.
End invariant.

(** ** The abstraction commutes with the operations *)

Section abstraction.
Context `{PlatformLaws}.

Lemma lookup_abs s i : arc_abs s !! i = a ← arc_keys s !! i; deref (arc_heap s) a.
Proof. unfold arc_abs. by rewrite lookup_omap. Qed.

(** The abstraction of a key is the record of its allocation, under its handle. *)
Lemma abs_key s i a : arc_inv s → arc_keys s !! i = Some a →
  ∃ c, arc_heap s !! a = Some c ∧ arc_abs s !! i = Some (cell_record c) ∧ id (meta (cell_record c)) = i.
Proof.
  intros [_ Hk] Ha. destruct (Hk i a Ha) as (c&Hc&Hi). exists c.
  rewrite lookup_abs, Ha. cbn. unfold deref. by rewrite Hc.
Qed.

Lemma abs_ext s s' :
  arc_keys s' = arc_keys s → (∀ a, deref (arc_heap s') a = deref (arc_heap s) a) → arc_abs s' = arc_abs s.
Proof.
  intros Hk Hd. apply map_eq. intros i. rewrite !lookup_abs, Hk.
  destruct (arc_keys s !! i); [|done]. apply Hd.
Qed.

Lemma abs_add a r s :
  arc_free s a → arc_inv s → arc_abs (arc_add_key a r s) = <[id (meta r) := r]> (arc_abs s).
Proof.
  intros Ha Hinv. apply map_eq. intros i. rewrite lookup_abs. cbn.
  destruct (decide (id (meta r) = i)) as [<-|Hne].
  - rewrite !lookup_insert_eq. cbn. rewrite deref_drops. unfold deref. by rewrite lookup_insert_eq.
  - rewrite !lookup_insert_ne by done. rewrite lookup_abs.
    destruct (arc_keys s !! i) as [b|] eqn:Hb; [|done]. cbn.
    by rewrite deref_drops, deref_alloc by eauto using references_key.
Qed.

Lemma abs_remove i s : arc_abs (arc_remove_key i s) = delete i (arc_abs s).
Proof.
  apply map_eq. intros j. rewrite lookup_abs. cbn. destruct (decide (i = j)) as [<-|Hne].
  - by rewrite !lookup_delete_eq.
  - by rewrite !lookup_delete_ne, lookup_abs by done.
Qed.

Lemma abs_remove_all s : arc_abs (arc_remove_all_keys s) = ∅.
Proof. apply map_eq. intros i. by rewrite lookup_abs, lookup_empty. Qed.

Lemma abs_get i s : arc_abs (arc_get_key i s) = arc_abs s.
Proof.
  unfold arc_get_key. destruct (arc_keys s !! i) as [a|]; [|done]. destruct (cell_live _ _ _); [|done].
  apply abs_ext; [done|]. intros b. apply deref_clone.
Qed.

Lemma abs_release k s : arc_abs (arc_release k s) = arc_abs s.
Proof.
  unfold arc_release. destruct (arc_held s !! k) as [a|]; [|done].
  apply abs_ext; [done|]. intros b. apply deref_drop.
Qed.

Lemma abs_retain now s :
  arc_inv s → arc_abs (arc_retain now s) = filter (λ ir, live now ir.2 = true) (arc_abs s).
Proof.
  intros Hinv. apply map_eq. intros i. rewrite lookup_abs, map_lookup_filter, lookup_abs. cbn.
  rewrite map_lookup_filter. destruct (arc_keys s !! i) as [a|] eqn:Ha; [|done]. cbn.
  destruct (abs_key _ _ _ Hinv Ha) as (c&Hc&_).
  assert (deref (arc_heap s) a = Some (cell_record c)) as Hd by (unfold deref; by rewrite Hc).
  assert (cell_live now (arc_heap s) a = live now (cell_record c)) as Hl
    by (unfold cell_live; by rewrite Hc).
  rewrite Hd. cbn. rewrite Hl.
  destruct (live now (cell_record c)); [|done].
  rewrite !option_guard_True by done. cbn. by rewrite deref_drops, Hd.
Qed.

(** The registry process that the store implements at this moment. *)
Definition simulates (p : Proc) (s : ArcStore) : Prop :=
  p_poisoned p = false ∧ p_keys p = arc_abs s ∧ proc_now p = arc_now s.

(** The references a step hands to the caller, as records. *)
Definition handed (s s' : ArcStore) : option KeyRecord :=
  match decide (length (arc_held s) < length (arc_held s')) with
  | left _ => a ← head (arc_held s'); deref (arc_heap s') a
  | right _ => None
  end.

Lemma handed_same s s' : arc_held s' = arc_held s → handed s s' = None.
Proof. unfold handed. intros ->. case_decide; [lia|done]. Qed.

Lemma handed_cons s s' a : arc_held s' = a :: arc_held s → handed s s' = deref (arc_heap s') a.
Proof. unfold handed. intros ->. case_decide as Hd; [done|]. simpl in Hd. lia. Qed.

Lemma get_refines E i s p :
  arc_inv s → simulates p s →
  fst (@get_key _ E i p) = Ok (handed s (arc_get_key i s)) ∧
  p_keys (snd (@get_key _ E i p)) = arc_abs (arc_get_key i s).
Proof.
  intros Hinv (Hp&Hk&Hn). rewrite get_key_run, abs_get, Hk by done. unfold arc_get_key.
  destruct (arc_keys s !! i) as [a|] eqn:Ha.
  - destruct (abs_key _ _ _ Hinv Ha) as (c&Hc&->&_). rewrite Hn.
    assert (cell_live (arc_now s) (arc_heap s) a = live (arc_now s) (cell_record c)) as ->
      by (unfold cell_live; by rewrite Hc).
    split; [|done]. cbn [fst]. f_equal.
    destruct (live (arc_now s) (cell_record c)); [|by rewrite handed_same].
    rewrite (handed_cons _ _ a) by done. cbn. rewrite deref_clone. unfold deref. by rewrite Hc.
  - rewrite lookup_abs, Ha. cbn. by rewrite handed_same.
Qed.

(** What a lookup that hands out a reference found. *)
Lemma arc_get_key_handed i s a :
  arc_inv s → arc_held (arc_get_key i s) = a :: arc_held s →
  ∃ r, arc_abs s !! i = Some r ∧ id (meta r) = i ∧ (arc_now s < delete_after (meta r))%Z ∧
    deref (arc_heap (arc_get_key i s)) a = Some r.
Proof.
  intros Hinv. unfold arc_get_key. destruct (arc_keys s !! i) as [b|] eqn:Hb.
  2: { intros Hl%(f_equal length). simpl in Hl. lia. }
  destruct (abs_key _ _ _ Hinv Hb) as (c&Hc&Habs&Hid).
  destruct (cell_live _ _ b) eqn:Hl; [|intros Hl'%(f_equal length); simpl in Hl'; lia].
  cbn. intros [= ->]. exists (cell_record c). split_and!; [done..| |].
  - unfold cell_live in Hl. rewrite Hc in Hl. unfold live in Hl. by apply Z.ltb_lt.
  - rewrite deref_clone. unfold deref. by rewrite Hc.
Qed.

Lemma remove_refines E i s p :
  arc_inv s → simulates p s →
  fst (@remove_key _ E i p) = Ok (handed s (arc_remove_key i s)) ∧
  p_keys (snd (@remove_key _ E i p)) = arc_abs (arc_remove_key i s).
Proof.
  intros Hinv (Hp&Hk&Hn). rewrite remove_key_run, abs_remove, Hk by done. split; [|done].
  cbn [fst]. f_equal. destruct (arc_keys s !! i) as [a|] eqn:Ha.
  - destruct (abs_key _ _ _ Hinv Ha) as (c&Hc&->&_).
    rewrite (handed_cons _ _ a) by (cbn; by rewrite Ha). cbn. unfold deref. by rewrite Hc.
  - rewrite lookup_abs, Ha. cbn. rewrite handed_same; [done|]. cbn. by rewrite Ha.
Qed.

Lemma add_refines E a r s p :
  arc_free s a → arc_inv s → simulates p s →
  p_keys (snd (@add_key _ E r p)) = arc_abs (arc_add_key a r s).
Proof.
  intros Ha Hinv (Hp&Hk&Hn). rewrite add_key_run, abs_add by done. cbn [snd].
  by rewrite (proj1 (drop_records_fields _ _)), <- Hk.
Qed.

Lemma remove_all_refines E s p :
  simulates p s → p_keys (snd (@remove_all_keys _ E p)) = arc_abs (arc_remove_all_keys s).
Proof.
  intros (Hp&Hk&Hn). rewrite remove_all_keys_run, abs_remove_all by done. cbn [snd].
  by rewrite (proj1 (drop_records_fields _ _)).
Qed.

Lemma reap_refines E s p :
  arc_inv s → simulates p s → p_keys (snd (@reaper_round _ E p)) = arc_abs (arc_retain (arc_now s) s).
Proof.
  intros Hinv (Hp&Hk&Hn). rewrite reaper_round_run, Hp, abs_retain by done. cbn [snd].
  unfold retain_live. rewrite (proj1 (drop_records_fields _ _)). cbn. by rewrite Hk, Hn.
Qed.

(** A call that works on a key it looked up sees its secret until it lets go,
    whatever the other threads do in the meantime. *)
Lemma referenced_intact s a :
  arc_inv s → references s a ≠ 0 →
  ∃ c, arc_heap s !! a = Some c ∧ mapping c = mmap (private_key (cell_record c)).
Proof.
  intros [[Hok Hnone] _] Ha. destruct (arc_heap s !! a) as [c|] eqn:Hc.
  - exists c. split; [done|]. by apply (Hok a c Hc).
  - by apply Hnone in Hc.
Qed.

(** No step changes the record behind a reference in use. *)
Lemma deref_step s s' a : arc_inv s → arc_step s s' → references s a ≠ 0 → deref (arc_heap s') a = deref (arc_heap s) a.
Proof.
  intros Hinv Hst Ha. destruct Hst as [b r s Hb|i s|s|i s|now s Ht|k s|t s Ht]; cbn; try done.
  - by rewrite deref_drops, deref_alloc.
  - apply deref_drops.
  - unfold arc_get_key. destruct (arc_keys s !! i) as [b|]; [|done].
    destruct (cell_live _ _ b); [apply deref_clone|done].
  - apply deref_drops.
  - unfold arc_release. destruct (arc_held s !! k) as [b|]; [apply deref_drop|done].
Qed.

Lemma deref_holding s s' a :
  arc_inv s → a ∈ arc_held s → rtc (arc_step_holding a) s s' →
  arc_inv s' ∧ a ∈ arc_held s' ∧ deref (arc_heap s') a = deref (arc_heap s) a.
Proof.
  intros Hinv Ha Hr. induction Hr as [s|s s1 s' [Hst Ha1] _ IH]; [done|].
  destruct IH as (?&?&Hd); [by eapply arc_step_inv|done|]. split_and!; [done..|].
  rewrite Hd. apply deref_step; [done..|]. by apply references_held.
Qed.

Lemma unreferenced_zeroed s a c :
  arc_inv s → arc_heap s !! a = Some c → references s a = 0 → strong c = 0 ∧ all_zero (mapping c).
Proof.
  intros [[Hok _] _] Hc Ha. destruct (Hok a c Hc) as (Hs&_&Hz). split; [congruence|].
  rewrite Hz by done. apply zeros_all_zero.
Qed.
End abstraction.
