(* ===== verification/Boundary.v ===== *)
(** * What the entry points of both services share

    Reading a handle from the caller, the scope of a secret in a handler, the
    fixed-size array fields of the [repr(C)] listing entries, and arithmetic and
    assertions that depend on the build.  MAX_ALGORITHM_LEN and
    MAX_PUBLIC_KEY_LEN are those of km_common/src/lib.rs.  Then the vocabulary of
    the specifications: what a caller's pointer leads to, a page and the bytes of
    its entries, and what it means for an entry point to return ([returns]). *)

From S2P Require Import Prelude Effects RustStd Proto Platform SecretBox ProtectedMem X25519 Crypto.
From S2P Require Import Telemetry KeyTypes Process Registry.

Definition MAX_ALGORITHM_LEN : N := 128.
Definition MAX_PUBLIC_KEY_LEN : N := 2048.

Section boundary.
Context `{Platform}.

(** The scope of a secret local of a handler. *)
Definition scoped_secret {E A} (b : SecretBox) (body : M Proc E A) : M Proc E A :=
  finally body (λ p, set_sys (SecretBox_drop b (p_sys p)) p).

(** [Uuid::from_slice(from_raw_parts(p, 16)).map_err(|_| InvalidArgument)?] *)
Definition uuid_of_slice (b : bytes) : M Proc Status Uuid := ok_or (Uuid_from_slice b) InvalidArgument.

(** [arr.copy_from_slice(src)] and [arr[..src.len()].copy_from_slice(src)] on an array field. *)
Definition array_copy {S E} (arr src : bytes) : M S E bytes :=
  if length src =? length arr then ret src else panic.
Definition array_copy_prefix {S E} (arr src : bytes) : M S E bytes :=
  if length src <=? length arr then ret (src ++ drop (length src) arr) else panic.

(** [a + b] on [usize]: an overflow panics or wraps around, by the build. *)
Definition usize_add {S E} (a b : N) : M S E N :=
  if (usize_max <? a + b)%N && debug_assertions then panic else ret ((a + b) mod (usize_max + 1))%N.

(** [debug_assert!(false, ..)] *)
Definition debug_assert_false {S E} : M S E unit := if debug_assertions then panic else ret tt.

(** [slice::from_raw_parts_mut] of [n] entries of [size] bytes, 8-aligned. *)
Definition entries_from_raw_parts_mut {E} (p n size : N) : M Memory E MutSlice :=
  if aligned8 p then
    let* s := from_raw_parts_mut p (n * size) in
    ret (mkMutSlice p n)
  else ub.

(** [*entry = e] for the [i]-th entry of the slice. *)
Definition store_entry {E} (s : MutSlice) (size i : N) (e : bytes) : M Memory E unit :=
  modify (λ m, write_bytes m (ms_ptr s + i * size) e).
End boundary.

(** ** Lemmas *)

Section lemmas.
Context `{PlatformLaws}.

Lemma steps_scoped_secret RK RM RT `{!PreOrder RK, !PreOrder RM, !PreOrder RT} {E A} b (m : M Proc E A) :
  Steps (proc_rel RK RM RT) m → Steps (proc_rel RK RM RT) (scoped_secret b m).
Proof.
  intros Hm. apply steps_finally; [apply _|done|]. intros p. constructor; simpl; try done.
  apply steps_SecretBox_drop.
Qed.

Lemma scoped_secret_run {E A} b (m : M Proc E A) p o p' :
  m p = (o, p') → scoped_secret b m p = (o, set_sys (SecretBox_drop b (p_sys p')) p').
Proof. unfold scoped_secret, finally. by intros ->. Qed.

Lemma steps_array_copy {S E} (R : relation S) `{!Reflexive R} arr src : Steps R (@array_copy S E arr src).
Proof. unfold array_copy. steps_go. Qed.
Lemma steps_array_copy_prefix {S E} (R : relation S) `{!Reflexive R} arr src :
  Steps R (@array_copy_prefix S E arr src).
Proof. unfold array_copy_prefix. steps_go. Qed.
Lemma steps_usize_add {S E} (R : relation S) `{!Reflexive R} a b : Steps R (@usize_add _ S E a b).
Proof. unfold usize_add. steps_go. Qed.
Lemma steps_debug_assert_false {S E} (R : relation S) `{!Reflexive R} : Steps R (@debug_assert_false _ S E).
Proof. unfold debug_assert_false. steps_go. Qed.
Lemma steps_uuid_of_slice R `{!Reflexive R} b : Steps R (uuid_of_slice b).
Proof. unfold uuid_of_slice. steps_go. Qed.
Lemma steps_entries_from_raw_parts_mut {E} R `{!PreOrder R} p n size :
  Steps R (@entries_from_raw_parts_mut E p n size).
Proof. unfold entries_from_raw_parts_mut. steps_go. Qed.

Lemma array_copy_ok {S E} arr src (s : S) :
  length src = length arr → @array_copy S E arr src s = (Ok src, s).
Proof. intros Hl. unfold array_copy. by rewrite Hl, Nat.eqb_refl. Qed.

Lemma array_copy_prefix_ok {S E} arr src (s : S) :
  length src ≤ length arr → @array_copy_prefix S E arr src s = (Ok (src ++ drop (length src) arr), s).
Proof. intros Hl. unfold array_copy_prefix. by destruct (Nat.leb_spec (length src) (length arr)); [|lia]. Qed.

Lemma bind_array_copy {S E B} arr src (k : bytes → M S E B) s :
  length src = length arr → bind (array_copy arr src) k s = k src s.
Proof. intros Hl. by rewrite (bind_ok _ _ _ _ _ (array_copy_ok _ _ _ Hl)). Qed.

Lemma bind_array_copy_prefix {S E B} arr src (k : bytes → M S E B) s :
  length src ≤ length arr → bind (array_copy_prefix arr src) k s = k (src ++ drop (length src) arr) s.
Proof. intros Hl. by rewrite (bind_ok _ _ _ _ _ (array_copy_prefix_ok _ _ _ Hl)). Qed.

Lemma usize_add_ok {S E} a b (s : S) :
  (a + b ≤ usize_max)%N → @usize_add _ S E a b s = (Ok (a + b)%N, s).
Proof.
  intros Hl. unfold usize_add. destruct (N.ltb_spec usize_max (a + b)); [lia|]. simpl.
  by rewrite N.mod_small by lia.
Qed.

Lemma uuid_of_slice_ok b p : length b = 16 → ∃ u, uuid_of_slice b p = (Ok u, p) ∧ Uuid_as_bytes u = b.
Proof.
  intros Hl. unfold uuid_of_slice. rewrite Uuid_from_slice_bytes by done.
  eexists. split; [done|]. apply Uuid_as_from. by apply Uuid_from_slice_bytes.
Qed.
End lemmas.

#[export] Hint Resolve steps_scoped_secret steps_array_copy steps_array_copy_prefix steps_usize_add steps_debug_assert_false
  steps_uuid_of_slice steps_entries_from_raw_parts_mut : steps.

(** ** What a caller passes *)

(** The caller's buffer at [p] holds exactly the bytes [b]. *)
Definition points_to (m : Memory) (p : N) (b : bytes) : Prop :=
  p ≠ 0%N ∧ (lenN b ≤ isize_max)%N ∧ read_bytes m p (length b) = Some b.

(** An optional input, as the handlers read it: empty when null or of length zero. *)
Definition opt_points_to (m : Memory) (p n : N) (b : bytes) : Prop :=
  if negb (is_null p) && (0 <? n)%N then points_to m p b ∧ n = lenN b else b = [].

#[export] Instance points_to_dec m p b : Decision (points_to m p b).
Proof. unfold points_to. apply _. Defined.
#[export] Instance opt_points_to_dec m p n b : Decision (opt_points_to m p n b).
Proof. unfold opt_points_to. case_match; apply _. Defined.

Lemma points_to_valid m p b : points_to m p b → valid_buffer m p (lenN b).
Proof.
  intros (?&?&Hr). split_and!; [done..|]. unfold lenN. rewrite Nat2N.id, Hr. eauto.
Qed.

Lemma from_raw_parts_points_to {E} m p b :
  points_to m p b → @from_raw_parts E p (lenN b) m = (Ok b, m).
Proof.
  intros Hb. apply from_raw_parts_read; [by apply points_to_valid|].
  destruct Hb as (_&_&Hr). unfold lenN. by rewrite Nat2N.id.
Qed.

Lemma valid_points_to m p n : valid_buffer m p n → ∃ b, points_to m p b ∧ lenN b = n.
Proof.
  intros (?&?&[b Hb]). pose proof (length_read_bytes _ _ _ _ Hb) as Hl. exists b.
  assert (lenN b = n) as <- by (unfold lenN; lia). unfold lenN in *. rewrite Nat2N.id in *.
  by split_and!.
Qed.

Lemma points_to_nonnull m p b : points_to m p b → is_null p = false.
Proof. intros (?&_). by apply N.eqb_neq. Qed.
Lemma valid_nonnull m p n : valid_buffer m p n → is_null p = false.
Proof. intros (?&_). by apply N.eqb_neq. Qed.

Lemma valid_opt m a al :
  (negb (is_null a) && (0 <? al)%N = true → valid_buffer m a al) → ∃ b, opt_points_to m a al b.
Proof.
  unfold opt_points_to. destruct (negb (is_null a) && (0 <? al)%N); intros Hv; [|by eexists].
  destruct (valid_points_to _ _ _ (Hv eq_refl)) as (b&?&?). by exists b.
Qed.

Lemma valid_u64_nonnull m p : valid_u64 m p → is_null p = false.
Proof. intros (?&_). by apply N.eqb_neq. Qed.

(** A buffer just written holds what was written. *)
Lemma points_to_write m p b :
  valid_buffer m p (lenN b) → points_to (write_bytes m p b) p b.
Proof. intros (?&?&_). split_and!; [done..|]. apply read_write_bytes_same. Qed.

Lemma points_to_write_disjoint m p b q c :
  disjoint p (lenN b) q (lenN c) → points_to m p b → points_to (write_bytes m q c) p b.
Proof. intros Hd (?&?&?). split_and!; [done..|]. by rewrite read_write_bytes_disjoint. Qed.

Section uuid.
Context `{PlatformLaws}.

Lemma Uuid_from_bytes_as u : Uuid_from_bytes (Uuid_as_bytes u) = u.
Proof.
  pose proof (Uuid_from_slice_bytes _ (Uuid_as_bytes_length u)) as Hs.
  rewrite Uuid_from_as in Hs. by simplify_eq.
Qed.

Lemma lenN_uuid u : lenN (Uuid_as_bytes u) = 16%N.
Proof. unfold lenN. by rewrite Uuid_as_bytes_length. Qed.

(** Every sixteen bytes are some handle's. *)
Lemma valid_uuid m p : valid_buffer m p 16 → ∃ u, points_to m p (Uuid_as_bytes u).
Proof.
  intros (b&Hb&Hl)%valid_points_to. assert (length b = 16) as Hl' by (unfold lenN in Hl; lia).
  exists (Uuid_from_bytes b). by rewrite (Uuid_as_from b _ (Uuid_from_slice_bytes b Hl')).
Qed.

Lemma points_to_uuid m p u : points_to m p (Uuid_as_bytes u) → read_bytes m p 16 = Some (Uuid_as_bytes u).
Proof. intros (_&_&Hr). by rewrite Uuid_as_bytes_length in Hr. Qed.

(** Sixteen bytes in memory are at most one handle's. *)
Lemma read_uuid_inj m p u v :
  read_bytes m p 16 = Some (Uuid_as_bytes u) → points_to m p (Uuid_as_bytes v) → u = v.
Proof.
  intros Hu Hv%points_to_uuid. rewrite Hu in Hv. injection Hv as Hv.
  apply (inj Some). by rewrite <- (Uuid_from_as u), <- (Uuid_from_as v), Hv.
Qed.
End uuid.

(** ** Weakest preconditions of what a handler does *)

Section wp_proc.
Context `{PlatformLaws} {E : Type}.
Implicit Types (p : Proc).

Lemma wp_ret {S A} (a : A) (Q : Outcome E A → S → Prop) s : Q (Ok a) s → wp (ret a) Q s.
Proof. done. Qed.
Lemma wp_throw {S A} (e : E) (Q : Outcome E A → S → Prop) s : Q (Err e) s → wp (throw e) Q s.
Proof. done. Qed.
Lemma wp_modify {S} (f : S → S) (Q : Outcome E unit → S → Prop) s : Q (Ok tt) (f s) → wp (modify f) Q s.
Proof. done. Qed.
Lemma wp_gets {S A} (f : S → A) (Q : Outcome E A → S → Prop) s : Q (Ok (f s)) s → wp (gets f) Q s.
Proof. done. Qed.
Lemma wp_usize_add {S} a b (Q : Outcome E N → S → Prop) s :
  (a + b ≤ usize_max)%N → Q (Ok (a + b)%N) s → wp (usize_add a b) Q s.
Proof. intros Hl HQ. by eapply wp_eq; [apply usize_add_ok|]. Qed.
Lemma wp_Some {S A} (a : A) (e : E) (Q : Outcome E A → S → Prop) s : Q (Ok a) s → wp (ok_or (Some a) e) Q s.
Proof. done. Qed.
Lemma wp_None {S A} (e : E) (Q : Outcome E A → S → Prop) s : Q (Err e) s → wp (ok_or None e) Q s.
Proof. done. Qed.

(** A system-level step with a known outcome: some later system state. *)
Lemma wp_in_sys {A} (m : M Sys E A) o Q p :
  Outcome_is m o → (∀ s, Q o (set_sys s p)) → wp (in_sys m) Q p.
Proof.
  intros Ho HQ. unfold wp, in_sys, zoom.
  rewrite (outcome_run _ _ (p_sys p) Ho). simpl. apply HQ.
Qed.

Lemma wp_in_sys_wp {A} (m : M Sys E A) Q p :
  wp m (λ o s, Q o (set_sys s p)) (p_sys p) → wp (in_sys m) Q p.
Proof. unfold wp, in_sys, zoom. by destruct (m (p_sys p)). Qed.

Lemma wp_in_mem {A} (m : M Memory E A) o mem Q p :
  m (p_mem p) = (o, mem) → Q o (set_mem mem p) → wp (in_mem m) Q p.
Proof. intros Hm HQ. unfold wp. by rewrite (in_mem_run _ _ _ _ Hm). Qed.

Lemma wp_scoped_secret {A} b (m : M Proc E A) Q p :
  wp m (λ o p', Q o (set_sys (SecretBox_drop b (p_sys p')) p')) p → wp (scoped_secret b m) Q p.
Proof. unfold wp, scoped_secret, finally. by destruct (m p). Qed.

Lemma set_mem_same p : set_mem (p_mem p) p = p.
Proof. by destruct p. Qed.

Lemma wp_from_raw_parts ptr len b Q p :
  points_to (p_mem p) ptr b → len = lenN b → Q (Ok b) p →
  wp (in_mem (@from_raw_parts E ptr len)) Q p.
Proof.
  intros Hb -> HQ. eapply wp_in_mem; [by apply from_raw_parts_points_to|by rewrite set_mem_same].
Qed.

Lemma wp_from_raw_parts_mut ptr len Q p :
  valid_buffer (p_mem p) ptr len → Q (Ok (mkMutSlice ptr len)) p →
  wp (in_mem (@from_raw_parts_mut E ptr len)) Q p.
Proof. intros Hv HQ. eapply wp_in_mem; [by apply from_raw_parts_mut_ok|by rewrite set_mem_same]. Qed.

Lemma wp_copy_from_slice ptr len src Q p :
  len = lenN src → Q (Ok tt) (set_mem (write_bytes (p_mem p) ptr src) p) →
  wp (in_mem (@copy_from_slice E (mkMutSlice ptr len) src)) Q p.
Proof. intros Hl HQ. by eapply wp_in_mem; [apply copy_from_slice_ok|]. Qed.

Lemma wp_slice_to ptr len n Q p :
  (n ≤ len)%N → Q (Ok (mkMutSlice ptr n)) p →
  wp (in_mem (@slice_to E (mkMutSlice ptr len) n)) Q p.
Proof. intros Hl HQ. eapply wp_in_mem; [by apply slice_to_ok|by rewrite set_mem_same]. Qed.

Lemma wp_read_u64 ptr v Q p :
  valid_u64 (p_mem p) ptr → read_bytes (p_mem p) ptr 8 = Some (le_bytes 8 v) → (v < 2 ^ 64)%N →
  Q (Ok v) p → wp (in_mem (@read_u64 E ptr)) Q p.
Proof.
  intros Hv Hr Hlt HQ. eapply wp_in_mem; [by apply read_u64_ok|].
  by rewrite set_mem_same, le_value_le_bytes.
Qed.

Lemma wp_read_u64_any ptr Q p :
  valid_u64 (p_mem p) ptr → (∀ v, Q (Ok v) p) → wp (in_mem (@read_u64 E ptr)) Q p.
Proof.
  intros Hv HQ. destruct (Hv) as (_&_&[bs Hbs]).
  eapply wp_in_mem; [by apply read_u64_ok|by rewrite set_mem_same].
Qed.

Lemma wp_write_u64 ptr v Q p :
  valid_u64 (p_mem p) ptr → Q (Ok tt) (set_mem (write_bytes (p_mem p) ptr (le_bytes 8 v)) p) →
  wp (in_mem (@write_u64 E ptr v)) Q p.
Proof. intros Hv HQ. by eapply wp_in_mem; [apply write_u64_ok|]. Qed.

(** The optional additional data. *)
Lemma wp_opt_slice ptr len b Q p :
  opt_points_to (p_mem p) ptr len b → Q (Ok b) p →
  wp (if negb (is_null ptr) && (0 <? len)%N then in_mem (@from_raw_parts E ptr len) else ret []) Q p.
Proof.
  unfold opt_points_to. destruct (negb (is_null ptr) && (0 <? len)%N).
  - intros [Hp Hl]. by apply wp_from_raw_parts.
  - by intros ->.
Qed.

(** ** The registry *)

(** The key a handler works on: stored, and not yet expired by the clock. *)
Definition live_key p (i : Uuid) : option KeyRecord :=
  match p_keys p !! i with
  | Some r => if live (proc_now p) r then Some r else None
  | None => None
  end.

Lemma live_key_Some p i r :
  live_key p i = Some r ↔ p_keys p !! i = Some r ∧ (proc_now p < delete_after (meta r))%Z.
Proof.
  unfold live_key. destruct (p_keys p !! i) as [r'|]; [|by split; [|intros []]].
  unfold live. destruct (Z.ltb_spec (proc_now p) (delete_after (meta r'))).
  - split; [by intros [= <-]|by intros [? _]].
  - split; [done|]. intros [[= <-] ?]. lia.
Qed.

Lemma wp_get_key i Q p :
  p_poisoned p = false →
  (∀ p', p_keys p' = p_keys p → p_mem p' = p_mem p → p_tel p' = p_tel p → p_poisoned p' = p_poisoned p →
     (is_Some (live_key p i) → p' = ticked p) → Q (Ok (live_key p i)) p') →
  wp (@get_key _ E i) Q p.
Proof.
  intros Hp HQ. unfold wp. rewrite get_key_run by done. unfold live_key in *.
  destruct (p_keys p !! i); apply HQ; auto. by intros [].
Qed.
Lemma wp_lock_keys Q p : p_poisoned p = false → Q (Ok (p_keys p)) p → wp (@lock_keys _ E) Q p.
Proof. intros Hp HQ. by eapply wp_eq; [apply lock_keys_run|]. Qed.

Lemma wp_add_key r Q p :
  p_poisoned p = false →
  (∀ p', p_keys p' = <[id (meta r) := r]> (p_keys p) → p_mem p' = p_mem p → p_tel p' = p_tel p →
     p_poisoned p' = p_poisoned p → Q (Ok tt) p') →
  wp (@add_key _ E r) Q p.
Proof.
  intros Hp HQ. eapply wp_eq; [by apply add_key_run|].
  match goal with |- Q _ (drop_records ?rs ?p1) =>
    destruct (drop_records_fields rs p1) as (?&?&?&?&_) end.
  apply HQ; simpl in *; congruence.
Qed.

Lemma wp_remove_key i Q p :
  p_poisoned p = false → Q (Ok (p_keys p !! i)) (set_keys (delete i (p_keys p)) p) →
  wp (@remove_key _ E i) Q p.
Proof. intros Hp HQ. by eapply wp_eq; [apply remove_key_run|]. Qed.
End wp_proc.

(** Run the next statement of a handler. *)
Ltac wp_next lem := apply wp_bind; eapply lem; cbn [chain].
Ltac wp_read := wp_next @wp_from_raw_parts; [eassumption|done|].
Ltac wp_out := wp_next @wp_from_raw_parts_mut; [eassumption|].
Ltac wp_copy := wp_next @wp_copy_from_slice; [done|].


(** ** Listings *)

Section listing.
Context `{PlatformLaws}.
Implicit Types (p : Proc).

(** [n] more readings of the clock. *)
Definition ticks (n : nat) (p : Proc) : Proc := Nat.iter n ticked p.

Lemma ticks_S n p : ticks n (ticked p) = ticks (S n) p.
Proof. unfold ticks. by rewrite Nat.iter_succ_r. Qed.

Lemma ticks_fields n p :
  p_keys (ticks n p) = p_keys p ∧ p_mem (ticks n p) = p_mem p ∧ p_tel (ticks n p) = p_tel p ∧
  p_poisoned (ticks n p) = p_poisoned p ∧ clock_reads (p_sys (ticks n p)) = n + clock_reads (p_sys p).
Proof. induction n as [|n IH]; [done|]. destruct IH as (?&?&?&?&Hc).
  change (ticks (S n) p) with (ticked (ticks n p)). split_and!; [done..|]. simpl. by rewrite Hc.
Qed.

Lemma ticks_set_mem n m p : ticks n (set_mem m p) = set_mem m (ticks n p).
Proof.
  induction n as [|n IH]; [done|].
  change (ticked (ticks n (set_mem m p)) = set_mem m (ticked (ticks n p))). by rewrite IH.
Qed.

(** Entries written one after the other, each with the clock's next reading. *)
Fixpoint entries_bytes (entry : KeyMetadata → Z → bytes) (n : nat) (metas : list KeyMetadata) : bytes :=
  match metas with
  | [] => []
  | meta :: metas => entry meta (clock n) ++ entries_bytes entry (S n) metas
  end.

Lemma lenN_entries_bytes entry size n metas :
  (∀ md now, md ∈ metas → lenN (entry md now) = size) →
  lenN (entries_bytes entry n metas) = (lenN metas * size)%N.
Proof.
  intros Hs. revert n. induction metas as [|md metas IH]; intros n; [done|]. cbn [entries_bytes].
  rewrite lenN_app, (Hs md) by left. rewrite IH by (intros; apply Hs; by right).
  unfold lenN. simpl length. lia.
Qed.

(** The flag of [out_has_more], when the caller asked for it. *)
Definition write_flag (q : option N) (b : bool) (m : Memory) : Memory :=
  match q with
  | Some a => <[a := if b then Corelib.Init.Byte.x01 else x00]> m
  | None => m
  end.

(** What a page of the registry is, at the reading the listing makes. *)
Definition page (now : Z) (keys : gmap Uuid KeyRecord) (offset limit : N) : list KeyMetadata :=
  meta <$> take (N.to_nat limit) (drop (N.to_nat offset) (live_sorted now keys)).

Definition page_has_more (now : Z) (keys : gmap Uuid KeyRecord) (offset limit : N) : bool :=
  (offset + lenN (page now keys offset limit) <? lenN (live_sorted now keys))%N.

Lemma elem_of_page now keys offset limit md :
  md ∈ page now keys offset limit → ∃ i r, keys !! i = Some r ∧ md = meta r ∧ (now < delete_after md)%Z.
Proof.
  unfold page. rewrite list_elem_of_fmap. intros (r&->&Hr).
  assert (r ∈ live_sorted now keys) as Hin by (eapply subseteq_drop, subseteq_take, Hr).
  apply elem_of_live_sorted in Hin as (?&i&?). eauto.
Qed.

Lemma page_length now keys offset limit : (lenN (page now keys offset limit) ≤ limit)%N.
Proof. unfold page, lenN. rewrite length_fmap, length_take. lia. Qed.

Lemma live_sorted_size now keys : (lenN (live_sorted now keys) ≤ N.of_nat (size keys))%N.
Proof.
  unfold live_sorted, lenN. rewrite merge_sort_Permutation. unfold map_values.
  pose proof (length_filter (λ r, live now r = true) (snd <$> map_to_list keys)) as Hl.
  rewrite length_fmap, length_map_to_list in Hl. lia.
Qed.

(** [offset + count] does not overflow. *)
Lemma page_no_overflow now keys offset limit :
  (offset ≤ usize_max)%N → (N.of_nat (size keys) ≤ usize_max)%N →
  (offset + lenN (page now keys offset limit) ≤ usize_max)%N.
Proof.
  intros Ho Hs. pose proof (live_sorted_size now keys) as Hl.
  unfold page, lenN in *. rewrite length_fmap, length_take, length_drop. lia.
Qed.

Lemma list_all_keys_page {E} offset limit p :
  p_poisoned p = false →
  @list_all_keys _ E offset limit p =
    (Ok (page (proc_now p) (p_keys p) offset limit, lenN (live_sorted (proc_now p) (p_keys p))), ticked p).
Proof. intros Hp. by rewrite list_all_keys_run, list_page_spec by done. Qed.

Lemma entries_from_raw_parts_mut_ok {E} ptr n size m :
  aligned8 ptr = true → valid_buffer m ptr (n * size) →
  @entries_from_raw_parts_mut E ptr n size m = (Ok (mkMutSlice ptr n), m).
Proof.
  intros Ha Hv. unfold entries_from_raw_parts_mut. rewrite Ha.
  by rewrite (bind_ok _ _ _ _ _ (from_raw_parts_mut_ok _ _ _ Hv)).
Qed.

Lemma write_flag_ok {E} q b p :
  (∀ a, q = Some a → is_Some (p_mem p !! a)) →
  (match q with Some a => in_mem (write_bool a b) | None => ret tt end) p
    = (@Ok E unit tt, set_mem (write_flag q b (p_mem p)) p).
Proof.
  intros Hq. destruct q as [a|]; [|by destruct p].
  destruct (Hq a eq_refl) as [c Hc]. apply in_mem_run. unfold write_bool. by rewrite Hc.
Qed.

(** The whole of an enumeration handler, given what its loop does: the
    allocation of the slice, the page, the flag and the count. *)
Lemma enumerate_run (loop : MutSlice → N → list KeyMetadata → M Proc Status unit)
    (entry : KeyMetadata → Z → bytes) size ptr max offset flag p :
  p_poisoned p = false → (N.of_nat (base.size (p_keys p)) ≤ usize_max)%N → (offset ≤ usize_max)%N →
  aligned8 ptr = true → valid_buffer (p_mem p) ptr (max * size) →
  (∀ a, flag = Some a → is_Some (p_mem p !! a)) →
  (let metas := page (proc_now p) (p_keys p) offset max in
   loop (mkMutSlice ptr max) 0%N metas (ticked p) =
     (Ok tt, set_mem (write_bytes (p_mem p) (ptr + 0 * size)
                        (entries_bytes entry (S (clock_reads (p_sys p))) metas))
               (ticks (length metas) (ticked p)))) →
  (let* entries := in_mem (entries_from_raw_parts_mut ptr max size) in
   let* ' (count, has_more) :=
     (let* ' (metas, total_count) := list_all_keys offset (ms_len entries) in
      let count := lenN metas in
      let* next := usize_add offset count in
      let has_more := (next <? total_count)%N in
      do* loop entries 0%N metas;
      ret (count, has_more)) in
   do* (match flag with
        | Some has_more_ref => in_mem (write_bool has_more_ref has_more)
        | None => ret tt
        end);
   ret (as_i32 count)) p =
  let metas := page (proc_now p) (p_keys p) offset max in
  (Ok (as_i32 (lenN metas)),
   set_mem (write_flag flag (page_has_more (proc_now p) (p_keys p) offset max)
              (write_bytes (p_mem p) ptr (entries_bytes entry (S (clock_reads (p_sys p))) metas)))
     (ticks (S (length metas)) p)).
Proof.
  intros Hp Hs Ho Ha Hv Hf Hloop. cbv zeta in *.
  rewrite (bind_ok _ _ p (mkMutSlice ptr max) p)
    by (apply in_mem_read; by apply entries_from_raw_parts_mut_ok).
  rewrite bind_assoc, (bind_ok _ _ _ _ _ (list_all_keys_page _ _ _ Hp)). cbv iota beta zeta. cbn [ms_len].
  rewrite bind_assoc, (bind_ok _ _ _ _ _ (usize_add_ok _ _ _ (page_no_overflow _ _ _ _ Ho Hs))).
  rewrite bind_assoc, (bind_ok _ _ _ _ _ Hloop). rewrite bind_ret. cbv iota beta.
  rewrite N.mul_0_l, N.add_0_r, ticks_S.
  match goal with |- bind _ _ ?q = _ => rewrite (bind_ok _ _ q _ _ (write_flag_ok flag _ q
    ltac:(intros a Hfa; destruct (Hf a Hfa) as [c Hc]; cbn [p_mem set_mem];
          apply (is_Some_write_bytes _ _ _ _ (mk_is_Some _ _ Hc))))) end.
  done.
Qed.
End listing.

(** What a successful or failed call leaves, [op] being reported on failure. *)
Section returns.
Context `{PlatformLaws}.

(** The registry and the memory are as the call found them. *)
Definition untouched (p : Proc) (k : gmap Uuid KeyRecord) (m : Memory) : Prop :=
  k = p_keys p ∧ m = p_mem p.

(** The destruction of one key, whatever its expiry. *)
Definition Destroy (i : Uuid) (p : Proc) (st : Status) (k : gmap Uuid KeyRecord) (m : Memory) : Prop :=
  k = delete i (p_keys p) ∧ m = p_mem p ∧
  st = match p_keys p !! i with Some _ => Success | None => NotFound end.


Definition reported (op : KccOperation) (st : Status) (t : Telemetry) : Telemetry :=
  if decide (st = Success) then t else report_failure (mkFailure op st FailureKind_Error) t.

(** The call returns a status [st], a registry [k] and a memory [m] that [R]
    allows; the lock is as it was; a failure is reported once, as an error. *)
Definition returns (op : KccOperation) (R : Status → gmap Uuid KeyRecord → Memory → Prop)
    (p : Proc) (o : Outcome Empty_set Status) (p' : Proc) : Prop :=
  ∃ st, o = Ok st ∧ R st (p_keys p') (p_mem p') ∧
    p_poisoned p' = p_poisoned p ∧ p_tel p' = reported op st (p_tel p).

(** The same of the closure under [ffi_call]. *)
Definition body_returns (R : Status → gmap Uuid KeyRecord → Memory → Prop)
    (p : Proc) (o : Outcome Status unit) (p' : Proc) : Prop :=
  p_poisoned p' = p_poisoned p ∧ p_tel p' = p_tel p ∧
  match o with
  | Ok _ => R Success (p_keys p') (p_mem p')
  | Err e => e ≠ Success ∧ R e (p_keys p') (p_mem p')
  | Panic | Ub => False
  end.

Lemma wp_ffi_call op f R p :
  wp f (body_returns R p) p → wp (ffi_call op f) (returns op R p) p.
Proof.
  unfold wp, ffi_call, ffi_call_with_reporter, body_returns, returns.
  destruct (f p) as [[[]|e| |] p1]; simpl; try (by intros (?&?&?)).
  - intros (?&?&?). exists Success. unfold reported. by rewrite decide_True.
  - intros (?&Ht&?&?). exists e. unfold reported. rewrite decide_False, Ht by done. done.
Qed.

(** A handler's exit with an error before it changed anything. *)
Lemma body_untouched (R : Status → gmap Uuid KeyRecord → Memory → Prop) e p p' :
  e ≠ Success → p_poisoned p' = p_poisoned p → p_tel p' = p_tel p →
  R e (p_keys p') (p_mem p') → body_returns R p (Err e) p'.
Proof. by intros. Qed.
End returns.
