(* ===== verification/Service.v ===== *)
(** * A key custody core as a transition system

    What a core promises to its host, as an interface: its calls, their safety
    contracts, what it stores, and that a call within its contract returns,
    keeps the registry well formed, and respects the relations of Process.v.
    The invariants of a running process are proved once against the interface;
    Kps.v and Ws.v supply the two instances. *)

From S2P Require Import Prelude Effects RustStd Proto Platform SecretBox ProtectedMem X25519 Crypto.
From S2P Require Import Telemetry KeyTypes Process Registry Reaper Boundary.

(** ** The interface *)

Class Service `{Platform} := {
  (** One constructor per entry point, with its arguments. *)
  service_call : Type;
  (** The entry point; a [Status] is returned as its discriminant. *)
  service_run : service_call → M Proc Empty_set Z;
  (** The "Safety" section of its documentation. *)
  service_contract : service_call → Proc → Prop;
  (** What the service keeps in its registry. *)
  service_key : KeyRecord → Prop;
  (** The operation its failures are reported under, and the integer a status
      is returned as. *)
  service_operation : service_call → KccOperation;
  service_code : service_call → Status → Z;
  (** The caller's output buffers: address and length. *)
  service_outputs : service_call → Memory → list (N * N);
  (** The handles under which the call may store a key, and those it removes. *)
  service_makes : service_call → Proc → Uuid → Prop;
  service_destroys : service_call → Proc → Uuid → Prop;
}.

(** A registry that fits in memory, under an unpoisoned lock, holding only
    well-formed keys of the service. *)
Definition registry_ok `{Svc : Service} (p : Proc) : Prop :=
  p_poisoned p = false ∧ keys_wf service_key (p_keys p) ∧ (N.of_nat (size (p_keys p)) ≤ usize_max)%N.

(** It is about the registry and the lock only. *)
Lemma registry_ok_set_sys `{Service} s p : registry_ok p → registry_ok (set_sys s p).
Proof. done. Qed.
Lemma registry_ok_set_mem `{Service} m p : registry_ok p → registry_ok (set_mem m p).
Proof. done. Qed.

Definition anything {A} : relation A := λ _ _, True.
#[export] Instance anything_preorder {A} : PreOrder (@anything A).
Proof. by split. Qed.

(** What a call leaves, besides its result. *)
Definition call_rel `{Platform} : relation Proc := proc_rel anything anything tel_le.

(** Outside the buffers the memory is as it was. *)
Definition frame (outputs : list (N * N)) (m m' : Memory) : Prop :=
  ∀ a, (∀ q n, (q, n) ∈ outputs → ¬ (q ≤ a < q + n)%N) → m' !! a = m !! a.

(** A call that returned: it ended with a status other than an internal error
    (so nothing panicked), reported it if it is a failure and only then, left a
    well-formed registry, wrote inside its output buffers, and nothing at all
    if it failed; the keys it neither made nor destroyed are as they were. *)
Record returned `{Service} (c : service_call) (p : Proc) (st : Status) (z : Z) (p' : Proc) : Prop := {
  returned_internal : st ≠ InternalError;
  returned_code : st ≠ Success → z = service_code c st;
  returned_telemetry : p_tel p' = reported (service_operation c) st (p_tel p);
  returned_keys : keys_wf service_key (p_keys p');
  returned_frame : frame (service_outputs c (p_mem p)) (p_mem p) (p_mem p');
  returned_failure : st ≠ Success → p_mem p' = p_mem p;
  returned_destroyed i : service_makes c p i ∨ (service_destroys c p i → p_keys p' !! i = None);
  returned_kept i : service_makes c p i ∨ service_destroys c p i ∨ p_keys p' !! i = p_keys p !! i;
}.

Class ServiceLaws `{Service} : Prop := {
  service_returns c p : registry_ok p → service_contract c p →
    ∃ st z p', service_run c p = (Ok z, p') ∧ returned c p st z p';
  service_steps c : Steps call_rel (service_run c);
}.

(** What of [returned] is left of a call that changed no key. *)
Lemma returned_same_keys `{Service} c p st z p' :
  st ≠ InternalError → (st ≠ Success → z = service_code c st) →
  p_tel p' = reported (service_operation c) st (p_tel p) → keys_wf service_key (p_keys p) →
  p_keys p' = p_keys p → frame (service_outputs c (p_mem p)) (p_mem p) (p_mem p') →
  (st ≠ Success → p_mem p' = p_mem p) → (∀ i, ¬ service_destroys c p i) →
  returned c p st z p'.
Proof.
  intros ???? Hk ?? Hd. constructor; rewrite ?Hk; try done; intros i; right; [|by right].
  intros Hi. by destruct (Hd i).
Qed.

Lemma frame_refl outs m : frame outs m m.
Proof. done. Qed.

Lemma frame_write outs m m' p b :
  frame outs m m' → (∃ n, (p, n) ∈ outs ∧ (lenN b ≤ n)%N) → frame outs m (write_bytes m' p b).
Proof.
  intros Hf (n&Hin&Hn) a Ha. rewrite lookup_write_bytes, <- (Hf a Ha).
  rewrite decide_False; [done|]. specialize (Ha p n Hin). lia.
Qed.

Lemma frame_flag outs m m' q b :
  frame outs m m' → (∀ a, q = Some a → (a, 1%N) ∈ outs) → frame outs m (write_flag q b m').
Proof.
  intros Hf Hin a Ha. destruct q as [q|]; cbn [write_flag]; [|by apply Hf].
  rewrite lookup_insert_ne; [by apply Hf|]. intros ->. apply (Ha a 1%N (Hin a eq_refl)). lia.
Qed.

Lemma steps_anything {S E A} (m : M S E A) : Steps anything m.
Proof. done. Qed.
#[export] Hint Resolve steps_anything : steps.

Lemma anything_intro {A} (a b : A) : anything a b.
Proof. done. Qed.
#[export] Hint Resolve anything_intro steps_modify : steps.

(** Follow the code of an entry point. *)
Ltac steps_body :=
  repeat first
    [ match goal with |- ∀ _, _ => intro end
    | solve [eauto with steps typeclass_instances]
    | apply steps_bind
    | apply steps_map_err
    | match goal with
      | |- Steps _ (if ?b then _ else _) => destruct b
      | |- Steps _ (match ?x with _ => _ end) => destruct x
      end
    | apply steps_scoped_secret; [apply _..|] ].
Ltac steps_handler := first [apply steps_ffi_call|apply steps_ffi_call_i32]; try apply _; steps_body.

(** ** Status-returning entry points *)

Section status.
Context `{PlatformLaws}.
Implicit Types (p : Proc).

Definition status_code (m : M Proc Empty_set Status) : M Proc Empty_set Z :=
  let* st := m in ret (Status_as_i32 st).

Lemma ffi_call_run_err op f p e : f p = (Err e, p) →
  status_code (ffi_call op f) p = (Ok (Status_as_i32 e), report_to_tel (mkFailure op e FailureKind_Error) p).
Proof. intros Hf. unfold status_code. by rewrite (bind_ok _ _ _ _ _ (ffi_call_err _ _ _ _ _ Hf)). Qed.

Lemma steps_status_code m : Steps call_rel m → Steps call_rel (status_code m).
Proof. intros Hm. unfold status_code. apply steps_bind; [apply _|done|]. intros st p. reflexivity. Qed.

Lemma returns_run op f R p :
  wp (ffi_call op f) (returns op R p) p →
  ∃ st p', status_code (ffi_call op f) p = (Ok (Status_as_i32 st), p') ∧ R st (p_keys p') (p_mem p') ∧
    p_poisoned p' = p_poisoned p ∧ p_tel p' = reported op st (p_tel p).
Proof.
  unfold wp. destruct (ffi_call op f p) as [o p'] eqn:Hr. simpl. intros (st&->&HR&Hp&Ht).
  exists st, p'. split; [|done]. unfold status_code. by rewrite (bind_ok _ _ _ _ _ Hr).
Qed.
End status.

(** ** The transition system *)

Section transitions.
Context `{Platform} {Svc : Service}.

(** What happens to a process between calls. *)
Inductive env_step : relation Proc :=
(** The reaper wakes up. *)
| step_reaper p p' : @reaper_round _ Status p = (Ok tt, p') → env_step p p'
(** The host configures telemetry. *)
| step_telemetry ptr len p m t :
    @key_manager_init_telemetry Status ptr len (p_mem p, p_tel p) = (Ok tt, (m, t)) →
    env_step p (set_tel t (set_mem m p))
(** The host uses its memory. *)
| step_host p m : env_step p (set_mem m p)
(** Another thread reads the clock. *)
| step_clock p : env_step p (ticked p).

Inductive step : relation Proc :=
(** The host calls an entry point within its contract. *)
| step_call c p z p' :
    service_contract c p → service_run c p = (Ok z, p') → step p p'
| step_env p p' : env_step p p' → step p p'.

(** A registry larger than the address space is out of scope. *)
Definition fits (p : Proc) : Prop := (N.of_nat (size (p_keys p)) ≤ usize_max)%N.

#[export] Instance fits_dec p : Decision (fits p).
Proof. unfold fits. apply _. Defined.

Inductive reachable : Proc → Prop :=
| reachable_init m : reachable (init_proc m)
| reachable_step p p' : reachable p → fits p → step p p' → reachable p'.

(** Events carry the name [SERVICE_NAME] holds; before it is set there are none, for
    nothing subscribes to them. *)
Definition named_events (t : Telemetry) : Prop :=
  match service_name t with
  | None => subscriber_set t = false ∧ events t = []
  | Some name => Forall (sanitized name) (events t)
  end.

(** The hygiene of a process: everything it gave back was zeroed, no
    descriptor is left open, and every event is sanitized, under the configured name. *)
Definition hygienic (p : Proc) : Prop :=
  Forall all_zero (released (p_sys p)) ∧ open_fds (p_sys p) = ∅ ∧
  named_events (p_tel p).

Definition service_inv (p : Proc) : Prop :=
  p_poisoned p = false ∧ keys_wf service_key (p_keys p) ∧ hygienic p.
End transitions.

Section invariants.
Context `{PlatformLaws} {Svc : Service} {Laws : ServiceLaws}.
Implicit Types (p : Proc).

Lemma named_events_le t t' : tel_le t t' → named_events t → named_events t'.
Proof.
  intros (Hn&Hs&_&Hq&evs&Hevs&Hf). unfold named_events, get_service_name in *. rewrite Hn.
  destruct (service_name t) as [name|].
  - intros He. rewrite Hevs. by apply Forall_app.
  - intros [Hoff He]. split; [congruence|]. by rewrite Hq.
Qed.

Lemma hygienic_call_rel p p' : call_rel p p' → hygienic p → hygienic p'.
Proof.
  intros [[_ _ Hfds (new&Hnew&Hz)] _ _ _ Ht] (Hrel&Hf&He). split_and!.
  - rewrite Hnew. by apply Forall_app.
  - by rewrite Hfds.
  - by eapply named_events_le.
Qed.

Lemma call_rel_poisoned p p' : call_rel p p' → p_poisoned p' = p_poisoned p.
Proof. by intros []. Qed.

Lemma install_telemetry_named name t : named_events t → named_events (install_telemetry name t).
Proof.
  unfold install_telemetry, set_service_name, named_events. destruct (service_name t) as [first|] eqn:Hn; cbn.
  - by rewrite Hn.
  - intros [_ ->]. constructor.
Qed.

Lemma install_telemetry_name name first t :
  service_name t = Some first → service_name (install_telemetry name t) = Some first.
Proof. unfold install_telemetry, set_service_name. intros Hn. by rewrite Hn. Qed.

(** The first initialisation sets the name it was given. *)
Lemma init_telemetry_sets ptr len m t m' t' :
  @key_manager_init_telemetry Status ptr len (m, t) = (Ok tt, (m', t')) → service_name t = None →
  service_name t' = Some (if is_null ptr || (len =? 0)%N then default_service_name
                          else service_name_of (default [] (read_bytes m ptr (N.to_nat len)))).
Proof.
  assert (∀ name, service_name t = None → service_name (install_telemetry name t) = Some name) as Hset.
  { intros name Hn. unfold install_telemetry, set_service_name. by rewrite Hn. }
  unfold key_manager_init_telemetry, bind, modify, ret, zoom, from_raw_parts.
  destruct (is_null ptr), (len =? 0)%N; simpl; [by intros [= <- <-]; apply Hset..|].
  destruct (isize_max <? len)%N; [done|].
  destruct (read_bytes m ptr (N.to_nat len)); [simpl; by intros [= <- <-]; apply Hset|done].
Qed.

Lemma init_telemetry_run E ptr len m t o m' t' :
  @key_manager_init_telemetry E ptr len (m, t) = (o, (m', t')) →
  m' = m ∧ (t' = t ∨ ∃ name, t' = install_telemetry name t ∧ o = Ok tt).
Proof.
  unfold key_manager_init_telemetry, bind, modify, ret, zoom, from_raw_parts. simpl.
  destruct (is_null ptr || (len =? 0)%N); simpl.
  { intros [= <- <- <-]. eauto. }
  destruct (is_null ptr || (isize_max <? len)%N); simpl.
  { intros [= <- <- <-]. eauto. }
  destruct (read_bytes m ptr (N.to_nat len)); simpl; intros [= <- <- <-]; eauto.
Qed.

Lemma call_rel_retain_live now p : call_rel p (retain_live now p).
Proof. destruct (proc_rel_retain_live now p) as [? _ ? ? Ht]. constructor; try done. by rewrite Ht. Qed.

Lemma call_rel_ticked p : call_rel p (ticked p).
Proof. constructor; try done. constructor; simpl; [lia|done|done|]. by exists []. Qed.

Lemma reaper_round_inv p : service_inv p → service_inv (if p_poisoned p then ticked p else retain_live (proc_now p) (ticked p)).
Proof.
  intros (Hp&Hk&Hh). rewrite Hp. split_and!.
  - by rewrite (proj1 (retain_live_fields _ _)).
  - eapply keys_wf_subseteq; [apply retain_live_subseteq|done].
  - eapply hygienic_call_rel; [apply call_rel_retain_live|].
    by eapply hygienic_call_rel; [apply call_rel_ticked|].
Qed.

Lemma step_inv p p' : fits p → step p p' → service_inv p → service_inv p'.
Proof.
  intros Hfit Hstep Hinv. pose proof Hinv as (Hp&Hk&Hh). destruct Hstep as [c p z p' Hc Hr|? ? [p p' Hr|ptr len p m t Hr|p m|p]].
  - assert (call_rel p p') as Hrel by (by eapply steps_run; [apply service_steps|]).
    destruct (service_returns c p) as (st&z'&p2&Hr'&[_ _ _ Hk' _ _ _ _]); [by split_and!|done|].
    rewrite Hr in Hr'. simplify_eq. split_and!; [|done|by eapply hygienic_call_rel].
    by rewrite (call_rel_poisoned _ _ Hrel).
  - rewrite reaper_round_run in Hr. injection Hr as <-. by apply reaper_round_inv.
  - apply init_telemetry_run in Hr as [-> Ht]. split_and!; [done..|].
    destruct Hh as (?&?&?). split_and!; [done..|]. cbn.
    by destruct Ht as [->|(name&->&_)]; [|apply install_telemetry_named].
  - by split_and!.
  - split_and!; [done..|]. by eapply hygienic_call_rel; [apply call_rel_ticked|].
Qed.

Lemma init_inv m : service_inv (init_proc m).
Proof. split_and!; [done|apply keys_wf_empty|]. split; [constructor|done]. Qed.

Lemma reachable_inv p : reachable p → service_inv p.
Proof. induction 1; eauto using init_inv, step_inv. Qed.

(** Once set, the service name stays. *)
Lemma step_name p p' name :
  step p p' → service_name (p_tel p) = Some name → service_name (p_tel p') = Some name.
Proof.
  intros Hs Hn. destruct Hs as [c p z p' _ Hr|? ? [p p' Hr|ptr len p m t Hr|p m|p]]; [| | |done..].
  - assert (call_rel p p') as [_ _ _ _ [Ht _]] by (by eapply steps_run; [apply service_steps|]). congruence.
  - rewrite reaper_round_run in Hr. injection Hr as <-. destruct (p_poisoned p); [done|].
    destruct (proc_rel_retain_live (proc_now p) (ticked p)) as [_ _ _ _ Ht]. by rewrite <- Ht.
  - apply init_telemetry_run in Hr as [-> [->|(n&->&_)]]; [done|]. by apply install_telemetry_name.
Qed.

(** In a reachable state every call within its contract returns. *)
Lemma reachable_returns p c :
  reachable p → fits p → service_contract c p →
  ∃ st z p', service_run c p = (Ok z, p') ∧ returned c p st z p' ∧ reachable p'.
Proof.
  intros Hr Hf Hc. destruct (reachable_inv _ Hr) as (Hp&Hk&_).
  destruct (service_returns c p) as (st&z&p'&Hrun&Hret); [by split_and!|done|].
  exists st, z, p'. split_and!; [done..|]. eapply reachable_step; [done..|]. by eapply step_call.
Qed.
End invariants.
