(* ===== verification/Lifetime.v ===== *)
(** * The life of a key in a running service

    A service serves many clients: between two calls of one of them the process
    takes any steps.  A key is there from its generation until it expires or a
    call names it for destruction, and it never comes back; all of it is proved
    against the interface of Service.v. *)

From S2P Require Import Prelude Effects RustStd Proto Platform SecretBox ProtectedMem X25519 Crypto.
From S2P Require Import Telemetry KeyTypes Process Registry Reaper Boundary Service.

Section serving.
Context `{Platform} {Svc : Service}.

(** A step of a running service, whose call, if it is one, satisfies [P]. *)
Inductive serving (P : service_call → Proc → Prop) : relation Proc :=
| serving_call c p z p' :
    fits p → P c p → service_contract c p → service_run c p = (Ok z, p') → serving P p p'
| serving_env p p' : fits p → env_step p p' → serving P p p'.

(** A call that leaves the key [i] alone; a call that does not draw its handle. *)
Definition spares (i : Uuid) (c : service_call) (p : Proc) : Prop :=
  ¬ service_makes c p i ∧ ¬ service_destroys c p i.
Definition does_not_make (i : Uuid) (c : service_call) (p : Proc) : Prop := ¬ service_makes c p i.
End serving.

Section lifetime.
Context `{PlatformLaws} {Svc : Service} {Laws : ServiceLaws}.
Implicit Types (p : Proc).

Lemma serving_mono (P Q : service_call → Proc → Prop) p p' :
  (∀ c p, P c p → Q c p) → serving P p p' → serving Q p p'.
Proof. intros HPQ [c q z q' ????|q q' ??]; [eapply serving_call; eauto|by apply serving_env]. Qed.

Lemma serving_step P p p' : serving P p p' → fits p ∧ step p p'.
Proof. intros [c q z q' ????|q q' ??]; (split; [done|]); [by eapply step_call|by apply step_env]. Qed.

Lemma serving_reachable P p p' : rtc (serving P) p p' → reachable p → reachable p'.
Proof.
  induction 1 as [|p q r Hs%serving_step _ IH]; [done|]. intros Hr. apply IH.
  destruct Hs. by eapply reachable_step.
Qed.

(** Whatever the service does, a configured service name stays. *)
Lemma serving_name P p p' name :
  rtc (serving P) p p' → service_name (p_tel p) = Some name → service_name (p_tel p') = Some name.
Proof.
  induction 1 as [|p q r Hs%serving_step _ IH]; [done|]. intros Hn. apply IH. by eapply step_name; [apply Hs|].
Qed.

(** ** The clock *)

Lemma env_step_clock p p' : env_step p p' → clock_reads (p_sys p) ≤ clock_reads (p_sys p').
Proof.
  intros [q q' Hr|ptr len q m t _|q m|q]; simpl; [|lia..].
  rewrite reaper_round_run in Hr. injection Hr as <-. destruct (p_poisoned q); [simpl; lia|].
  destruct (retain_live_fields (proc_now q) (ticked q)) as (_&_&_&->). simpl. lia.
Qed.

Lemma serving_clock P p p' : serving P p p' → clock_reads (p_sys p) ≤ clock_reads (p_sys p').
Proof.
  intros [c q z q' _ _ _ Hr|q q' _ Hr]; [|by apply env_step_clock].
  assert (call_rel q q') as [[Hc _ _ _] _ _ _ _] by (by eapply steps_run; [apply service_steps|]). done.
Qed.

Lemma serving_now P p p' : rtc (serving P) p p' → (proc_now p ≤ proc_now p')%Z.
Proof.
  intros Hs. apply clock_mono_le.
  induction Hs as [|p q r Hpq%serving_clock _ IH]; [done|lia].
Qed.

(** ** One step *)

Lemma env_step_keys p p' i :
  p_poisoned p = false → env_step p p' →
  p_keys p' !! i = p_keys p !! i ∨
  p_keys p' !! i = None ∧ ∃ r, p_keys p !! i = Some r ∧ (delete_after (meta r) ≤ proc_now p)%Z.
Proof.
  intros Hp He. revert Hp. destruct He as [q q' Hr|ptr len q m t _|q m|q]; intros Hp; [|by left..].
  rewrite reaper_round_run, Hp in Hr. injection Hr as <-.
  destruct (p_keys (retain_live (proc_now q) (ticked q)) !! i) as [r|] eqn:Hi.
  - apply lookup_retain_live in Hi as [Hi _]. left. by rewrite <- Hi.
  - destruct (p_keys q !! i) as [r|] eqn:Hq; [|by left]. right. split; [done|]. exists r. split; [done|].
    apply Z.nlt_ge. intros Hlt.
    assert (p_keys (retain_live (proc_now q) (ticked q)) !! i = Some r) by (by apply lookup_retain_live). congruence.
Qed.

Lemma serving_spared p p' i r :
  registry_ok p → serving (spares i) p p' →
  p_keys p !! i = Some r → (proc_now p < delete_after (meta r))%Z → p_keys p' !! i = Some r.
Proof.
  intros Hok Hs. revert Hok. destruct Hs as [c q z q' _ [Hm Hd] Hc Hr|q q' _ He]; intros Hok Hi Hlive.
  - destruct (service_returns c q Hok Hc) as (st&z'&q2&Hr'&Hret). rewrite Hr in Hr'. simplify_eq.
    destruct (returned_kept _ _ _ _ _ Hret i) as [?|[?|Hk]]; [done..|]. by rewrite Hk.
  - destruct (env_step_keys _ _ i (proj1 Hok) He) as [->|(_&r'&?&?)]; [done|]. simplify_eq. lia.
Qed.

Lemma serving_absent p p' i :
  registry_ok p → serving (does_not_make i) p p' → p_keys p !! i = None → p_keys p' !! i = None.
Proof.
  intros Hok Hs. revert Hok. destruct Hs as [c q z q' _ Hm Hc Hr|q q' _ He]; intros Hok Hi.
  - destruct (service_returns c q Hok Hc) as (st&z'&q2&Hr'&Hret). rewrite Hr in Hr'. simplify_eq.
    destruct (returned_kept _ _ _ _ _ Hret i) as [?|[Hd|Hk]]; [done| |by rewrite Hk].
    destruct (returned_destroyed _ _ _ _ _ Hret i) as [?|Hg]; [done|by apply Hg].
  - destruct (env_step_keys _ _ i (proj1 Hok) He) as [->|[-> _]]; done.
Qed.

(** ** All steps *)

Lemma reachable_registry_ok p : reachable p → fits p → registry_ok p.
Proof. intros (?&?&_)%reachable_inv ?. by split_and!. Qed.

Lemma serving_ok P p p' : reachable p → serving P p p' → registry_ok p ∧ reachable p'.
Proof.
  intros Hr [Hf Hs]%serving_step. split; [by apply reachable_registry_ok|by eapply reachable_step].
Qed.

(** A key is there until it expires or a call destroys it. *)
Lemma key_survives p p' i r :
  reachable p → rtc (serving (spares i)) p p' →
  p_keys p !! i = Some r → (proc_now p' < delete_after (meta r))%Z → p_keys p' !! i = Some r.
Proof.
  intros Hr Hs. revert Hr. induction Hs as [|p q p' Hpq Hqp IH]; [done|]. intros Hr Hi Hlive.
  destruct (serving_ok _ _ _ Hr Hpq) as [Hok Hq]. apply IH; [done| |done].
  eapply serving_spared; [done..|]. pose proof (serving_now _ _ _ (rtc_l _ _ _ _ Hpq Hqp)). lia.
Qed.

(** A handle that is gone stays gone, unless a generation draws it again. *)
Lemma key_stays_gone p p' i :
  reachable p → rtc (serving (does_not_make i)) p p' → p_keys p !! i = None → p_keys p' !! i = None.
Proof.
  intros Hr Hs. revert Hr. induction Hs as [|p q p' Hpq _ IH]; [done|]. intros Hr Hi.
  destruct (serving_ok _ _ _ Hr Hpq) as [Hok Hq]. apply IH; [done|]. by eapply serving_absent.
Qed.

(** What a call destroyed is gone for good. *)
Lemma key_destroyed_for_good c (f : M Proc Empty_set Status) p p' i :
  reachable p → fits p → service_contract c p → service_destroys c p i → ¬ service_makes c p i →
  service_run c p = status_code f p →
  rtc (serving (does_not_make i)) (snd (f p)) p' → p_keys p' !! i = None.
Proof.
  intros Hr Hf Hc Hd Hm Hfun Hs.
  destruct (service_returns c p (reachable_registry_ok _ Hr Hf) Hc) as (st&z&p1&Hrun&Hret).
  assert (snd (f p) = p1) as Hp1.
  { rewrite Hfun in Hrun. unfold status_code, bind, ret in Hrun. by destruct (f p) as [[] q]; injection Hrun. }
  rewrite Hp1 in Hs. destruct (returned_destroyed _ _ _ _ _ Hret i) as [?|Hg]; [done|].
  eapply key_stays_gone; [|exact Hs|by apply Hg]. eapply reachable_step; [done..|by eapply step_call].
Qed.
End lifetime.
