(* ===== verification/Formatting.v ===== *)
(** * What is printed: the [Debug] and [Display] implementations

    [{:?}] of the types that hold keys, as [derive(Debug)] writes it, of [Vault],
    whose implementation is by hand (protected_mem.rs), and of [Status] (lib.rs).
    How the secrecy, uuid and prost crates print their own types is [DebugCrates].
    The theorems say that no secret byte can reach the text. *)

From stdpp Require Import pretty.
From S2P Require Import Prelude Effects RustStd Proto Platform RefPlatform SecretBox ProtectedMem X25519.
From S2P Require Import Crypto KeyTypes.
Import RefInstances.
Open Scope string_scope.

(** ** Text *)

(** [text.contains(sub)] *)
Fixpoint contains (text sub : string) : bool :=
  String.prefix sub text || match text with EmptyString => false | String _ rest => contains rest sub end.

Lemma append_cons c (s t : string) : String c s +:+ t = String c (s +:+ t).
Proof. done. Qed.
Lemma append_nil (t : string) : "" +:+ t = t.
Proof. done. Qed.

Lemma prefix_app sub rest : String.prefix sub (sub +:+ rest) = true.
Proof. 
  induction sub as [|c sub IH]; [by destruct rest|]. rewrite append_cons. cbn.
  by destruct (Ascii.ascii_dec c c) as [_|[]].
Qed.

Lemma contains_prepend before text sub : contains text sub = true → contains (before +:+ text) sub = true.
Proof.
  intros Ht. induction before as [|c before IH]; [done|]. rewrite append_cons. cbn. by rewrite IH, orb_true_r.
Qed.

Lemma prefix_append sub text after : String.prefix sub text = true → String.prefix sub (text +:+ after) = true.
Proof.
  revert text. induction sub as [|c sub IH]; intros text Ht; [by destruct (text +:+ after)|].
  destruct text as [|d text]; [done|]. rewrite append_cons. cbn in *. destruct (Ascii.ascii_dec c d); [by apply IH|done].
Qed.

Lemma contains_append text after sub : contains text sub = true → contains (text +:+ after) sub = true.
Proof.
  induction text as [|c text IH].
  - destruct sub; [|done]. by destruct after.
  - rewrite append_cons. cbn [contains]. rewrite !orb_true_iff. intros [Hs|Hr]; [left|right; by apply IH].
    by apply (prefix_append sub (String c text)).
Qed.

(** [Formatter::debug_tuple], [debug_struct] and [debug_list]. *)
Definition debug_tuple (name field : string) : string := name +:+ "(" +:+ field +:+ ")".
Definition debug_struct (name : string) (fields : list (string * string)) : string :=
  name +:+ " { " +:+ String.concat ", " ((λ nv, nv.1 +:+ ": " +:+ nv.2) <$> fields) +:+ " }".
Definition debug_list (items : list string) : string := "[" +:+ String.concat ", " items +:+ "]".

(** ** Types of the module *)

(** [Debug] of [secrecy::SecretBox<[u8]>], of [Uuid] and of a prost message. *)
Class DebugCrates `{Platform} := {
  secrecy_fmt : bytes → string;
  uuid_fmt : Uuid → string;
  HpkeAlgorithm_fmt : HpkeAlgorithm → string;
}.

(** The secrecy crate promises a text that says so and does not depend on the secret. *)
Class DebugLaws `{DebugCrates} : Prop := {
  secrecy_blind b b' : secrecy_fmt b = secrecy_fmt b';
  secrecy_redacted b : contains (secrecy_fmt b) REDACTED = true;
}.

Section formatting.
Context `{DebugCrates}.

Definition u8_fmt (b : byte) : string := pretty (Byte.to_N b).
Definition array_fmt (b : bytes) : string := debug_list (u8_fmt <$> b).

(** [Instant { tv_sec: .., tv_nsec: .. }] *)
Definition Instant_fmt (t : Z) : string :=
  debug_struct "Instant" [("tv_sec", pretty (t / nanos_per_sec)%Z); ("tv_nsec", pretty (t `mod` nanos_per_sec)%Z)].

Definition SecretBox_fmt (self : SecretBox) : string :=
  debug_tuple "SecretBox" (secrecy_fmt (SecretBox_as_slice self)).
Definition X25519PublicKey_fmt (self : X25519PublicKey) : string :=
  debug_tuple "X25519PublicKey" (array_fmt (X25519PublicKey_as_bytes self)).
Definition X25519PrivateKey_fmt (self : X25519PrivateKey) : string :=
  debug_tuple "X25519PrivateKey" (SecretBox_fmt (X25519PrivateKey_secret self)).
Definition PublicKey_fmt (self : PublicKey) : string :=
  match self with PublicKey_X25519 pk => debug_tuple "X25519" (X25519PublicKey_fmt pk) end.
Definition PrivateKey_fmt (self : PrivateKey) : string :=
  match self with PrivateKey_X25519 sk => debug_tuple "X25519" (X25519PrivateKey_fmt sk) end.

Definition KeySpec_fmt (self : KeySpec) : string :=
  match self with
  | KemWithBindingPub algo kem_public_key binding_public_key =>
      debug_struct "KemWithBindingPub"
        [("algo", HpkeAlgorithm_fmt algo); ("kem_public_key", PublicKey_fmt kem_public_key);
         ("binding_public_key", PublicKey_fmt binding_public_key)]
  | Binding algo binding_public_key =>
      debug_struct "Binding"
        [("algo", HpkeAlgorithm_fmt algo); ("binding_public_key", PublicKey_fmt binding_public_key)]
  end.

Definition KeyMetadata_fmt (self : KeyMetadata) : string :=
  debug_struct "KeyMetadata"
    [("id", uuid_fmt (id self)); ("created_at", Instant_fmt (created_at self));
     ("delete_after", Instant_fmt (delete_after self)); ("spec", KeySpec_fmt (spec self))].

Definition KeyRecord_fmt (self : KeyRecord) : string :=
  debug_struct "KeyRecord"
    [("meta", KeyMetadata_fmt (meta self)); ("private_key", Vault_fmt (private_key self) "")].
End formatting.

(** [Status]: the variant's name; its [Display] delegates to [Debug]. *)
Definition Status_debug (s : Status) : string :=
  match s with
  | Status_Unspecified => "Unspecified"
  | Success => "Success"
  | InternalError => "InternalError"
  | InvalidArgument => "InvalidArgument"
  | NotFound => "NotFound"
  | AlreadyExists => "AlreadyExists"
  | PermissionDenied => "PermissionDenied"
  | Unauthenticated => "Unauthenticated"
  | UnsupportedAlgorithm => "UnsupportedAlgorithm"
  | InvalidKey => "InvalidKey"
  | CryptoError => "CryptoError"
  | DecryptionFailure => "DecryptionFailure"
  | EncryptionFailure => "EncryptionFailure"
  | DecapsulationFailure => "DecapsulationFailure"
  end.
Definition Status_fmt (s : Status) (f : string) : string := f +:+ Status_debug s.

(** ** No secret is printed *)

Section redaction.
Context `{DebugLaws}.

Lemma contains_tuple name field sub : contains field sub = true → contains (debug_tuple name field) sub = true.
Proof. intros Hf. unfold debug_tuple. by apply contains_prepend, contains_prepend, contains_append. Qed.

(** Whatever the secret, the text is the same, and says that it is redacted: a
    record's text depends on its metadata alone. *)
Theorem no_secret_in_debug_output :
  (∀ b b', SecretBox_fmt b = SecretBox_fmt b' ∧ contains (SecretBox_fmt b) REDACTED = true) ∧
  (∀ sk sk', PrivateKey_fmt sk = PrivateKey_fmt sk' ∧ contains (PrivateKey_fmt sk) REDACTED = true) ∧
  (∀ v v' f, Vault_fmt v f = Vault_fmt v' f) ∧
  ∀ r r', meta r = meta r' → KeyRecord_fmt r = KeyRecord_fmt r' ∧ contains (KeyRecord_fmt r) REDACTED = true.
Proof.
  assert (∀ b b', SecretBox_fmt b = SecretBox_fmt b' ∧ contains (SecretBox_fmt b) REDACTED = true) as Hbox.
  { intros b b'. unfold SecretBox_fmt. split; [f_equal; apply secrecy_blind|].
    apply contains_tuple, secrecy_redacted. }
  split_and!; [done| |done|].
  - intros [sk] [sk']. unfold PrivateKey_fmt, X25519PrivateKey_fmt.
    destruct (Hbox (X25519PrivateKey_secret sk) (X25519PrivateKey_secret sk')) as [-> Hc].
    destruct (Hbox (X25519PrivateKey_secret sk') (X25519PrivateKey_secret sk')) as [_ Hc'].
    split; [done|]. by apply contains_tuple, contains_tuple.
  - intros r r' Hm. unfold KeyRecord_fmt. rewrite Hm. split; [done|].
    unfold debug_struct. apply contains_prepend, contains_prepend, contains_append.
    cbn [fmap list_fmap String.concat]. do 4 apply contains_prepend. done.
Qed.
End redaction.
