(* ===== verification/KpsCore.v ===== *)
(** * The key protection service's core: key_protection_service/key_custody_core/src/lib.rs

    The five entry points over KEM keys, each with its internal function.  A
    raw pointer is an address in the caller's memory. *)

From S2P Require Import Prelude Effects RustStd Proto Platform SecretBox ProtectedMem X25519 Crypto.
From S2P Require Import Telemetry KeyTypes Process Registry Boundary.

Section kps.
Context `{Platform}.

(** ** Key generation *)

Definition generate_kem_keypair_internal (algo : HpkeAlgorithm) (binding_pubkey : PublicKey)
    (expiry_secs : N) : M Proc Status (Uuid * PublicKey) :=
  let* record := in_sys (create_bound_kem_key algo binding_pubkey (Duration_from_secs expiry_secs)) in
  let id := id (meta record) in
  let* pubkey :=
    match spec (meta record) with
    | KemWithBindingPub _ kem_public_key _ => ret kem_public_key
    | _ => do* in_sys (modify (Vault_drop (private_key record))); throw InternalError
    end in
  do* add_key record;
  ret (id, pubkey).

Definition key_manager_generate_kem_keypair (algo_ptr algo_len binding_pubkey binding_pubkey_len
    expiry_secs out_uuid out_pubkey out_pubkey_len : N) : M Proc Empty_set Status :=
  ffi_call GenerateKemKeypair
   (if is_null binding_pubkey || (binding_pubkey_len =? 0)%N || is_null out_pubkey
       || is_null out_uuid || is_null algo_ptr || (algo_len =? 0)%N
    then throw InvalidArgument
    else
      let* binding_pubkey_slice := in_mem (from_raw_parts binding_pubkey binding_pubkey_len) in
      let* algo_slice := in_mem (from_raw_parts algo_ptr algo_len) in
      let* out_uuid := in_mem (from_raw_parts_mut out_uuid 16) in
      let* out_pubkey := in_mem (from_raw_parts_mut out_pubkey out_pubkey_len) in
      let* binding_pubkey := in_sys (PublicKey_try_from binding_pubkey_slice) in
      let* algo := ok_or (HpkeAlgorithm_decode algo_slice) InvalidArgument in
      let* ' (id, pubkey) := generate_kem_keypair_internal algo binding_pubkey expiry_secs in
      if negb (out_pubkey_len =? lenN (PublicKey_as_bytes pubkey))%N then throw InvalidArgument
      else
        do* in_mem (copy_from_slice out_uuid (Uuid_as_bytes id));
        in_mem (copy_from_slice out_pubkey (PublicKey_as_bytes pubkey))).

(** ** Destruction *)

Definition key_manager_destroy_kem_key (uuid_bytes : N) : M Proc Empty_set Status :=
  ffi_call DestroyKemKey
   (if is_null uuid_bytes then throw InvalidArgument
    else
      let* bytes := in_mem (from_raw_parts uuid_bytes 16) in
      let uuid := Uuid_from_bytes bytes in
      let* removed := remove_key uuid in
      let* record := ok_or removed NotFound in
      do* modify (drop_record record);
      ret tt).

(** ** Decapsulation and resealing *)

Definition decap_and_seal_internal (uuid : Uuid) (encapsulated_key aad : bytes)
    (out_encapsulated_key out_ciphertext : MutSlice) : M Proc Status unit :=
  let* found := get_key uuid in
  let* key_record := ok_or found NotFound in
  match spec (meta key_record) with
  | KemWithBindingPub hpke_algo _ binding_public_key =>
      let* priv_key := in_sys (get_private_key key_record) in
      scoped_secret (SecretBox_from priv_key)
       (let* shared_secret := in_sys (decaps priv_key encapsulated_key) in
        scoped_secret shared_secret
         (let* ' (enc, ct) := in_sys (hpke_seal binding_public_key shared_secret aad hpke_algo) in
          if negb (ms_len out_encapsulated_key =? lenN enc)%N || negb (ms_len out_ciphertext =? lenN ct)%N
          then throw InvalidArgument
          else
            do* in_mem (copy_from_slice out_encapsulated_key enc);
            in_mem (copy_from_slice out_ciphertext ct)))
  | _ => throw InternalError
  end.

Definition key_manager_decap_and_seal (uuid_bytes encapsulated_key encapsulated_key_len aad aad_len
    out_encapsulated_key out_encapsulated_key_len out_ciphertext out_ciphertext_len : N)
    : M Proc Empty_set Status :=
  ffi_call DecapAndSeal
   (if is_null uuid_bytes || is_null encapsulated_key || (encapsulated_key_len =? 0)%N
       || is_null out_encapsulated_key || (out_encapsulated_key_len =? 0)%N
       || is_null out_ciphertext || (out_ciphertext_len =? 0)%N
    then throw InvalidArgument
    else
      let* uuid_slice := in_mem (from_raw_parts uuid_bytes 16) in
      let* enc_key_slice := in_mem (from_raw_parts encapsulated_key encapsulated_key_len) in
      let* aad_slice :=
        if negb (is_null aad) && (0 <? aad_len)%N then in_mem (from_raw_parts aad aad_len) else ret [] in
      let* out_encapsulated_key_slice :=
        in_mem (from_raw_parts_mut out_encapsulated_key out_encapsulated_key_len) in
      let* out_ciphertext_slice := in_mem (from_raw_parts_mut out_ciphertext out_ciphertext_len) in
      let* uuid := uuid_of_slice uuid_slice in
      decap_and_seal_internal uuid enc_key_slice aad_slice out_encapsulated_key_slice out_ciphertext_slice).

(** ** Enumeration *)

Record KpsKeyInfo := mkKpsKeyInfo {
  kps_uuid : bytes;
  kps_algorithm : bytes;
  kps_algorithm_len : N;
  kps_pub_key : bytes;
  kps_pub_key_len : N;
  kps_binding_pub_key : bytes;
  kps_binding_pub_key_len : N;
  kps_remaining_lifespan_secs : N;
}.

Definition KpsKeyInfo_default : KpsKeyInfo :=
  mkKpsKeyInfo (zeros 16) (zeros (N.to_nat MAX_ALGORITHM_LEN)) 0
    (zeros (N.to_nat MAX_PUBLIC_KEY_LEN)) 0 (zeros (N.to_nat MAX_PUBLIC_KEY_LEN)) 0 0.

(** The [repr(C)] layout: every field starts where the previous one ends. *)
Definition KpsKeyInfo_bytes (e : KpsKeyInfo) : bytes :=
  kps_uuid e ++ kps_algorithm e ++ le_bytes 8 (kps_algorithm_len e) ++
  kps_pub_key e ++ le_bytes 8 (kps_pub_key_len e) ++
  kps_binding_pub_key e ++ le_bytes 8 (kps_binding_pub_key_len e) ++
  le_bytes 8 (kps_remaining_lifespan_secs e).
Definition KpsKeyInfo_size : N := 4272.

(** The body of the loop for one entry. *)
Definition enumerate_kem_entry (entries : MutSlice) (i : N) (meta : KeyMetadata) : M Proc Status unit :=
  match spec meta with
  | KemWithBindingPub algo pub_key binding_pub_key =>
      let algo_bytes := HpkeAlgorithm_encode_to_vec algo in
      let pk := PublicKey_as_bytes pub_key in
      let bpk := PublicKey_as_bytes binding_pub_key in
      if (MAX_PUBLIC_KEY_LEN <? lenN pk)%N || (MAX_ALGORITHM_LEN <? lenN algo_bytes)%N
      then do* debug_assert_false; throw InternalError
      else if (MAX_PUBLIC_KEY_LEN <? lenN bpk)%N then do* debug_assert_false; throw InternalError
      else
        let* now := in_sys Instant_now in
        let remaining :=
          Duration_as_secs (Instant_saturating_duration_since (delete_after meta) now) in
        let entry := KpsKeyInfo_default in
        let* uuid := array_copy (kps_uuid entry) (Uuid_as_bytes (id meta)) in
        let* algorithm := array_copy_prefix (kps_algorithm entry) algo_bytes in
        let* pub_key := array_copy_prefix (kps_pub_key entry) pk in
        let* binding_pub_key := array_copy_prefix (kps_binding_pub_key entry) bpk in
        let entry := mkKpsKeyInfo uuid algorithm (lenN algo_bytes) pub_key (lenN pk)
                       binding_pub_key (lenN bpk) remaining in
        in_mem (store_entry entries KpsKeyInfo_size i (KpsKeyInfo_bytes entry))
  | _ => throw InternalError
  end.

(** [for (entry, meta) in entries.iter_mut().zip(metas)] *)
Fixpoint enumerate_kem_loop (entries : MutSlice) (i : N) (metas : list KeyMetadata) : M Proc Status unit :=
  match metas with
  | [] => ret tt
  | meta :: metas =>
      if (i <? ms_len entries)%N then
        do* enumerate_kem_entry entries i meta;
        enumerate_kem_loop entries (i + 1) metas
      else ret tt
  end.

Definition enumerate_kem_keys_internal (entries : MutSlice) (offset : N) : M Proc Status (N * bool) :=
  let* ' (metas, total_count) := list_all_keys offset (ms_len entries) in
  let count := lenN metas in
  let* next := usize_add offset count in
  let has_more := (next <? total_count)%N in
  do* enumerate_kem_loop entries 0 metas;
  ret (count, has_more).

Definition key_manager_enumerate_kem_keys (out_entries max_entries offset : N) (out_has_more : option N)
    : M Proc Empty_set Z :=
  ffi_call_i32 EnumerateKemKeys
   (if is_null out_entries then throw InvalidArgument
    else
      let* entries := in_mem (entries_from_raw_parts_mut out_entries max_entries KpsKeyInfo_size) in
      let* ' (count, has_more) := enumerate_kem_keys_internal entries offset in
      do* (match out_has_more with
           | Some has_more_ref => in_mem (write_bool has_more_ref has_more)
           | None => ret tt
           end);
      ret (as_i32 count)).

(** ** Lookup *)

Definition get_kem_key_internal (uuid : Uuid)
    : M Proc Status (HpkeAlgorithm * PublicKey * PublicKey * N) :=
  let* found := get_key uuid in
  let* record := ok_or found NotFound in
  match spec (meta record) with
  | KemWithBindingPub algo kem_public_key binding_public_key =>
      let* now := in_sys Instant_now in
      let remaining := Instant_saturating_duration_since (delete_after (meta record)) now in
      ret (algo, kem_public_key, binding_public_key, Duration_as_secs remaining)
  | _ => throw InternalError
  end.

Definition key_manager_get_kem_key (uuid_bytes out_kem_pubkey out_kem_pubkey_len out_binding_pubkey
    out_binding_pubkey_len out_algo out_algo_len out_remaining_lifespan_secs : N) : M Proc Empty_set Status :=
  ffi_call GetKemKey
   (if is_null uuid_bytes || is_null out_kem_pubkey || (out_kem_pubkey_len =? 0)%N
       || is_null out_binding_pubkey || (out_binding_pubkey_len =? 0)%N
       || is_null out_algo || is_null out_algo_len || is_null out_remaining_lifespan_secs
    then throw InvalidArgument
    else
      let* uuid_slice := in_mem (from_raw_parts uuid_bytes 16) in
      let* out_kem_pubkey_slice := in_mem (from_raw_parts_mut out_kem_pubkey out_kem_pubkey_len) in
      let* out_binding_pubkey_slice := in_mem (from_raw_parts_mut out_binding_pubkey out_binding_pubkey_len) in
      let* _ := in_mem (read_u64 out_remaining_lifespan_secs) in
      let* algo_len := in_mem (read_u64 out_algo_len) in
      let* out_algo_slice := in_mem (from_raw_parts_mut out_algo algo_len) in
      let* uuid := uuid_of_slice uuid_slice in
      let* ' (algo, kem_pubkey, binding_pubkey, remaining_secs) := get_kem_key_internal uuid in
      let algo_bytes := HpkeAlgorithm_encode_to_vec algo in
      if negb (ms_len out_kem_pubkey_slice =? lenN (PublicKey_as_bytes kem_pubkey))%N
         || negb (ms_len out_binding_pubkey_slice =? lenN (PublicKey_as_bytes binding_pubkey))%N
         || (algo_len <? lenN algo_bytes)%N
      then throw InvalidArgument
      else
        do* in_mem (copy_from_slice out_kem_pubkey_slice (PublicKey_as_bytes kem_pubkey));
        do* in_mem (copy_from_slice out_binding_pubkey_slice (PublicKey_as_bytes binding_pubkey));
        let* dst := in_mem (slice_to out_algo_slice (lenN algo_bytes)) in
        do* in_mem (copy_from_slice dst algo_bytes);
        do* in_mem (write_u64 out_algo_len (lenN algo_bytes));
        in_mem (write_u64 out_remaining_lifespan_secs remaining_secs)).
End kps.
