(* ===== verification/WsCore.v ===== *)
(** * The workload service's core: workload_service/key_custody_core/src/lib.rs

    The six entry points over binding keys, each with its internal function. *)

From S2P Require Import Prelude Effects RustStd Proto Platform SecretBox ProtectedMem X25519 Crypto.
From S2P Require Import Telemetry KeyTypes Process Registry Boundary.

Section ws.
Context `{Platform}.

(** ** Key generation *)

Definition generate_binding_keypair_internal (algo : HpkeAlgorithm) (expiry_secs : N)
    : M Proc Status (Uuid * PublicKey) :=
  let* record := in_sys (create_binding_key algo (Duration_from_secs expiry_secs)) in
  let id := id (meta record) in
  let* pubkey :=
    match spec (meta record) with
    | Binding _ binding_public_key => ret binding_public_key
    | _ => do* in_sys (modify (Vault_drop (private_key record))); throw InternalError
    end in
  do* add_key record;
  ret (id, pubkey).

Definition key_manager_generate_binding_keypair (algo_ptr algo_len expiry_secs out_uuid out_pubkey
    out_pubkey_len : N) : M Proc Empty_set Status :=
  ffi_call GenerateBindingKeypair
   (if is_null out_pubkey || is_null out_uuid || is_null algo_ptr || (algo_len =? 0)%N
    then throw InvalidArgument
    else
      let* algo_slice := in_mem (from_raw_parts algo_ptr algo_len) in
      let* out_uuid := in_mem (from_raw_parts_mut out_uuid 16) in
      let* out_pubkey := in_mem (from_raw_parts_mut out_pubkey out_pubkey_len) in
      let* algo := ok_or (HpkeAlgorithm_decode algo_slice) InvalidArgument in
      let* ' (id, pubkey) := generate_binding_keypair_internal algo expiry_secs in
      if negb (out_pubkey_len =? lenN (PublicKey_as_bytes pubkey))%N then throw InvalidArgument
      else
        do* in_mem (copy_from_slice out_uuid (Uuid_as_bytes id));
        in_mem (copy_from_slice out_pubkey (PublicKey_as_bytes pubkey))).

(** ** Destruction *)

Definition key_manager_destroy_binding_key (uuid_bytes : N) : M Proc Empty_set Status :=
  ffi_call DestroyBindingKey
   (if is_null uuid_bytes then throw InvalidArgument
    else
      let* bytes := in_mem (from_raw_parts uuid_bytes 16) in
      let* bytes := map_err (λ _ : unit, InvalidArgument)
                      (if (lenN bytes =? 16)%N then ret bytes else throw tt) in
      let uuid := Uuid_from_bytes bytes in
      let* removed := remove_key uuid in
      let* record := ok_or removed NotFound in
      do* modify (drop_record record);
      ret tt).

Definition key_manager_destroy_all_binding_keys : M Proc Empty_set Status :=
  ffi_call DestroyAllBindingKeys
   (do* remove_all_keys;
    ret tt).

(** ** Decryption *)

Definition open_internal (uuid : Uuid) (enc ciphertext aad : bytes) : M Proc Status SecretBox :=
  let* found := get_key uuid in
  let* record := ok_or found NotFound in
  match spec (meta record) with
  | Binding algo _ =>
      let* priv_key := in_sys (get_private_key record) in
      scoped_secret (SecretBox_from priv_key)
        (in_sys (hpke_open priv_key enc ciphertext aad algo))
  | _ => throw InternalError
  end.

Definition key_manager_open (uuid_bytes enc enc_len ciphertext ciphertext_len aad aad_len
    out_plaintext out_plaintext_len : N) : M Proc Empty_set Status :=
  ffi_call Open
   (if is_null uuid_bytes || is_null enc || is_null ciphertext || is_null out_plaintext
       || (out_plaintext_len =? 0)%N
    then throw InvalidArgument
    else
      let* uuid_slice := in_mem (from_raw_parts uuid_bytes 16) in
      let* enc_slice := in_mem (from_raw_parts enc enc_len) in
      let* ct_slice := in_mem (from_raw_parts ciphertext ciphertext_len) in
      let* aad_slice :=
        if negb (is_null aad) && (0 <? aad_len)%N then in_mem (from_raw_parts aad aad_len) else ret [] in
      let* out_plaintext_slice := in_mem (from_raw_parts_mut out_plaintext out_plaintext_len) in
      let* uuid := uuid_of_slice uuid_slice in
      let* pt := open_internal uuid enc_slice ct_slice aad_slice in
      scoped_secret pt
       (if negb (out_plaintext_len =? lenN (SecretBox_as_slice pt))%N then throw InvalidArgument
        else in_mem (copy_from_slice out_plaintext_slice (SecretBox_as_slice pt)))).

(** ** Enumeration *)

Record WsKeyInfo := mkWsKeyInfo {
  ws_uuid : bytes;
  ws_algorithm : bytes;
  ws_algorithm_len : N;
  ws_pub_key : bytes;
  ws_pub_key_len : N;
  ws_remaining_lifespan_secs : N;
}.

Definition WsKeyInfo_default : WsKeyInfo :=
  mkWsKeyInfo (zeros 16) (zeros (N.to_nat MAX_ALGORITHM_LEN)) 0
    (zeros (N.to_nat MAX_PUBLIC_KEY_LEN)) 0 0.

(** The [repr(C)] layout: every field starts where the previous one ends. *)
Definition WsKeyInfo_bytes (e : WsKeyInfo) : bytes :=
  ws_uuid e ++ ws_algorithm e ++ le_bytes 8 (ws_algorithm_len e) ++
  ws_pub_key e ++ le_bytes 8 (ws_pub_key_len e) ++ le_bytes 8 (ws_remaining_lifespan_secs e).
Definition WsKeyInfo_size : N := 2216.

Definition enumerate_binding_entry (entries : MutSlice) (i : N) (meta : KeyMetadata) : M Proc Status unit :=
  match spec meta with
  | Binding algo pub_key =>
      let algo_bytes := HpkeAlgorithm_encode_to_vec algo in
      let pk := PublicKey_as_bytes pub_key in
      if (MAX_PUBLIC_KEY_LEN <? lenN pk)%N || (MAX_ALGORITHM_LEN <? lenN algo_bytes)%N
      then do* debug_assert_false; throw InternalError
      else
        let* now := in_sys Instant_now in
        let remaining :=
          Duration_as_secs (Instant_saturating_duration_since (delete_after meta) now) in
        let entry := WsKeyInfo_default in
        let* uuid := array_copy (ws_uuid entry) (Uuid_as_bytes (id meta)) in
        let* algorithm := array_copy_prefix (ws_algorithm entry) algo_bytes in
        let* pub_key := array_copy_prefix (ws_pub_key entry) pk in
        let entry := mkWsKeyInfo uuid algorithm (lenN algo_bytes) pub_key (lenN pk) remaining in
        in_mem (store_entry entries WsKeyInfo_size i (WsKeyInfo_bytes entry))
  | _ => throw InternalError
  end.

(** [for (entry, meta) in entries.iter_mut().zip(metas)] *)
Fixpoint enumerate_binding_loop (entries : MutSlice) (i : N) (metas : list KeyMetadata) : M Proc Status unit :=
  match metas with
  | [] => ret tt
  | meta :: metas =>
      if (i <? ms_len entries)%N then
        do* enumerate_binding_entry entries i meta;
        enumerate_binding_loop entries (i + 1) metas
      else ret tt
  end.

Definition enumerate_binding_keys_internal (entries : MutSlice) (offset : N) : M Proc Status (N * bool) :=
  let* ' (metas, total_count) := list_all_keys offset (ms_len entries) in
  let count := lenN metas in
  let* next := usize_add offset count in
  let has_more := (next <? total_count)%N in
  do* enumerate_binding_loop entries 0 metas;
  ret (count, has_more).

Definition key_manager_enumerate_binding_keys (out_entries max_entries offset : N) (out_has_more : option N)
    : M Proc Empty_set Z :=
  ffi_call_i32 EnumerateBindingKeys
   (if is_null out_entries then throw InvalidArgument
    else
      let* entries := in_mem (entries_from_raw_parts_mut out_entries max_entries WsKeyInfo_size) in
      let* ' (count, has_more) := enumerate_binding_keys_internal entries offset in
      do* (match out_has_more with
           | Some has_more_ref => in_mem (write_bool has_more_ref has_more)
           | None => ret tt
           end);
      ret (as_i32 count)).

(** ** Lookup *)

Definition get_binding_key_internal (uuid : Uuid) : M Proc Status (HpkeAlgorithm * PublicKey) :=
  let* found := get_key uuid in
  let* record := ok_or found NotFound in
  match spec (meta record) with
  | Binding algo binding_public_key => ret (algo, binding_public_key)
  | _ => throw InternalError
  end.

Definition key_manager_get_binding_key (uuid_bytes out_pubkey out_pubkey_len out_algo out_algo_len : N)
    : M Proc Empty_set Status :=
  ffi_call GetBindingKey
   (if is_null uuid_bytes || is_null out_pubkey || (out_pubkey_len =? 0)%N
       || is_null out_algo || is_null out_algo_len
    then throw InvalidArgument
    else
      let* uuid_slice := in_mem (from_raw_parts uuid_bytes 16) in
      let* out_pubkey_slice := in_mem (from_raw_parts_mut out_pubkey out_pubkey_len) in
      let* algo_len := in_mem (read_u64 out_algo_len) in
      let* out_algo_slice := in_mem (from_raw_parts_mut out_algo algo_len) in
      let* uuid := uuid_of_slice uuid_slice in
      let* ' (algo, pubkey) := get_binding_key_internal uuid in
      let algo_bytes := HpkeAlgorithm_encode_to_vec algo in
      if negb (ms_len out_pubkey_slice =? lenN (PublicKey_as_bytes pubkey))%N
         || (algo_len <? lenN algo_bytes)%N
      then throw InvalidArgument
      else
        do* in_mem (copy_from_slice out_pubkey_slice (PublicKey_as_bytes pubkey));
        let* dst := in_mem (slice_to out_algo_slice (lenN algo_bytes)) in
        do* in_mem (copy_from_slice dst algo_bytes);
        in_mem (write_u64 out_algo_len (lenN algo_bytes))).
End ws.
