(* ===== verification/KpsSpec.v ===== *)
(** * The key protection service against its specification

    For each entry point of KpsCore.v an abstract specification (a relation
    between the process before, the status, and the registry and memory after)
    and the proof that the code refines it on every input its safety contract
    allows. *)

From S2P Require Import Prelude Effects RustStd Proto Platform SecretBox ProtectedMem X25519 Crypto.
From S2P Require Import Telemetry KeyTypes Process Registry Boundary KpsCore.

Section spec.
Context `{Platform}.

(** [key_manager_generate_kem_keypair]: the key is stored before the size of
    the caller's buffer is looked at. *)
Definition GenerateKem (algo_bytes binding_pubkey : bytes) (expiry_secs out_uuid out_pubkey out_pubkey_len : N)
    (p : Proc) (st : Status) (k : gmap Uuid KeyRecord) (m : Memory) : Prop :=
  match (if decide (length binding_pubkey = 32) then HpkeAlgorithm_decode algo_bytes else None) with
  | None => st = InvalidArgument ∧ untouched p k m
  | Some algo =>
      if decide (algo = x25519_suite) then
        ((st = CryptoError ∨
          st = UnsupportedAlgorithm ∧
          (i64_max < (proc_now p + Duration_from_secs expiry_secs) / nanos_per_sec)%Z) ∧
         untouched p k m) ∨
        ∃ r kem_pubkey,
          created (λ algo pub_key, KemWithBindingPub algo pub_key
                     (PublicKey_X25519 (mkX25519PublicKey binding_pubkey)))
            (Duration_from_secs expiry_secs) (p_sys p) r ∧
          spec (meta r) = KemWithBindingPub x25519_suite kem_pubkey
                            (PublicKey_X25519 (mkX25519PublicKey binding_pubkey)) ∧
          is_key_pair kem_pubkey (mmap (private_key r)) ∧
          k = <[id (meta r) := r]> (p_keys p) ∧
          (if decide (out_pubkey_len = 32%N) then
             st = Success ∧
             m = write_bytes (write_bytes (p_mem p) out_uuid (Uuid_as_bytes (id (meta r))))
                   out_pubkey (PublicKey_as_bytes kem_pubkey)
           else st = InvalidArgument ∧ m = p_mem p)
      else
        (st = if (kem algo =? 1)%Z then UnsupportedAlgorithm else InvalidKey) ∧ untouched p k m
  end.

(** [key_manager_decap_and_seal] *)
Definition DecapAndSealed (i : Uuid) (encapsulated_key aad : bytes)
    (out_enc out_enc_len out_ct out_ct_len : N) (p : Proc)
    (st : Status) (k : gmap Uuid KeyRecord) (m : Memory) : Prop :=
  k = p_keys p ∧
  match live_key p i with
  | Some r =>
      match spec (meta r) with
      | KemWithBindingPub _ _ binding_pubkey =>
          match (if decide (length encapsulated_key = 32)
                 then Decap encapsulated_key (mmap (private_key r)) else None) with
          | None => st = DecapsulationFailure ∧ m = p_mem p
          | Some shared_secret =>
              st = EncryptionFailure ∧ m = p_mem p ∨
              ∃ enc ct, Sealed (PublicKey_as_bytes binding_pubkey) shared_secret aad enc ct ∧
                length enc = 32 ∧ length ct = length shared_secret + 16 ∧
                (if decide (out_enc_len = lenN enc ∧ out_ct_len = lenN ct)
                 then st = Success ∧ m = write_bytes (write_bytes (p_mem p) out_enc enc) out_ct ct
                 else st = InvalidArgument ∧ m = p_mem p)
          end
      | Binding _ _ => st = InternalError ∧ m = p_mem p
      end
  | None => st = NotFound ∧ m = p_mem p
  end.

(** [key_manager_get_kem_key] *)
Definition GotKem (i : Uuid) (out_kem out_kem_len out_bpk out_bpk_len out_algo out_algo_len algo_len
    out_remaining : N) (p : Proc) (st : Status) (k : gmap Uuid KeyRecord) (m : Memory) : Prop :=
  k = p_keys p ∧
  match live_key p i with
  | Some r =>
      match spec (meta r) with
      | KemWithBindingPub algo kem_pubkey binding_pubkey =>
          if decide (out_kem_len = lenN (PublicKey_as_bytes kem_pubkey) ∧
                     out_bpk_len = lenN (PublicKey_as_bytes binding_pubkey) ∧
                     (lenN (HpkeAlgorithm_encode_to_vec algo) ≤ algo_len)%N)
          then
            let algo_bytes := HpkeAlgorithm_encode_to_vec algo in
            let remaining := Duration_as_secs
              (Instant_saturating_duration_since (delete_after (meta r)) (proc_now (ticked p))) in
            st = Success ∧
            m = write_bytes (write_bytes (write_bytes (write_bytes (write_bytes (p_mem p)
                  out_kem (PublicKey_as_bytes kem_pubkey))
                  out_bpk (PublicKey_as_bytes binding_pubkey))
                  out_algo algo_bytes)
                  out_algo_len (le_bytes 8 (lenN algo_bytes)))
                  out_remaining (le_bytes 8 remaining)
          else st = InvalidArgument ∧ m = p_mem p
      | Binding _ _ => st = InternalError ∧ m = p_mem p
      end
  | None => st = NotFound ∧ m = p_mem p
  end.

(** The entry of a listed key, [now] being the clock's reading for it. *)
Definition kem_entry (md : KeyMetadata) (now : Z) : KpsKeyInfo :=
  match spec md with
  | KemWithBindingPub algo kem_pubkey binding_pubkey =>
      let pad n (b : bytes) := b ++ drop (length b) (zeros (N.to_nat n)) in
      let algo_bytes := HpkeAlgorithm_encode_to_vec algo in
      let kpk := PublicKey_as_bytes kem_pubkey in
      let bpk := PublicKey_as_bytes binding_pubkey in
      mkKpsKeyInfo (Uuid_as_bytes (id md)) (pad MAX_ALGORITHM_LEN algo_bytes) (lenN algo_bytes)
        (pad MAX_PUBLIC_KEY_LEN kpk) (lenN kpk) (pad MAX_PUBLIC_KEY_LEN bpk) (lenN bpk)
        (Duration_as_secs (Instant_saturating_duration_since (delete_after md) now))
  | Binding _ _ => KpsKeyInfo_default
  end.

(** [key_manager_enumerate_kem_keys]: the listing reads the clock once, then
    once per entry. *)
Definition enumerated_kem (out_entries max_entries offset : N) (out_has_more : option N) (p : Proc)
    : Outcome Empty_set Z * Proc :=
  let metas := page (proc_now p) (p_keys p) offset max_entries in
  let entries := entries_bytes (λ md now, KpsKeyInfo_bytes (kem_entry md now))
                   (S (clock_reads (p_sys p))) metas in
  (Ok (as_i32 (lenN metas)),
   set_mem (write_flag out_has_more (page_has_more (proc_now p) (p_keys p) offset max_entries)
              (write_bytes (p_mem p) out_entries entries))
     (ticks (S (length metas)) p)).

(** What a stored KEM key is. *)
Definition kem_record_wf (r : KeyRecord) : Prop := is_kem_spec (spec (meta r)) = true ∧ record_wf r.

Definition kem_meta_wf (md : KeyMetadata) : Prop :=
  ∃ kpk bpk, spec md = KemWithBindingPub x25519_suite kpk bpk ∧ PublicKey_wf kpk ∧ PublicKey_wf bpk.
End spec.

(** ** Refinement *)

Section refinement.
Context `{PlatformLaws}.
Implicit Types (p : Proc).

Lemma create_bound_kem_key_cases algo bpk expiry s :
  wp (create_bound_kem_key algo (PublicKey_X25519 bpk) expiry)
    (λ o _, if decide (algo = x25519_suite) then
       match o with
       | Ok r => created (λ algo pub_key, KemWithBindingPub algo pub_key (PublicKey_X25519 bpk)) expiry s r
       | Err e => e = CryptoError ∨ e = UnsupportedAlgorithm ∧
                  (i64_max < (clock (clock_reads s) + expiry) / nanos_per_sec)%Z
       | Panic | Ub => False
       end
     else o = Err (if (kem algo =? 1)%Z then UnsupportedAlgorithm else InvalidKey)) s.
Proof.
  unfold wp, create_bound_kem_key. case_decide as Halgo.
  - subst. rewrite kem_try_from_x25519. apply create_key_internal_cases.
  - pose proof (create_bound_kem_key_unsupported algo (PublicKey_X25519 bpk) expiry s Halgo) as Hr.
    unfold create_bound_kem_key in Hr. by rewrite Hr.
Qed.

Lemma wp_PublicKey_try_from v Q p :
  Q (if decide (length v = 32) then Ok (PublicKey_X25519 (mkX25519PublicKey v))
     else Err InvalidArgument) p →
  wp (in_sys (PublicKey_try_from v)) Q p.
Proof.
  intros HQ. eapply wp_eq; [apply in_sys_run, PublicKey_try_from_run|]. by destruct p.
Qed.

Lemma generate_kem_keypair_refines algo_ptr algo_len bpk_ptr bpk_len expiry_secs out_uuid out_pubkey
    out_pubkey_len p algo_bytes bpk :
  p_poisoned p = false →
  points_to (p_mem p) algo_ptr algo_bytes → algo_len = lenN algo_bytes → algo_len ≠ 0%N →
  points_to (p_mem p) bpk_ptr bpk → bpk_len = lenN bpk → bpk_len ≠ 0%N →
  valid_buffer (p_mem p) out_uuid 16 → valid_buffer (p_mem p) out_pubkey out_pubkey_len →
  wp (key_manager_generate_kem_keypair algo_ptr algo_len bpk_ptr bpk_len expiry_secs
        out_uuid out_pubkey out_pubkey_len)
    (returns GenerateKemKeypair
       (GenerateKem algo_bytes bpk expiry_secs out_uuid out_pubkey out_pubkey_len p) p) p.
Proof.
  intros Hp Halgo -> Hal Hbpk -> Hbl Hu Hk. apply wp_ffi_call.
  rewrite (points_to_nonnull _ _ _ Halgo), (points_to_nonnull _ _ _ Hbpk),
    (valid_nonnull _ _ _ Hu), (valid_nonnull _ _ _ Hk).
  apply N.eqb_neq in Hal as ->, Hbl as ->. cbn [orb].
  wp_read. wp_read. wp_out. wp_out. wp_next @wp_PublicKey_try_from.
  unfold GenerateKem. destruct (decide (length bpk = 32)) as [Hl|Hl]; cbn [chain].
  2: { by apply body_untouched. }
  apply wp_bind. destruct (HpkeAlgorithm_decode algo_bytes) as [algo|]; cbn [ok_or].
  2: { by apply body_untouched. }
  apply wp_ret. cbn [chain]. apply wp_bind, wp_bind, wp_in_sys_wp.
  eapply wp_mono; [apply create_bound_kem_key_cases|]. intros o s' Ho. cbn beta in Ho.
  case_decide as Hs.
  2: { subst o. cbn [chain]. apply body_untouched; try done. by destruct (kem algo =? 1)%Z. }
  subst algo. destruct o as [r|e| |]; cbn [chain]; [| |done..].
  2: { destruct Ho as [->|[-> ?]]; apply body_untouched; try done; left; split; auto; done. }
  pose proof Ho as (kpk&Hspec&Hkp&_). rewrite Hspec.
  assert (lenN (PublicKey_as_bytes kpk) = 32%N) as Hlen
    by (by eapply PublicKey_wf_lenN, is_key_pair_wf).
  apply wp_bind, wp_ret. cbn [chain].
  wp_next @wp_add_key; [done|]. intros p' Hk' Hm' Ht' Hp'. simpl in Hk', Hm', Ht'. apply wp_ret. cbn [chain].
  rewrite Hlen. destruct (N.eqb_spec out_pubkey_len 32) as [->|Hne]; cbn [negb].
  - wp_next @wp_copy_from_slice; [by rewrite lenN_uuid|].
    apply wp_copy_from_slice; [done|]. split_and!; [done|done|]. right. exists r, kpk.
    rewrite decide_True by done. cbn. rewrite Hm'. by split_and!.
  - apply body_untouched; [done..|]. right. exists r, kpk. rewrite decide_False by done. by split_and!.
Qed.

Lemma destroy_kem_key_refines uuid_ptr p i :
  p_poisoned p = false → points_to (p_mem p) uuid_ptr (Uuid_as_bytes i) →
  wp (key_manager_destroy_kem_key uuid_ptr) (returns DestroyKemKey (Destroy i p) p) p.
Proof.
  intros Hp Hi. apply wp_ffi_call. rewrite (points_to_nonnull _ _ _ Hi).
  wp_next @wp_from_raw_parts; [done|by rewrite lenN_uuid|].
  rewrite Uuid_from_bytes_as. wp_next @wp_remove_key; [done|].
  apply wp_bind. unfold Destroy. destruct (p_keys p !! i) as [r|]; [|by apply body_untouched].
  apply wp_ret. cbn [chain]. apply wp_bind. by split_and!.
Qed.

Lemma decap_and_seal_refines uuid_ptr enc_ptr enc_len aad_ptr aad_len out_enc out_enc_len
    out_ct out_ct_len p i enc aad :
  p_poisoned p = false → map_Forall (λ _, record_wf) (p_keys p) →
  points_to (p_mem p) uuid_ptr (Uuid_as_bytes i) →
  points_to (p_mem p) enc_ptr enc → enc_len = lenN enc → enc_len ≠ 0%N →
  opt_points_to (p_mem p) aad_ptr aad_len aad →
  valid_buffer (p_mem p) out_enc out_enc_len → out_enc_len ≠ 0%N →
  valid_buffer (p_mem p) out_ct out_ct_len → out_ct_len ≠ 0%N →
  wp (key_manager_decap_and_seal uuid_ptr enc_ptr enc_len aad_ptr aad_len out_enc out_enc_len out_ct out_ct_len)
    (returns DecapAndSeal (DecapAndSealed i enc aad out_enc out_enc_len out_ct out_ct_len p) p) p.
Proof.
  intros Hp Hwf Hi Henc -> Hel Haad Hoe Hoel Hoc Hocl. apply wp_ffi_call.
  rewrite (points_to_nonnull _ _ _ Hi), (points_to_nonnull _ _ _ Henc),
    (valid_nonnull _ _ _ Hoe), (valid_nonnull _ _ _ Hoc).
  apply N.eqb_neq in Hel as ->, Hoel as ->, Hocl as ->. cbn [orb].
  wp_next @wp_from_raw_parts; [done|by rewrite lenN_uuid|]. wp_read.
  wp_next @wp_opt_slice; [done|]. wp_out. wp_out.
  unfold uuid_of_slice. rewrite Uuid_from_as. apply wp_bind, wp_Some. cbn [chain].
  unfold decap_and_seal_internal. wp_next @wp_get_key; [done|]. intros p1 Hk1 Hm1 Ht1 Hq1 _.
  unfold DecapAndSealed.
  apply wp_bind. destruct (live_key p i) as [r|] eqn:Hr; [|by apply body_untouched].
  apply wp_Some. cbn [chain].
  destruct (spec (meta r)) as [algo kpk bpk|] eqn:Hspec; [|by apply body_untouched].
  apply live_key_Some in Hr as [Hr _]. destruct (Hwf _ _ Hr) as [Hwfr _].
  rewrite Hspec in Hwfr. destruct Hwfr as (->&[Hsk _]&_).
  wp_next @wp_in_sys; [apply outcome_get_private_key|]. intros s1. apply wp_scoped_secret.
  wp_next @wp_in_sys; [by apply decaps_outcome|]. intros s2.
  destruct (if decide (length enc = 32) then Decap enc (mmap (private_key r)) else None) as [ss|] eqn:Hss.
  2: { case_decide; [rewrite Hss|]; by apply body_untouched. }
  case_decide; [|done]. rewrite Hss. apply wp_scoped_secret.
  apply wp_bind, wp_in_sys_wp. unfold wp at 1.
  destruct (hpke_seal_sealed bpk (mkSecretBox ss) aad s2) as [Ho|(enc'&ct'&Ho&Hsealed&Hle&Hlc)];
    cbn [p_sys set_sys]; rewrite Ho; cbn [chain].
  { apply body_untouched; [done..|]. split; [done|]. by left. }
  cbn [ms_len SecretBox_as_slice] in *.
  assert (negb (out_enc_len =? lenN enc')%N || negb (out_ct_len =? lenN ct')%N =
          negb (bool_decide (out_enc_len = lenN enc' ∧ out_ct_len = lenN ct'))) as ->
    by (destruct (N.eqb_spec out_enc_len (lenN enc')), (N.eqb_spec out_ct_len (lenN ct'));
        case_bool_decide; simpl; tauto).
  case_bool_decide as Hd; cbn [negb].
  - destruct Hd as [-> ->]. wp_copy. apply wp_copy_from_slice; [done|]. split_and!; [done..|].
    right. exists enc', ct'. rewrite decide_True by done. cbn. rewrite Hm1. by split_and!.
  - apply body_untouched; [done..|]. split; [done|]. right. exists enc', ct'.
    rewrite decide_False by done. by split_and!.
Qed.

Lemma get_kem_key_refines uuid_ptr out_kem out_kem_len out_bpk out_bpk_len out_algo out_algo_len
    out_remaining algo_len p i :
  p_poisoned p = false →
  points_to (p_mem p) uuid_ptr (Uuid_as_bytes i) →
  valid_buffer (p_mem p) out_kem out_kem_len → out_kem_len ≠ 0%N →
  valid_buffer (p_mem p) out_bpk out_bpk_len → out_bpk_len ≠ 0%N →
  valid_u64 (p_mem p) out_remaining → valid_u64 (p_mem p) out_algo_len →
  read_bytes (p_mem p) out_algo_len 8 = Some (le_bytes 8 algo_len) → (algo_len < 2 ^ 64)%N →
  valid_buffer (p_mem p) out_algo algo_len →
  wp (key_manager_get_kem_key uuid_ptr out_kem out_kem_len out_bpk out_bpk_len out_algo out_algo_len out_remaining)
    (returns GetKemKey
       (GotKem i out_kem out_kem_len out_bpk out_bpk_len out_algo out_algo_len algo_len out_remaining p) p) p.
Proof.
  intros Hp Hi Hok Hokl Hob Hobl Hrem Hal Halr Halb Hoa. apply wp_ffi_call.
  rewrite (points_to_nonnull _ _ _ Hi), (valid_nonnull _ _ _ Hok), (valid_nonnull _ _ _ Hob),
    (valid_nonnull _ _ _ Hoa), (valid_u64_nonnull _ _ Hrem), (valid_u64_nonnull _ _ Hal).
  apply N.eqb_neq in Hokl as ->, Hobl as ->. cbn [orb].
  wp_next @wp_from_raw_parts; [done|by rewrite lenN_uuid|]. wp_out. wp_out.
  wp_next @wp_read_u64_any; [done|]. intros _. wp_next @wp_read_u64; [done..|]. wp_out.
  unfold uuid_of_slice. rewrite Uuid_from_as. apply wp_bind, wp_Some. cbn [chain].
  unfold get_kem_key_internal. apply wp_bind. wp_next @wp_get_key; [done|]. intros p1 Hk1 Hm1 Ht1 Hq1 Htick.
  unfold GotKem.
  apply wp_bind. destruct (live_key p i) as [r|] eqn:Hr; [|by apply body_untouched].
  apply wp_Some. cbn [chain]. rewrite Htick in * by eauto.
  destruct (spec (meta r)) as [algo kpk bpk|] eqn:Hspec; [|by apply body_untouched].
  apply wp_bind, wp_in_sys_wp. unfold wp at 1. cbn [fst snd Instant_now chain]. apply wp_ret. cbn [chain].
  change (clock (clock_reads (p_sys (ticked p)))) with (proc_now (ticked p)).
  set (remaining := Duration_as_secs _). cbn [ms_len].
  assert (negb (out_kem_len =? lenN (PublicKey_as_bytes kpk))%N
          || negb (out_bpk_len =? lenN (PublicKey_as_bytes bpk))%N
          || (algo_len <? lenN (HpkeAlgorithm_encode_to_vec algo))%N =
          negb (bool_decide (out_kem_len = lenN (PublicKey_as_bytes kpk) ∧
                     out_bpk_len = lenN (PublicKey_as_bytes bpk) ∧
                     (lenN (HpkeAlgorithm_encode_to_vec algo) ≤ algo_len)%N))) as ->.
  { destruct (N.eqb_spec out_kem_len (lenN (PublicKey_as_bytes kpk))),
      (N.eqb_spec out_bpk_len (lenN (PublicKey_as_bytes bpk))),
      (N.ltb_spec algo_len (lenN (HpkeAlgorithm_encode_to_vec algo)));
      case_bool_decide; simpl; lia || tauto. }
  case_bool_decide as Hd; cbn [negb].
  2: { apply body_untouched; [done..|]. split; [done|]. by rewrite decide_False. }
  destruct (Hd) as (->&->&Hal'). wp_copy. wp_copy. wp_next @wp_slice_to; [done|]. wp_copy.
  wp_next @wp_write_u64; [cbn; auto using valid_u64_write|].
  apply wp_write_u64; [cbn; auto using valid_u64_write|]. split_and!; [done..|]. by rewrite decide_True.
Qed.

Lemma kem_record_meta_wf r : kem_record_wf r → kem_meta_wf (meta r).
Proof.
  intros [Hk [Hs _]]. unfold kem_meta_wf. destruct (spec (meta r)) as [algo kpk bpk|]; [|done].
  destruct Hs as (->&Hkp&Hb). exists kpk, bpk. split_and!; [done|by eapply is_key_pair_wf|done].
Qed.

Lemma length_kem_entry md now : kem_meta_wf md → lenN (KpsKeyInfo_bytes (kem_entry md now)) = KpsKeyInfo_size.
Proof.
  intros (kpk&bpk&Hs&Hk&Hb). unfold kem_entry. rewrite Hs. unfold KpsKeyInfo_bytes, KpsKeyInfo_size, lenN.
  pose proof (length_encode x25519_suite x25519_suite_wf) as He. unfold PublicKey_wf in *.
  cbn [kps_uuid kps_algorithm kps_algorithm_len kps_pub_key kps_pub_key_len kps_binding_pub_key
       kps_binding_pub_key_len kps_remaining_lifespan_secs].
  rewrite !length_app, !length_drop, !length_le_bytes, !length_zeros, Uuid_as_bytes_length, Hk, Hb.
  unfold MAX_ALGORITHM_LEN, MAX_PUBLIC_KEY_LEN. lia.
Qed.

Lemma enumerate_kem_entry_run entries i md p :
  kem_meta_wf md →
  enumerate_kem_entry entries i md p =
    (Ok tt, set_mem (write_bytes (p_mem p) (ms_ptr entries + i * KpsKeyInfo_size)
                       (KpsKeyInfo_bytes (kem_entry md (proc_now p)))) (ticked p)).
Proof.
  intros (kpk&bpk&Hs&Hk&Hb). unfold enumerate_kem_entry, kem_entry. rewrite Hs.
  pose proof (length_encode x25519_suite x25519_suite_wf) as He.
  rewrite (PublicKey_wf_lenN _ Hk), (PublicKey_wf_lenN _ Hb).
  assert ((MAX_ALGORITHM_LEN <? lenN (HpkeAlgorithm_encode_to_vec x25519_suite))%N = false) as ->
    by (apply N.ltb_ge; unfold lenN, MAX_ALGORITHM_LEN; lia).
  change (MAX_PUBLIC_KEY_LEN <? 32)%N with false. cbn [orb].
  rewrite (bind_ok _ _ p (proc_now p) (ticked p)) by done.
  unfold PublicKey_wf in *.
  rewrite bind_array_copy by (by rewrite Uuid_as_bytes_length).
  rewrite !bind_array_copy_prefix
    by (cbn [kps_algorithm kps_pub_key kps_binding_pub_key KpsKeyInfo_default]; rewrite length_zeros;
        unfold MAX_ALGORITHM_LEN, MAX_PUBLIC_KEY_LEN; lia). done.
Qed.

Lemma enumerate_kem_loop_run entries i metas p :
  Forall kem_meta_wf metas → (i + lenN metas ≤ ms_len entries)%N →
  enumerate_kem_loop entries i metas p =
    (Ok tt, set_mem (write_bytes (p_mem p) (ms_ptr entries + i * KpsKeyInfo_size)
              (entries_bytes (λ md now, KpsKeyInfo_bytes (kem_entry md now)) (clock_reads (p_sys p)) metas))
            (ticks (length metas) p)).
Proof.
  intros Hwf. revert i p. induction Hwf as [|md metas Hmd _ IH]; intros i p Hi.
  { cbn. by destruct p. }
  unfold lenN in Hi. cbn [length] in Hi. cbn [enumerate_kem_loop].
  rewrite (proj2 (N.ltb_lt _ _)) by lia.
  rewrite (bind_ok _ _ _ _ _ (enumerate_kem_entry_run _ _ _ _ Hmd)).
  rewrite IH by (unfold lenN; lia). rewrite ticks_set_mem, ticks_S. cbn [length entries_bytes].
  replace (ms_ptr entries + (i + 1) * KpsKeyInfo_size)%N
    with (ms_ptr entries + i * KpsKeyInfo_size + KpsKeyInfo_size)%N by (unfold KpsKeyInfo_size; lia).
  by rewrite <- write_bytes_app, (length_kem_entry _ _ Hmd).
Qed.

Lemma enumerate_kem_keys_run out_entries max_entries offset out_has_more p :
  p_poisoned p = false → map_Forall (λ _, kem_record_wf) (p_keys p) →
  (N.of_nat (size (p_keys p)) ≤ usize_max)%N → (offset ≤ usize_max)%N →
  aligned8 out_entries = true → valid_buffer (p_mem p) out_entries (max_entries * KpsKeyInfo_size) →
  (∀ a, out_has_more = Some a → is_Some (p_mem p !! a)) →
  key_manager_enumerate_kem_keys out_entries max_entries offset out_has_more p =
    enumerated_kem out_entries max_entries offset out_has_more p.
Proof.
  intros Hp Hwf Hsize Hoff Ha Hv Hm.
  assert (Forall kem_meta_wf (page (proc_now p) (p_keys p) offset max_entries)) as Hmetas.
  { apply list.Forall_forall. intros md Hin. apply elem_of_page in Hin as (i&r&Hr&->&_).
    apply kem_record_meta_wf, (Hwf _ _ Hr). }
  pose proof (page_length (proc_now p) (p_keys p) offset max_entries) as Hlen.
  apply ffi_call_i32_ok. rewrite (valid_nonnull _ _ _ Hv).
  apply (enumerate_run enumerate_kem_loop (λ md now, KpsKeyInfo_bytes (kem_entry md now))
    KpsKeyInfo_size out_entries max_entries offset out_has_more p Hp Hsize Hoff Ha Hv Hm).
  cbv zeta. by rewrite enumerate_kem_loop_run.
Qed.
End refinement.
