(* ===== verification/Kps.v ===== *)
(** * The key protection service as a [Service]

    One call per entry point of key_protection_service/key_custody_core, its
    safety contract, and the laws of the interface. *)

From S2P Require Import Prelude Effects RustStd Proto Platform SecretBox ProtectedMem X25519 Crypto.
From S2P Require Import Telemetry KeyTypes Process Registry Reaper Boundary KpsCore KpsSpec Service.

(** ** Calls and contracts *)

Inductive KpsCall :=
| GenerateKemKeypairCall (algo_ptr algo_len binding_pubkey binding_pubkey_len expiry_secs
    out_uuid out_pubkey out_pubkey_len : N)
| DestroyKemKeyCall (uuid_bytes : N)
| EnumerateKemKeysCall (out_entries max_entries offset : N) (out_has_more : option N)
| DecapAndSealCall (uuid_bytes encapsulated_key encapsulated_key_len aad aad_len out_encapsulated_key
    out_encapsulated_key_len out_ciphertext out_ciphertext_len : N)
| GetKemKeyCall (uuid_bytes out_kem_pubkey out_kem_pubkey_len out_binding_pubkey out_binding_pubkey_len
    out_algo out_algo_len out_remaining_lifespan_secs : N).

Section kps.
Context `{Platform}.

Definition kps_run (c : KpsCall) : M Proc Empty_set Z :=
  match c with
  | GenerateKemKeypairCall a al b bl e u k kl =>
      status_code (key_manager_generate_kem_keypair a al b bl e u k kl)
  | DestroyKemKeyCall u => status_code (key_manager_destroy_kem_key u)
  | EnumerateKemKeysCall o n off h => key_manager_enumerate_kem_keys o n off h
  | DecapAndSealCall u e el a al oe oel oc ocl =>
      status_code (key_manager_decap_and_seal u e el a al oe oel oc ocl)
  | GetKemKeyCall u k kl b bl a al r => status_code (key_manager_get_kem_key u k kl b bl a al r)
  end.

Definition kps_operation (c : KpsCall) : KccOperation :=
  match c with
  | GenerateKemKeypairCall _ _ _ _ _ _ _ _ => GenerateKemKeypair
  | DestroyKemKeyCall _ => DestroyKemKey
  | EnumerateKemKeysCall _ _ _ _ => EnumerateKemKeys
  | DecapAndSealCall _ _ _ _ _ _ _ _ _ => DecapAndSeal
  | GetKemKeyCall _ _ _ _ _ _ _ _ => GetKemKey
  end.

Definition kps_code (c : KpsCall) (st : Status) : Z :=
  match c with
  | EnumerateKemKeysCall _ _ _ _ => - Status_as_i32 st
  | _ => Status_as_i32 st
  end.

(** The arguments an entry point refuses before it looks behind a pointer. *)
Definition kps_malformed (c : KpsCall) : bool :=
  match c with
  | GenerateKemKeypairCall a al b bl _ u k _ =>
      is_null b || (bl =? 0)%N || is_null k || is_null u || is_null a || (al =? 0)%N
  | DestroyKemKeyCall u => is_null u
  | EnumerateKemKeysCall o _ _ _ => is_null o
  | DecapAndSealCall u e el _ _ oe oel oc ocl =>
      is_null u || is_null e || (el =? 0)%N || is_null oe || (oel =? 0)%N || is_null oc || (ocl =? 0)%N
  | GetKemKeyCall u k kl b bl a al r =>
      is_null u || is_null k || (kl =? 0)%N || is_null b || (bl =? 0)%N
      || is_null a || is_null al || is_null r
  end.

(** The buffers behind the pointers are what the documentation asks for; it does
    not ask for disjoint ones (see the header on overlapping buffers). *)
Definition kps_buffers (c : KpsCall) (m : Memory) : Prop :=
  match c with
  | GenerateKemKeypairCall a al b bl _ u k kl =>
      valid_buffer m a al ∧ valid_buffer m b bl ∧ valid_buffer m u 16 ∧ valid_buffer m k kl
  | DestroyKemKeyCall u => valid_buffer m u 16
  | EnumerateKemKeysCall o n off h =>
      aligned8 o = true ∧ valid_buffer m o (n * KpsKeyInfo_size) ∧ (off ≤ usize_max)%N ∧
      (∀ q, h = Some q → is_Some (m !! q))
  | DecapAndSealCall u e el a al oe oel oc ocl =>
      valid_buffer m u 16 ∧ valid_buffer m e el ∧
      (negb (is_null a) && (0 <? al)%N = true → valid_buffer m a al) ∧
      valid_buffer m oe oel ∧ valid_buffer m oc ocl
  | GetKemKeyCall u k kl b bl a al r =>
      valid_buffer m u 16 ∧ valid_buffer m k kl ∧ valid_buffer m b bl ∧ valid_u64 m r ∧ valid_u64 m al ∧
      ∃ n, read_bytes m al 8 = Some (le_bytes 8 n) ∧ (n < 2 ^ 64)%N ∧ valid_buffer m a n
  end.

(** A null pointer or a length of zero is the caller's right. *)
Definition kps_contract (c : KpsCall) (p : Proc) : Prop :=
  kps_malformed c = true ∨ kps_buffers c (p_mem p).

Definition kps_outputs (c : KpsCall) (m : Memory) : list (N * N) :=
  match c with
  | GenerateKemKeypairCall _ _ _ _ _ u k kl => [(u, 16); (k, kl)]%N
  | DestroyKemKeyCall _ => []
  | EnumerateKemKeysCall o n _ h =>
      (o, n * KpsKeyInfo_size)%N :: match h with Some q => [(q, 1%N)] | None => [] end
  | DecapAndSealCall _ _ _ _ _ oe oel oc ocl => [(oe, oel); (oc, ocl)]
  | GetKemKeyCall _ k kl b bl a al r =>
      [(k, kl); (b, bl); (a, default 0%N (le_value <$> read_bytes m al 8)); (al, 8); (r, 8)]%N
  end.

(** The handle of the key a generation makes is its second draw. *)
Definition kps_makes (c : KpsCall) (p : Proc) (i : Uuid) : Prop :=
  match c with
  | GenerateKemKeypairCall _ _ _ _ _ _ _ _ => i = Uuid_new_v4 (S (entropy (p_sys p)))
  | _ => False
  end.

Definition kps_destroys (c : KpsCall) (p : Proc) (i : Uuid) : Prop :=
  match c with
  | DestroyKemKeyCall u => is_null u = false ∧ read_bytes (p_mem p) u 16 = Some (Uuid_as_bytes i)
  | _ => False
  end.

#[export] Instance Kps : Service := {|
  service_call := KpsCall;
  service_run := kps_run;
  service_contract := kps_contract;
  service_key := kem_record_wf;
  service_operation := kps_operation;
  service_code := kps_code;
  service_outputs := kps_outputs;
  service_makes := kps_makes;
  service_destroys := kps_destroys;
|}.
End kps.

(** ** The laws *)

Section laws.
Context `{PlatformLaws}.
Implicit Types (p : Proc).

(** A malformed call is refused whatever its pointers point to. *)
Lemma kps_malformed_run c p :
  kps_malformed c = true →
  kps_run c p = (Ok (kps_code c InvalidArgument),
                 report_to_tel (mkFailure (kps_operation c) InvalidArgument FailureKind_Error) p).
Proof.
  destruct c; cbn [kps_malformed kps_run kps_code kps_operation]; intros Hm.
  3: { unfold key_manager_enumerate_kem_keys, ffi_call_i32, ffi_call_i32_with_reporter. by rewrite Hm. }
  all: apply ffi_call_run_err; by rewrite Hm.
Qed.


Lemma kps_malformed_returned c p :
  registry_ok p → kps_malformed c = true →
  ∃ st z p', kps_run c p = (Ok z, p') ∧ returned c p st z p'.
Proof.
  intros (_&Hk&_) Hm. rewrite (kps_malformed_run _ _ Hm). eexists InvalidArgument, _, _.
  split; [done|]. apply returned_same_keys; try done. intros i. destruct c; cbn in *; intros Hd; try done.
  destruct Hd. congruence.
Qed.

Lemma keys_ok p : registry_ok p → map_Forall (λ _, kem_record_wf) (p_keys p).
Proof. intros (_&Hk&_) i r Hr. apply (Hk i r Hr). Qed.

Lemma keys_record_wf p : registry_ok p → map_Forall (λ _, record_wf) (p_keys p).
Proof. intros Hok i r Hr. by apply (keys_ok _ Hok i r Hr). Qed.

Lemma generate_returned a al b bl e u k kl p :
  let c := GenerateKemKeypairCall a al b bl e u k kl in
  registry_ok p → kps_malformed c = false → kps_buffers c (p_mem p) →
  ∃ st z p', kps_run c p = (Ok z, p') ∧ returned c p st z p'.
Proof.
  intros c Hok Hm (Ha&Hb&Hu&Hkb). cbn in Hm. bool_props.
  destruct (valid_points_to _ _ _ Ha) as (algo&Halgo&Hal), (valid_points_to _ _ _ Hb) as (bpk&Hbpk&Hbl).
  destruct Hok as (Hp&Hk&_).
  edestruct returns_run as (st&p'&Hr&HR&_&Ht);
    [by eapply (generate_kem_keypair_refines a al b bl e u k kl p algo bpk)|].
  exists st, (Status_as_i32 st), p'. split; [done|].
  assert (st ≠ InternalError ∧ keys_wf kem_record_wf (p_keys p') ∧
          frame (kps_outputs c (p_mem p)) (p_mem p) (p_mem p') ∧ (st ≠ Success → p_mem p' = p_mem p) ∧
          ∀ i, kps_makes c p i ∨ p_keys p' !! i = p_keys p !! i)
    as (?&?&?&?&Hkept).
  2: { constructor; try done; intros i; [by right|]. destruct (Hkept i); auto. }
  unfold GenerateKem, untouched in HR.
  destruct (if decide (length bpk = 32) then _ else _) as [al'|] eqn:Hdec; [|destruct HR as (->&->&->); split_and!; by auto].
  case_decide; [|destruct HR as (->&->&->); split_and!; try done; [by destruct (kem al' =? 1)%Z|by auto]].
  destruct HR as [([->|[-> _]]&->&->)|(r&kpk&Hcr&Hs&Hkp&->&HR)]; [by split_and!; auto..|].
  assert (∀ i, kps_makes c p i ∨ <[id (meta r):=r]> (p_keys p) !! i = p_keys p !! i).
  { intros i. destruct (decide (id (meta r) = i)) as [<-|]; [left; by destruct Hcr as (?&?&?&?&_)|right; by apply lookup_insert_ne]. }
  assert (keys_wf kem_record_wf (<[id (meta r):=r]> (p_keys p))) as Hk'.
  { apply keys_wf_insert; [|done]. split; [by rewrite Hs|].
    eapply created_wf_kem; [| |exact Hcr]; [unfold Duration_from_secs, nanos_per_sec; lia|].
    unfold PublicKey_wf. simpl. by destruct (decide (length bpk = 32)). }
  case_decide; destruct HR as [-> ->]; [|by split_and!]. split_and!; [done..| |done|done].
  apply frame_write; [apply frame_write; [done|]|].
  - exists 16%N. split; [left|by rewrite lenN_uuid].
  - exists kl. split; [right; left|]. rewrite (PublicKey_wf_lenN kpk); [lia|by eapply is_key_pair_wf].
Qed.

Lemma destroy_returned u p :
  let c := DestroyKemKeyCall u in
  registry_ok p → kps_malformed c = false → kps_buffers c (p_mem p) →
  ∃ st z p', kps_run c p = (Ok z, p') ∧ returned c p st z p'.
Proof.
  intros c (Hp&Hk&_) Hm Hu. cbn in Hu. destruct (valid_uuid _ _ Hu) as [i Hi].
  edestruct returns_run as (st&p'&Hr&HR&_&Ht); [by apply (destroy_kem_key_refines u p i)|].
  destruct HR as (Hk'&Hm'&Hst).
  exists st, (Status_as_i32 st), p'. split; [done|].
  constructor; [by destruct (p_keys p !! i); subst st|done|done|rewrite Hk'; by apply keys_wf_delete|by rewrite Hm'|done|..];
    intros j; right; rewrite Hk'.
  - intros [_ Hj]. assert (j = i) as -> by (by eapply read_uuid_inj). apply lookup_delete_eq.
  - destruct (decide (i = j)) as [<-|]; [left|right; by apply lookup_delete_ne].
    split; [exact (valid_nonnull _ _ _ Hu)|apply points_to_uuid, Hi].
Qed.

Lemma decap_and_seal_returned u e el a al oe oel oc ocl p :
  let c := DecapAndSealCall u e el a al oe oel oc ocl in
  registry_ok p → kps_malformed c = false → kps_buffers c (p_mem p) →
  ∃ st z p', kps_run c p = (Ok z, p') ∧ returned c p st z p'.
Proof.
  intros c Hok Hm (Hu&He&Ha&Hoe&Hoc). cbn in Hm. bool_props. pose proof Hok as (Hp&Hk&_).
  destruct (valid_uuid _ _ Hu) as [i Hi], (valid_points_to _ _ _ He) as (enc&Henc&Hel), (valid_opt _ _ _ Ha) as [aad Haad].
  edestruct returns_run as (st&p'&Hr&HR&_&Ht);
    [by apply (decap_and_seal_refines u e el a al oe oel oc ocl p i enc aad); auto using keys_record_wf|].
  destruct HR as [Hk' HR]. exists st, (Status_as_i32 st), p'. split; [done|].
  assert (st ≠ InternalError ∧ frame (kps_outputs c (p_mem p)) (p_mem p) (p_mem p') ∧
          (st ≠ Success → p_mem p' = p_mem p)) as (?&?&?); [|apply returned_same_keys; try done; by intros ? []].
  destruct (live_key p i) as [r|] eqn:Hlive; [|by destruct HR as [-> ->]].
  apply live_key_Some in Hlive as [Hr' _]. destruct (keys_ok _ Hok _ _ Hr') as [Hkem _].
  destruct (spec (meta r)) as [? ? bpk|]; [|done].
  destruct (if decide (length enc = 32) then _ else _) as [ss|]; [|by destruct HR as [-> ->]].
  destruct HR as [[-> ->]|(enc'&ct'&_&_&_&HR)]; [done|].
  case_decide as Hd; destruct HR as [-> ->]; [|done]. destruct Hd as [-> ->]. split_and!; [done| |done].
  apply frame_write; [apply frame_write; [done|]|].
  - exists (lenN enc'). split; [left|done].
  - exists (lenN ct'). split; [right; left|done].
Qed.

Lemma get_kem_key_returned u k kl b bl a al r p :
  let c := GetKemKeyCall u k kl b bl a al r in
  registry_ok p → kps_malformed c = false → kps_buffers c (p_mem p) →
  ∃ st z p', kps_run c p = (Ok z, p') ∧ returned c p st z p'.
Proof.
  intros c Hok Hm (Hu&Hkb&Hb&Hrem&Hal&n&Hn&Hlt&Ha). cbn in Hm. bool_props. pose proof Hok as (Hp&Hk&_).
  destruct (valid_uuid _ _ Hu) as [i Hi].
  edestruct returns_run as (st&p'&Hr&HR&_&Ht);
    [by apply (get_kem_key_refines u k kl b bl a al r n p i)|].
  destruct HR as [Hk' HR]. exists st, (Status_as_i32 st), p'. split; [done|].
  assert (st ≠ InternalError ∧ frame (kps_outputs c (p_mem p)) (p_mem p) (p_mem p') ∧
          (st ≠ Success → p_mem p' = p_mem p)) as (?&?&?); [|apply returned_same_keys; try done; by intros ? []].
  destruct (live_key p i) as [rec|] eqn:Hlive; [|by destruct HR as [-> ->]].
  apply live_key_Some in Hlive as [Hr' _]. destruct (keys_ok _ Hok _ _ Hr') as [Hkem _].
  destruct (spec (meta rec)) as [algo kpk bpk|]; [|done].
  case_decide as Hd; destruct HR as [-> ->]; [|done]. destruct Hd as (->&->&Hlen). split_and!; [done| |done].
  cbn [kps_outputs c]. rewrite Hn. cbn [fmap option_fmap option_map default].
  rewrite le_value_le_bytes by done.
  repeat (apply frame_write; [|eexists; split; [repeat first [left; reflexivity|right]|]]); try done; by rewrite lenN_le_bytes.
Qed.

Lemma enumerate_returned o n off h p :
  let c := EnumerateKemKeysCall o n off h in
  registry_ok p → kps_malformed c = false → kps_buffers c (p_mem p) →
  ∃ st z p', kps_run c p = (Ok z, p') ∧ returned c p st z p'.
Proof.
  intros c Hok Hm (Ha&Ho&Hoff&Hh). pose proof Hok as (Hp&Hk&Hs).
  exists Success. eexists _, _. split.
  - cbn [kps_run c]. rewrite (enumerate_kem_keys_run o n off h p) by auto using keys_ok. reflexivity.
  - destruct (ticks_fields (S (length (page (proc_now p) (p_keys p) off n))) p) as (Hk1&_&Ht1&_).
    apply returned_same_keys; cbn [p_keys p_tel p_mem set_mem]; [done..| |done|by intros ? []].
    apply frame_flag; [apply frame_write; [done|]|].
    + eexists. split; [left|]. rewrite (lenN_entries_bytes _ KpsKeyInfo_size).
      * pose proof (page_length (proc_now p) (p_keys p) off n). unfold KpsKeyInfo_size. lia.
      * intros md now (j&rec&Hrec&->&_)%elem_of_page. apply length_kem_entry, kem_record_meta_wf.
        by apply (keys_ok _ Hok _ _ Hrec).
    + intros q ->. right. left.
Qed.

Lemma steps_generate a al b bl e u k kl :
  Steps call_rel (key_manager_generate_kem_keypair a al b bl e u k kl).
Proof.
  unfold key_manager_generate_kem_keypair, generate_kem_keypair_internal. steps_handler.
Qed.

Lemma steps_destroy u : Steps call_rel (key_manager_destroy_kem_key u).
Proof. unfold key_manager_destroy_kem_key. steps_handler. Qed.

Lemma steps_decap_and_seal u e el a al oe oel oc ocl :
  Steps call_rel (key_manager_decap_and_seal u e el a al oe oel oc ocl).
Proof.
  unfold key_manager_decap_and_seal, decap_and_seal_internal. steps_handler.
Qed.

Lemma steps_get_kem_key u k kl b bl a al r : Steps call_rel (key_manager_get_kem_key u k kl b bl a al r).
Proof. unfold key_manager_get_kem_key, get_kem_key_internal. steps_handler. Qed.

Lemma steps_enumerate_kem_loop entries i metas :
  Steps call_rel (enumerate_kem_loop entries i metas).
Proof.
  revert i. induction metas as [|md metas IH]; intros i; cbn [enumerate_kem_loop];
    unfold enumerate_kem_entry, call_rel; steps_body.
Qed.

Lemma steps_enumerate o n off h : Steps call_rel (key_manager_enumerate_kem_keys o n off h).
Proof. unfold key_manager_enumerate_kem_keys, enumerate_kem_keys_internal.
  pose proof steps_enumerate_kem_loop. unfold call_rel in *. steps_handler.
Qed.

#[export] Instance Kps_laws : ServiceLaws.
Proof.
  split.
  - intros c p Hok Hc. destruct (kps_malformed c) eqn:Hm; [by apply kps_malformed_returned|].
    destruct Hc as [Hc|Hb]; [simpl in *; congruence|].
    destruct c; [by apply generate_returned|by apply destroy_returned|by apply enumerate_returned|
      by apply decap_and_seal_returned|by apply get_kem_key_returned].
  - intros []; cbn [service_run Kps kps_run];
      [apply steps_status_code, steps_generate|apply steps_status_code, steps_destroy|apply steps_enumerate|
       apply steps_status_code, steps_decap_and_seal|apply steps_status_code, steps_get_kem_key].
Qed.
End laws.
