(* ===== verification/WsSpec.v ===== *)
(** * The workload service against its specification

    For each entry point of WsCore.v an abstract specification (a relation
    between the process before, the status, and the registry and memory after)
    and the proof that the code refines it on every input its safety contract
    allows. *)

From S2P Require Import Prelude Effects RustStd Proto Platform SecretBox ProtectedMem X25519 Crypto.
From S2P Require Import Telemetry KeyTypes Process Registry Boundary WsCore.

Section spec.
Context `{Platform}.

(** [key_manager_generate_binding_keypair]: the key is stored before the size
    of the caller's buffer is looked at. *)
Definition GenerateBinding (algo_bytes : bytes) (expiry_secs out_uuid out_pubkey out_pubkey_len : N)
    (p : Proc) (st : Status) (k : gmap Uuid KeyRecord) (m : Memory) : Prop :=
  match HpkeAlgorithm_decode algo_bytes with
  | None => st = InvalidArgument ∧ untouched p k m
  | Some algo =>
      if decide (algo = x25519_suite) then
        ((st = CryptoError ∨
          st = UnsupportedAlgorithm ∧
          (i64_max < (proc_now p + Duration_from_secs expiry_secs) / nanos_per_sec)%Z) ∧
         untouched p k m) ∨
        ∃ r pubkey,
          created Binding (Duration_from_secs expiry_secs) (p_sys p) r ∧
          spec (meta r) = Binding x25519_suite pubkey ∧
          is_key_pair pubkey (mmap (private_key r)) ∧
          k = <[id (meta r) := r]> (p_keys p) ∧
          (if decide (out_pubkey_len = 32%N) then
             st = Success ∧
             m = write_bytes (write_bytes (p_mem p) out_uuid (Uuid_as_bytes (id (meta r))))
                   out_pubkey (PublicKey_as_bytes pubkey)
           else st = InvalidArgument ∧ m = p_mem p)
      else st = UnsupportedAlgorithm ∧ untouched p k m
  end.

(** [key_manager_open] *)
Definition OpenedFor (i : Uuid) (enc ciphertext aad : bytes) (out_pt out_pt_len : N)
    (p : Proc) (st : Status) (k : gmap Uuid KeyRecord) (m : Memory) : Prop :=
  k = p_keys p ∧
  match live_key p i with
  | Some r =>
      match spec (meta r) with
      | Binding _ _ =>
          match Opened (mmap (private_key r)) enc ciphertext aad with
          | None => st = DecryptionFailure ∧ m = p_mem p
          | Some pt =>
              if decide (out_pt_len = lenN pt)
              then st = Success ∧ m = write_bytes (p_mem p) out_pt pt
              else st = InvalidArgument ∧ m = p_mem p
          end
      | KemWithBindingPub _ _ _ => st = InternalError ∧ m = p_mem p
      end
  | None => st = NotFound ∧ m = p_mem p
  end.

(** [key_manager_get_binding_key] *)
Definition GotBinding (i : Uuid) (out_pk out_pk_len out_algo out_algo_len algo_len : N)
    (p : Proc) (st : Status) (k : gmap Uuid KeyRecord) (m : Memory) : Prop :=
  k = p_keys p ∧
  match live_key p i with
  | Some r =>
      match spec (meta r) with
      | Binding algo pubkey =>
          if decide (out_pk_len = lenN (PublicKey_as_bytes pubkey) ∧
                     (lenN (HpkeAlgorithm_encode_to_vec algo) ≤ algo_len)%N)
          then
            let algo_bytes := HpkeAlgorithm_encode_to_vec algo in
            st = Success ∧
            m = write_bytes (write_bytes (write_bytes (p_mem p)
                  out_pk (PublicKey_as_bytes pubkey))
                  out_algo algo_bytes)
                  out_algo_len (le_bytes 8 (lenN algo_bytes))
          else st = InvalidArgument ∧ m = p_mem p
      | KemWithBindingPub _ _ _ => st = InternalError ∧ m = p_mem p
      end
  | None => st = NotFound ∧ m = p_mem p
  end.

(** [key_manager_destroy_all_binding_keys] *)
Definition DestroyAll (p : Proc) (st : Status) (k : gmap Uuid KeyRecord) (m : Memory) : Prop :=
  st = Success ∧ k = ∅ ∧ m = p_mem p.

(** The entry of a listed key, [now] being the clock's reading for it. *)
Definition binding_entry (md : KeyMetadata) (now : Z) : WsKeyInfo :=
  match spec md with
  | Binding algo pubkey =>
      let pad n (b : bytes) := b ++ drop (length b) (zeros (N.to_nat n)) in
      let algo_bytes := HpkeAlgorithm_encode_to_vec algo in
      let pk := PublicKey_as_bytes pubkey in
      mkWsKeyInfo (Uuid_as_bytes (id md)) (pad MAX_ALGORITHM_LEN algo_bytes) (lenN algo_bytes)
        (pad MAX_PUBLIC_KEY_LEN pk) (lenN pk)
        (Duration_as_secs (Instant_saturating_duration_since (delete_after md) now))
  | KemWithBindingPub _ _ _ => WsKeyInfo_default
  end.

(** [key_manager_enumerate_binding_keys] *)
Definition enumerated_binding (out_entries max_entries offset : N) (out_has_more : option N) (p : Proc)
    : Outcome Empty_set Z * Proc :=
  let metas := page (proc_now p) (p_keys p) offset max_entries in
  let entries := entries_bytes (λ md now, WsKeyInfo_bytes (binding_entry md now))
                   (S (clock_reads (p_sys p))) metas in
  (Ok (as_i32 (lenN metas)),
   set_mem (write_flag out_has_more (page_has_more (proc_now p) (p_keys p) offset max_entries)
              (write_bytes (p_mem p) out_entries entries))
     (ticks (S (length metas)) p)).

(** What a stored binding key is. *)
Definition binding_record_wf (r : KeyRecord) : Prop := is_kem_spec (spec (meta r)) = false ∧ record_wf r.

Definition binding_meta_wf (md : KeyMetadata) : Prop :=
  ∃ pk, spec md = Binding x25519_suite pk ∧ PublicKey_wf pk.
End spec.

(** ** Refinement *)

Section refinement.
Context `{PlatformLaws}.
Implicit Types (p : Proc).

Lemma create_binding_key_cases algo expiry s :
  wp (create_binding_key algo expiry)
    (λ o _, if decide (algo = x25519_suite) then
       match o with
       | Ok r => created Binding expiry s r
       | Err e => e = CryptoError ∨ e = UnsupportedAlgorithm ∧
                  (i64_max < (clock (clock_reads s) + expiry) / nanos_per_sec)%Z
       | Panic | Ub => False
       end
     else o = Err UnsupportedAlgorithm) s.
Proof.
  unfold wp, create_binding_key. case_decide as Halgo.
  - subst. apply create_key_internal_cases.
  - by rewrite create_key_internal_unsupported.
Qed.

Lemma generate_binding_keypair_refines algo_ptr algo_len expiry_secs out_uuid out_pubkey
    out_pubkey_len p algo_bytes :
  p_poisoned p = false →
  points_to (p_mem p) algo_ptr algo_bytes → algo_len = lenN algo_bytes → algo_len ≠ 0%N →
  valid_buffer (p_mem p) out_uuid 16 → valid_buffer (p_mem p) out_pubkey out_pubkey_len →
  wp (key_manager_generate_binding_keypair algo_ptr algo_len expiry_secs out_uuid out_pubkey out_pubkey_len)
    (returns GenerateBindingKeypair
       (GenerateBinding algo_bytes expiry_secs out_uuid out_pubkey out_pubkey_len p) p) p.
Proof.
  intros Hp Halgo -> Hal Hu Hk. apply wp_ffi_call.
  rewrite (points_to_nonnull _ _ _ Halgo), (valid_nonnull _ _ _ Hu), (valid_nonnull _ _ _ Hk).
  apply N.eqb_neq in Hal as ->. cbn [orb].
  wp_read. wp_out. wp_out. unfold GenerateBinding.
  apply wp_bind. destruct (HpkeAlgorithm_decode algo_bytes) as [algo|]; cbn [ok_or].
  2: { by apply body_untouched. }
  apply wp_ret. cbn [chain]. apply wp_bind, wp_bind, wp_in_sys_wp.
  eapply wp_mono; [apply create_binding_key_cases|]. intros o s' Ho. cbn beta in Ho.
  case_decide as Hs.
  2: { subst o. by apply body_untouched. }
  subst algo. destruct o as [r|e| |]; cbn [chain]; [| |done..].
  2: { destruct Ho as [->|[-> ?]]; apply body_untouched; try done; left; split; auto; done. }
  pose proof Ho as (pk&Hspec&Hkp&_). rewrite Hspec.
  assert (lenN (PublicKey_as_bytes pk) = 32%N) as Hlen by (by eapply PublicKey_wf_lenN, is_key_pair_wf).
  apply wp_bind, wp_ret. cbn [chain].
  wp_next @wp_add_key; [done|]. intros p' Hk' Hm' Ht' Hp'. simpl in Hk', Hm', Ht'. apply wp_ret. cbn [chain].
  rewrite Hlen. destruct (N.eqb_spec out_pubkey_len 32) as [->|Hne]; cbn [negb].
  - wp_next @wp_copy_from_slice; [by rewrite lenN_uuid|].
    apply wp_copy_from_slice; [done|]. split_and!; [done|done|]. right. exists r, pk.
    rewrite decide_True by done. cbn. rewrite Hm'. by split_and!.
  - apply body_untouched; [done..|]. right. exists r, pk. rewrite decide_False by done. by split_and!.
Qed.

Lemma destroy_binding_key_refines uuid_ptr p i :
  p_poisoned p = false → points_to (p_mem p) uuid_ptr (Uuid_as_bytes i) →
  wp (key_manager_destroy_binding_key uuid_ptr) (returns DestroyBindingKey (Destroy i p) p) p.
Proof.
  intros Hp Hi. apply wp_ffi_call. rewrite (points_to_nonnull _ _ _ Hi).
  wp_next @wp_from_raw_parts; [done|by rewrite lenN_uuid|].
  rewrite lenN_uuid. change (16 =? 16)%N with true. cbn [negb].
  apply wp_bind. change (map_err _ (ret ?b)) with (@ret Proc Status bytes b). apply wp_ret. cbn [chain].
  rewrite Uuid_from_bytes_as. wp_next @wp_remove_key; [done|].
  apply wp_bind. unfold Destroy. destruct (p_keys p !! i) as [r|]; [|by apply body_untouched].
  apply wp_ret. cbn [chain]. apply wp_bind. by split_and!.
Qed.

Lemma destroy_all_binding_keys_refines p :
  p_poisoned p = false →
  wp key_manager_destroy_all_binding_keys (returns DestroyAllBindingKeys (DestroyAll p) p) p.
Proof.
  intros Hp. apply wp_ffi_call. apply wp_bind. eapply wp_eq; [by apply remove_all_keys_run|]. cbn [chain].
  apply wp_ret. destruct (drop_records_fields (map_values (p_keys p)) (set_keys ∅ p)) as (Hk&Hq&Hm&Ht&_).
  by split_and!.
Qed.

Lemma open_refines uuid_ptr enc_ptr enc_len ct_ptr ct_len aad_ptr aad_len out_pt out_pt_len p i enc ct aad :
  p_poisoned p = false → map_Forall (λ _, record_wf) (p_keys p) →
  points_to (p_mem p) uuid_ptr (Uuid_as_bytes i) →
  points_to (p_mem p) enc_ptr enc → enc_len = lenN enc →
  points_to (p_mem p) ct_ptr ct → ct_len = lenN ct →
  opt_points_to (p_mem p) aad_ptr aad_len aad →
  valid_buffer (p_mem p) out_pt out_pt_len → out_pt_len ≠ 0%N →
  wp (key_manager_open uuid_ptr enc_ptr enc_len ct_ptr ct_len aad_ptr aad_len out_pt out_pt_len)
    (returns Open (OpenedFor i enc ct aad out_pt out_pt_len p) p) p.
Proof.
  intros Hp Hwf Hi Henc -> Hct -> Haad Ho Hol. apply wp_ffi_call.
  rewrite (points_to_nonnull _ _ _ Hi), (points_to_nonnull _ _ _ Henc), (points_to_nonnull _ _ _ Hct),
    (valid_nonnull _ _ _ Ho).
  apply N.eqb_neq in Hol as ->. cbn [orb].
  wp_next @wp_from_raw_parts; [done|by rewrite lenN_uuid|]. wp_read. wp_read.
  wp_next @wp_opt_slice; [done|]. wp_out.
  unfold uuid_of_slice. rewrite Uuid_from_as. apply wp_bind, wp_Some. cbn [chain].
  unfold open_internal. apply wp_bind. wp_next @wp_get_key; [done|]. intros p1 Hk1 Hm1 Ht1 Hq1 _.
  unfold OpenedFor.
  apply wp_bind. destruct (live_key p i) as [r|] eqn:Hr; [|by apply body_untouched].
  apply wp_Some. cbn [chain].
  destruct (spec (meta r)) as [|algo pk] eqn:Hspec; [by apply body_untouched|].
  apply live_key_Some in Hr as [Hr _]. destruct (Hwf _ _ Hr) as [Hwfr _].
  rewrite Hspec in Hwfr. destruct Hwfr as (->&[Hsk _]).
  wp_next @wp_in_sys; [apply outcome_get_private_key|]. intros s1. apply wp_scoped_secret.
  eapply wp_in_sys; [apply hpke_open_outcome|]. intros s2.
  destruct (Opened _ _ _ _) as [pt|]; cbn [chain]; [|by apply body_untouched].
  apply wp_scoped_secret. cbn [SecretBox_as_slice].
  destruct (N.eqb_spec out_pt_len (lenN pt)) as [->|Hne]; cbn [negb].
  - apply wp_copy_from_slice; [done|]. split_and!; [done..|]. rewrite decide_True by done.
    cbn. by rewrite Hm1.
  - apply body_untouched; [done..|]. split; [done|]. by rewrite decide_False.
Qed.

Lemma get_binding_key_refines uuid_ptr out_pk out_pk_len out_algo out_algo_len algo_len p i :
  p_poisoned p = false →
  points_to (p_mem p) uuid_ptr (Uuid_as_bytes i) →
  valid_buffer (p_mem p) out_pk out_pk_len → out_pk_len ≠ 0%N →
  valid_u64 (p_mem p) out_algo_len →
  read_bytes (p_mem p) out_algo_len 8 = Some (le_bytes 8 algo_len) → (algo_len < 2 ^ 64)%N →
  valid_buffer (p_mem p) out_algo algo_len →
  wp (key_manager_get_binding_key uuid_ptr out_pk out_pk_len out_algo out_algo_len)
    (returns GetBindingKey (GotBinding i out_pk out_pk_len out_algo out_algo_len algo_len p) p) p.
Proof.
  intros Hp Hi Hok Hokl Hal Halr Halb Hoa. apply wp_ffi_call.
  rewrite (points_to_nonnull _ _ _ Hi), (valid_nonnull _ _ _ Hok),
    (valid_nonnull _ _ _ Hoa), (valid_u64_nonnull _ _ Hal).
  apply N.eqb_neq in Hokl as ->. cbn [orb].
  wp_next @wp_from_raw_parts; [done|by rewrite lenN_uuid|]. wp_out. wp_next @wp_read_u64; [done..|]. wp_out.
  unfold uuid_of_slice. rewrite Uuid_from_as. apply wp_bind, wp_Some. cbn [chain].
  unfold get_binding_key_internal. apply wp_bind. wp_next @wp_get_key; [done|]. intros p1 Hk1 Hm1 Ht1 Hq1 Htick.
  unfold GotBinding.
  apply wp_bind. destruct (live_key p i) as [r|] eqn:Hr; [|by apply body_untouched].
  apply wp_Some. cbn [chain]. rewrite Htick in * by eauto.
  destruct (spec (meta r)) as [|algo pk] eqn:Hspec; [by apply body_untouched|].
  apply wp_ret. cbn [chain ms_len].
  assert (negb (out_pk_len =? lenN (PublicKey_as_bytes pk))%N
          || (algo_len <? lenN (HpkeAlgorithm_encode_to_vec algo))%N =
          negb (bool_decide (out_pk_len = lenN (PublicKey_as_bytes pk) ∧
                     (lenN (HpkeAlgorithm_encode_to_vec algo) ≤ algo_len)%N))) as ->.
  { destruct (N.eqb_spec out_pk_len (lenN (PublicKey_as_bytes pk))),
      (N.ltb_spec algo_len (lenN (HpkeAlgorithm_encode_to_vec algo)));
      case_bool_decide; simpl; lia || tauto. }
  case_bool_decide as Hd; cbn [negb].
  2: { apply body_untouched; [done..|]. split; [done|]. by rewrite decide_False. }
  destruct (Hd) as (->&Hal'). wp_copy. wp_next @wp_slice_to; [done|]. wp_copy.
  apply wp_write_u64; [cbn; auto using valid_u64_write|]. split_and!; [done..|]. by rewrite decide_True.
Qed.

Lemma binding_record_meta_wf r : binding_record_wf r → binding_meta_wf (meta r).
Proof.
  intros [Hk [Hs _]]. unfold binding_meta_wf. destruct (spec (meta r)) as [|algo pk]; [done|].
  destruct Hs as (->&Hkp). exists pk. split; [done|by eapply is_key_pair_wf].
Qed.

Lemma length_binding_entry md now :
  binding_meta_wf md → lenN (WsKeyInfo_bytes (binding_entry md now)) = WsKeyInfo_size.
Proof.
  intros (pk&Hs&Hk). unfold binding_entry. rewrite Hs. unfold WsKeyInfo_bytes, WsKeyInfo_size, lenN.
  pose proof (length_encode x25519_suite x25519_suite_wf) as He. unfold PublicKey_wf in *.
  cbn [ws_uuid ws_algorithm ws_algorithm_len ws_pub_key ws_pub_key_len ws_remaining_lifespan_secs].
  rewrite !length_app, !length_drop, !length_le_bytes, !length_zeros, Uuid_as_bytes_length, Hk.
  unfold MAX_ALGORITHM_LEN, MAX_PUBLIC_KEY_LEN. lia.
Qed.

Lemma enumerate_binding_entry_run entries i md p :
  binding_meta_wf md →
  enumerate_binding_entry entries i md p =
    (Ok tt, set_mem (write_bytes (p_mem p) (ms_ptr entries + i * WsKeyInfo_size)
                       (WsKeyInfo_bytes (binding_entry md (proc_now p)))) (ticked p)).
Proof.
  intros (pk&Hs&Hk). unfold enumerate_binding_entry, binding_entry. rewrite Hs.
  pose proof (length_encode x25519_suite x25519_suite_wf) as He.
  rewrite (PublicKey_wf_lenN _ Hk).
  assert ((MAX_ALGORITHM_LEN <? lenN (HpkeAlgorithm_encode_to_vec x25519_suite))%N = false) as ->
    by (apply N.ltb_ge; unfold lenN, MAX_ALGORITHM_LEN; lia).
  change (MAX_PUBLIC_KEY_LEN <? 32)%N with false. cbn [orb].
  rewrite (bind_ok _ _ p (proc_now p) (ticked p)) by done.
  unfold PublicKey_wf in *.
  rewrite bind_array_copy by (by rewrite Uuid_as_bytes_length).
  rewrite !bind_array_copy_prefix
    by (cbn [ws_algorithm ws_pub_key WsKeyInfo_default]; rewrite length_zeros;
        unfold MAX_ALGORITHM_LEN, MAX_PUBLIC_KEY_LEN; lia). done.
Qed.

Lemma enumerate_binding_loop_run entries i metas p :
  Forall binding_meta_wf metas → (i + lenN metas ≤ ms_len entries)%N →
  enumerate_binding_loop entries i metas p =
    (Ok tt, set_mem (write_bytes (p_mem p) (ms_ptr entries + i * WsKeyInfo_size)
              (entries_bytes (λ md now, WsKeyInfo_bytes (binding_entry md now)) (clock_reads (p_sys p)) metas))
            (ticks (length metas) p)).
Proof.
  intros Hwf. revert i p. induction Hwf as [|md metas Hmd _ IH]; intros i p Hi.
  { cbn. by destruct p. }
  unfold lenN in Hi. cbn [length] in Hi. cbn [enumerate_binding_loop].
  rewrite (proj2 (N.ltb_lt _ _)) by lia.
  rewrite (bind_ok _ _ _ _ _ (enumerate_binding_entry_run _ _ _ _ Hmd)).
  rewrite IH by (unfold lenN; lia). rewrite ticks_set_mem, ticks_S. cbn [length entries_bytes].
  replace (ms_ptr entries + (i + 1) * WsKeyInfo_size)%N
    with (ms_ptr entries + i * WsKeyInfo_size + WsKeyInfo_size)%N by (unfold WsKeyInfo_size; lia).
  by rewrite <- write_bytes_app, (length_binding_entry _ _ Hmd).
Qed.

Lemma enumerate_binding_keys_run out_entries max_entries offset out_has_more p :
  p_poisoned p = false → map_Forall (λ _, binding_record_wf) (p_keys p) →
  (N.of_nat (size (p_keys p)) ≤ usize_max)%N → (offset ≤ usize_max)%N →
  aligned8 out_entries = true → valid_buffer (p_mem p) out_entries (max_entries * WsKeyInfo_size) →
  (∀ a, out_has_more = Some a → is_Some (p_mem p !! a)) →
  key_manager_enumerate_binding_keys out_entries max_entries offset out_has_more p =
    enumerated_binding out_entries max_entries offset out_has_more p.
Proof.
  intros Hp Hwf Hsize Hoff Ha Hv Hm.
  assert (Forall binding_meta_wf (page (proc_now p) (p_keys p) offset max_entries)) as Hmetas.
  { apply list.Forall_forall. intros md Hin. apply elem_of_page in Hin as (i&r&Hr&->&_).
    apply binding_record_meta_wf, (Hwf _ _ Hr). }
  pose proof (page_length (proc_now p) (p_keys p) offset max_entries) as Hlen.
  apply ffi_call_i32_ok. rewrite (valid_nonnull _ _ _ Hv).
  apply (enumerate_run enumerate_binding_loop (λ md now, WsKeyInfo_bytes (binding_entry md now))
    WsKeyInfo_size out_entries max_entries offset out_has_more p Hp Hsize Hoff Ha Hv Hm).
  cbv zeta. by rewrite enumerate_binding_loop_run.
Qed.
End refinement.
