(* ===== verification/Layout.v ===== *)
(** * The C layout of a listing: what the host reads back

    The host declares the entries of a listing as C structs (include/*.h of both
    cores) and reads their fields at the offsets the C ABI gives them.  This file
    holds those readers and shows that each entry an enumeration wrote is read
    back field by field. *)

From S2P Require Import Prelude Effects RustStd Proto Platform SecretBox ProtectedMem X25519 Crypto.
From S2P Require Import Telemetry KeyTypes Process Registry Boundary KpsCore KpsSpec WsCore WsSpec.

(** ** Reading parts of what was written *)

Lemma read_bytes_app m p a b :
  read_bytes m p (length (a ++ b)) = Some (a ++ b) ↔
  read_bytes m p (length a) = Some a ∧ read_bytes m (p + lenN a) (length b) = Some b.
Proof.
  rewrite !read_bytes_Some, length_app. unfold lenN. split.
  - intros [_ Hi]. split_and!; [done| |done|].
    + intros i Hlt. rewrite Hi by lia. by apply lookup_app_l.
    + intros i Hlt. specialize (Hi (length a + i) ltac:(lia)).
      rewrite lookup_app_r in Hi by lia. replace (length a + i - length a) with i in Hi by lia.
      rewrite <- Hi. f_equal. lia.
  - intros [[_ Ha] [_ Hb]]. split; [done|]. intros i Hlt.
    destruct (decide (i < length a)) as [Hin|Hout].
    + rewrite Ha by done. by rewrite lookup_app_l.
    + rewrite lookup_app_r by lia. rewrite <- Hb by lia. f_equal. lia.
Qed.

(** The same, with the length known by another name. *)
Lemma read_field m p n a b :
  length a = n → read_bytes m p (length (a ++ b)) = Some (a ++ b) →
  read_bytes m p n = Some a ∧ read_bytes m (p + N.of_nat n) (length b) = Some b.
Proof. intros <- Hr. by apply read_bytes_app in Hr. Qed.

Lemma read_write_flag m q b p n :
  (∀ a, q = Some a → ¬ (p ≤ a < p + N.of_nat n)%N) →
  read_bytes (write_flag q b m) p n = read_bytes m p n.
Proof.
  intros Hq. destruct q as [a|]; [|done]. simpl. apply read_bytes_ext. intros i Hi.
  specialize (Hq a eq_refl). rewrite lookup_insert_ne by lia. done.
Qed.

(** [size_t] and [uint64_t] fields, little endian. *)
Definition read_u64_field (m : Memory) (p : N) : option N := le_value <$> read_bytes m p 8.

Lemma read_u64_field_le m p v :
  (v < 2 ^ 64)%N → read_bytes m p 8 = Some (le_bytes 8 v) → read_u64_field m p = Some v.
Proof. intros Hv Hr. unfold read_u64_field. rewrite Hr. cbn [fmap option_fmap option_map]. f_equal. by apply le_value_le_bytes. Qed.

Section layout.
Context `{PlatformLaws}.

(** ** The readers of the host *)

(** [typedef struct { ... } KpsKeyInfo] *)
Definition read_KpsKeyInfo (m : Memory) (p : N) : option KpsKeyInfo :=
  uuid ← read_bytes m p 16;
  algorithm ← read_bytes m (p + 16) 128;
  algorithm_len ← read_u64_field m (p + 144);
  pub_key ← read_bytes m (p + 152) 2048;
  pub_key_len ← read_u64_field m (p + 2200);
  binding_pub_key ← read_bytes m (p + 2208) 2048;
  binding_pub_key_len ← read_u64_field m (p + 4256);
  remaining_lifespan_secs ← read_u64_field m (p + 4264);
  Some (mkKpsKeyInfo uuid algorithm algorithm_len pub_key pub_key_len binding_pub_key
          binding_pub_key_len remaining_lifespan_secs).

(** [typedef struct { ... } WsKeyInfo] *)
Definition read_WsKeyInfo (m : Memory) (p : N) : option WsKeyInfo :=
  uuid ← read_bytes m p 16;
  algorithm ← read_bytes m (p + 16) 128;
  algorithm_len ← read_u64_field m (p + 144);
  pub_key ← read_bytes m (p + 152) 2048;
  pub_key_len ← read_u64_field m (p + 2200);
  remaining_lifespan_secs ← read_u64_field m (p + 2208);
  Some (mkWsKeyInfo uuid algorithm algorithm_len pub_key pub_key_len remaining_lifespan_secs).

(** Entries whose fields have their declared sizes. *)
Definition KpsKeyInfo_wf (e : KpsKeyInfo) : Prop :=
  length (kps_uuid e) = 16 ∧ length (kps_algorithm e) = 128 ∧ length (kps_pub_key e) = 2048 ∧
  length (kps_binding_pub_key e) = 2048 ∧
  (kps_algorithm_len e < 2 ^ 64)%N ∧ (kps_pub_key_len e < 2 ^ 64)%N ∧
  (kps_binding_pub_key_len e < 2 ^ 64)%N ∧ (kps_remaining_lifespan_secs e < 2 ^ 64)%N.

Definition WsKeyInfo_wf (e : WsKeyInfo) : Prop :=
  length (ws_uuid e) = 16 ∧ length (ws_algorithm e) = 128 ∧ length (ws_pub_key e) = 2048 ∧
  (ws_algorithm_len e < 2 ^ 64)%N ∧ (ws_pub_key_len e < 2 ^ 64)%N ∧ (ws_remaining_lifespan_secs e < 2 ^ 64)%N.

(** Peel the field of [n] bytes off what [Hr] reads. *)
Ltac peel Hr n :=
  let Hf := fresh "Hf" in
  apply (read_field _ _ n) in Hr as [Hf Hr]; [|first [assumption|apply length_le_bytes]].
Ltac field_offsets := repeat match goal with
  | Hr : read_bytes ?m ?a ?n = Some _ |- context [read_bytes ?m ?b ?n] =>
      replace b with a by lia; rewrite Hr
  | Hr : read_bytes ?m ?a 8 = Some (le_bytes 8 ?v) |- context [read_u64_field ?m ?b] =>
      replace b with a by lia; rewrite (read_u64_field_le m a v) by assumption
  end.

Lemma read_KpsKeyInfo_bytes m p e :
  KpsKeyInfo_wf e → read_bytes m p (N.to_nat KpsKeyInfo_size) = Some (KpsKeyInfo_bytes e) →
  read_KpsKeyInfo m p = Some e.
Proof.
  intros (H1&H2&H3&H4&H5&H6&H7&H8) Hr.
  rewrite <- (length_read_bytes _ _ _ _ Hr) in Hr. unfold KpsKeyInfo_bytes in Hr.
  peel Hr 16. peel Hr 128. peel Hr 8. peel Hr 2048. peel Hr 8. peel Hr 2048. peel Hr 8.
  rewrite length_le_bytes in Hr.
  unfold read_KpsKeyInfo. field_offsets. by destruct e.
Qed.

Lemma read_WsKeyInfo_bytes m p e :
  WsKeyInfo_wf e → read_bytes m p (N.to_nat WsKeyInfo_size) = Some (WsKeyInfo_bytes e) →
  read_WsKeyInfo m p = Some e.
Proof.
  intros (H1&H2&H3&H4&H5&H6) Hr.
  rewrite <- (length_read_bytes _ _ _ _ Hr) in Hr. unfold WsKeyInfo_bytes in Hr.
  peel Hr 16. peel Hr 128. peel Hr 8. peel Hr 2048. peel Hr 8. rewrite length_le_bytes in Hr.
  unfold read_WsKeyInfo. field_offsets. by destruct e.
Qed.
End layout.

(** ** Entries in the caller's array *)

Section entries.
Context `{PlatformLaws}.

Lemma entries_bytes_app entry n l k :
  entries_bytes entry n (l ++ k) = entries_bytes entry n l ++ entries_bytes entry (n + length l) k.
Proof.
  revert n. induction l as [|md l IH]; intros n; simpl; [by rewrite Nat.add_0_r|].
  rewrite IH, <- app_assoc. do 2 f_equal. f_equal. lia.
Qed.

(** The [k]-th entry of an array written at [p]. *)
Lemma read_entry m p entry size n metas k md :
  (∀ md now, md ∈ metas → lenN (entry md now) = size) → metas !! k = Some md →
  read_bytes (write_bytes m p (entries_bytes entry n metas)) (p + N.of_nat k * size) (N.to_nat size) =
    Some (entry md (clock (n + k))).
Proof.
  intros Hsize Hk.
  assert (∃ l r, metas = l ++ md :: r ∧ length l = k) as (l&r&->&<-).
  { exists (take k metas), (drop (S k) metas). split; [by rewrite take_drop_middle|].
    apply lookup_lt_Some in Hk. rewrite length_take. lia. }
  rewrite entries_bytes_app. cbn [entries_bytes]. set (rest := entries_bytes entry _ r).
  pose proof (read_write_bytes_same m p
    (entries_bytes entry n l ++ entry md (clock (n + length l)) ++ rest)) as Hr.
  apply read_bytes_app in Hr as [_ Hr]. apply read_bytes_app in Hr as [Hr _].
  rewrite (lenN_entries_bytes _ size) in Hr by (intros md' now Hin; apply Hsize; apply elem_of_app; by left).
  assert (length (entry md (clock (n + length l))) = N.to_nat size) as Hlen.
  { rewrite <- (Hsize md (clock (n + length l))) by (apply elem_of_app; right; left). unfold lenN. lia. }
  by rewrite Hlen in Hr.
Qed.

Lemma take_pad n (b : bytes) :
  length b ≤ N.to_nat n → takeN (lenN b) (b ++ drop (length b) (zeros (N.to_nat n))) = b.
Proof. intros Hl. rewrite takeN_take. unfold lenN. by rewrite Nat2N.id, take_app_length. Qed.

(** The whole seconds left, as a [u64]. *)
Definition seconds_left (md : KeyMetadata) (now : Z) : N :=
  Z.to_N (Z.max 0 (delete_after md - now) / nanos_per_sec).

Lemma seconds_left_u64 md now :
  (0 ≤ now)%Z → (delete_after md / nanos_per_sec ≤ i64_max)%Z → (seconds_left md now < 2 ^ 64)%N.
Proof.
  intros Hn Hd. unfold seconds_left, nanos_per_sec, i64_max in *.
  assert (Z.max 0 (delete_after md - now) / 1000000000 ≤ 9223372036854775807)%Z as Hle.
  { destruct (Z.le_ge_cases 0 (delete_after md - now)) as [Hle|Hle].
    - rewrite Z.max_r by done. etrans; [|exact Hd]. apply Z.div_le_mono; lia.
    - by rewrite Z.max_l by done. }
  change (2 ^ 64)%N with 18446744073709551616%N. revert Hle. generalize (Z.max 0 (delete_after md - now) / 1000000000)%Z.
  lia.
Qed.

(** What an entry tells its reader about a key. *)
Definition KpsKeyInfo_shows (e : KpsKeyInfo) (md : KeyMetadata) (now : Z) : Prop :=
  ∃ kem_pubkey binding_pubkey, spec md = KemWithBindingPub x25519_suite kem_pubkey binding_pubkey ∧
    kps_uuid e = Uuid_as_bytes (id md) ∧
    HpkeAlgorithm_decode (takeN (kps_algorithm_len e) (kps_algorithm e)) = Some x25519_suite ∧
    takeN (kps_pub_key_len e) (kps_pub_key e) = PublicKey_as_bytes kem_pubkey ∧
    takeN (kps_binding_pub_key_len e) (kps_binding_pub_key e) = PublicKey_as_bytes binding_pubkey ∧
    kps_remaining_lifespan_secs e = seconds_left md now.

Definition WsKeyInfo_shows (e : WsKeyInfo) (md : KeyMetadata) (now : Z) : Prop :=
  ∃ pubkey, spec md = Binding x25519_suite pubkey ∧
    ws_uuid e = Uuid_as_bytes (id md) ∧
    HpkeAlgorithm_decode (takeN (ws_algorithm_len e) (ws_algorithm e)) = Some x25519_suite ∧
    takeN (ws_pub_key_len e) (ws_pub_key e) = PublicKey_as_bytes pubkey ∧
    ws_remaining_lifespan_secs e = seconds_left md now.

Lemma length_pad n (b : bytes) :
  length b ≤ N.to_nat n → length (b ++ drop (length b) (zeros (N.to_nat n))) = N.to_nat n.
Proof. intros Hl. rewrite length_app, length_drop, length_zeros. lia. Qed.

Lemma kem_entry_shows md now :
  kem_meta_wf md → (0 ≤ now)%Z → (delete_after md / nanos_per_sec ≤ i64_max)%Z →
  KpsKeyInfo_wf (kem_entry md now) ∧ KpsKeyInfo_shows (kem_entry md now) md now.
Proof.
  intros (kpk&bpk&Hs&Hk&Hb) Hn Hd. pose proof (length_encode x25519_suite x25519_suite_wf) as He.
  unfold PublicKey_wf in *. unfold KpsKeyInfo_wf, KpsKeyInfo_shows, kem_entry. rewrite Hs.
  cbn [kps_uuid kps_algorithm kps_algorithm_len kps_pub_key kps_pub_key_len kps_binding_pub_key
       kps_binding_pub_key_len kps_remaining_lifespan_secs].
  unfold MAX_ALGORITHM_LEN, MAX_PUBLIC_KEY_LEN. rewrite !length_pad, !Uuid_as_bytes_length by lia. split.
  - split_and!; try done; try (unfold lenN; lia). by apply seconds_left_u64.
  - exists kpk, bpk. rewrite !take_pad by lia. split_and!; try done. apply decode_encode, x25519_suite_wf.
Qed.

Lemma binding_entry_shows md now :
  binding_meta_wf md → (0 ≤ now)%Z → (delete_after md / nanos_per_sec ≤ i64_max)%Z →
  WsKeyInfo_wf (binding_entry md now) ∧ WsKeyInfo_shows (binding_entry md now) md now.
Proof.
  intros (pk&Hs&Hk) Hn Hd. pose proof (length_encode x25519_suite x25519_suite_wf) as He.
  unfold PublicKey_wf in *. unfold WsKeyInfo_wf, WsKeyInfo_shows, binding_entry. rewrite Hs.
  cbn [ws_uuid ws_algorithm ws_algorithm_len ws_pub_key ws_pub_key_len ws_remaining_lifespan_secs].
  unfold MAX_ALGORITHM_LEN, MAX_PUBLIC_KEY_LEN. rewrite !length_pad, !Uuid_as_bytes_length by lia. split.
  - split_and!; try done; try (unfold lenN; lia). by apply seconds_left_u64.
  - exists pk. rewrite !take_pad by lia. split_and!; try done. apply decode_encode, x25519_suite_wf.
Qed.
End entries.
