(* ===== verification/Ws.v ===== *)
(** * The workload service as a [Service]

    One call per entry point of workload_service/key_custody_core, its safety
    contract, and the laws of the interface. *)

From S2P Require Import Prelude Effects RustStd Proto Platform SecretBox ProtectedMem X25519 Crypto.
From S2P Require Import Telemetry KeyTypes Process Registry Reaper Boundary WsCore WsSpec Service.

(** ** Calls and contracts *)

Inductive WsCall :=
| GenerateBindingKeypairCall (algo_ptr algo_len expiry_secs out_uuid out_pubkey out_pubkey_len : N)
| DestroyBindingKeyCall (uuid_bytes : N)
| DestroyAllBindingKeysCall
| OpenCall (uuid_bytes enc enc_len ciphertext ciphertext_len aad aad_len out_plaintext out_plaintext_len : N)
| EnumerateBindingKeysCall (out_entries max_entries offset : N) (out_has_more : option N)
| GetBindingKeyCall (uuid_bytes out_pubkey out_pubkey_len out_algo out_algo_len : N).

Section ws.
Context `{Platform}.

Definition ws_run (c : WsCall) : M Proc Empty_set Z :=
  match c with
  | GenerateBindingKeypairCall a al e u k kl =>
      status_code (key_manager_generate_binding_keypair a al e u k kl)
  | DestroyBindingKeyCall u => status_code (key_manager_destroy_binding_key u)
  | DestroyAllBindingKeysCall => status_code key_manager_destroy_all_binding_keys
  | OpenCall u e el c cl a al o ol => status_code (key_manager_open u e el c cl a al o ol)
  | EnumerateBindingKeysCall o n off h => key_manager_enumerate_binding_keys o n off h
  | GetBindingKeyCall u k kl a al => status_code (key_manager_get_binding_key u k kl a al)
  end.

Definition ws_operation (c : WsCall) : KccOperation :=
  match c with
  | GenerateBindingKeypairCall _ _ _ _ _ _ => GenerateBindingKeypair
  | DestroyBindingKeyCall _ => DestroyBindingKey
  | DestroyAllBindingKeysCall => DestroyAllBindingKeys
  | OpenCall _ _ _ _ _ _ _ _ _ => Open
  | EnumerateBindingKeysCall _ _ _ _ => EnumerateBindingKeys
  | GetBindingKeyCall _ _ _ _ _ => GetBindingKey
  end.

Definition ws_code (c : WsCall) (st : Status) : Z :=
  match c with
  | EnumerateBindingKeysCall _ _ _ _ => - Status_as_i32 st
  | _ => Status_as_i32 st
  end.

(** The arguments an entry point refuses before it looks behind a pointer. *)
Definition ws_malformed (c : WsCall) : bool :=
  match c with
  | GenerateBindingKeypairCall a al _ u k _ => is_null k || is_null u || is_null a || (al =? 0)%N
  | DestroyBindingKeyCall u => is_null u
  | DestroyAllBindingKeysCall => false
  | OpenCall u e _ c _ _ _ o ol => is_null u || is_null e || is_null c || is_null o || (ol =? 0)%N
  | EnumerateBindingKeysCall o _ _ _ => is_null o
  | GetBindingKeyCall u k kl a al => is_null u || is_null k || (kl =? 0)%N || is_null a || is_null al
  end.

(** The buffers behind the pointers are what the documentation asks for; it does
    not ask for disjoint ones (see the header on overlapping buffers). *)
Definition ws_buffers (c : WsCall) (m : Memory) : Prop :=
  match c with
  | GenerateBindingKeypairCall a al _ u k kl => valid_buffer m a al ∧ valid_buffer m u 16 ∧ valid_buffer m k kl
  | DestroyBindingKeyCall u => valid_buffer m u 16
  | DestroyAllBindingKeysCall => True
  | OpenCall u e el c cl a al o ol =>
      valid_buffer m u 16 ∧ valid_buffer m e el ∧ valid_buffer m c cl ∧
      (negb (is_null a) && (0 <? al)%N = true → valid_buffer m a al) ∧ valid_buffer m o ol
  | EnumerateBindingKeysCall o n off h =>
      aligned8 o = true ∧ valid_buffer m o (n * WsKeyInfo_size) ∧ (off ≤ usize_max)%N ∧
      (∀ q, h = Some q → is_Some (m !! q))
  | GetBindingKeyCall u k kl a al =>
      valid_buffer m u 16 ∧ valid_buffer m k kl ∧ valid_u64 m al ∧
      ∃ n, read_bytes m al 8 = Some (le_bytes 8 n) ∧ (n < 2 ^ 64)%N ∧ valid_buffer m a n
  end.

Definition ws_contract (c : WsCall) (p : Proc) : Prop :=
  ws_malformed c = true ∨ ws_buffers c (p_mem p).

Definition ws_outputs (c : WsCall) (m : Memory) : list (N * N) :=
  match c with
  | GenerateBindingKeypairCall _ _ _ u k kl => [(u, 16); (k, kl)]%N
  | DestroyBindingKeyCall _ | DestroyAllBindingKeysCall => []
  | OpenCall _ _ _ _ _ _ _ o ol => [(o, ol)]
  | EnumerateBindingKeysCall o n _ h =>
      (o, n * WsKeyInfo_size)%N :: match h with Some q => [(q, 1%N)] | None => [] end
  | GetBindingKeyCall _ k kl a al =>
      [(k, kl); (a, default 0%N (le_value <$> read_bytes m al 8)); (al, 8)]%N
  end.

(** The handle of the key a generation makes is its second draw. *)
Definition ws_makes (c : WsCall) (p : Proc) (i : Uuid) : Prop :=
  match c with
  | GenerateBindingKeypairCall _ _ _ _ _ _ => i = Uuid_new_v4 (S (entropy (p_sys p)))
  | _ => False
  end.

Definition ws_destroys (c : WsCall) (p : Proc) (i : Uuid) : Prop :=
  match c with
  | DestroyBindingKeyCall u => is_null u = false ∧ read_bytes (p_mem p) u 16 = Some (Uuid_as_bytes i)
  | DestroyAllBindingKeysCall => True
  | _ => False
  end.

#[export] Instance Ws : Service := {|
  service_call := WsCall;
  service_run := ws_run;
  service_contract := ws_contract;
  service_key := binding_record_wf;
  service_operation := ws_operation;
  service_code := ws_code;
  service_outputs := ws_outputs;
  service_makes := ws_makes;
  service_destroys := ws_destroys;
|}.
End ws.

(** ** The laws *)

Section laws.
Context `{PlatformLaws}.
Implicit Types (p : Proc).

(** A malformed call is refused whatever its pointers point to. *)
Lemma ws_malformed_run c p :
  ws_malformed c = true →
  ws_run c p = (Ok (ws_code c InvalidArgument),
                report_to_tel (mkFailure (ws_operation c) InvalidArgument FailureKind_Error) p).
Proof.
  destruct c; cbn [ws_malformed ws_run ws_code ws_operation]; intros Hm.
  5: { unfold key_manager_enumerate_binding_keys, ffi_call_i32, ffi_call_i32_with_reporter. by rewrite Hm. }
  3: done.
  all: apply ffi_call_run_err; by rewrite Hm.
Qed.

Lemma ws_malformed_returned c p :
  registry_ok p → ws_malformed c = true →
  ∃ st z p', ws_run c p = (Ok z, p') ∧ returned c p st z p'.
Proof.
  intros (_&Hk&_) Hm. rewrite (ws_malformed_run _ _ Hm). eexists InvalidArgument, _, _.
  split; [done|]. apply returned_same_keys; try done. intros i. destruct c; cbn in *; intros Hd; try done.
  destruct Hd. congruence.
Qed.

Lemma ws_keys_ok p : registry_ok p → map_Forall (λ _, binding_record_wf) (p_keys p).
Proof. intros (_&Hk&_) i r Hr. apply (Hk i r Hr). Qed.

Lemma ws_record_wf p : registry_ok p → map_Forall (λ _, record_wf) (p_keys p).
Proof. intros Hok i r Hr. by apply (ws_keys_ok _ Hok i r Hr). Qed.

Lemma generate_binding_returned a al e u k kl p :
  let c := GenerateBindingKeypairCall a al e u k kl in
  registry_ok p → ws_malformed c = false → ws_buffers c (p_mem p) →
  ∃ st z p', ws_run c p = (Ok z, p') ∧ returned c p st z p'.
Proof.
  intros c Hok Hm (Ha&Hu&Hkb). cbn in Hm. bool_props.
  destruct (valid_points_to _ _ _ Ha) as (algo&Halgo&Hal).
  destruct Hok as (Hp&Hk&_).
  edestruct returns_run as (st&p'&Hr&HR&_&Ht);
    [by eapply (generate_binding_keypair_refines a al e u k kl p algo)|].
  exists st, (Status_as_i32 st), p'. split; [done|].
  assert (st ≠ InternalError ∧ keys_wf binding_record_wf (p_keys p') ∧
          frame (ws_outputs c (p_mem p)) (p_mem p) (p_mem p') ∧ (st ≠ Success → p_mem p' = p_mem p) ∧
          ∀ i, ws_makes c p i ∨ p_keys p' !! i = p_keys p !! i)
    as (?&?&?&?&Hkept).
  2: { constructor; try done; intros i; [by right|]. destruct (Hkept i); auto. }
  unfold GenerateBinding, untouched in HR.
  destruct (HpkeAlgorithm_decode algo) as [al'|]; [|destruct HR as (->&->&->); split_and!; by auto].
  case_decide; [|destruct HR as (->&->&->); split_and!; by auto].
  destruct HR as [([->|[-> _]]&->&->)|(r&kpk&Hcr&Hs&Hkp&->&HR)]; [by split_and!; auto..|].
  assert (∀ i, ws_makes c p i ∨ <[id (meta r):=r]> (p_keys p) !! i = p_keys p !! i).
  { intros i. destruct (decide (id (meta r) = i)) as [<-|]; [left; by destruct Hcr as (?&?&?&?&_)|right; by apply lookup_insert_ne]. }
  assert (keys_wf binding_record_wf (<[id (meta r):=r]> (p_keys p))) as Hk'.
  { apply keys_wf_insert; [|done]. split; [by rewrite Hs|].
    eapply created_wf_binding; [|exact Hcr]. unfold Duration_from_secs, nanos_per_sec. lia. }
  case_decide; destruct HR as [-> ->]; [|by split_and!]. split_and!; [done..| |done|done].
  apply frame_write; [apply frame_write; [done|]|].
  - exists 16%N. split; [left|by rewrite lenN_uuid].
  - exists kl. split; [right; left|]. rewrite (PublicKey_wf_lenN kpk); [lia|by eapply is_key_pair_wf].
Qed.

Lemma destroy_binding_returned u p :
  let c := DestroyBindingKeyCall u in
  registry_ok p → ws_malformed c = false → ws_buffers c (p_mem p) →
  ∃ st z p', ws_run c p = (Ok z, p') ∧ returned c p st z p'.
Proof.
  intros c (Hp&Hk&_) Hm Hu. cbn in Hu. destruct (valid_uuid _ _ Hu) as [i Hi].
  edestruct returns_run as (st&p'&Hr&HR&_&Ht); [by apply (destroy_binding_key_refines u p i)|].
  destruct HR as (Hk'&Hm'&Hst). exists st, (Status_as_i32 st), p'. split; [done|].
  constructor; [by destruct (p_keys p !! i); subst st|done|done|rewrite Hk'; by apply keys_wf_delete|by rewrite Hm'|done|..];
    intros j; right; rewrite Hk'.
  - intros [_ Hj]. assert (j = i) as -> by (by eapply read_uuid_inj). apply lookup_delete_eq.
  - destruct (decide (i = j)) as [<-|]; [left|right; by apply lookup_delete_ne].
    split; [exact (valid_nonnull _ _ _ Hu)|apply points_to_uuid, Hi].
Qed.

Lemma destroy_all_returned p :
  registry_ok p → ∃ st z p', ws_run DestroyAllBindingKeysCall p = (Ok z, p') ∧
    returned (DestroyAllBindingKeysCall : service_call) p st z p'.
Proof.
  intros (Hp&Hk&_). edestruct returns_run as (st&p'&Hr&HR&_&Ht); [by apply (destroy_all_binding_keys_refines p)|].
  destruct HR as (Hst&Hk'&Hm'). exists st, (Status_as_i32 st), p'. split; [done|].
  constructor; [by subst st|done|done|rewrite Hk'; apply keys_wf_empty|by rewrite Hm'|done|..];
    intros i; right; [by rewrite Hk', lookup_empty|by left].
Qed.

Lemma open_returned u e el ct cl a al o ol p :
  let c := OpenCall u e el ct cl a al o ol in
  registry_ok p → ws_malformed c = false → ws_buffers c (p_mem p) →
  ∃ st z p', ws_run c p = (Ok z, p') ∧ returned c p st z p'.
Proof.
  intros c Hok Hm (Hu&He&Hc&Ha&Ho). cbn in Hm. bool_props. pose proof Hok as (Hp&Hk&_).
  destruct (valid_uuid _ _ Hu) as [i Hi], (valid_points_to _ _ _ He) as (enc&Henc&Hel),
    (valid_points_to _ _ _ Hc) as (ctb&Hct&Hcl), (valid_opt _ _ _ Ha) as [aad Haad].
  edestruct returns_run as (st&p'&Hr&HR&_&Ht);
    [by apply (open_refines u e el ct cl a al o ol p i enc ctb aad); auto using ws_record_wf|].
  destruct HR as [Hk' HR]. exists st, (Status_as_i32 st), p'. split; [done|].
  assert (st ≠ InternalError ∧ frame (ws_outputs c (p_mem p)) (p_mem p) (p_mem p') ∧
          (st ≠ Success → p_mem p' = p_mem p)) as (?&?&?); [|apply returned_same_keys; try done; by intros ? []].
  destruct (live_key p i) as [r|] eqn:Hlive; [|by destruct HR as [-> ->]].
  apply live_key_Some in Hlive as [Hr' _]. destruct (ws_keys_ok _ Hok _ _ Hr') as [Hkem _].
  destruct (spec (meta r)) as [|? pk]; [done|].
  destruct (Opened _ _ _ _) as [pt|]; [|by destruct HR as [-> ->]].
  case_decide as Hd; destruct HR as [-> ->]; [|done]. split_and!; [done| |done].
  apply frame_write; [done|]. exists ol. split; [left|]. by rewrite Hd.
Qed.

Lemma get_binding_key_returned u k kl a al p :
  let c := GetBindingKeyCall u k kl a al in
  registry_ok p → ws_malformed c = false → ws_buffers c (p_mem p) →
  ∃ st z p', ws_run c p = (Ok z, p') ∧ returned c p st z p'.
Proof.
  intros c Hok Hm (Hu&Hkb&Hal&n&Hn&Hlt&Ha). cbn in Hm. bool_props. pose proof Hok as (Hp&Hk&_).
  destruct (valid_uuid _ _ Hu) as [i Hi].
  edestruct returns_run as (st&p'&Hr&HR&_&Ht); [by apply (get_binding_key_refines u k kl a al n p i)|].
  destruct HR as [Hk' HR]. exists st, (Status_as_i32 st), p'. split; [done|].
  assert (st ≠ InternalError ∧ frame (ws_outputs c (p_mem p)) (p_mem p) (p_mem p') ∧
          (st ≠ Success → p_mem p' = p_mem p)) as (?&?&?); [|apply returned_same_keys; try done; by intros ? []].
  destruct (live_key p i) as [rec|] eqn:Hlive; [|by destruct HR as [-> ->]].
  apply live_key_Some in Hlive as [Hr' _]. destruct (ws_keys_ok _ Hok _ _ Hr') as [Hkem _].
  destruct (spec (meta rec)) as [|algo pk]; [done|].
  case_decide as Hd; destruct HR as [-> ->]; [|done]. destruct Hd as (->&Hlen). split_and!; [done| |done].
  cbn [ws_outputs c]. rewrite Hn. cbn [fmap option_fmap option_map default].
  rewrite le_value_le_bytes by done.
  repeat (apply frame_write; [|eexists; split; [repeat first [left; reflexivity|right]|]]); try done; by rewrite lenN_le_bytes.
Qed.

Lemma enumerate_binding_returned o n off h p :
  let c := EnumerateBindingKeysCall o n off h in
  registry_ok p → ws_malformed c = false → ws_buffers c (p_mem p) →
  ∃ st z p', ws_run c p = (Ok z, p') ∧ returned c p st z p'.
Proof.
  intros c Hok Hm (Ha&Ho&Hoff&Hh). pose proof Hok as (Hp&Hk&Hs).
  exists Success. eexists _, _. split.
  - cbn [ws_run c]. rewrite (enumerate_binding_keys_run o n off h p) by auto using ws_keys_ok. reflexivity.
  - destruct (ticks_fields (S (length (page (proc_now p) (p_keys p) off n))) p) as (Hk1&_&Ht1&_).
    apply returned_same_keys; cbn [p_keys p_tel p_mem set_mem]; [done..| |done|by intros ? []].
    apply frame_flag; [apply frame_write; [done|]|].
    + eexists. split; [left|]. rewrite (lenN_entries_bytes _ WsKeyInfo_size).
      * pose proof (page_length (proc_now p) (p_keys p) off n). unfold WsKeyInfo_size. lia.
      * intros md now (j&rec&Hrec&->&_)%elem_of_page. apply length_binding_entry, binding_record_meta_wf.
        by apply (ws_keys_ok _ Hok _ _ Hrec).
    + intros q ->. right. left.
Qed.

Lemma steps_generate_binding a al e u k kl :
  Steps call_rel (key_manager_generate_binding_keypair a al e u k kl).
Proof. unfold key_manager_generate_binding_keypair, generate_binding_keypair_internal. steps_handler. Qed.

Lemma steps_destroy_binding u : Steps call_rel (key_manager_destroy_binding_key u).
Proof. unfold key_manager_destroy_binding_key. steps_handler. Qed.

Lemma steps_destroy_all_binding : Steps call_rel key_manager_destroy_all_binding_keys.
Proof. unfold key_manager_destroy_all_binding_keys. steps_handler. Qed.

Lemma steps_open u e el c cl a al o ol : Steps call_rel (key_manager_open u e el c cl a al o ol).
Proof. unfold key_manager_open, open_internal. steps_handler. Qed.

Lemma steps_get_binding_key u k kl a al : Steps call_rel (key_manager_get_binding_key u k kl a al).
Proof. unfold key_manager_get_binding_key, get_binding_key_internal. steps_handler. Qed.

Lemma steps_enumerate_binding_loop entries i metas :
  Steps call_rel (enumerate_binding_loop entries i metas).
Proof.
  revert i. induction metas as [|md metas IH]; intros i; cbn [enumerate_binding_loop];
    unfold enumerate_binding_entry, call_rel; steps_body.
Qed.

Lemma steps_enumerate_binding o n off h : Steps call_rel (key_manager_enumerate_binding_keys o n off h).
Proof.
  unfold key_manager_enumerate_binding_keys, enumerate_binding_keys_internal.
  pose proof steps_enumerate_binding_loop. unfold call_rel in *. steps_handler.
Qed.

#[export] Instance Ws_laws : ServiceLaws.
Proof.
  split.
  - intros c p Hok Hc. destruct (ws_malformed c) eqn:Hm; [by apply ws_malformed_returned|].
    destruct Hc as [Hc|Hb]; [simpl in *; congruence|].
    destruct c; [by apply generate_binding_returned|by apply destroy_binding_returned|by apply destroy_all_returned|
      by apply open_returned|by apply enumerate_binding_returned|by apply get_binding_key_returned].
  - intros []; cbn [service_run Ws ws_run];
      [apply steps_status_code, steps_generate_binding|apply steps_status_code, steps_destroy_binding|
       apply steps_status_code, steps_destroy_all_binding|apply steps_status_code, steps_open|
       apply steps_enumerate_binding|apply steps_status_code, steps_get_binding_key].
Qed.
End laws.
