(* ===== verification/Independence.v ===== *)
(** * Computations that do not depend on a part of the process

    A call shares the registry and the telemetry cells with other threads.  A
    computation is [free_of set] when it neither looks at the part of the process
    that [set] replaces nor changes it: replacing the part before the run is
    replacing it after.  The rules follow the combinators of Effects.v. *)

From S2P Require Import Prelude Effects RustStd Proto Platform SecretBox ProtectedMem X25519 Crypto.
From S2P Require Import Telemetry KeyTypes Process Registry Boundary Service KpsCore WsCore.

(** A part of the process that is neither the system's nor the caller's memory. *)
Class SharedPart `{Platform} {T : Type} (set : T → Proc → Proc) : Prop := {
  shared_sys p x : p_sys (set x p) = p_sys p;
  shared_mem p x : p_mem (set x p) = p_mem p;
  shared_set_sys s p x : set_sys s (set x p) = set x (set_sys s p);
  shared_set_mem m p x : set_mem m (set x p) = set x (set_mem m p);
}.

#[export] Instance shared_keys `{Platform} : SharedPart set_keys.
Proof. by split. Qed.
#[export] Instance shared_tel `{Platform} : SharedPart set_tel.
Proof. by split. Qed.

Definition free_of `{Platform} {T E A} (set : T → Proc → Proc) (m : M Proc E A) : Prop :=
  ∀ p x, m (set x p) = (fst (m p), set x (snd (m p))).

(** What a run does to the registry, or to the telemetry, does not depend on it:
    nothing. *)
Abbreviation registry_free := (free_of set_keys).
Abbreviation telemetry_free := (free_of set_tel).

Section free.
Context `{PlatformLaws} {T : Type} (set : T → Proc → Proc) `{!SharedPart set}.

Lemma free_ret {E A} (a : A) : free_of set (@ret Proc E A a).
Proof. by intros p x. Qed.
Lemma free_throw {E A} (e : E) : free_of set (@throw Proc E A e).
Proof. by intros p x. Qed.
Lemma free_panic {E A} : free_of set (@panic Proc E A).
Proof. by intros p x. Qed.
Lemma free_ub {E A} : free_of set (@ub Proc E A).
Proof. by intros p x. Qed.
Lemma free_ok_or {E A} (o : option A) (e : E) : free_of set (@ok_or Proc E A o e).
Proof. by intros p x; destruct o. Qed.
Lemma free_in_sys {E A} (m : M Sys E A) : free_of set (in_sys m).
Proof. intros p x. unfold in_sys, zoom. rewrite shared_sys. destruct (m (p_sys p)). cbn. by rewrite shared_set_sys. Qed.
Lemma free_in_mem {E A} (m : M Memory E A) : free_of set (in_mem m).
Proof. intros p x. unfold in_mem, zoom. rewrite shared_mem. destruct (m (p_mem p)). cbn. by rewrite shared_set_mem. Qed.
Lemma free_modify {E} (f : Proc → Proc) :
  (∀ p x, f (set x p) = set x (f p)) → free_of set (@modify Proc E f).
Proof. intros Hf p x. unfold modify. cbn. by rewrite Hf. Qed.

(** What drops secrets only touches the system. *)
Lemma drop_record_shared r p x : drop_record r (set x p) = set x (drop_record r p).
Proof. unfold drop_record. by rewrite shared_sys, shared_set_sys. Qed.
Lemma drop_records_shared rs p x : drop_records rs (set x p) = set x (drop_records rs p).
Proof.
  unfold drop_records. revert p. induction rs as [|r rs IH]; intros p; [done|]. cbn [foldl flip].
  by rewrite drop_record_shared, IH.
Qed.
Lemma free_drop_record {E} r : free_of set (@modify Proc E (drop_record r)).
Proof. apply free_modify, drop_record_shared. Qed.
Lemma free_drop_records {E} rs : free_of set (@modify Proc E (drop_records rs)).
Proof. apply free_modify, drop_records_shared. Qed.

Lemma free_bind {E A B} (m : M Proc E A) (k : A → M Proc E B) :
  free_of set m → (∀ a, free_of set (k a)) → free_of set (bind m k).
Proof.
  intros Hm Hk p x. unfold bind. rewrite Hm. destruct (m p) as [[a|e| |] q]; cbn [fst snd]; [|done..].
  apply Hk.
Qed.

Lemma free_map_err {E E' A} (f : E → E') (m : M Proc E A) : free_of set m → free_of set (map_err f m).
Proof. intros Hm p x. unfold map_err. rewrite Hm. by destruct (m p) as [[]?]. Qed.

Lemma free_finally {E A} (m : M Proc E A) fin :
  free_of set m → (∀ p x, fin (set x p) = set x (fin p)) → free_of set (finally m fin).
Proof. intros Hm Hf p x. unfold finally. rewrite Hm. destruct (m p). cbn. by rewrite Hf. Qed.

Lemma free_on_unwind {E A} (m : M Proc E A) fin :
  free_of set m → (∀ p x, fin (set x p) = set x (fin p)) → free_of set (on_unwind m fin).
Proof. intros Hm Hf p x. unfold on_unwind. rewrite Hm. destruct (m p) as [[]?]; cbn; by rewrite ?Hf. Qed.

Lemma free_scoped_secret {E A} b (m : M Proc E A) : free_of set m → free_of set (scoped_secret b m).
Proof. intros Hm. apply free_finally; [done|]. intros p x. by rewrite shared_sys, shared_set_sys. Qed.

Lemma free_uuid_of_slice b : free_of set (uuid_of_slice b).
Proof. apply free_ok_or. Qed.
Lemma free_usize_add {E} a b : free_of set (@usize_add _ Proc E a b).
Proof. intros p x. unfold usize_add. by case_match. Qed.
Lemma free_debug_assert_false {E} : free_of set (@debug_assert_false _ Proc E).
Proof. intros p x. unfold debug_assert_false. by case_match. Qed.
Lemma free_array_copy {E} arr src : free_of set (@array_copy Proc E arr src).
Proof. intros p x. unfold array_copy. by case_match. Qed.
Lemma free_array_copy_prefix {E} arr src : free_of set (@array_copy_prefix Proc E arr src).
Proof. intros p x. unfold array_copy_prefix. by case_match. Qed.
End free.

#[export] Hint Resolve free_ret free_throw free_panic free_ub free_ok_or free_in_sys free_in_mem free_uuid_of_slice
  free_drop_record free_drop_records free_usize_add free_debug_assert_false free_array_copy free_array_copy_prefix : free.

(** Follow the code of a computation. *)
Ltac free_go :=
  repeat first
    [ match goal with |- ∀ _, _ => intro end
    | solve [eauto with free typeclass_instances]
    | apply free_bind
    | apply free_map_err
    | apply free_scoped_secret; [apply _|]
    | match goal with
      | |- free_of _ (if ?b then _ else _) => destruct b
      | |- free_of _ (match ?x with _ => _ end) => destruct x
      end ].

(** ** The loops of the two listings *)

Section loops.
Context `{PlatformLaws} {T : Type} (set : T → Proc → Proc) `{!SharedPart set}.

Lemma free_enumerate_kem_loop entries i metas : free_of set (enumerate_kem_loop entries i metas).
Proof.
  revert i. induction metas as [|md metas IH]; intros i; cbn [enumerate_kem_loop]; [apply free_ret|].
  destruct (i <? ms_len entries)%N; [|apply free_ret]. apply free_bind; [|done].
  unfold enumerate_kem_entry. free_go.
Qed.

Lemma free_enumerate_binding_loop entries i metas : free_of set (enumerate_binding_loop entries i metas).
Proof.
  revert i. induction metas as [|md metas IH]; intros i; cbn [enumerate_binding_loop]; [apply free_ret|].
  destruct (i <? ms_len entries)%N; [|apply free_ret]. apply free_bind; [|done].
  unfold enumerate_binding_entry. free_go.
Qed.
End loops.

#[export] Hint Resolve free_enumerate_kem_loop free_enumerate_binding_loop : free.

(** ** The registry's operations do not depend on the telemetry *)

Section telemetry.
Context `{PlatformLaws}.

Lemma free_lock_keys {E} : telemetry_free (@lock_keys _ E).
Proof. intros p t. unfold lock_keys. cbn. by destruct (p_poisoned p). Qed.
Lemma free_set_keys {E} keys : telemetry_free (@modify Proc E (set_keys keys)).
Proof. by apply free_modify. Qed.
#[local] Hint Resolve free_lock_keys free_set_keys : free.

Lemma free_add_key {E} r : telemetry_free (@add_key _ E r).
Proof.
  unfold add_key. apply free_bind; [|free_go].
  apply free_on_unwind; [apply free_lock_keys|]. apply drop_record_shared, _.
Qed.
Lemma free_remove_key {E} i : telemetry_free (@remove_key _ E i).
Proof. unfold remove_key. free_go. Qed.
Lemma free_remove_all_keys {E} : telemetry_free (@remove_all_keys _ E).
Proof. unfold remove_all_keys. free_go. Qed.
Lemma free_get_key {E} i : telemetry_free (@get_key _ E i).
Proof. unfold get_key. free_go. Qed.
Lemma free_list_all_keys {E} offset limit : telemetry_free (@list_all_keys _ E offset limit).
Proof. unfold list_all_keys. free_go. Qed.
End telemetry.

#[export] Hint Resolve free_add_key free_remove_key free_remove_all_keys free_get_key free_list_all_keys : free.
