(* ===== verification/Interleaving.v ===== *)
(** * Calls interleaved with other threads

    The entry points run on many threads; what they share is the registry, and
    each touches it through one operation of [KeyRegistry], under its lock.  A
    computation is [registry_free] (Independence.v) when it neither looks at the
    registry nor changes it; [interleaved] runs a call while other threads replace
    the registry whenever they please, except during its one operation.  The
    operations themselves, interleaved down to reference counts, are in ArcStore.v. *)
From S2P Require Import Prelude Effects RustStd Proto Platform SecretBox ProtectedMem X25519 Crypto.
From S2P Require Import Telemetry KeyTypes Process Registry Boundary Service Independence.

Section interleaving.
Context `{Platform}.

(** The same of what is done with the result of a computation. *)
Definition finish_free {E A E' B} (w : Outcome E A * Proc → Outcome E' B * Proc) : Prop :=
  ∀ o p keys, w (o, set_keys keys p) = (fst (w (o, p)), set_keys keys (snd (w (o, p)))).

(** The lock-protected operations of [KeyRegistry]. *)
Inductive registry_op {E} : ∀ {A}, M Proc E A → Prop :=
| op_add_key record : registry_op (add_key record)
| op_remove_key i : registry_op (remove_key i)
| op_remove_all_keys : registry_op remove_all_keys
| op_get_key i : registry_op (get_key i)
| op_list_all_keys offset limit : registry_op (list_all_keys offset limit).

(** At most one operation, with nothing that depends on the registry around it. *)
Inductive one_access : ∀ {E A}, M Proc E A → Prop :=
| access_free {E A} (m : M Proc E A) : registry_free m → one_access m
| access_op {E A} (op : M Proc E A) : registry_op op → one_access op
| access_finish {E A E' B} (m : M Proc E A) (w : Outcome E A * Proc → Outcome E' B * Proc) :
    one_access m → finish_free w → one_access (λ p, w (m p))
| access_seq {E A B} (m : M Proc E A) (k : A → M Proc E B) :
    registry_free m → (∀ a, one_access (k a)) → one_access (bind m k)
| access_ext {E A} (m m' : M Proc E A) : (∀ p, m p = m' p) → one_access m → one_access m'.

(** The runs of such a computation while other threads leave some registry, any
    they please, before and after each of its parts.  The index [at_op] is the
    registry its operation found and the one it left; [None] when the run ended
    without one. *)
Inductive interleaved : ∀ {E A}, M Proc E A → Proc →
    option (gmap Uuid KeyRecord * gmap Uuid KeyRecord) → Outcome E A → Proc → Prop :=
| run_free {E A} (m : M Proc E A) p : registry_free m → interleaved m p None (fst (m p)) (snd (m p))
| run_op {E A} (op : M Proc E A) p :
    registry_op op → interleaved op p (Some (p_keys p, p_keys (snd (op p)))) (fst (op p)) (snd (op p))
| run_finish {E A E' B} (m : M Proc E A) (w : Outcome E A * Proc → Outcome E' B * Proc) p at_op o q :
    finish_free w → interleaved m p at_op o q →
    interleaved (λ p, w (m p)) p at_op (fst (w (o, q))) (snd (w (o, q)))
| run_seq {E A B} (m : M Proc E A) (k : A → M Proc E B) p at_op a q o r :
    registry_free m → m p = (Ok a, q) → interleaved (k a) q at_op o r → interleaved (bind m k) p at_op o r
| run_seq_stop {E A B} (m : M Proc E A) (k : A → M Proc E B) p :
    registry_free m → (∀ a, fst (m p) ≠ Ok a) →
    interleaved (bind m k) p None (fst (bind m k p)) (snd (bind m k p))
| run_others_before {E A} (m : M Proc E A) p keys at_op o q :
    interleaved m (set_keys keys p) at_op o q → interleaved m p at_op o q
| run_others_after {E A} (m : M Proc E A) p keys at_op o q :
    interleaved m p at_op o q → interleaved m p at_op o (set_keys keys q)
| run_ext {E A} (m m' : M Proc E A) p at_op o q :
    (∀ p, m p = m' p) → interleaved m p at_op o q → interleaved m' p at_op o q.

(** An effect on the registry that the observation at the operation allows. *)
Definition effect_at (at_op : option (gmap Uuid KeyRecord * gmap Uuid KeyRecord))
    (before after : gmap Uuid KeyRecord) : Prop :=
  match at_op with
  | Some (keys, keys') => before = keys ∧ after = keys'
  | None => after = before
  end.
End interleaving.

Section free.
Context `{PlatformLaws}.

Lemma set_keys_twice k k' p : set_keys k (set_keys k' p) = set_keys k p.
Proof. done. Qed.
Lemma set_keys_same p : set_keys (p_keys p) p = p.
Proof. by destruct p. Qed.

(** ** One access *)

Lemma finish_bind {E A B} (k : A → M Proc E B) :
  (∀ a, registry_free (k a)) →
  finish_free (λ r, bind (λ _, r) k (snd r)).
Proof. intros Hk [a|e| |] p keys; cbn; [apply Hk|done..]. Qed.

Lemma access_bind {E A B} (m : M Proc E A) (k : A → M Proc E B) :
  one_access m → (∀ a, registry_free (k a)) → one_access (bind m k).
Proof.
  intros Hm Hk. apply (access_ext (λ p, (λ r, bind (λ _, r) k (snd r)) (m p))).
  - intros p. unfold bind. by destruct (m p) as [[]?].
  - apply (access_finish m (λ r, bind (λ _, r) k (snd r))); [done|by apply finish_bind].
Qed.

Lemma access_map_err {E E' A} (f : E → E') (m : M Proc E A) : one_access m → one_access (map_err f m).
Proof.
  intros Hm. apply (access_ext (λ p, (λ r, map_err f (λ _, r) (snd r)) (m p))).
  - intros p. unfold map_err. by destruct (m p) as [[]?].
  - apply (access_finish m (λ r, map_err f (λ _, r) (snd r))); [done|]. by intros [] p keys.
Qed.

Lemma access_ffi_call op (m : M Proc Status unit) : one_access m → one_access (ffi_call op m).
Proof.
  intros Hm. apply (access_ext (λ p, (λ r, ffi_call op (λ _, r) (snd r)) (m p))).
  - intros p. unfold ffi_call, ffi_call_with_reporter. by destruct (m p) as [[[]|?| |]?].
  - apply (access_finish m (λ r, ffi_call op (λ _, r) (snd r))); [done|]. by intros [[]|?| |] p keys.
Qed.

Lemma access_ffi_call_i32 op (m : M Proc Status Z) : one_access m → one_access (ffi_call_i32 op m).
Proof.
  intros Hm. apply (access_ext (λ p, (λ r, ffi_call_i32 op (λ _, r) (snd r)) (m p))).
  - intros p. unfold ffi_call_i32, ffi_call_i32_with_reporter. by destruct (m p) as [[]?].
  - apply (access_finish m (λ r, ffi_call_i32 op (λ _, r) (snd r))); [done|]. by intros [] p keys.
Qed.

Lemma access_status_code m : one_access m → one_access (status_code m).
Proof. intros Hm. apply access_bind; [done|]. intros a. apply free_ret. Qed.

(** ** A call takes effect at its one operation *)

(** Undisturbed, at the registry its operation found, the computation has the same
    outcome, leaves the registry its operation left, and everything else alike. *)
Lemma interleaved_effect {E A} (m : M Proc E A) p at_op o q :
  interleaved m p at_op o q →
  ∀ before after, effect_at at_op before after → m (set_keys before p) = (o, set_keys after q).
Proof.
  induction 1 as [E A m p Hm|E A op p Hop|E A E' B m w p at_op o q Hw Hi IH|E A B m k p at_op a q o r Hm Hr Hi IH
    |E A B m k p Hm Hr|E A m p keys at_op o q Hi IH|E A m p keys at_op o q Hi IH|E A m m' p at_op o q He Hi IH];
    intros before after Hb; cbn in Hb.
  - by subst.
  - destruct Hb as [-> ->]. rewrite !set_keys_same. by destruct (op p).
  - by rewrite (IH _ _ Hb), Hw.
  - assert (m (set_keys before p) = (Ok a, set_keys before q)) as Hr' by (by rewrite Hm, Hr).
    rewrite (bind_ok _ _ _ _ _ Hr'). by apply IH.
  - subst after. unfold bind. rewrite Hm. destruct (m p) as [[a|e| |] q]; [by destruct (Hr a)|done..].
  - by rewrite <- (IH _ _ Hb).
  - by rewrite (IH _ _ Hb).
  - by rewrite <- He, (IH _ _ Hb).
Qed.
End free.

(** Follow a handler up to its operation, then show the rest free of the registry. *)
Ltac access_go :=
  repeat first
    [ match goal with |- ∀ _, _ => intro end
    | solve [apply access_free; free_go]
    | solve [apply access_op; constructor]
    | solve [apply access_bind; [apply access_op; constructor|free_go]]
    | apply access_seq; [solve [free_go]|]
    | apply access_bind; [|solve [free_go]]
    | match goal with
      | |- one_access (if ?b then _ else _) => destruct b
      | |- one_access (match ?x with _ => _ end) => destruct x
      end ].
