(* ===== verification/Poisoned.v ===== *)
(** * A poisoned lock

    If a thread panicked while it held the registry's lock, every later
    [self.keys.read().unwrap()] panics in its turn, and [catch_unwind] at the FFI
    boundary turns that into a status.  What then becomes of a call: it stops at
    the lock, and what it had made so far is dropped. *)

From S2P Require Import Prelude Effects RustStd Proto Platform RefPlatform SecretBox ProtectedMem X25519.
From S2P Require Import Crypto Telemetry KeyTypes Process Registry Reaper Boundary Service KpsCore KpsSpec Kps.
From S2P Require Import WsCore WsSpec Ws.
Import RefInstances.

Section stops.
Context `{Platform}.

(** The body of a call ended, by an error or a panic, having changed no key and
    no byte. *)
Definition stops (errors : Prop) (p : Proc) {A} (o : Outcome Status A) (p' : Proc) : Prop :=
  p_poisoned p' = true ∧ p_keys p' = p_keys p ∧ p_mem p' = p_mem p ∧ p_tel p' = p_tel p ∧
  match o with
  | Err e => errors ∧ e ≠ Success
  | Panic => True
  | Ok _ | Ub => False
  end.

(** The same of the call: what it reported is an error, or the panic after the
    event of the panic hook. *)
Definition stopped (errors : Prop) (op : KccOperation) (st : Status) (p p' : Proc) : Prop :=
  st ≠ Success ∧ p_poisoned p' = true ∧ p_keys p' = p_keys p ∧ p_mem p' = p_mem p ∧
  (errors ∧ p_tel p' = report_failure (mkFailure op st FailureKind_Error) (p_tel p) ∨
   st = InternalError ∧
   p_tel p' = report_failure (mkFailure op st FailureKind_Panic) (run_panic_hook (p_tel p))).
End stops.

Section lemmas.
Context `{PlatformLaws}.
Implicit Types (p : Proc).

Lemma wp_lock_poisoned {E} Q p : p_poisoned p = true → Q Panic p → wp (@lock_keys _ E) Q p.
Proof. intros Hp HQ. unfold wp, lock_keys. by rewrite Hp. Qed.

Lemma wp_get_key_poisoned {E} i Q p : p_poisoned p = true → Q Panic p → wp (@get_key _ E i) Q p.
Proof. intros Hp HQ. by apply wp_bind, wp_lock_poisoned. Qed.
Lemma wp_remove_key_poisoned {E} i Q p : p_poisoned p = true → Q Panic p → wp (@remove_key _ E i) Q p.
Proof. intros Hp HQ. by apply wp_bind, wp_lock_poisoned. Qed.
Lemma wp_remove_all_keys_poisoned {E} Q p : p_poisoned p = true → Q Panic p → wp (@remove_all_keys _ E) Q p.
Proof. intros Hp HQ. by apply wp_bind, wp_lock_poisoned. Qed.
Lemma wp_list_all_keys_poisoned {E} off n Q p :
  p_poisoned p = true → Q Panic p → wp (@list_all_keys _ E off n) Q p.
Proof. intros Hp HQ. by apply wp_bind, wp_lock_poisoned. Qed.
(** The record that was to be added is dropped on the way out. *)
Lemma wp_add_key_poisoned {E} r Q p : p_poisoned p = true → Q Panic (drop_record r p) → wp (@add_key _ E r) Q p.
Proof.
  intros Hp HQ. apply wp_bind. unfold wp, on_unwind, lock_keys. by rewrite Hp.
Qed.

Lemma stops_panic errors p p' {A} :
  p_poisoned p' = true → p_keys p' = p_keys p → p_mem p' = p_mem p → p_tel p' = p_tel p →
  stops errors p (@Panic Status A) p'.
Proof. by intros. Qed.

Lemma stopped_ffi_call errors op f p :
  wp f (stops errors p) p → ∃ st p', status_code (ffi_call op f) p = (Ok (Status_as_i32 st), p') ∧ stopped errors op st p p'.
Proof.
  unfold wp, stops, status_code, ffi_call, ffi_call_with_reporter, bind.
  destruct (f p) as [[[]|e| |] p1]; cbn; [by intros (?&?&?&?&?)| | |by intros (?&?&?&?&?)].
  - intros (?&?&?&Ht&?&?). exists e, (report_to_tel (mkFailure op e FailureKind_Error) p1). split; [done|].
    split_and!; try done. left. split; [done|]. cbn. by rewrite Ht.
  - intros (?&?&?&Ht&_).
    exists InternalError, (report_to_tel (mkFailure op InternalError FailureKind_Panic) (caught_panic p1)). split; [done|].
    split_and!; try done. right. split; [done|]. cbn. by rewrite Ht.
Qed.

Lemma stopped_ffi_call_i32 errors op f p :
  wp f (stops errors p) p → ∃ st p', ffi_call_i32 op f p = (Ok (- Status_as_i32 st)%Z, p') ∧ stopped errors op st p p'.
Proof.
  unfold wp, stops, ffi_call_i32, ffi_call_i32_with_reporter.
  destruct (f p) as [[v|e| |] p1]; cbn; [by intros (?&?&?&?&?)| | |by intros (?&?&?&?&?)].
  - intros (?&?&?&Ht&?&?). exists e, (report_to_tel (mkFailure op e FailureKind_Error) p1). split; [done|].
    split_and!; try done. left. split; [done|]. cbn. by rewrite Ht.
  - intros (?&?&?&Ht&_).
    exists InternalError, (report_to_tel (mkFailure op InternalError FailureKind_Panic) (caught_panic p1)). split; [done|].
    split_and!; try done. right. split; [done|]. cbn. by rewrite Ht.
Qed.
End lemmas.

(** ** The entry points *)

Section calls.
Context `{PlatformLaws}.
Implicit Types (p : Proc).

Lemma generate_kem_stops a al b bl e u k kl p :
  let c := GenerateKemKeypairCall a al b bl e u k kl in
  p_poisoned p = true → kps_malformed c = false → kps_buffers c (p_mem p) →
  ∃ st p', kps_run c p = (Ok (Status_as_i32 st), p') ∧ stopped True GenerateKemKeypair st p p'.
Proof.
  intros c Hp Hm (Ha&Hb&Hu&Hk). cbn in Hm. bool_props.
  destruct (valid_points_to _ _ _ Ha) as (algo&Halgo&<-), (valid_points_to _ _ _ Hb) as (bpk&Hbpk&<-).
  apply stopped_ffi_call. rewrite (points_to_nonnull _ _ _ Halgo), (points_to_nonnull _ _ _ Hbpk),
    (valid_nonnull _ _ _ Hu), (valid_nonnull _ _ _ Hk).
  repeat match goal with Hne : lenN _ ≠ 0%N |- _ => apply N.eqb_neq in Hne as -> end. cbn [orb].
  wp_read. wp_read. wp_out. wp_out. wp_next @wp_PublicKey_try_from.
  destruct (decide (length bpk = 32)); cbn [chain]; [|by split_and!].
  apply wp_bind. destruct (HpkeAlgorithm_decode algo) as [al'|]; cbn [ok_or]; [|by split_and!].
  apply wp_ret. cbn [chain]. apply wp_bind, wp_bind, wp_in_sys_wp.
  eapply wp_mono; [apply create_bound_kem_key_cases|]. intros o s' Ho. cbn beta in Ho.
  case_decide; [|subst o; split_and!; try done; by destruct (kem al' =? 1)%Z].
  destruct o as [r|er| |]; cbn [chain]; [| |done..].
  2: { split_and!; try done. by destruct Ho as [->|[-> _]]. }
  destruct Ho as (kpk&Hspec&_). rewrite Hspec. apply wp_bind, wp_ret. cbn [chain].
  wp_next @wp_add_key_poisoned; [done|]. by apply stops_panic.
Qed.
Lemma destroy_kem_stops u p :
  let c := DestroyKemKeyCall u in
  p_poisoned p = true → kps_malformed c = false → kps_buffers c (p_mem p) →
  ∃ st p', kps_run c p = (Ok (Status_as_i32 st), p') ∧ stopped False DestroyKemKey st p p'.
Proof.
  intros c Hp Hm Hu. cbn in Hm, Hu. destruct (valid_uuid _ _ Hu) as [i Hi].
  apply stopped_ffi_call. rewrite Hm. wp_next @wp_from_raw_parts; [done|by rewrite lenN_uuid|].
  wp_next @wp_remove_key_poisoned; [done|]. by apply stops_panic.
Qed.

Lemma decap_and_seal_stops u e el a al oe oel oc ocl p :
  let c := DecapAndSealCall u e el a al oe oel oc ocl in
  p_poisoned p = true → kps_malformed c = false → kps_buffers c (p_mem p) →
  ∃ st p', kps_run c p = (Ok (Status_as_i32 st), p') ∧ stopped False DecapAndSeal st p p'.
Proof.
  intros c Hp Hm (Hu&He&Ha&Hoe&Hoc). cbn in Hm.
  destruct (valid_uuid _ _ Hu) as [i Hi], (valid_points_to _ _ _ He) as (enc&Henc&<-), (valid_opt _ _ _ Ha) as [aad Haad].
  apply stopped_ffi_call. rewrite Hm.
  wp_next @wp_from_raw_parts; [done|by rewrite lenN_uuid|]. wp_read.
  wp_next @wp_opt_slice; [done|]. wp_out. wp_out.
  unfold uuid_of_slice. rewrite Uuid_from_as. apply wp_bind, wp_Some. cbn [chain].
  unfold decap_and_seal_internal. wp_next @wp_get_key_poisoned; [done|]. by apply stops_panic.
Qed.

Lemma get_kem_key_stops u k kl b bl a al r p :
  let c := GetKemKeyCall u k kl b bl a al r in
  p_poisoned p = true → kps_malformed c = false → kps_buffers c (p_mem p) →
  ∃ st p', kps_run c p = (Ok (Status_as_i32 st), p') ∧ stopped False GetKemKey st p p'.
Proof.
  intros c Hp Hm (Hu&Hk&Hb&Hr&Hal&n&Hn&Hlt&Ha). cbn in Hm. destruct (valid_uuid _ _ Hu) as [i Hi].
  apply stopped_ffi_call. rewrite Hm.
  wp_next @wp_from_raw_parts; [done|by rewrite lenN_uuid|]. wp_out. wp_out.
  wp_next @wp_read_u64_any; [done|]. intros v. wp_next @wp_read_u64; [done..|]. wp_out.
  unfold uuid_of_slice. rewrite Uuid_from_as. apply wp_bind, wp_Some. cbn [chain].
  unfold get_kem_key_internal. apply wp_bind. wp_next @wp_get_key_poisoned; [done|]. by apply stops_panic.
Qed.

Lemma wp_entries ptr n size {E} Q p :
  aligned8 ptr = true → valid_buffer (p_mem p) ptr (n * size) → Q (Ok (mkMutSlice ptr n)) p →
  wp (in_mem (@entries_from_raw_parts_mut E ptr n size)) Q p.
Proof.
  intros Ha Hv HQ. apply (wp_in_mem _ (Ok (mkMutSlice ptr n)) (p_mem p)); [|by rewrite set_mem_same].
  unfold entries_from_raw_parts_mut. rewrite Ha. by rewrite (bind_ok _ _ _ _ _ (from_raw_parts_mut_ok _ _ _ Hv)).
Qed.

Lemma enumerate_kem_stops o n off h p :
  let c := EnumerateKemKeysCall o n off h in
  p_poisoned p = true → kps_malformed c = false → kps_buffers c (p_mem p) →
  ∃ st p', kps_run c p = (Ok (- Status_as_i32 st)%Z, p') ∧ stopped False EnumerateKemKeys st p p'.
Proof.
  intros c Hp Hm (Ha&Ho&_). cbn in Hm. apply stopped_ffi_call_i32. rewrite Hm.
  wp_next @wp_entries; [done..|]. unfold enumerate_kem_keys_internal. apply wp_bind.
  wp_next @wp_list_all_keys_poisoned; [done|]. by apply stops_panic.
Qed.

Lemma generate_binding_stops a al e u k kl p :
  let c := GenerateBindingKeypairCall a al e u k kl in
  p_poisoned p = true → ws_malformed c = false → ws_buffers c (p_mem p) →
  ∃ st p', ws_run c p = (Ok (Status_as_i32 st), p') ∧ stopped True GenerateBindingKeypair st p p'.
Proof.
  intros c Hp Hm (Ha&Hu&Hk). cbn in Hm. destruct (valid_points_to _ _ _ Ha) as (algo&Halgo&<-).
  apply stopped_ffi_call. rewrite Hm. wp_read. wp_out. wp_out.
  apply wp_bind. destruct (HpkeAlgorithm_decode algo) as [al'|]; cbn [ok_or]; [|by split_and!].
  apply wp_ret. cbn [chain]. apply wp_bind, wp_bind, wp_in_sys_wp.
  eapply wp_mono; [apply create_binding_key_cases|]. intros o s' Ho. cbn beta in Ho.
  case_decide; [|by subst o]. destruct o as [r|er| |]; cbn [chain]; [| |done..].
  2: { split_and!; try done. by destruct Ho as [->|[-> _]]. }
  destruct Ho as (pk&Hspec&_). rewrite Hspec. apply wp_bind, wp_ret. cbn [chain].
  wp_next @wp_add_key_poisoned; [done|]. by apply stops_panic.
Qed.

Lemma destroy_binding_stops u p :
  let c := DestroyBindingKeyCall u in
  p_poisoned p = true → ws_malformed c = false → ws_buffers c (p_mem p) →
  ∃ st p', ws_run c p = (Ok (Status_as_i32 st), p') ∧ stopped False DestroyBindingKey st p p'.
Proof.
  intros c Hp Hm Hu. cbn in Hm, Hu. destruct (valid_uuid _ _ Hu) as [i Hi].
  apply stopped_ffi_call. rewrite Hm. wp_next @wp_from_raw_parts; [done|by rewrite lenN_uuid|].
  rewrite lenN_uuid. change (16 =? 16)%N with true. cbn [negb].
  apply wp_bind. change (map_err _ (ret ?b)) with (@ret Proc Status bytes b). apply wp_ret. cbn [chain].
  wp_next @wp_remove_key_poisoned; [done|]. by apply stops_panic.
Qed.

Lemma destroy_all_stops p :
  p_poisoned p = true →
  ∃ st p', ws_run DestroyAllBindingKeysCall p = (Ok (Status_as_i32 st), p') ∧ stopped False DestroyAllBindingKeys st p p'.
Proof.
  intros Hp. apply stopped_ffi_call. wp_next @wp_remove_all_keys_poisoned; [done|]. by apply stops_panic.
Qed.

Lemma open_stops u e el ct cl a al o ol p :
  let c := OpenCall u e el ct cl a al o ol in
  p_poisoned p = true → ws_malformed c = false → ws_buffers c (p_mem p) →
  ∃ st p', ws_run c p = (Ok (Status_as_i32 st), p') ∧ stopped False Open st p p'.
Proof.
  intros c Hp Hm (Hu&He&Hc&Ha&Ho). cbn in Hm.
  destruct (valid_uuid _ _ Hu) as [i Hi], (valid_points_to _ _ _ He) as (enc&Henc&<-),
    (valid_points_to _ _ _ Hc) as (ctb&Hct&<-), (valid_opt _ _ _ Ha) as [aad Haad].
  apply stopped_ffi_call. rewrite Hm.
  wp_next @wp_from_raw_parts; [done|by rewrite lenN_uuid|]. wp_read. wp_read.
  wp_next @wp_opt_slice; [done|]. wp_out.
  unfold uuid_of_slice. rewrite Uuid_from_as. apply wp_bind, wp_Some. cbn [chain].
  unfold open_internal. apply wp_bind. wp_next @wp_get_key_poisoned; [done|]. by apply stops_panic.
Qed.

Lemma get_binding_key_stops u k kl a al p :
  let c := GetBindingKeyCall u k kl a al in
  p_poisoned p = true → ws_malformed c = false → ws_buffers c (p_mem p) →
  ∃ st p', ws_run c p = (Ok (Status_as_i32 st), p') ∧ stopped False GetBindingKey st p p'.
Proof.
  intros c Hp Hm (Hu&Hk&Hal&n&Hn&Hlt&Ha). cbn in Hm. destruct (valid_uuid _ _ Hu) as [i Hi].
  apply stopped_ffi_call. rewrite Hm.
  wp_next @wp_from_raw_parts; [done|by rewrite lenN_uuid|]. wp_out.
  wp_next @wp_read_u64; [done..|]. wp_out.
  unfold uuid_of_slice. rewrite Uuid_from_as. apply wp_bind, wp_Some. cbn [chain].
  unfold get_binding_key_internal. apply wp_bind. wp_next @wp_get_key_poisoned; [done|]. by apply stops_panic.
Qed.

Lemma enumerate_binding_stops o n off h p :
  let c := EnumerateBindingKeysCall o n off h in
  p_poisoned p = true → ws_malformed c = false → ws_buffers c (p_mem p) →
  ∃ st p', ws_run c p = (Ok (- Status_as_i32 st)%Z, p') ∧ stopped False EnumerateBindingKeys st p p'.
Proof.
  intros c Hp Hm (Ha&Ho&_). cbn in Hm. apply stopped_ffi_call_i32. rewrite Hm.
  wp_next @wp_entries; [done..|]. unfold enumerate_binding_keys_internal. apply wp_bind.
  wp_next @wp_list_all_keys_poisoned; [done|]. by apply stops_panic.
Qed.

Lemma stopped_mono (P Q : Prop) op st p p' : (P → Q) → stopped P op st p p' → stopped Q op st p p'.
Proof. unfold stopped. tauto. Qed.

Lemma malformed_stopped op p :
  stopped True op InvalidArgument p (report_to_tel (mkFailure op InvalidArgument FailureKind_Error) p) ∨ p_poisoned p = false.
Proof. destruct (p_poisoned p) eqn:Hp; [left|by right]. split_and!; try done. by left. Qed.

Lemma kps_stops c p :
  p_poisoned p = true → kps_contract c p →
  ∃ st p', kps_run c p = (Ok (kps_code c st), p') ∧
    stopped (kps_malformed c = true ∨ ∃ i, kps_makes c p i) (kps_operation c) st p p'.
Proof.
  intros Hp Hc. destruct (kps_malformed c) eqn:Hm.
  { rewrite (kps_malformed_run _ _ Hm). eexists _, _. split; [done|].
    destruct (malformed_stopped (kps_operation c) p) as [Hs|?]; [|congruence]. by eapply stopped_mono; [|exact Hs]; auto. }
  destruct Hc as [Hc|Hb]; [congruence|].
  destruct c; [edestruct generate_kem_stops as (st&p'&Hr&Hs)|edestruct destroy_kem_stops as (st&p'&Hr&Hs)|
    edestruct enumerate_kem_stops as (st&p'&Hr&Hs)|edestruct decap_and_seal_stops as (st&p'&Hr&Hs)|
    edestruct get_kem_key_stops as (st&p'&Hr&Hs)]; try done;
    exists st, p'; (split; [exact Hr|]); (eapply stopped_mono; [|exact Hs]); try done.
  intros _. right. by eexists.
Qed.

Lemma ws_stops c p :
  p_poisoned p = true → ws_contract c p →
  ∃ st p', ws_run c p = (Ok (ws_code c st), p') ∧
    stopped (ws_malformed c = true ∨ ∃ i, ws_makes c p i) (ws_operation c) st p p'.
Proof.
  intros Hp Hc. destruct (ws_malformed c) eqn:Hm.
  { rewrite (ws_malformed_run _ _ Hm). eexists _, _. split; [done|].
    destruct (malformed_stopped (ws_operation c) p) as [Hs|?]; [|congruence]. by eapply stopped_mono; [|exact Hs]; auto. }
  destruct Hc as [Hc|Hb]; [congruence|].
  destruct c; [edestruct generate_binding_stops as (st&p'&Hr&Hs)|edestruct destroy_binding_stops as (st&p'&Hr&Hs)|
    edestruct destroy_all_stops as (st&p'&Hr&Hs)|edestruct open_stops as (st&p'&Hr&Hs)|
    edestruct enumerate_binding_stops as (st&p'&Hr&Hs)|edestruct get_binding_key_stops as (st&p'&Hr&Hs)]; try done;
    exists st, p'; (split; [exact Hr|]); (eapply stopped_mono; [|exact Hs]); try done.
  intros _. right. by eexists.
Qed.
End calls.

(** C13: a panic in one thread stays contained: when a thread died holding the
    registry's lock, every later call of either service, within its contract,
    still returns, without undefined behaviour; it never succeeds, changes no key
    and no byte of the caller's memory; a call that reaches the lock reports the
    panic hook's event and then one failure, [InternalError]; only a malformed
    call or a generation can fail earlier, with its own error.  Every secret made
    on the way is overwritten before it is given back, no descriptor stays
    open, and the reaper passes the lock over. *)
Theorem poisoned_lock_contained `{PlatformLaws} :
  (∀ c p, p_poisoned p = true → kps_contract c p →
     ∃ st p', kps_run c p = (Ok (kps_code c st), p') ∧
       stopped (kps_malformed c = true ∨ ∃ i, kps_makes c p i) (kps_operation c) st p p' ∧
       open_fds (p_sys p') = open_fds (p_sys p) ∧
       ∃ new, released (p_sys p') = new ++ released (p_sys p) ∧ Forall all_zero new) ∧
  (∀ c p, p_poisoned p = true → ws_contract c p →
     ∃ st p', ws_run c p = (Ok (ws_code c st), p') ∧
       stopped (ws_malformed c = true ∨ ∃ i, ws_makes c p i) (ws_operation c) st p p' ∧
       open_fds (p_sys p') = open_fds (p_sys p) ∧
       ∃ new, released (p_sys p') = new ++ released (p_sys p) ∧ Forall all_zero new) ∧
  (∀ p, p_poisoned p = true → @reaper_round _ Status p = (Ok tt, ticked p)).
Proof.
  split_and!.
  - intros c p Hp Hc. destruct (kps_stops c p Hp Hc) as (st&p'&Hr&Hs). exists st, p'.
    assert (call_rel p p') as [[_ _ ? ?] _ _ _ _]
      by (by eapply steps_run; [apply (service_steps (ServiceLaws := Kps_laws) c)|]).
    by split_and!.
  - intros c p Hp Hc. destruct (ws_stops c p Hp Hc) as (st&p'&Hr&Hs). exists st, p'.
    assert (call_rel p p') as [[_ _ ? ?] _ _ _ _]
      by (by eapply steps_run; [apply (service_steps (ServiceLaws := Ws_laws) c)|]).
    by split_and!.
  - intros p Hp. by rewrite reaper_round_run, Hp.
Qed.

(** A service whose lock was poisoned, its memory holding some handle and an
    algorithm. *)
Definition poisoned_proc : Proc :=
  mkProc _ init_sys ∅ true (write_bytes (write_bytes ∅ 8 (zeros 200)) 128 (HpkeAlgorithm_encode_to_vec x25519_suite))
    (install_telemetry "kps" init_telemetry).

(** A generation panics at the lock, having dropped its key; so does a destruction. *)
Lemma poisoned_lock_contained_witness :
  (∃ p', ws_run (GenerateBindingKeypairCall 128 6 60 16 64 32) poisoned_proc = (Ok (Status_as_i32 InternalError), p') ∧
     p_keys p' = ∅ ∧ p_mem p' = p_mem poisoned_proc ∧ length (released (p_sys p')) = 2 ∧
     Forall all_zero (released (p_sys p'))) ∧
  (∃ p', kps_run (DestroyKemKeyCall 16) poisoned_proc = (Ok (Status_as_i32 InternalError), p') ∧
     length (events (p_tel p')) = 2).
Proof.
  split.
  - assert (ws_contract (GenerateBindingKeypairCall 128 6 60 16 64 32) poisoned_proc) as Hc by (right; split_and!; by_compute).
    destruct (proj1 (proj2 poisoned_lock_contained) _ poisoned_proc eq_refl Hc) as (st&p'&Hr&(_&_&Hk&Hm&_)&_&new&Hn&Hz).
    assert (fst (ws_run (GenerateBindingKeypairCall 128 6 60 16 64 32) poisoned_proc) = Ok (Status_as_i32 InternalError) ∧
      length (released (p_sys (snd (ws_run (GenerateBindingKeypairCall 128 6 60 16 64 32) poisoned_proc)))) = 2) as [Hst Hl]
      by (split; vm_compute; reflexivity).
    rewrite Hr in Hst, Hl. exists p'. cbn [fst snd] in Hst, Hl. rewrite Hr, Hst. split_and!; [reflexivity|exact Hk|exact Hm|exact Hl|].
    rewrite Hn, app_nil_r. exact Hz.
  - assert (kps_contract (DestroyKemKeyCall 16) poisoned_proc) as Hc by (right; by_compute).
    destruct (proj1 poisoned_lock_contained _ poisoned_proc eq_refl Hc) as (st&p'&Hr&(_&_&_&_&He)&_).
    destruct He as [[[?|[? []]] _]|[-> Ht]]; [discriminate|]. exists p'. split; [exact Hr|]. rewrite Ht. vm_compute. reflexivity.
Defined.
