(* ===== verification/CryptoTheorems.v ===== *)
(** * What holds of the cryptographic core

    The properties of x25519.rs, crypto.rs and of key creation in key_types.rs,
    each with an instance on the reference platform. *)

From S2P Require Import Prelude Effects RustStd Proto Platform RefPlatform SecretBox ProtectedMem X25519.
From S2P Require Import Crypto KeyTypes.
Import RefInstances.

(** Inputs of the examples. *)
Definition example_secret : bytes := le_bytes 32 7.
Definition example_public : PublicKey := PublicKey_X25519 (mkX25519PublicKey (X25519_to_public example_secret)).
Definition example_private : PrivateKey := PrivateKey_from (mkSecretBox example_secret).
Definition example_sys : Sys := mkSys 3 5 8 {[4%Z]} [].

(** C17: decapsulation is RFC 9180's [Decap]: for a 32-byte private key and a
    32-byte encapsulated key it returns exactly the shared secret of the RFC, and
    every other input is refused with the documented status, whatever the state. *)
Theorem decaps_implements_rfc9180 `{PlatformLaws} (sk : X25519PrivateKey) (enc : bytes) (s : Sys) :
  let skR := SecretBox_as_slice (X25519PrivateKey_secret sk) in
  fst (decaps (PrivateKey_X25519 sk) enc s) =
    if decide (length skR = 32) then
      if decide (length enc = 32) then
        match Decap enc skR with
        | Some shared_secret => Ok (mkSecretBox shared_secret)
        | None => Err DecapsulationFailure
        end
      else Err DecapsulationFailure
    else Err InvalidArgument.
Proof. unfold decaps. rewrite clear_stack_transparent. apply outcome_decaps. Qed.

Lemma decaps_implements_rfc9180_witness :
  fst (decaps example_private (X25519_to_public (le_bytes 32 9)) example_sys) =
    match Decap (X25519_to_public (le_bytes 32 9)) example_secret with
    | Some shared_secret => Ok (mkSecretBox shared_secret)
    | None => Err DecapsulationFailure
    end ∧
  is_Some (Decap (X25519_to_public (le_bytes 32 9)) example_secret).
Proof.
  split; [exact (decaps_implements_rfc9180 (mkX25519PrivateKey (mkSecretBox example_secret))
                   (X25519_to_public (le_bytes 32 9)) example_sys)|by_compute].
Defined.

(** C18: the client's encapsulation and the module's decapsulation agree: what
    [encap] returned for a public key, the holder of its private key recovers,
    in any state, and the encapsulated key is 32 bytes. *)
Theorem encap_then_decaps `{PlatformLaws} (pk : PublicKey) (secret : bytes) (s s' : Sys)
    (shared_secret : SecretBox) (enc : bytes) :
  is_key_pair pk secret →
  fst (encap pk s) = Ok (shared_secret, enc) →
  length enc = 32 ∧ length (SecretBox_as_slice shared_secret) = 32 ∧
  fst (decaps (PrivateKey_from (mkSecretBox secret)) enc s') = Ok shared_secret.
Proof. intros Hkp Henc. destruct (encap_decaps _ _ _ _ _ Hkp Henc) as (?&?&Hd). auto. Qed.

Lemma encap_then_decaps_witness :
  ∃ shared_secret enc, fst (encap example_public example_sys) = Ok (shared_secret, enc) ∧
    fst (decaps example_private enc init_sys) = Ok shared_secret.
Proof.
  eexists _, _. split; [vm_compute; reflexivity|].
  apply (encap_then_decaps example_public example_secret example_sys init_sys).
  - split; by_compute.
  - vm_compute. reflexivity.
Defined.

(** C19: HPKE round trip: a message sealed to a public key under the module's
    suite is opened by the holder of the private key, with the same additional
    data, in any later state; the sizes are those the callers allocate. *)
Theorem hpke_round_trip `{PlatformLaws} (pk : PublicKey) (secret : bytes) (plaintext : SecretBox)
    (aad : bytes) (s s' : Sys) (enc ciphertext : bytes) :
  is_key_pair pk secret →
  fst (hpke_seal pk plaintext aad x25519_suite s) = Ok (enc, ciphertext) →
  length enc = 32 ∧ length ciphertext = length (SecretBox_as_slice plaintext) + 16 ∧
  fst (hpke_open (PrivateKey_from (mkSecretBox secret)) enc ciphertext aad x25519_suite s') = Ok plaintext.
Proof.
  intros Hkp Hs. destruct (hpke_seal_lengths _ _ _ _ _ _ Hs). split_and!; [done..|].
  by apply (hpke_seal_open pk secret plaintext aad s).
Qed.

Lemma hpke_round_trip_witness :
  ∃ enc ct, fst (hpke_seal example_public (mkSecretBox (lit "secret")) (lit "aad") x25519_suite example_sys) = Ok (enc, ct) ∧
    fst (hpke_open example_private enc ct (lit "aad") x25519_suite init_sys) = Ok (mkSecretBox (lit "secret")).
Proof.
  eexists _, _. split; [vm_compute; reflexivity|].
  apply (hpke_round_trip example_public example_secret (mkSecretBox (lit "secret")) (lit "aad") example_sys init_sys).
  - split; by_compute.
  - vm_compute. reflexivity.
Defined.

(** An algorithm suite other than X25519, HKDF-SHA256, AES-256-GCM is refused
    by sealing, opening and key creation alike, before any randomness is drawn,
    any system call is made or any secret is copied. *)
Theorem unsupported_suite_refused `{PlatformLaws} (algo : HpkeAlgorithm) (pk : PublicKey) (sk : PrivateKey)
    (plaintext : SecretBox) (enc ciphertext aad : bytes) (expiry : Z) (s : Sys) :
  algo ≠ x25519_suite →
  hpke_seal pk plaintext aad algo s = (Err UnsupportedAlgorithm, s) ∧
  hpke_open sk enc ciphertext aad algo s = (Err UnsupportedAlgorithm, s) ∧
  create_binding_key algo expiry s = (Err UnsupportedAlgorithm, s) ∧
  create_bound_kem_key algo pk expiry s =
    (Err (if (kem algo =? 1)%Z then UnsupportedAlgorithm else InvalidKey), s).
Proof.
  intros Hne. split_and!; [by apply hpke_seal_unsupported|by apply hpke_open_unsupported|
    by apply create_key_internal_unsupported|by apply create_bound_kem_key_unsupported].
Qed.

Lemma unsupported_suite_refused_witness :
  hpke_seal example_public (mkSecretBox (lit "m")) [] (mkHpkeAlgorithm 1 1 2) example_sys
    = (Err UnsupportedAlgorithm, example_sys) ∧
  create_bound_kem_key (mkHpkeAlgorithm 0 1 1) example_public 60 example_sys = (Err InvalidKey, example_sys).
Proof.
  split.
  - apply (unsupported_suite_refused (mkHpkeAlgorithm 1 1 2) example_public example_private
             (mkSecretBox (lit "m")) [] [] [] 0 example_sys). by_compute.
  - apply (unsupported_suite_refused (mkHpkeAlgorithm 0 1 1) example_public example_private
             (mkSecretBox (lit "m")) [] [] [] 60 example_sys). by_compute.
Defined.

(** C29: key creation for the supported suite either stores a fresh key pair whose
    secret is in a vault, created now and expiring exactly [expiry] later, or
    fails with [CryptoError] (the kernel refused the vault) or, when the expiry
    is past the clock's last second, with [UnsupportedAlgorithm]; on every path
    the copies of the secret that were given back are zeroed and no descriptor
    stays open. *)
Theorem create_binding_key_spec `{PlatformLaws} (expiry : Z) (s : Sys) :
  let s' := snd (create_binding_key x25519_suite expiry s) in
  (match fst (create_binding_key x25519_suite expiry s) with
   | Ok r =>
       ∃ pk, spec (meta r) = Binding x25519_suite pk ∧ is_key_pair pk (mmap (private_key r)) ∧
         created_at (meta r) = clock (clock_reads s) ∧
         delete_after (meta r) = (clock (clock_reads s) + expiry)%Z ∧
         (delete_after (meta r) / nanos_per_sec ≤ i64_max)%Z
   | Err e => e = CryptoError ∨
              e = UnsupportedAlgorithm ∧ (i64_max < (clock (clock_reads s) + expiry) / nanos_per_sec)%Z
   | Panic | Ub => False
   end) ∧
  open_fds s' = open_fds s ∧ ∃ new, released s' = new ++ released s ∧ Forall all_zero new ∧ new ≠ [].
Proof.
  split; [|apply create_key_internal_released].
  pose proof (create_key_internal_cases expiry Binding s) as Hc. unfold create_binding_key in *.
  destruct (fst _) as [r|e| |]; [|done..]. destruct Hc as (pk&?&?&?&Hcr&Hd&?). exists pk. rewrite Hcr in Hd. auto.
Qed.

Lemma create_binding_key_spec_witness :
  ∃ r, fst (create_binding_key x25519_suite 60 example_sys) = Ok r ∧
    delete_after (meta r) = (clock (clock_reads example_sys) + 60)%Z.
Proof.
  pose proof (create_binding_key_spec 60 example_sys) as [Hc _].
  assert (is_ok (fst (create_binding_key x25519_suite 60 example_sys)) = true) as Hok by (vm_compute; reflexivity).
  destruct (fst (create_binding_key x25519_suite 60 example_sys)) as [r|e| |]; [|discriminate..].
  exists r. split; [done|]. by destruct Hc as (pk&_&_&_&Hd&_).
Defined.
