(* ===== verification/BoundaryTheorems.v ===== *)
(** * What holds of secrets in memory, statuses, telemetry and the FFI boundary

    The properties of secret_box.rs, protected_mem.rs, keymanager.rs,
    telemetry.rs and lib.rs of km_common. *)

From S2P Require Import Prelude Effects RustStd Proto Platform RefPlatform SecretBox ProtectedMem X25519.
From S2P Require Import Crypto Telemetry KeyTypes Process.
Import RefInstances.

Definition example_state : Sys := mkSys 3 5 8 {[4%Z]} [lit "old"].

(** A caller's memory with a name at address 64. *)
Definition example_name (b : bytes) : Memory := write_bytes ∅ 64 b.

(** A [SecretBox] holds exactly the contents of the vector it was made
    from, whatever the vector's capacity; the over-allocated buffer, when there
    is one, is zeroed over its whole capacity before it is given back, and the
    box itself is zeroed in full when it is dropped. *)
Theorem SecretBox_new_and_drop `{PlatformLaws} (v : Vec) (s : Sys) :
  Vec_wf v →
  ∃ s', @SecretBox_new _ Status v s = (Ok (mkSecretBox (Vec_as_slice v)), s') ∧
    released s' = (if vec_len v <? Vec_capacity v then [zeros (Vec_capacity v)] else []) ++ released s ∧
    released (SecretBox_drop (mkSecretBox (Vec_as_slice v)) s') = zeros (vec_len v) :: released s'.
Proof.
  intros Hwf. destruct (SecretBox_new_spec (E := Status) v s Hwf) as (s'&Hr&Hs'). exists s'. split; [done|]. split.
  - destruct (Nat.ltb_spec (vec_len v) (Vec_capacity v)) as [Hlt|Hge].
    + unfold SecretBox_new in Hr. rewrite (proj2 (Nat.ltb_lt _ _) Hlt) in Hr.
      rewrite bind_modify, zeroize_zeros in Hr. by injection Hr as <-.
    + destruct Hs' as [->|[? _]]; [done|lia].
  - simpl. rewrite zeroize_zeros. unfold Vec_as_slice. rewrite length_take.
    unfold Vec_wf, Vec_capacity in *. by rewrite Nat.min_l.
Qed.

Lemma SecretBox_new_and_drop_witness :
  ∃ s', @SecretBox_new _ Status (mkVec (lit "key????") 3) example_state = (Ok (mkSecretBox (lit "key")), s') ∧
    released s' = [zeros 7; lit "old"].
Proof.
  destruct (SecretBox_new_and_drop (mkVec (lit "key????") 3) example_state) as (s'&Hr&Hrel&_).
  - unfold Vec_wf. vm_compute. lia.
  - exists s'. split; [exact Hr|]. rewrite Hrel. vm_compute. reflexivity.
Defined.

(** C30: creating a vault either fails with an I/O error or yields a mapping with
    exactly the secret (the panic of [copy_from_slice] is unreachable); on every
    path the source secret is zeroed, nothing else is given back, and the
    descriptor is closed. *)
Theorem Vault_new_spec `{PlatformLaws} (data : SecretBox) (s : Sys) :
  (fst (Vault_new data s) = Ok (mkVault (SecretBox_as_slice data)) ∨
   fst (Vault_new data s) = Err IoError_last_os_error) ∧
  released (snd (Vault_new data s)) = zeros (length (SecretBox_as_slice data)) :: released s ∧
  open_fds (snd (Vault_new data s)) = open_fds s.
Proof. split; [destruct (Vault_new_outcome data s); auto|apply Vault_new_released]. Qed.

Lemma Vault_new_spec_witness :
  released (snd (Vault_new (mkSecretBox (lit "key")) example_state)) = [zeros 3; lit "old"] ∧
  open_fds (snd (Vault_new (mkSecretBox (lit "key")) example_state)) = {[4%Z]}.
Proof. exact (proj2 (Vault_new_spec (mkSecretBox (lit "key")) example_state)). Defined.

(** Proto names and discriminants identify the variants of every
    enumeration: reading a name back gives the variant, no other string is
    accepted, and distinct variants have distinct discriminants. *)
Theorem proto_names_round_trip :
  (∀ s a, Status_from_str_name s = Some a ↔ s = Status_as_str_name a) ∧
  (∀ s a, KemAlgorithm_from_str_name s = Some a ↔ s = KemAlgorithm_as_str_name a) ∧
  (∀ s a, KdfAlgorithm_from_str_name s = Some a ↔ s = KdfAlgorithm_as_str_name a) ∧
  (∀ s a, AeadAlgorithm_from_str_name s = Some a ↔ s = AeadAlgorithm_as_str_name a) ∧
  Inj (=) (=) Status_as_i32 ∧ Inj (=) (=) KemAlgorithm_as_i32 ∧
  Inj (=) (=) KdfAlgorithm_as_i32 ∧ Inj (=) (=) AeadAlgorithm_as_i32.
Proof.
  split_and!;
    [exact (enum_names (A := Status))|exact (enum_names (A := KemAlgorithm))|
     exact (enum_names (A := KdfAlgorithm))|exact (enum_names (A := AeadAlgorithm))|
     exact (enum_as_i32_inj (A := Status))|exact (enum_as_i32_inj (A := KemAlgorithm))|
     exact (enum_as_i32_inj (A := KdfAlgorithm))|exact (enum_as_i32_inj (A := AeadAlgorithm))].
Qed.

(** The operations are told apart in telemetry: their names are pairwise
    distinct and made of lower-case letters, digits and underscores. *)
Theorem operation_names_unique :
  Inj (=) (=) KccOperation_as_str ∧
  ∀ op, KccOperation_as_str op ≠ "" ∧ forallb snake_case_char (lit (KccOperation_as_str op)) = true.
Proof.
  split; [intros [] []; vm_compute; intros ?; by simplify_eq|].
  by intros []; split.
Qed.

(** The boundary turns each outcome of an entry point into its status and
    its events: success reports nothing; an error is returned and reported once
    under the operation's name; a panic becomes [InternalError], reported after
    the sanitized event of the panic hook; nothing else of the process changes. *)
Theorem ffi_call_reports `{Platform} (op : KccOperation) (f : M Proc Status unit) (p : Proc) :
  let '(o, p1) := f p in
  let '(r, p2) := ffi_call op f p in
  let line st kind := mkEvent "rust_kcc"
    [("operation", KccOperation_as_str op); ("status", Status_as_str_name st);
     ("failure_kind", kind); ("service.name", get_service_name (p_tel p1))] "kcc_operation_failed" in
  let logged new := if subscriber_set (p_tel p1) then new ++ events (p_tel p1) else events (p_tel p1) in
  p2 = set_tel (p_tel p2) p1 ∧
  match o with
  | Ok _ => r = Ok Success ∧ events (p_tel p2) = events (p_tel p1)
  | Err st => r = Ok st ∧ events (p_tel p2) = logged [line st "error"]
  | Panic =>
      r = Ok InternalError ∧
      events (p_tel p2) =
        logged (line InternalError "panic" :: (if panic_hook_set (p_tel p1) then [panic_event (p_tel p1)] else []))
  | Ub => r = Ub
  end.
Proof.
  unfold ffi_call, ffi_call_with_reporter. destruct (f p) as [[[]|e| |] p1].
  - split; [by destruct p1|done].
  - split; [done|]. split; [done|]. apply emit_events.
  - split; [done|]. split; [done|]. cbn. unfold report_failure, failure_event. rewrite emit_events.
    unfold run_panic_hook, emit, get_service_name.
    destruct (panic_hook_set (p_tel p1)), (subscriber_set (p_tel p1)) eqn:Hs; simpl; by rewrite ?Hs.
  - split; [by destruct p1|done].
Qed.

(** The service name of telemetry is the one of the first initialisation: a
    name that is not valid UTF-8, empty or null stands for the default, and a
    later call changes neither the name nor the events already written. *)
Theorem first_service_name_wins (ptr len : N) (m : Memory) (t : Telemetry) (name : bytes) :
  read_bytes m ptr (N.to_nat len) = Some name → (len ≤ isize_max)%N →
  let '(o, (m', t')) := @key_manager_init_telemetry Status ptr len (m, t) in
  o = Ok tt ∧ m' = m ∧ events t' = events t ∧ subscriber_set t' = true ∧ panic_hook_set t' = true ∧
  get_service_name t' =
    match service_name t with
    | Some first => first
    | None =>
        if is_null ptr || (len =? 0)%N then default_service_name
        else if utf8_valid name then String.string_of_list_byte name else default_service_name
    end.
Proof.
  intros Hread Hlen. unfold key_manager_init_telemetry, bind, modify, ret, zoom, from_raw_parts.
  assert (∀ n, let t' := install_telemetry n t in
    events t' = events t ∧ subscriber_set t' = true ∧ panic_hook_set t' = true ∧
    get_service_name t' = match service_name t with Some first => first | None => n end) as Hinst.
  { intros n. unfold install_telemetry, set_service_name, get_service_name. by destruct (service_name t) eqn:Hn; simpl; rewrite ?Hn. }
  simpl. destruct (is_null ptr); simpl; [by split_and!; try apply Hinst|].
  destruct (N.eqb_spec len 0); simpl; [by split_and!; try apply Hinst|].
  rewrite (proj2 (N.ltb_ge _ _) Hlen). simpl. rewrite Hread. simpl.
  split_and!; try done; try apply Hinst.
  unfold service_name_of, str_from_utf8. destruct (Hinst (if utf8_valid name then String.string_of_list_byte name else default_service_name)) as (_&_&_&Hn).
  destruct (utf8_valid name); exact Hn.
Qed.

Lemma first_service_name_wins_witness :
  get_service_name (snd (snd (@key_manager_init_telemetry Status 64 8
    (example_name (lit "workload"), init_telemetry)))) = "workload" ∧
  get_service_name (snd (snd (@key_manager_init_telemetry Status 64 2
    (example_name [Byte.xc3; Byte.x28], init_telemetry)))) = "key_protection_service".
Proof.
  split.
  - exact (proj2 (proj2 (proj2 (proj2 (proj2 (first_service_name_wins 64 8 (example_name (lit "workload"))
      init_telemetry (lit "workload") ltac:(vm_compute; reflexivity) ltac:(by_compute))))))).
  - exact (proj2 (proj2 (proj2 (proj2 (proj2 (first_service_name_wins 64 2 (example_name [Byte.xc3; Byte.x28])
      init_telemetry [Byte.xc3; Byte.x28] ltac:(vm_compute; reflexivity) ltac:(by_compute))))))).
Defined.
