(* ===== verification/RegistryTheorems.v ===== *)
(** * What holds of the key registry

    Lookups and their expiry, listings and their pages, the reaper, and the
    shared records under concurrent calls (key_types.rs). *)

From S2P Require Import Prelude Effects RustStd Proto Platform RefPlatform SecretBox ProtectedMem X25519.
From S2P Require Import Crypto Telemetry KeyTypes Process Registry Reaper ArcStore Boundary.
Import RefInstances.

(** A record for the examples: handle [n], created at [n] seconds, living [ttl] seconds. *)
Definition example_record (n ttl : Z) : KeyRecord :=
  mkKeyRecord
    (mkKeyMetadata (u128_of (Z.to_N n)) (n * nanos_per_sec) ((n + ttl) * nanos_per_sec)
       (Binding x25519_suite (PublicKey_X25519 (mkX25519PublicKey (X25519_to_public (le_bytes 32 (Z.to_N n)))))))
    (mkVault (le_bytes 32 (Z.to_N n))).

Definition example_keys : gmap Uuid KeyRecord :=
  list_to_map ((λ r, (id (meta r), r)) <$>
    [example_record 1 10; example_record 2 1; example_record 3 10; example_record 4 10]).

(** Five seconds into the life of the process: key 2 has expired. *)
Definition example_proc : Proc := set_sys (mkSys 5 0 0 ∅ []) (set_keys example_keys (init_proc ∅)).

Lemma example_keys_wf : keys_wf (λ _, True) example_keys.
Proof.
  unfold example_keys. simpl.
  repeat (apply map_Forall_insert_2; [done|]). apply map_Forall_empty.
Qed.

(** C20: pagination covers the registry, in whatever order the hash map yields its
    values when each page is taken: at one instant the pages of size [n] taken at
    offsets [0], [n], [2n], ... concatenate to all live keys, each once, sorted by
    creation time and then by handle, whatever [n > 0]; every page reports their
    exact number, and no expired key is in one. *)
Theorem pages_cover_live_keys `{PlatformLaws} (P : KeyRecord → Prop) (keys : gmap Uuid KeyRecord)
    (now : Z) (n k : nat) (values : nat → list KeyRecord) :
  keys_wf P keys → 0 < n → length (live_sorted now keys) ≤ k * n → (∀ i, values i ≡ₚ map_values keys) →
  let pages := (λ i, list_page now (values i) (N.of_nat (i * n)) (N.of_nat n)) <$> seq 0 k in
  let listed := concat (fst <$> pages) in
  listed = meta <$> live_sorted now keys ∧
  StronglySorted key_order (live_sorted now keys) ∧
  NoDup (id <$> listed) ∧
  (∀ i, i ∈ id <$> listed ↔ ∃ r, keys !! i = Some r ∧ (now < delete_after (meta r))%Z) ∧
  Forall (λ pg, pg.2 = lenN (live_sorted now keys)) pages.
Proof.
  intros Hk Hn Hlen Hval. cbv zeta.
  assert (∀ i o l, list_page now (values i) o l = list_page now (map_values keys) o l) as Hpage.
  { intros i o l. symmetry. apply list_page_permutation; [by eapply map_values_distinct|by symmetry]. }
  assert (concat (fst <$> ((λ i, list_page now (values i) (N.of_nat (i * n)) (N.of_nat n)) <$> seq 0 k))
          = meta <$> live_sorted now keys) as Hl.
  { rewrite <- list_fmap_compose.
    transitivity (meta <$> concat ((λ i, take n (drop (i * n) (live_sorted now keys))) <$> seq 0 k)).
    - rewrite fmap_concat. f_equal. rewrite <- list_fmap_compose. apply list_fmap_ext. intros i j _. unfold compose.
      rewrite Hpage, list_page_spec. cbn [fst]. by rewrite !Nat2N.id.
    - rewrite concat_segments. by rewrite take_ge. }
  rewrite Hl. split_and!; [done|apply live_sorted_sorted| | |].
  - rewrite <- list_fmap_compose. by eapply live_sorted_distinct.
  - intros i. by eapply elem_of_listed.
  - apply Forall_fmap, list.Forall_forall. intros i _. unfold compose. by rewrite Hpage, list_page_spec.
Qed.

Lemma pages_cover_live_keys_witness :
  concat (fst <$> ((λ i, list_page (5 * nanos_per_sec) (reverse (map_values example_keys)) (N.of_nat (i * 2)) 2) <$> seq 0 2))
    = meta <$> live_sorted (5 * nanos_per_sec) example_keys ∧
  length (live_sorted (5 * nanos_per_sec) example_keys) = 3.
Proof.
  split; [|vm_compute; reflexivity].
  refine (proj1 (pages_cover_live_keys (λ _, True) example_keys (5 * nanos_per_sec) 2 2
    (λ _, reverse (map_values example_keys)) example_keys_wf _ _ _)).
  - lia.
  - by_compute.
  - intros _. apply reverse_Permutation.
Defined.

(** A round of the reaper removes exactly the expired keys: afterwards no
    stored key is past its expiry, every live key is still there, each removed
    record's vault was zeroed in full, and the caller's memory, the telemetry and
    the lock are untouched; under a poisoned lock it does nothing and does not
    panic. *)
Theorem reaper_round_removes_expired `{PlatformLaws} (p : Proc) :
  let '(o, p') := @reaper_round _ Status p in
  o = Ok tt ∧ p_mem p' = p_mem p ∧ p_tel p' = p_tel p ∧ p_poisoned p' = p_poisoned p ∧
  if p_poisoned p then p_keys p' = p_keys p
  else
    (∀ i r, p_keys p' !! i = Some r ↔ p_keys p !! i = Some r ∧ (proc_now p < delete_after (meta r))%Z) ∧
    reaped (proc_now p) (p_keys p') ∧
    ∃ dead, dead ≡ₚ filter (λ r, expired (proc_now p) r = true) (map_values (p_keys p)) ∧
      released (p_sys p') = ((λ r, zeros (length (mmap (private_key r)))) <$> dead) ++ released (p_sys p).
Proof.
  rewrite reaper_round_run. destruct (p_poisoned p) eqn:Hp; [done|].
  destruct (retain_live_fields (proc_now p) (ticked p)) as (Hq&Hm&Ht&_).
  split_and!; [done|by rewrite Hm|by rewrite Ht|by rewrite Hq| | |].
  - intros i r. exact (lookup_retain_live (proc_now p) (ticked p) i r).
  - intros i r Hr. by apply lookup_retain_live in Hr as [_ ?].
  - apply (retain_live_released (proc_now p) (ticked p)).
Qed.

Lemma reaper_round_removes_expired_witness :
  size (p_keys (snd (@reaper_round _ Status example_proc))) = 3 ∧
  p_mem (snd (@reaper_round _ Status example_proc)) = p_mem example_proc.
Proof.
  pose proof (reaper_round_removes_expired example_proc) as Hr.
  split; [vm_compute; reflexivity|].
  destruct (@reaper_round _ Status example_proc) as [o p']. by destruct Hr as (_&Hm&_).
Defined.

(** The reaper runs until its stop flag is seen: it never fails; when it
    wakes up to a set flag it leaves the process as the other threads left it and
    does nothing more; until then every waking is one round. *)
Theorem reaper_stops `{PlatformLaws} (before after : list ((Proc → Proc) * bool)) (others : Proc → Proc) (p : Proc) :
  Forall (λ sl, sl.2 = false) before →
  fst (@start_reaper _ Status (before ++ (others, true) :: after) p) = Ok tt ∧
  snd (@start_reaper _ Status (before ++ (others, true) :: after) p) =
    others (foldl (λ q sl, snd (@reaper_round _ Empty_set (sl.1 q))) p before).
Proof. intros Hb. by rewrite start_reaper_clear. Qed.

Lemma reaper_stops_witness :
  fst (@start_reaper _ Status [(ticked, false); (ticked, true); (ticked, false)] example_proc) = Ok tt ∧
  snd (@start_reaper _ Status [(ticked, false); (ticked, true); (ticked, false)] example_proc) =
    ticked (snd (@reaper_round _ Empty_set (ticked example_proc))).
Proof.
  apply (reaper_stops [(ticked, false)] [(ticked, false)] ticked example_proc).
  constructor; [reflexivity|constructor].
Defined.

(** C31: every key is eventually reaped, and none too early. While the stop flag
    stays clear the loop never fails, whatever the other threads do while the reaper
    sleeps. A round that finds the registry's lock unpoisoned removes the keys that
    had expired when it looked at the clock, with their vaults overwritten in full,
    and keeps all others; a round that finds it poisoned passes it over. So if, for
    every time [t], the reaper at some time wakes up at [t] or later to an
    unpoisoned lock, then for every [t] there is a round after which no stored key
    expires at [t] or before. *)
Theorem reaper_eventually_removes `{PlatformLaws} (others : nat → Proc → Proc) (p : Proc) :
  (∀ n, @start_reaper _ Status ((λ i, (others i, false)) <$> seq 0 n) p = (Ok tt, left_by_round others p n)) ∧
  (∀ n, p_poisoned (found_by_round others p n) = true →
     p_keys (left_by_round others p (S n)) = p_keys (found_by_round others p n)) ∧
  (∀ n i r, p_poisoned (found_by_round others p n) = false →
     p_keys (found_by_round others p n) !! i = Some r →
     if (proc_now (found_by_round others p n) <? delete_after (meta r))%Z
     then p_keys (left_by_round others p (S n)) !! i = Some r
     else p_keys (left_by_round others p (S n)) !! i = None ∧
          zeros (length (mmap (private_key r))) ∈ released (p_sys (left_by_round others p (S n)))) ∧
  ((∀ t, ∃ n, p_poisoned (found_by_round others p n) = false ∧ (t ≤ proc_now (found_by_round others p n))%Z) →
   ∀ t, ∃ n, map_Forall (λ _ r, (t < delete_after (meta r))%Z) (p_keys (left_by_round others p (S n)))).
Proof.
  assert (∀ n, left_by_round others p (S n) =
            if p_poisoned (found_by_round others p n) then ticked (found_by_round others p n)
            else retain_live (proc_now (found_by_round others p n)) (ticked (found_by_round others p n))) as Hleft.
  { intros n. cbn [left_by_round]. fold (found_by_round others p n). rewrite reaper_round_run. by case_match. }
  split_and!.
  - intros n. apply left_by_round_run.
  - intros n Hn. by rewrite Hleft, Hn.
  - intros n i r Hn Hr. rewrite Hleft, Hn. case_match; bool_props.
    + by apply lookup_retain_live.
    + by apply retain_live_expired.
  - intros Htime t. destruct (Htime t) as (n&Hp&Hn). exists n. rewrite Hleft, Hp.
    intros i r [_ Hlive]%lookup_retain_live. lia.
Qed.

(** The clock stands at minute [n] at the [n]-th waking. *)
Definition every_minute (n : nat) (p : Proc) : Proc :=
  set_sys (mkSys (n * 60) 0 0 ∅ (released (p_sys p))) p.

Lemma reaper_eventually_removes_witness :
  ∃ n, map_Forall (λ _ r, (10 * nanos_per_sec < delete_after (meta r))%Z)
         (p_keys (left_by_round every_minute example_proc (S n))).
Proof.
  refine (proj2 (proj2 (proj2 (reaper_eventually_removes every_minute example_proc))) _ (10 * nanos_per_sec)%Z).
  intros t. exists (Z.to_nat t). split.
  - generalize (Z.to_nat t) as n. intros n. unfold found_by_round. cbn [every_minute set_sys p_poisoned].
    induction n as [|n IH]; [reflexivity|]. cbn [left_by_round]. rewrite reaper_round_run. cbn [snd].
    cbn [every_minute set_sys p_poisoned]. rewrite IH. etrans; [apply retain_live_fields|exact IH].
  - unfold proc_now. cbn. unfold nanos_per_sec. lia.
Defined.

(** C14: no use after zeroing: in every interleaving of additions, removals,
    lookups, reaper rounds and releases, a record that a call still holds (or the
    map still refers to) is allocated, counts its references exactly, and its
    vault holds its secret. *)
Theorem referenced_vault_intact `{PlatformLaws} (s : ArcStore) (a : N) :
  arc_reachable s → a ∈ arc_held s ∨ (∃ i, arc_keys s !! i = Some a) →
  ∃ c, arc_heap s !! a = Some c ∧ mapping c = mmap (private_key (cell_record c)) ∧
    strong c = references s a.
Proof.
  intros Hinv%arc_reachable_inv Ha.
  assert (references s a ≠ 0) as Hr by (destruct Ha as [Ha|[i Hi]]; eauto using references_held, references_key).
  destruct (referenced_intact _ _ Hinv Hr) as (c&Hc&Hm). exists c. split_and!; [done..|].
  destruct Hinv as [[Hok _] _]. by destruct (Hok a c Hc).
Qed.

Definition example_arc : ArcStore := arc_add_key 0 (example_record 1 10) (init_store 0).

(** A key looked up, then removed by another thread, while the first still works. *)
Definition example_store : ArcStore :=
  arc_remove_key (id (meta (example_record 1 10)))
    (arc_get_key (id (meta (example_record 1 10))) example_arc).

Lemma example_arc_reachable : arc_reachable example_arc.
Proof. exists 0%Z. by apply rtc_once, arc_step_add. Qed.

Lemma example_store_reachable : arc_reachable example_store.
Proof.
  destruct example_arc_reachable as [now Hr]. exists now.
  eapply rtc_r; [eapply rtc_r; [exact Hr|apply arc_step_get]|apply arc_step_remove].
Qed.

Lemma referenced_vault_intact_witness :
  arc_held example_store = [0; 0]%N ∧
  ∃ c, arc_heap example_store !! 0%N = Some c ∧ mapping c = mmap (private_key (cell_record c)) ∧
    strong c = references example_store 0.
Proof.
  split; [vm_compute; reflexivity|].
  apply (referenced_vault_intact example_store 0 example_store_reachable). left.
  replace (arc_held example_store) with [0; 0]%N by (vm_compute; reflexivity). left.
Defined.

(** C15: no secret outlives its key: in every interleaving, once a record is out
    of the map and no call holds it any more, its count is zero and its vault was
    overwritten with zeros. *)
Theorem unreferenced_vault_zeroed `{PlatformLaws} (s : ArcStore) (a : N) (c : Cell) :
  arc_reachable s → arc_heap s !! a = Some c →
  a ∉ arc_held s → (∀ i, arc_keys s !! i ≠ Some a) →
  strong c = 0 ∧ all_zero (mapping c).
Proof.
  intros Hinv%arc_reachable_inv Hc Hheld Hkeys. apply (unreferenced_zeroed s a); [done..|].
  unfold references. rewrite (count_not_elem a (arc_held s)) by done.
  rewrite (count_not_elem a (arc_values (arc_keys s))); [done|].
  unfold arc_values. rewrite list_elem_of_fmap. intros ([i b]&->&Hb).
  by apply elem_of_map_to_list, Hkeys in Hb.
Qed.

Definition example_store_done : ArcStore := arc_release 0 (arc_release 0 example_store).

Lemma unreferenced_vault_zeroed_witness :
  ∃ c, arc_heap example_store_done !! 0%N = Some c ∧ strong c = 0 ∧ all_zero (mapping c).
Proof.
  assert (is_Some (arc_heap example_store_done !! 0%N)) as [c Hc] by by_compute.
  exists c. split; [exact Hc|].
  apply (unreferenced_vault_zeroed example_store_done 0 c); [|exact Hc|by_compute|].
  - destruct example_store_reachable as [now Hr]. exists now.
    eapply rtc_r; [eapply rtc_r; [exact Hr|apply (arc_step_release 0)]|apply (arc_step_release 0)].
  - intros i. replace (arc_keys example_store_done) with (∅ : gmap Uuid N) by (symmetry; by_compute).
    by rewrite lookup_empty.
Defined.

(** C16: the shared store implements the registry: in every reachable state each
    operation, run on the process it abstracts to, gives the caller the record
    whose reference the store hands out and leaves the registry that the store's
    map leads to. *)
Theorem arc_store_refines_registry `{PlatformLaws} (s : ArcStore) (p : Proc) :
  arc_reachable s → simulates p s →
  (∀ a r, arc_free s a →
     p_keys (snd (@add_key _ Status r p)) = arc_abs (arc_add_key a r s)) ∧
  (∀ i, fst (@remove_key _ Status i p) = Ok (handed s (arc_remove_key i s)) ∧
     p_keys (snd (@remove_key _ Status i p)) = arc_abs (arc_remove_key i s)) ∧
  (∀ i, fst (@get_key _ Status i p) = Ok (handed s (arc_get_key i s)) ∧
     p_keys (snd (@get_key _ Status i p)) = arc_abs (arc_get_key i s)) ∧
  p_keys (snd (@remove_all_keys _ Status p)) = arc_abs (arc_remove_all_keys s) ∧
  p_keys (snd (@reaper_round _ Status p)) = arc_abs (arc_retain (arc_now s) s) ∧
  (∀ k, arc_abs (arc_release k s) = p_keys p).
Proof.
  intros Hinv%arc_reachable_inv Hsim. split_and!.
  - intros a r Ha. by apply add_refines.
  - intros i. by apply remove_refines.
  - intros i. by apply get_refines.
  - by apply remove_all_refines.
  - by apply reap_refines.
  - intros k. rewrite abs_release. by destruct Hsim as (_&->&_).
Qed.

Lemma arc_store_refines_registry_witness :
  let p := set_keys (arc_abs example_arc) (init_proc ∅) in
  fst (@get_key _ Status (id (meta (example_record 1 10))) p) =
    Ok (handed example_arc (arc_get_key (id (meta (example_record 1 10))) example_arc)).
Proof.
  refine (proj1 (proj1 (proj2 (proj2 (arc_store_refines_registry example_arc
    (set_keys (arc_abs example_arc) (init_proc ∅)) _ _))) (id (meta (example_record 1 10))))).
  - exact example_arc_reachable.
  - split_and!; reflexivity.
Defined.

(** C33: a lookup takes effect at one instant and its result stays good: if
    [get_key] hands out a reference, the record is the one the sequential registry
    returns at that moment, stored under the handle asked for and not yet expired;
    and as long as the call holds on to it, through every interleaving of
    additions, removals, expiries and other calls, the reference leads to that
    same record with its secret in its vault. *)
Theorem looked_up_key_stays_usable `{PlatformLaws} (s : ArcStore) (p : Proc) (i : Uuid) (a : N) :
  arc_reachable s → simulates p s → arc_held (arc_get_key i s) = a :: arc_held s →
  ∃ r, fst (@get_key _ Status i p) = Ok (Some r) ∧
    arc_abs s !! i = Some r ∧ id (meta r) = i ∧ (arc_now s < delete_after (meta r))%Z ∧
    ∀ s', rtc (arc_step_holding a) (arc_get_key i s) s' →
      ∃ c, arc_heap s' !! a = Some c ∧ cell_record c = r ∧ mapping c = mmap (private_key r).
Proof.
  intros Hinv%arc_reachable_inv Hsim Hheld. destruct (get_refines Status i s p Hinv Hsim) as [Hget _].
  destruct (arc_get_key_handed _ _ _ Hinv Hheld) as (r&Hr&Hi&Hlive&Hd).
  rewrite (handed_cons _ _ _ Hheld), Hd in Hget. exists r. split_and!; [done..|]. intros s' Hs'.
  assert (a ∈ arc_held (arc_get_key i s)) as Ha by (rewrite Hheld; left).
  destruct (deref_holding _ _ _ (inv_get _ _ Hinv) Ha Hs') as (Hinv'&Ha'&Hd').
  destruct (referenced_intact _ _ Hinv' (references_held _ _ Ha')) as (c&Hc&Hm).
  exists c. rewrite Hd, deref_Some in Hd'. destruct Hd' as (c'&Hc'&<-). split_and!; congruence.
Qed.

Lemma looked_up_key_stays_usable_witness :
  ∃ r, fst (@get_key _ Status (id (meta (example_record 1 10))) (set_keys (arc_abs example_arc) (init_proc ∅))) =
      Ok (Some r) ∧
    ∃ c, arc_heap example_store !! 0%N = Some c ∧ cell_record c = r ∧ mapping c = mmap (private_key r).
Proof.
  destruct (looked_up_key_stays_usable example_arc (set_keys (arc_abs example_arc) (init_proc ∅))
    (id (meta (example_record 1 10))) 0) as (r&Hr&_&_&_&Hstay).
  - exact example_arc_reachable.
  - split_and!; reflexivity.
  - vm_compute. reflexivity.
  - exists r. split; [exact Hr|]. apply Hstay, rtc_once. split; [apply arc_step_remove|].
    replace (arc_held example_store) with [0; 0]%N by (vm_compute; reflexivity). left.
Defined.
