(* ===== verification/KpsTheorems.v ===== *)
(** * What holds of the key protection service

    The five entry points against their specifications, and the invariants of a
    running service, each with an instance on the reference platform. *)

From S2P Require Import Prelude Effects RustStd Proto Platform RefPlatform SecretBox ProtectedMem X25519.
From S2P Require Import Crypto Telemetry KeyTypes Process Registry Reaper Boundary Service KpsCore.
From S2P Require Import KpsSpec Kps.
From S2P Require Import Layout.
Import RefInstances.

(** ** A running service for the examples *)

(** The caller's memory: an algorithm at 128, a binding public key at 160, an
    encapsulated key at 256, additional data at 320, a buffer length at 512. *)
Definition binding_secret : bytes := le_bytes 32 77.
Definition client_secret : bytes := le_bytes 32 99.
Definition kps_memory : Memory :=
  write_bytes (write_bytes (write_bytes (write_bytes (write_bytes (write_bytes ∅ 8 (zeros 800))
    128 (HpkeAlgorithm_encode_to_vec x25519_suite))
    160 (X25519_to_public binding_secret))
    256 (X25519_to_public client_secret))
    320 (lit "aad"))
    512 (le_bytes 8 20).

Definition kps_0 : Proc := init_proc kps_memory.

(** A first key, with the handle written at 16 and the public key at 64. *)
Definition generate_call : KpsCall := GenerateKemKeypairCall 128 6 160 32 3600 16 64 32.
Definition kps_1 : Proc := snd (kps_run generate_call kps_0).
Definition kps_handle : Uuid := Uuid_from_bytes (default [] (read_bytes (p_mem kps_1) 16 16)).

(** The same service after two hours. *)
Definition kps_late : Proc := set_sys (mkSys (N.to_nat 7200) 0 0 ∅ []) kps_1.

Lemma kps_1_run : kps_run generate_call kps_0 = (Ok 1%Z, kps_1).
Proof. unfold kps_1. apply run_fst. vm_compute. reflexivity. Qed.

Lemma generate_contract : kps_contract generate_call kps_0.
Proof. right. split_and!; by_compute. Qed.

Lemma kps_1_reachable : reachable kps_1.
Proof.
  eapply reachable_step; [apply (reachable_init kps_memory)|by_compute|].
  exact (step_call generate_call kps_0 1%Z kps_1 generate_contract kps_1_run).
Qed.

Lemma kps_1_registry : registry_ok kps_1.
Proof. destruct (reachable_inv _ kps_1_reachable) as (?&?&_). split_and!; [done..|by_compute]. Qed.

Lemma kps_1_records : map_Forall (λ _, record_wf) (p_keys kps_1).
Proof. exact (keys_record_wf _ kps_1_registry). Qed.

(** ** Invariants *)

(** C4: whatever the host calls within the safety contracts, in whatever order,
    interleaved with the reaper and with the host's own writes, the registry of
    the key protection service holds only KEM keys, each stored under its own
    handle, of the supported suite, with a public key that belongs to the secret
    in its vault, a 32-byte binding key, and an expiry not before its creation and
    within the clock's range; and its lock is never poisoned. *)
Theorem kps_registry_invariant `{PlatformLaws} (p : Proc) :
  reachable p →
  p_poisoned p = false ∧
  ∀ i r, p_keys p !! i = Some r →
    id (meta r) = i ∧ (created_at (meta r) ≤ delete_after (meta r))%Z ∧
    (delete_after (meta r) / nanos_per_sec ≤ i64_max)%Z ∧
    ∃ kem_pubkey binding_pubkey,
      spec (meta r) = KemWithBindingPub x25519_suite kem_pubkey binding_pubkey ∧
      is_key_pair kem_pubkey (mmap (private_key r)) ∧ PublicKey_wf binding_pubkey.
Proof.
  intros (Hp&Hk&_)%reachable_inv. split; [done|]. intros i r Hr.
  destruct (Hk i r Hr) as [Hid [Hkem (Hs&He&Hb)]]. split_and!; [done..|].
  destruct (spec (meta r)) as [algo kpk bpk|]; [|done]. destruct Hs as (->&?&?). eauto.
Qed.

Lemma kps_registry_invariant_witness :
  p_poisoned kps_1 = false ∧ size (p_keys kps_1) = 1.
Proof.
  split; [exact (proj1 (kps_registry_invariant kps_1 kps_1_reachable))|vm_compute; reflexivity].
Defined.

(** C2: no undefined behaviour and no panic: in every reachable state a call
    within its safety contract returns. Its status is never [InternalError]; a
    success reports nothing and a failure exactly one event with the operation
    and the status; outside the caller's output buffers the memory is unchanged,
    and a failed call leaves all of it unchanged. *)
Theorem kps_calls_return `{PlatformLaws} (p : Proc) (c : KpsCall) :
  reachable p → fits p → kps_contract c p →
  ∃ st z p', kps_run c p = (Ok z, p') ∧ reachable p' ∧
    st ≠ InternalError ∧
    p_tel p' = (if decide (st = Success) then p_tel p
                else report_failure (mkFailure (kps_operation c) st FailureKind_Error) (p_tel p)) ∧
    (st ≠ Success → z = kps_code c st ∧ p_mem p' = p_mem p) ∧
    (∀ a, (∀ q n, (q, n) ∈ kps_outputs c (p_mem p) → ¬ (q ≤ a < q + n)%N) → p_mem p' !! a = p_mem p !! a).
Proof.
  intros Hr Hf Hc. destruct (reachable_returns (Svc := Kps) p c Hr Hf Hc) as (st&z&p'&Hrun&[]&Hr').
  exists st, z, p'. split_and!; auto.
Qed.

Lemma kps_calls_return_witness :
  ∃ st z p', kps_run (DestroyKemKeyCall 16) kps_1 = (Ok z, p') ∧ reachable p' ∧ st ≠ InternalError.
Proof.
  destruct (kps_calls_return kps_1 (DestroyKemKeyCall 16) kps_1_reachable) as (st&z&p'&?&?&?&_).
  - by_compute.
  - right. by_compute.
  - exists st, z, p'. split_and!; assumption.
Defined.

(** A null pointer or a length of zero where the entry point asks for data is
    refused with [InvalidArgument] before anything is read, whatever the other
    arguments are and whatever the memory holds: the registry, the clock and the
    memory are untouched and the failure is reported once. *)
Theorem kps_malformed_refused `{PlatformLaws} (c : KpsCall) (p : Proc) :
  kps_malformed c = true →
  kps_run c p =
    (Ok (kps_code c InvalidArgument),
     set_tel (report_failure (mkFailure (kps_operation c) InvalidArgument FailureKind_Error) (p_tel p)) p).
Proof. apply kps_malformed_run. Qed.

Lemma kps_malformed_refused_witness :
  fst (kps_run (GetKemKeyCall 16 64 32 160 0 528 512 520) (init_proc ∅)) = Ok 3%Z ∧
  fst (kps_run (EnumerateKemKeysCall 0 5 0 None) (init_proc ∅)) = Ok (-3)%Z.
Proof.
  split.
  - exact (f_equal fst (kps_malformed_refused (GetKemKeyCall 16 64 32 160 0 528 512 520) (init_proc ∅) eq_refl)).
  - exact (f_equal fst (kps_malformed_refused (EnumerateKemKeysCall 0 5 0 None) (init_proc ∅) eq_refl)).
Defined.

(** ** Entry points *)

(** C7: [key_manager_decap_and_seal] implements its specification on every input
    its contract allows: an unknown or expired handle is [NotFound]; an
    encapsulated key that RFC 9180's Decap refuses is [DecapsulationFailure];
    otherwise the shared secret it recovers is sealed to the key's own binding
    public key under the additional data, and is written to the two buffers if
    and only if both have exactly the right size; the registry never changes. *)
Theorem decap_and_seal_spec `{PlatformLaws} (uuid_bytes encapsulated_key encapsulated_key_len aad aad_len
    out_enc out_enc_len out_ct out_ct_len : N) (p : Proc) (i : Uuid) (enc aad_bytes : bytes) :
  p_poisoned p = false → map_Forall (λ _, record_wf) (p_keys p) →
  points_to (p_mem p) uuid_bytes (Uuid_as_bytes i) →
  points_to (p_mem p) encapsulated_key enc → encapsulated_key_len = lenN enc → encapsulated_key_len ≠ 0%N →
  opt_points_to (p_mem p) aad aad_len aad_bytes →
  valid_buffer (p_mem p) out_enc out_enc_len → out_enc_len ≠ 0%N →
  valid_buffer (p_mem p) out_ct out_ct_len → out_ct_len ≠ 0%N →
  let '(o, p') := key_manager_decap_and_seal uuid_bytes encapsulated_key encapsulated_key_len aad aad_len
                    out_enc out_enc_len out_ct out_ct_len p in
  returns DecapAndSeal (DecapAndSealed i enc aad_bytes out_enc out_enc_len out_ct out_ct_len p) p o p'.
Proof.
  intros Hp Hwf Hi He Hel Hel0 Ha Hoe Hoe0 Hoc Hoc0.
  pose proof (decap_and_seal_refines uuid_bytes encapsulated_key encapsulated_key_len aad aad_len
    out_enc out_enc_len out_ct out_ct_len p i enc aad_bytes Hp Hwf Hi He Hel Hel0 Ha Hoe Hoe0 Hoc Hoc0) as Hw.
  unfold wp in Hw. by destruct (key_manager_decap_and_seal _ _ _ _ _ _ _ _ _ p).
Qed.

Lemma decap_and_seal_spec_witness :
  let '(o, p') := key_manager_decap_and_seal 16 256 32 320 3 384 32 448 48 kps_1 in
  returns DecapAndSeal (DecapAndSealed kps_handle (X25519_to_public client_secret) (lit "aad") 384 32 448 48 kps_1)
    kps_1 o p' ∧ fst (key_manager_decap_and_seal 16 256 32 320 3 384 32 448 48 kps_1) = Ok Success.
Proof.
  pose proof (decap_and_seal_spec 16 256 32 320 3 384 32 448 48 kps_1 kps_handle
    (X25519_to_public client_secret) (lit "aad")
    (proj1 kps_1_registry) kps_1_records ltac:(by_compute) ltac:(by_compute) eq_refl ltac:(by_compute)
    ltac:(by_compute) ltac:(by_compute) ltac:(by_compute) ltac:(by_compute) ltac:(by_compute)) as Hs.
  assert (fst (key_manager_decap_and_seal 16 256 32 320 3 384 32 448 48 kps_1) = Ok Success) as Hok
    by (vm_compute; reflexivity).
  destruct (key_manager_decap_and_seal 16 256 32 320 3 384 32 448 48 kps_1) as [o p'].
  split; [exact Hs|exact Hok].
Defined.

(** C9: an expired or destroyed KEM key decapsulates nothing: once the clock has
    reached [delete_after], or the handle is not in the registry, every
    well-formed decap-and-seal call returns [NotFound] and writes no memory,
    whether or not the reaper has run. *)
Theorem expired_kem_key_unusable `{PlatformLaws} (c : KpsCall) (p : Proc) (i : Uuid)
    (uuid_bytes encapsulated_key encapsulated_key_len aad aad_len
      out_enc out_enc_len out_ct out_ct_len : N) :
  c = DecapAndSealCall uuid_bytes encapsulated_key encapsulated_key_len aad aad_len
        out_enc out_enc_len out_ct out_ct_len →
  registry_ok p → kps_malformed c = false → kps_contract c p →
  read_bytes (p_mem p) uuid_bytes 16 = Some (Uuid_as_bytes i) →
  (∀ r, p_keys p !! i = Some r → (delete_after (meta r) ≤ proc_now p)%Z) →
  ∃ p', kps_run c p = (Ok (Status_as_i32 NotFound), p') ∧ p_mem p' = p_mem p ∧ p_keys p' = p_keys p.
Proof.
  intros -> Hok Hm Hc Hread Hexp.
  destruct Hc as [Hc|(Hu&He&Ha&Hoe&Hoc)]; [congruence|]. cbn in Hm. bool_props.
  destruct (valid_points_to _ _ _ He) as (enc&Henc&Hel), (valid_opt _ _ _ Ha) as [ab Haad].
  assert (points_to (p_mem p) uuid_bytes (Uuid_as_bytes i)) as Hi.
  { destruct Hu as (?&?&_). split_and!; [done|by rewrite lenN_uuid|by rewrite Uuid_as_bytes_length]. }
  edestruct returns_run as (st&p'&Hr&HR&_&Ht);
    [by apply (decap_and_seal_refines uuid_bytes encapsulated_key encapsulated_key_len aad aad_len
       out_enc out_enc_len out_ct out_ct_len p i enc ab); auto using keys_record_wf; apply Hok|].
  destruct HR as [Hk HR]. destruct (live_key p i) as [r|] eqn:Hl.
  - apply live_key_Some in Hl as [Hr' Hlive]. specialize (Hexp r Hr'). lia.
  - destruct HR as [-> Hmem]. eauto.
Qed.

Lemma expired_kem_key_unusable_witness :
  ∃ p', kps_run (DecapAndSealCall 16 256 32 320 3 384 32 448 48) kps_late = (Ok 4%Z, p') ∧
    p_mem p' = p_mem kps_late ∧ p_keys p' = p_keys kps_late.
Proof.
  refine (expired_kem_key_unusable _ kps_late kps_handle 16 256 32 320 3 384 32 448 48 eq_refl _ eq_refl _ _ _).
  - exact (registry_ok_set_sys _ _ kps_1_registry).
  - right. split_and!; [by_compute|by_compute|intros _; by_compute|by_compute|by_compute].
  - vm_compute. reflexivity.
  - assert (map_Forall (λ _ r, (delete_after (meta r) ≤ proc_now kps_late)%Z) (p_keys kps_late)) as Hall by by_compute.
    intros r Hr. exact (Hall kps_handle r Hr).
Defined.

(** C25: [key_manager_get_kem_key] implements its specification: for a live key it
    writes both public keys, the encoded algorithm and its length, and the whole
    seconds left, if and only if the key buffers have exactly the right size and
    the algorithm's is large enough; otherwise it writes nothing. *)
Theorem get_kem_key_spec `{PlatformLaws} (uuid_bytes out_kem out_kem_len out_bpk out_bpk_len out_algo
    out_algo_len out_remaining algo_len : N) (p : Proc) (i : Uuid) :
  p_poisoned p = false →
  points_to (p_mem p) uuid_bytes (Uuid_as_bytes i) →
  valid_buffer (p_mem p) out_kem out_kem_len → out_kem_len ≠ 0%N →
  valid_buffer (p_mem p) out_bpk out_bpk_len → out_bpk_len ≠ 0%N →
  valid_u64 (p_mem p) out_remaining → valid_u64 (p_mem p) out_algo_len →
  read_bytes (p_mem p) out_algo_len 8 = Some (le_bytes 8 algo_len) → (algo_len < 2 ^ 64)%N →
  valid_buffer (p_mem p) out_algo algo_len →
  let '(o, p') := key_manager_get_kem_key uuid_bytes out_kem out_kem_len out_bpk out_bpk_len out_algo
                    out_algo_len out_remaining p in
  returns GetKemKey
    (GotKem i out_kem out_kem_len out_bpk out_bpk_len out_algo out_algo_len algo_len out_remaining p) p o p'.
Proof.
  intros. pose proof (get_kem_key_refines uuid_bytes out_kem out_kem_len out_bpk out_bpk_len out_algo
    out_algo_len out_remaining algo_len p i) as Hw. unfold wp in Hw.
  destruct (key_manager_get_kem_key _ _ _ _ _ _ _ _ p). by apply Hw.
Qed.

Lemma get_kem_key_spec_witness :
  let '(o, p') := key_manager_get_kem_key 16 600 32 640 32 528 512 520 kps_1 in
  returns GetKemKey (GotKem kps_handle 600 32 640 32 528 512 20 520 kps_1) kps_1 o p' ∧
  le_value <$> read_bytes (p_mem p') 520 8 = Some 3598%N.
Proof.
  pose proof (get_kem_key_spec 16 600 32 640 32 528 512 520 20 kps_1 kps_handle
    (proj1 kps_1_registry) ltac:(by_compute) ltac:(by_compute) ltac:(by_compute) ltac:(by_compute) ltac:(by_compute)
    ltac:(by_compute) ltac:(by_compute) ltac:(by_compute) ltac:(by_compute) ltac:(by_compute)) as Hs.
  assert (le_value <$> read_bytes (p_mem (snd (key_manager_get_kem_key 16 600 32 640 32 528 512 520 kps_1))) 520 8
          = Some 3598%N) as Hrem by (vm_compute; reflexivity).
  destruct (key_manager_get_kem_key 16 600 32 640 32 528 512 520 kps_1) as [o p'].
  split; [exact Hs|exact Hrem].
Defined.

(** C23: [key_manager_generate_kem_keypair] implements its specification: a binding
    key that is not 32 bytes and an algorithm that does not decode are
    [InvalidArgument], another suite is refused, and otherwise a fresh key bound
    to that binding key is stored, its handle and public key being written when
    the buffer has the right size. *)
Theorem generate_kem_keypair_spec `{PlatformLaws} (algo_ptr algo_len binding_pubkey binding_pubkey_len
    expiry_secs out_uuid out_pubkey out_pubkey_len : N) (p : Proc) (algo_bytes bpk : bytes) :
  p_poisoned p = false →
  points_to (p_mem p) algo_ptr algo_bytes → algo_len = lenN algo_bytes → algo_len ≠ 0%N →
  points_to (p_mem p) binding_pubkey bpk → binding_pubkey_len = lenN bpk → binding_pubkey_len ≠ 0%N →
  valid_buffer (p_mem p) out_uuid 16 → valid_buffer (p_mem p) out_pubkey out_pubkey_len →
  let '(o, p') := key_manager_generate_kem_keypair algo_ptr algo_len binding_pubkey binding_pubkey_len
                    expiry_secs out_uuid out_pubkey out_pubkey_len p in
  returns GenerateKemKeypair
    (GenerateKem algo_bytes bpk expiry_secs out_uuid out_pubkey out_pubkey_len p) p o p'.
Proof.
  intros. pose proof (generate_kem_keypair_refines algo_ptr algo_len binding_pubkey binding_pubkey_len
    expiry_secs out_uuid out_pubkey out_pubkey_len p algo_bytes bpk) as Hw. unfold wp in Hw.
  destruct (key_manager_generate_kem_keypair _ _ _ _ _ _ _ _ p). by apply Hw.
Qed.

Lemma generate_kem_keypair_spec_witness :
  let '(o, p') := key_manager_generate_kem_keypair 128 6 160 32 3600 16 64 32 kps_0 in
  returns GenerateKemKeypair (GenerateKem (HpkeAlgorithm_encode_to_vec x25519_suite)
    (X25519_to_public binding_secret) 3600 16 64 32 kps_0) kps_0 o p'.
Proof.
  apply (generate_kem_keypair_spec 128 6 160 32 3600 16 64 32 kps_0
    (HpkeAlgorithm_encode_to_vec x25519_suite) (X25519_to_public binding_secret)); try reflexivity; by_compute.
Defined.

(** C37: a generation refused for the size of the caller's buffer has already
    stored its key: when the arguments are otherwise accepted and the public-key
    buffer is not 32 bytes, the call returns [InvalidArgument] and writes nothing,
    so that the caller does not learn the handle, yet a new live key is in the
    registry. *)
Theorem refused_generation_leaves_key `{PlatformLaws} (algo_ptr algo_len binding_pubkey binding_pubkey_len
    expiry_secs out_uuid out_pubkey out_pubkey_len : N) (p p' : Proc) (algo_bytes bpk : bytes) :
  p_poisoned p = false →
  points_to (p_mem p) algo_ptr algo_bytes → algo_len = lenN algo_bytes → algo_len ≠ 0%N →
  points_to (p_mem p) binding_pubkey bpk → binding_pubkey_len = lenN bpk → binding_pubkey_len ≠ 0%N →
  valid_buffer (p_mem p) out_uuid 16 → valid_buffer (p_mem p) out_pubkey out_pubkey_len →
  length bpk = 32 → HpkeAlgorithm_decode algo_bytes = Some x25519_suite → (0 < expiry_secs)%N →
  key_manager_generate_kem_keypair algo_ptr algo_len binding_pubkey binding_pubkey_len
    expiry_secs out_uuid out_pubkey out_pubkey_len p = (Ok InvalidArgument, p') →
  out_pubkey_len ≠ 32%N ∧ p_mem p' = p_mem p ∧
  ∃ r, p_keys p' = <[id (meta r) := r]> (p_keys p) ∧ (proc_now p < delete_after (meta r))%Z ∧
    is_kem_spec (spec (meta r)) = true.
Proof.
  intros Hp Ha Hal Hal0 Hb Hbl Hbl0 Hu Hk Hl Hdec Hexp Hrun.
  pose proof (generate_kem_keypair_refines algo_ptr algo_len binding_pubkey binding_pubkey_len
    expiry_secs out_uuid out_pubkey out_pubkey_len p algo_bytes bpk Hp Ha Hal Hal0 Hb Hbl Hbl0 Hu Hk) as Hw.
  unfold wp in Hw. rewrite Hrun in Hw. destruct Hw as (st&[= <-]&HR&_). cbn [fst snd] in HR.
  unfold GenerateKem in HR. rewrite decide_True, Hdec, decide_True in HR by done.
  destruct HR as [([?|[? _]]&_)|(r&kpk&Hcr&Hs&_&Hkeys&HR)]; [done..|].
  case_decide; destruct HR as [? Hm]; [done|]. split_and!; [done..|].
  exists r. split_and!; [done| |by rewrite Hs].
  destruct Hcr as (_&_&_&_&Hc&Hd&_). rewrite Hd, Hc. unfold proc_now, Duration_from_secs, nanos_per_sec. lia.
Qed.

Definition kps_orphan : Proc := snd (key_manager_generate_kem_keypair 128 6 160 32 3600 16 64 31 kps_0).

Lemma kps_orphan_run :
  key_manager_generate_kem_keypair 128 6 160 32 3600 16 64 31 kps_0 = (Ok InvalidArgument, kps_orphan).
Proof. unfold kps_orphan. apply run_fst. vm_compute. reflexivity. Qed.

Lemma refused_generation_leaves_key_witness :
  p_mem kps_orphan = p_mem kps_0 ∧ size (p_keys kps_0) = 0 ∧ size (p_keys kps_orphan) = 1.
Proof.
  pose proof (refused_generation_leaves_key 128 6 160 32 3600 16 64 31 kps_0 kps_orphan
    (HpkeAlgorithm_encode_to_vec x25519_suite) (X25519_to_public binding_secret) eq_refl
    ltac:(by_compute) eq_refl ltac:(by_compute) ltac:(by_compute) eq_refl ltac:(by_compute) ltac:(by_compute)
    ltac:(by_compute) eq_refl ltac:(by_compute) ltac:(by_compute) kps_orphan_run) as (_&Hm&_).
  split_and!; [exact Hm|vm_compute; reflexivity..].
Defined.

(** C27: destruction is final and does not look at the expiry: it removes exactly
    the named key, zeroes its vault in full, and a second destruction of the same
    handle is [NotFound]. *)
Theorem destroy_kem_key_final `{PlatformLaws} (uuid_bytes : N) (p : Proc) (i : Uuid) (r : KeyRecord) :
  p_poisoned p = false → points_to (p_mem p) uuid_bytes (Uuid_as_bytes i) → p_keys p !! i = Some r →
  let p1 := snd (key_manager_destroy_kem_key uuid_bytes p) in
  fst (key_manager_destroy_kem_key uuid_bytes p) = Ok Success ∧
  p_keys p1 = delete i (p_keys p) ∧ p_mem p1 = p_mem p ∧
  released (p_sys p1) = zeros (length (mmap (private_key r))) :: released (p_sys p) ∧
  fst (key_manager_destroy_kem_key uuid_bytes p1) = Ok NotFound.
Proof.
  intros Hp Hi Hr. cbv zeta.
  assert (key_manager_destroy_kem_key uuid_bytes p = (Ok Success, drop_record r (set_keys (delete i (p_keys p)) p))) as Hrun.
  { apply ffi_call_ok. rewrite (points_to_nonnull _ _ _ Hi).
    rewrite (bind_ok _ _ p (Uuid_as_bytes i) p)
      by (apply in_mem_read; rewrite <- (lenN_uuid i); by apply from_raw_parts_points_to).
    rewrite Uuid_from_bytes_as, (bind_ok _ _ _ _ _ (remove_key_run _ i p Hp)), Hr. done. }
  rewrite Hrun. cbn [fst snd]. split_and!; [done..| |].
  - simpl. by rewrite zeroize_zeros.
  - pose proof (destroy_kem_key_refines uuid_bytes (drop_record r (set_keys (delete i (p_keys p)) p)) i Hp Hi) as Hw.
    unfold wp in Hw. destruct Hw as (st&->&(_&_&->)&_). simpl. by rewrite lookup_delete_eq.
Qed.

Lemma destroy_kem_key_final_witness :
  fst (key_manager_destroy_kem_key 16 kps_1) = Ok Success ∧
  fst (key_manager_destroy_kem_key 16 (snd (key_manager_destroy_kem_key 16 kps_1))) = Ok NotFound.
Proof.
  assert (is_Some (p_keys kps_1 !! kps_handle)) as [r Hr] by by_compute.
  destruct (destroy_kem_key_final 16 kps_1 kps_handle r (proj1 kps_1_registry) ltac:(by_compute) Hr)
    as (H1&_&_&_&H2). split; assumption.
Defined.

(** C21: [key_manager_enumerate_kem_keys] writes the page: one entry per live key
    from [offset] on, in listing order, each in the C layout with the handle, the
    encoded algorithm, both public keys and the whole seconds left, padded with
    zeros; the flag says whether more follow; the result is the number of
    entries, as an [i32]; the registry is unchanged. *)
Theorem enumerate_kem_keys_spec `{PlatformLaws} (out_entries max_entries offset : N) (out_has_more : option N)
    (p : Proc) :
  registry_ok p → (offset ≤ usize_max)%N →
  aligned8 out_entries = true → valid_buffer (p_mem p) out_entries (max_entries * KpsKeyInfo_size) →
  (∀ a, out_has_more = Some a → is_Some (p_mem p !! a)) →
  let metas := page (proc_now p) (p_keys p) offset max_entries in
  let '(o, p') := key_manager_enumerate_kem_keys out_entries max_entries offset out_has_more p in
  o = Ok (as_i32 (lenN metas)) ∧
  p_mem p' = write_flag out_has_more (page_has_more (proc_now p) (p_keys p) offset max_entries)
    (write_bytes (p_mem p) out_entries
       (entries_bytes (λ md now, KpsKeyInfo_bytes (kem_entry md now)) (S (clock_reads (p_sys p))) metas)) ∧
  p_keys p' = p_keys p ∧ p_tel p' = p_tel p ∧
  (∀ md now, md ∈ metas → lenN (KpsKeyInfo_bytes (kem_entry md now)) = KpsKeyInfo_size).
Proof.
  intros Hok Ho Ha Hv Hm. pose proof Hok as (Hp&_&Hs).
  rewrite enumerate_kem_keys_run by auto using keys_ok. unfold enumerated_kem.
  destruct (ticks_fields (S (length (page (proc_now p) (p_keys p) offset max_entries))) p) as (Hk&_&Ht&_).
  split_and!; [done|done|done|done|].
  intros md now (j&rec&Hrec&->&_)%elem_of_page. apply length_kem_entry, kem_record_meta_wf.
  by apply (keys_ok _ Hok _ _ Hrec).
Qed.

(** A service with room for one entry. *)
Definition kps_listing : Proc := set_mem (write_bytes (p_mem kps_1) 1024 (zeros 4272)) kps_1.

Lemma enumerate_kem_keys_spec_witness :
  fst (key_manager_enumerate_kem_keys 1024 1 0 (Some 700%N) kps_listing) = Ok 1%Z.
Proof.
  assert (lenN (page (proc_now kps_listing) (p_keys kps_listing) 0 1) = 1%N) as Hl by (vm_compute; reflexivity).
  assert (registry_ok kps_listing) as Hok by exact (registry_ok_set_mem _ _ kps_1_registry).
  pose proof (enumerate_kem_keys_spec 1024 1 0 (Some 700%N) kps_listing Hok ltac:(by_compute) eq_refl
    ltac:(by_compute) ltac:(intros a Ha; injection Ha as <-; by_compute)) as Hs.
  destruct (key_manager_enumerate_kem_keys 1024 1 0 (Some 700%N) kps_listing) as [o p'].
  destruct Hs as [Ho _]. rewrite Hl in Ho. exact Ho.
Defined.

(** C34: a listing round-trips through the C layout: reading the struct at index
    [k] of the caller's array, at the offsets of the C declaration, yields the
    handle, an algorithm that decodes to the supported suite, both public keys
    and the seconds left of the [k]-th listed key; and with fewer than [2^31]
    entries asked for, the result is their number, never a negative code. *)
Theorem listed_kem_keys_readable `{PlatformLaws} (out_entries max_entries offset : N) (out_has_more : option N)
    (p : Proc) (k : nat) (md : KeyMetadata) :
  registry_ok p → (offset ≤ usize_max)%N →
  aligned8 out_entries = true → valid_buffer (p_mem p) out_entries (max_entries * KpsKeyInfo_size) →
  (∀ a, out_has_more = Some a →
     is_Some (p_mem p !! a) ∧ ¬ (out_entries ≤ a < out_entries + max_entries * KpsKeyInfo_size)%N) →
  page (proc_now p) (p_keys p) offset max_entries !! k = Some md →
  let '(o, p') := key_manager_enumerate_kem_keys out_entries max_entries offset out_has_more p in
  (∃ e, read_KpsKeyInfo (p_mem p') (out_entries + N.of_nat k * KpsKeyInfo_size) = Some e ∧
     KpsKeyInfo_shows e md (clock (S (clock_reads (p_sys p)) + k))) ∧
  ((max_entries < 2 ^ 31)%N →
     o = Ok (Z.of_nat (length (page (proc_now p) (p_keys p) offset max_entries)))).
Proof.
  intros Hok Ho Ha Hv Hm Hk. pose proof Hok as (Hp&_&Hs).
  rewrite enumerate_kem_keys_run by (auto using keys_ok; by intros a ?; apply Hm).
  pose proof (page_length (proc_now p) (p_keys p) offset max_entries) as Hlen.
  pose proof (elem_of_page _ _ _ _ _ (list_elem_of_lookup_2 _ _ _ Hk)) as (i&r&Hr&->&_).
  pose proof (keys_ok _ Hok _ _ Hr) as Hwf. destruct (Hwf) as [_ (_&_&Hb)].
  set (now := clock (S (clock_reads (p_sys p)) + k)).
  assert (0 ≤ now)%Z as Hnow by (pose proof clock_nonneg; pose proof (clock_mono_le 0 (S (clock_reads (p_sys p)) + k)); lia).
  destruct (kem_entry_shows (meta r) now (kem_record_meta_wf _ Hwf) Hnow Hb) as [Hewf Hshows].
  unfold enumerated_kem. split.
  - exists (kem_entry (meta r) now). split; [|done]. apply read_KpsKeyInfo_bytes; [done|]. cbn [p_mem set_mem].
    rewrite read_write_flag.
    + apply (read_entry _ _ (λ md now, KpsKeyInfo_bytes (kem_entry md now))); [|done].
      intros md' t (j&r'&Hr'&->&_)%elem_of_page. by apply length_kem_entry, kem_record_meta_wf, (keys_ok _ Hok _ _ Hr').
    + intros a Hq. destruct (Hm a Hq) as [_ Hout]. apply lookup_lt_Some in Hk. unfold lenN, KpsKeyInfo_size in *. lia.
  - intros Hmax. do 2 f_equal. unfold lenN in *. rewrite as_i32_small; lia.
Qed.

Lemma listed_kem_keys_readable_witness :
  ∃ e, read_KpsKeyInfo (p_mem (snd (key_manager_enumerate_kem_keys 1024 1 0 (Some 700%N) kps_listing))) 1024 = Some e ∧
    kps_uuid e = Uuid_as_bytes kps_handle.
Proof.
  assert (((λ md, Uuid_as_bytes (id md)) <$> page (proc_now kps_listing) (p_keys kps_listing) 0 1)
          = [Uuid_as_bytes kps_handle]) as Hpage by by_compute.
  apply fmap_lookup_head in Hpage as (md&Hmd&Hid).
  assert (registry_ok kps_listing) as Hok by exact (registry_ok_set_mem _ _ kps_1_registry).
  pose proof (listed_kem_keys_readable 1024 1 0 (Some 700%N) kps_listing 0 md
    Hok ltac:(by_compute) eq_refl ltac:(by_compute)
    ltac:(intros a Ha; injection Ha as <-; split; by_compute) Hmd) as Hs.
  destruct (key_manager_enumerate_kem_keys 1024 1 0 (Some 700%N) kps_listing) as [o p'].
  destruct Hs as [(e&He&Hsh) _]. exists e. split; [exact He|]. destruct Hsh as (kpk&bpk&_&Hu&_). congruence.
Defined.
