(* ===== verification/WsTheorems.v ===== *)
(** * What holds of the workload service

    The six entry points against their specifications, and the invariants of a
    running service, each with an instance on the reference platform. *)

From S2P Require Import Prelude Effects RustStd Proto Platform RefPlatform SecretBox ProtectedMem X25519.
From S2P Require Import Crypto Telemetry KeyTypes Process Registry Reaper Boundary Service WsCore WsSpec.
From S2P Require Import Ws.
From S2P Require Import Layout.
Import RefInstances.

(** ** A running service for the examples *)

(** The caller's memory: an algorithm at 128, a buffer length at 512. *)
Definition ws_memory : Memory :=
  write_bytes (write_bytes (write_bytes ∅ 8 (zeros 800))
    128 (HpkeAlgorithm_encode_to_vec x25519_suite))
    512 (le_bytes 8 20).

Definition ws_0 : Proc := init_proc ws_memory.

(** A first key, with the handle written at 16 and the public key at 64. *)
Definition ws_generate_call : WsCall := GenerateBindingKeypairCall 128 6 3600 16 64 32.
Definition ws_1 : Proc := snd (ws_run ws_generate_call ws_0).
Definition ws_handle : Uuid := Uuid_from_bytes (default [] (read_bytes (p_mem ws_1) 16 16)).

(** A message for it: the encapsulated key at 256, the ciphertext at 320, both
    made by a client that read the public key at 64. *)
Definition ws_message : bytes * bytes :=
  let pk := PublicKey_X25519 (mkX25519PublicKey (default [] (read_bytes (p_mem ws_1) 64 32))) in
  match fst (hpke_seal pk (mkSecretBox (lit "hello")) (lit "aad") x25519_suite (mkSys 0 40 0 ∅ [])) with
  | Ok m => m
  | _ => ([], [])
  end.
Definition ws_2 : Proc :=
  set_mem (write_bytes (write_bytes (write_bytes (p_mem ws_1) 256 (fst ws_message)) 320 (snd ws_message))
             400 (lit "aad")) ws_1.

(** The same service after two hours. *)
Definition ws_late : Proc := set_sys (mkSys (N.to_nat 7200) 0 0 ∅ []) ws_2.

Lemma ws_1_run : ws_run ws_generate_call ws_0 = (Ok 1%Z, ws_1).
Proof. unfold ws_1. apply run_fst. vm_compute. reflexivity. Qed.

Lemma ws_generate_contract : ws_contract ws_generate_call ws_0.
Proof. right. split_and!; by_compute. Qed.

Lemma ws_1_reachable : reachable ws_1.
Proof.
  eapply reachable_step; [apply (reachable_init ws_memory)|by_compute|].
  exact (step_call ws_generate_call ws_0 1%Z ws_1 ws_generate_contract ws_1_run).
Qed.

Lemma ws_2_reachable : reachable ws_2.
Proof. eapply reachable_step; [exact ws_1_reachable|by_compute|]. apply step_env, step_host. Qed.

Lemma ws_1_registry : registry_ok ws_1.
Proof. destruct (reachable_inv _ ws_1_reachable) as (?&?&_). split_and!; [done..|by_compute]. Qed.

Lemma ws_2_registry : registry_ok ws_2.
Proof. exact (registry_ok_set_mem _ _ ws_1_registry). Qed.

Lemma ws_2_records : map_Forall (λ _, record_wf) (p_keys ws_2).
Proof. exact (ws_record_wf _ ws_2_registry). Qed.

(** ** Invariants *)

(** C5: whatever the host calls within the safety contracts, in whatever order,
    interleaved with the reaper and with the host's own writes, the registry of
    the workload service holds only binding keys, each stored under its own
    handle, of the supported suite, with a public key that belongs to the secret
    in its vault and an expiry not before its creation and within the clock's
    range; and its lock is never poisoned. *)
Theorem ws_registry_invariant `{PlatformLaws} (p : Proc) :
  reachable p →
  p_poisoned p = false ∧
  ∀ i r, p_keys p !! i = Some r →
    id (meta r) = i ∧ (created_at (meta r) ≤ delete_after (meta r))%Z ∧
    (delete_after (meta r) / nanos_per_sec ≤ i64_max)%Z ∧
    ∃ pubkey, spec (meta r) = Binding x25519_suite pubkey ∧ is_key_pair pubkey (mmap (private_key r)).
Proof.
  intros (Hp&Hk&_)%reachable_inv. split; [done|]. intros i r Hr.
  destruct (Hk i r Hr) as [Hid [Hkem (Hs&He&Hb)]]. split_and!; [done..|].
  destruct (spec (meta r)) as [|algo pk]; [done|]. destruct Hs as (->&?). eauto.
Qed.

Lemma ws_registry_invariant_witness :
  p_poisoned ws_2 = false ∧ size (p_keys ws_2) = 1.
Proof. split; [exact (proj1 (ws_registry_invariant ws_2 ws_2_reachable))|vm_compute; reflexivity]. Defined.

(** C3: no undefined behaviour and no panic: in every reachable state a call
    within its safety contract returns. Its status is never [InternalError]; a
    success reports nothing and a failure exactly one event with the operation
    and the status; outside the caller's output buffers the memory is unchanged,
    and a failed call leaves all of it unchanged. *)
Theorem ws_calls_return `{PlatformLaws} (p : Proc) (c : WsCall) :
  reachable p → fits p → ws_contract c p →
  ∃ st z p', ws_run c p = (Ok z, p') ∧ reachable p' ∧
    st ≠ InternalError ∧
    p_tel p' = (if decide (st = Success) then p_tel p
                else report_failure (mkFailure (ws_operation c) st FailureKind_Error) (p_tel p)) ∧
    (st ≠ Success → z = ws_code c st ∧ p_mem p' = p_mem p) ∧
    (∀ a, (∀ q n, (q, n) ∈ ws_outputs c (p_mem p) → ¬ (q ≤ a < q + n)%N) → p_mem p' !! a = p_mem p !! a).
Proof.
  intros Hr Hf Hc. destruct (reachable_returns (Svc := Ws) p c Hr Hf Hc) as (st&z&p'&Hrun&[]&Hr').
  exists st, z, p'. split_and!; auto.
Qed.

Lemma ws_calls_return_witness :
  ∃ st z p', ws_run (OpenCall 16 256 32 320 21 400 3 600 5) ws_2 = (Ok z, p') ∧ reachable p' ∧ st ≠ InternalError.
Proof.
  destruct (ws_calls_return ws_2 (OpenCall 16 256 32 320 21 400 3 600 5) ws_2_reachable) as (st&z&p'&?&?&?&_).
  - by_compute.
  - right. split_and!; [by_compute|by_compute|by_compute|intros _; by_compute|by_compute].
  - exists st, z, p'. split_and!; assumption.
Defined.

(** ** Entry points *)

(** C8: [key_manager_open] implements its specification: an unknown or expired
    handle is [NotFound], a message that the key cannot open under the additional
    data is [DecryptionFailure], and otherwise the plaintext is written if and
    only if the buffer has exactly its size; the registry never changes. *)
Theorem open_spec `{PlatformLaws} (uuid_bytes enc enc_len ciphertext ciphertext_len aad aad_len
    out_plaintext out_plaintext_len : N) (p : Proc) (i : Uuid) (enc_bytes ct_bytes aad_bytes : bytes) :
  p_poisoned p = false → map_Forall (λ _, record_wf) (p_keys p) →
  points_to (p_mem p) uuid_bytes (Uuid_as_bytes i) →
  points_to (p_mem p) enc enc_bytes → enc_len = lenN enc_bytes →
  points_to (p_mem p) ciphertext ct_bytes → ciphertext_len = lenN ct_bytes →
  opt_points_to (p_mem p) aad aad_len aad_bytes →
  valid_buffer (p_mem p) out_plaintext out_plaintext_len → out_plaintext_len ≠ 0%N →
  let '(o, p') := key_manager_open uuid_bytes enc enc_len ciphertext ciphertext_len aad aad_len
                    out_plaintext out_plaintext_len p in
  returns Open (OpenedFor i enc_bytes ct_bytes aad_bytes out_plaintext out_plaintext_len p) p o p'.
Proof.
  intros. pose proof (open_refines uuid_bytes enc enc_len ciphertext ciphertext_len aad aad_len
    out_plaintext out_plaintext_len p i enc_bytes ct_bytes aad_bytes) as Hw. unfold wp in Hw.
  destruct (key_manager_open _ _ _ _ _ _ _ _ _ p). by apply Hw.
Qed.

Lemma open_spec_witness :
  let '(o, p') := key_manager_open 16 256 32 320 21 400 3 600 5 ws_2 in
  returns Open (OpenedFor ws_handle (fst ws_message) (snd ws_message) (lit "aad") 600 5 ws_2) ws_2 o p' ∧
  read_bytes (p_mem p') 600 5 = Some (lit "hello").
Proof.
  pose proof (open_spec 16 256 32 320 21 400 3 600 5 ws_2 ws_handle (fst ws_message) (snd ws_message) (lit "aad")
    (proj1 ws_2_registry) ws_2_records ltac:(by_compute) ltac:(by_compute) ltac:(by_compute) ltac:(by_compute)
    ltac:(by_compute) ltac:(by_compute) ltac:(by_compute) ltac:(by_compute)) as Hs.
  assert (read_bytes (p_mem (snd (key_manager_open 16 256 32 320 21 400 3 600 5 ws_2))) 600 5 = Some (lit "hello")) as Hok
    by (vm_compute; reflexivity).
  destruct (key_manager_open 16 256 32 320 21 400 3 600 5 ws_2) as [o p'].
  split; [exact Hs|exact Hok].
Defined.

(** C10: an expired or destroyed binding key opens nothing: once the clock has
    reached [delete_after], or the handle is not in the registry, every
    well-formed call to open a message returns [NotFound] and writes no memory,
    whether or not the reaper has run. *)
Theorem expired_binding_key_unusable `{PlatformLaws} (uuid_bytes enc enc_len ciphertext ciphertext_len aad aad_len
    out_plaintext out_plaintext_len : N) (p : Proc) (i : Uuid) (c : WsCall) :
  c = OpenCall uuid_bytes enc enc_len ciphertext ciphertext_len aad aad_len out_plaintext out_plaintext_len →
  registry_ok p → ws_malformed c = false → ws_contract c p →
  read_bytes (p_mem p) uuid_bytes 16 = Some (Uuid_as_bytes i) →
  (∀ r, p_keys p !! i = Some r → (delete_after (meta r) ≤ proc_now p)%Z) →
  ∃ p', ws_run c p = (Ok (Status_as_i32 NotFound), p') ∧ p_mem p' = p_mem p ∧ p_keys p' = p_keys p.
Proof.
  intros -> Hok Hm Hc Hread Hexp.
  destruct Hc as [Hc|(Hu&He&Hct&Ha&Ho)]; [congruence|]. cbn in Hm. bool_props.
  destruct (valid_points_to _ _ _ He) as (eb&Henc&Hel), (valid_points_to _ _ _ Hct) as (cb&Hctb&Hcl),
    (valid_opt _ _ _ Ha) as [ab Haad].
  assert (points_to (p_mem p) uuid_bytes (Uuid_as_bytes i)) as Hi.
  { destruct Hu as (?&?&_). split_and!; [done|by rewrite lenN_uuid|by rewrite Uuid_as_bytes_length]. }
  edestruct returns_run as (st&p'&Hr&HR&_&Ht);
    [by apply (open_refines uuid_bytes enc enc_len ciphertext ciphertext_len aad aad_len
       out_plaintext out_plaintext_len p i eb cb ab); auto using ws_record_wf; apply Hok|].
  destruct HR as [Hk HR]. destruct (live_key p i) as [r|] eqn:Hl.
  - apply live_key_Some in Hl as [Hr' Hlive]. specialize (Hexp r Hr'). lia.
  - destruct HR as [-> Hmem]. eauto.
Qed.

Lemma expired_binding_key_unusable_witness :
  ∃ p', ws_run (OpenCall 16 256 32 320 21 400 3 600 5) ws_late = (Ok 4%Z, p') ∧
    p_mem p' = p_mem ws_late ∧ p_keys p' = p_keys ws_late.
Proof.
  refine (expired_binding_key_unusable 16 256 32 320 21 400 3 600 5 ws_late ws_handle _ eq_refl _ eq_refl _ _ _).
  - exact (registry_ok_set_sys _ _ ws_2_registry).
  - right. split_and!; [by_compute|by_compute|by_compute|intros _; by_compute|by_compute].
  - vm_compute. reflexivity.
  - assert (map_Forall (λ _ r, (delete_after (meta r) ≤ proc_now ws_late)%Z) (p_keys ws_late)) as Hall by by_compute.
    intros r Hr. exact (Hall ws_handle r Hr).
Defined.

(** C26: [key_manager_get_binding_key] implements its specification: for a live key
    it writes the public key, the encoded algorithm and its length if and only if
    the key buffer has exactly the right size and the algorithm's is large
    enough; otherwise it writes nothing. *)
Theorem get_binding_key_spec `{PlatformLaws} (uuid_bytes out_pubkey out_pubkey_len out_algo out_algo_len algo_len : N)
    (p : Proc) (i : Uuid) :
  p_poisoned p = false →
  points_to (p_mem p) uuid_bytes (Uuid_as_bytes i) →
  valid_buffer (p_mem p) out_pubkey out_pubkey_len → out_pubkey_len ≠ 0%N →
  valid_u64 (p_mem p) out_algo_len →
  read_bytes (p_mem p) out_algo_len 8 = Some (le_bytes 8 algo_len) → (algo_len < 2 ^ 64)%N →
  valid_buffer (p_mem p) out_algo algo_len →
  let '(o, p') := key_manager_get_binding_key uuid_bytes out_pubkey out_pubkey_len out_algo out_algo_len p in
  returns GetBindingKey (GotBinding i out_pubkey out_pubkey_len out_algo out_algo_len algo_len p) p o p'.
Proof.
  intros. pose proof (get_binding_key_refines uuid_bytes out_pubkey out_pubkey_len out_algo out_algo_len algo_len p i)
    as Hw. unfold wp in Hw. destruct (key_manager_get_binding_key _ _ _ _ _ p). by apply Hw.
Qed.

Lemma get_binding_key_spec_witness :
  let '(o, p') := key_manager_get_binding_key 16 600 32 528 512 ws_1 in
  returns GetBindingKey (GotBinding ws_handle 600 32 528 512 20 ws_1) ws_1 o p' ∧
  le_value <$> read_bytes (p_mem p') 512 8 = Some 6%N.
Proof.
  pose proof (get_binding_key_spec 16 600 32 528 512 20 ws_1 ws_handle
    (proj1 ws_1_registry) ltac:(by_compute) ltac:(by_compute) ltac:(by_compute) ltac:(by_compute) ltac:(by_compute)
    ltac:(by_compute) ltac:(by_compute)) as Hs.
  assert (le_value <$> read_bytes (p_mem (snd (key_manager_get_binding_key 16 600 32 528 512 ws_1))) 512 8
          = Some 6%N) as Hlen by (vm_compute; reflexivity).
  destruct (key_manager_get_binding_key 16 600 32 528 512 ws_1) as [o p'].
  split; [exact Hs|exact Hlen].
Defined.

(** C24: [key_manager_generate_binding_keypair] implements its specification: an
    algorithm that does not decode is [InvalidArgument], another suite is
    refused, and otherwise a fresh binding key is stored, created now and
    expiring [expiry_secs] later, its handle and public key being written when
    the buffer has the right size. *)
Theorem generate_binding_keypair_spec `{PlatformLaws} (algo_ptr algo_len expiry_secs out_uuid out_pubkey
    out_pubkey_len : N) (p : Proc) (algo_bytes : bytes) :
  p_poisoned p = false →
  points_to (p_mem p) algo_ptr algo_bytes → algo_len = lenN algo_bytes → algo_len ≠ 0%N →
  valid_buffer (p_mem p) out_uuid 16 → valid_buffer (p_mem p) out_pubkey out_pubkey_len →
  let '(o, p') := key_manager_generate_binding_keypair algo_ptr algo_len expiry_secs out_uuid out_pubkey
                    out_pubkey_len p in
  returns GenerateBindingKeypair
    (GenerateBinding algo_bytes expiry_secs out_uuid out_pubkey out_pubkey_len p) p o p'.
Proof.
  intros. pose proof (generate_binding_keypair_refines algo_ptr algo_len expiry_secs out_uuid out_pubkey
    out_pubkey_len p algo_bytes) as Hw. unfold wp in Hw.
  destruct (key_manager_generate_binding_keypair _ _ _ _ _ _ p). by apply Hw.
Qed.

Lemma generate_binding_keypair_spec_witness :
  let '(o, p') := key_manager_generate_binding_keypair 128 6 3600 16 64 32 ws_0 in
  returns GenerateBindingKeypair (GenerateBinding (HpkeAlgorithm_encode_to_vec x25519_suite) 3600 16 64 32 ws_0)
    ws_0 o p'.
Proof.
  apply (generate_binding_keypair_spec 128 6 3600 16 64 32 ws_0 (HpkeAlgorithm_encode_to_vec x25519_suite));
    try reflexivity; by_compute.
Defined.

(** C28: destruction of binding keys is complete: destroying one removes exactly
    it, whatever its expiry, and zeroes its vault in full; destroying all empties
    the registry and zeroes the vault of every key it held; afterwards no handle
    is found. *)
Theorem binding_keys_destroyed `{PlatformLaws} (uuid_bytes : N) (p : Proc) (i : Uuid) (r : KeyRecord) :
  p_poisoned p = false → points_to (p_mem p) uuid_bytes (Uuid_as_bytes i) → p_keys p !! i = Some r →
  let one := key_manager_destroy_binding_key uuid_bytes p in
  let all := key_manager_destroy_all_binding_keys p in
  fst one = Ok Success ∧ p_keys (snd one) = delete i (p_keys p) ∧
  released (p_sys (snd one)) = zeros (length (mmap (private_key r))) :: released (p_sys p) ∧
  fst all = Ok Success ∧ p_keys (snd all) = ∅ ∧
  released (p_sys (snd all)) =
    reverse ((λ r, zeros (length (mmap (private_key r)))) <$> map_values (p_keys p)) ++ released (p_sys p) ∧
  (∀ j, fst (@get_key _ Status j (snd all)) = Ok None).
Proof.
  intros Hp Hi Hr. cbv zeta.
  assert (key_manager_destroy_binding_key uuid_bytes p =
          (Ok Success, drop_record r (set_keys (delete i (p_keys p)) p))) as Hrun.
  { apply ffi_call_ok. rewrite (points_to_nonnull _ _ _ Hi).
    rewrite (bind_ok _ _ p (Uuid_as_bytes i) p)
      by (apply in_mem_read; rewrite <- (lenN_uuid i); by apply from_raw_parts_points_to).
    rewrite lenN_uuid. change (16 =? 16)%N with true.
    rewrite (bind_ok _ _ p (Uuid_as_bytes i) p) by done.
    rewrite Uuid_from_bytes_as, (bind_ok _ _ _ _ _ (remove_key_run _ i p Hp)), Hr. done. }
  assert (key_manager_destroy_all_binding_keys p =
          (Ok Success, drop_records (map_values (p_keys p)) (set_keys ∅ p))) as Hall.
  { apply ffi_call_ok. by rewrite (bind_ok _ _ _ _ _ (remove_all_keys_run _ p Hp)). }
  destruct (drop_records_fields (map_values (p_keys p)) (set_keys ∅ p)) as (Hk&Hq&_).
  rewrite Hrun, Hall. cbn [fst snd]. split_and!; [done|done| |done|by rewrite Hk|by rewrite drop_records_released|].
  - simpl. by rewrite zeroize_zeros.
  - intros j. rewrite get_key_run by (by rewrite Hq). rewrite Hk. cbn [p_keys set_keys]. by rewrite lookup_empty.
Qed.

Lemma binding_keys_destroyed_witness :
  fst (key_manager_destroy_binding_key 16 ws_1) = Ok Success ∧
  p_keys (snd (key_manager_destroy_all_binding_keys ws_1)) = ∅.
Proof.
  assert (is_Some (p_keys ws_1 !! ws_handle)) as [r Hr] by by_compute.
  destruct (binding_keys_destroyed 16 ws_1 ws_handle r (proj1 ws_1_registry) ltac:(by_compute) Hr)
    as (H1&_&_&_&H2&_). split; assumption.
Defined.

(** C22: [key_manager_enumerate_binding_keys] writes the page: one entry per live
    key from [offset] on, in listing order, each in the C layout with the handle,
    the encoded algorithm, the public key and the whole seconds left, padded with
    zeros; the flag says whether more follow; the result is the number of
    entries, as an [i32]; the registry is unchanged. *)
Theorem enumerate_binding_keys_spec `{PlatformLaws} (out_entries max_entries offset : N) (out_has_more : option N)
    (p : Proc) :
  registry_ok p → (offset ≤ usize_max)%N →
  aligned8 out_entries = true → valid_buffer (p_mem p) out_entries (max_entries * WsKeyInfo_size) →
  (∀ a, out_has_more = Some a → is_Some (p_mem p !! a)) →
  let metas := page (proc_now p) (p_keys p) offset max_entries in
  let '(o, p') := key_manager_enumerate_binding_keys out_entries max_entries offset out_has_more p in
  o = Ok (as_i32 (lenN metas)) ∧
  p_mem p' = write_flag out_has_more (page_has_more (proc_now p) (p_keys p) offset max_entries)
    (write_bytes (p_mem p) out_entries
       (entries_bytes (λ md now, WsKeyInfo_bytes (binding_entry md now)) (S (clock_reads (p_sys p))) metas)) ∧
  p_keys p' = p_keys p ∧ p_tel p' = p_tel p ∧
  (∀ md now, md ∈ metas → lenN (WsKeyInfo_bytes (binding_entry md now)) = WsKeyInfo_size).
Proof.
  intros Hok Ho Ha Hv Hm. pose proof Hok as (Hp&_&Hs).
  rewrite enumerate_binding_keys_run by auto using ws_keys_ok. unfold enumerated_binding.
  destruct (ticks_fields (S (length (page (proc_now p) (p_keys p) offset max_entries))) p) as (Hk&_&Ht&_).
  split_and!; [done|done|done|done|].
  intros md now (j&rec&Hrec&->&_)%elem_of_page. apply length_binding_entry, binding_record_meta_wf.
  by apply (ws_keys_ok _ Hok _ _ Hrec).
Qed.

(** A service with room for one entry. *)
Definition ws_listing : Proc := set_mem (write_bytes (p_mem ws_1) 1024 (zeros 2216)) ws_1.

Lemma enumerate_binding_keys_spec_witness :
  fst (key_manager_enumerate_binding_keys 1024 1 0 (Some 700%N) ws_listing) = Ok 1%Z.
Proof.
  assert (lenN (page (proc_now ws_listing) (p_keys ws_listing) 0 1) = 1%N) as Hl by (vm_compute; reflexivity).
  assert (registry_ok ws_listing) as Hok by exact (registry_ok_set_mem _ _ ws_1_registry).
  pose proof (enumerate_binding_keys_spec 1024 1 0 (Some 700%N) ws_listing Hok ltac:(by_compute) eq_refl
    ltac:(by_compute) ltac:(intros a Ha; injection Ha as <-; by_compute)) as Hs.
  destruct (key_manager_enumerate_binding_keys 1024 1 0 (Some 700%N) ws_listing) as [o p'].
  destruct Hs as [Ho _]. rewrite Hl in Ho. exact Ho.
Defined.

(** C35: a listing round-trips through the C layout: reading the struct at index
    [k] of the caller's array, at the offsets of the C declaration, yields the
    handle, an algorithm that decodes to the supported suite, the public key
    and the seconds left of the [k]-th listed key; and with fewer than [2^31]
    entries asked for, the result is their number, never a negative code. *)
Theorem listed_binding_keys_readable `{PlatformLaws} (out_entries max_entries offset : N) (out_has_more : option N)
    (p : Proc) (k : nat) (md : KeyMetadata) :
  registry_ok p → (offset ≤ usize_max)%N →
  aligned8 out_entries = true → valid_buffer (p_mem p) out_entries (max_entries * WsKeyInfo_size) →
  (∀ a, out_has_more = Some a →
     is_Some (p_mem p !! a) ∧ ¬ (out_entries ≤ a < out_entries + max_entries * WsKeyInfo_size)%N) →
  page (proc_now p) (p_keys p) offset max_entries !! k = Some md →
  let '(o, p') := key_manager_enumerate_binding_keys out_entries max_entries offset out_has_more p in
  (∃ e, read_WsKeyInfo (p_mem p') (out_entries + N.of_nat k * WsKeyInfo_size) = Some e ∧
     WsKeyInfo_shows e md (clock (S (clock_reads (p_sys p)) + k))) ∧
  ((max_entries < 2 ^ 31)%N →
     o = Ok (Z.of_nat (length (page (proc_now p) (p_keys p) offset max_entries)))).
Proof.
  intros Hok Ho Ha Hv Hm Hk. pose proof Hok as (Hp&_&Hs).
  rewrite enumerate_binding_keys_run by (auto using ws_keys_ok; by intros a ?; apply Hm).
  pose proof (page_length (proc_now p) (p_keys p) offset max_entries) as Hlen.
  pose proof (elem_of_page _ _ _ _ _ (list_elem_of_lookup_2 _ _ _ Hk)) as (i&r&Hr&->&_).
  pose proof (ws_keys_ok _ Hok _ _ Hr) as Hwf. destruct (Hwf) as [_ (_&_&Hb)].
  set (now := clock (S (clock_reads (p_sys p)) + k)).
  assert (0 ≤ now)%Z as Hnow by (pose proof clock_nonneg; pose proof (clock_mono_le 0 (S (clock_reads (p_sys p)) + k)); lia).
  destruct (binding_entry_shows (meta r) now (binding_record_meta_wf _ Hwf) Hnow Hb) as [Hewf Hshows].
  unfold enumerated_binding. split.
  - exists (binding_entry (meta r) now). split; [|done]. apply read_WsKeyInfo_bytes; [done|]. cbn [p_mem set_mem].
    rewrite read_write_flag.
    + apply (read_entry _ _ (λ md now, WsKeyInfo_bytes (binding_entry md now))); [|done].
      intros md' t (j&r'&Hr'&->&_)%elem_of_page. by apply length_binding_entry, binding_record_meta_wf, (ws_keys_ok _ Hok _ _ Hr').
    + intros a Hq. destruct (Hm a Hq) as [_ Hout]. apply lookup_lt_Some in Hk. unfold lenN, WsKeyInfo_size in *. lia.
  - intros Hmax. do 2 f_equal. unfold lenN in *. rewrite as_i32_small; lia.
Qed.

Lemma listed_binding_keys_readable_witness :
  ∃ e, read_WsKeyInfo (p_mem (snd (key_manager_enumerate_binding_keys 1024 1 0 (Some 700%N) ws_listing))) 1024 = Some e ∧
    ws_uuid e = Uuid_as_bytes ws_handle.
Proof.
  assert (((λ md, Uuid_as_bytes (id md)) <$> page (proc_now ws_listing) (p_keys ws_listing) 0 1)
          = [Uuid_as_bytes ws_handle]) as Hpage by by_compute.
  apply fmap_lookup_head in Hpage as (md&Hmd&Hid).
  assert (registry_ok ws_listing) as Hok by exact (registry_ok_set_mem _ _ ws_1_registry).
  pose proof (listed_binding_keys_readable 1024 1 0 (Some 700%N) ws_listing 0 md
    Hok ltac:(by_compute) eq_refl ltac:(by_compute)
    ltac:(intros a Ha; injection Ha as <-; split; by_compute) Hmd) as Hs.
  destruct (key_manager_enumerate_binding_keys 1024 1 0 (Some 700%N) ws_listing) as [o p'].
  destruct Hs as [(e&He&Hsh) _]. exists e. split; [exact He|]. destruct Hsh as (pk&_&Hu&_). congruence.
Defined.
