(* ===== verification/Listings.v ===== *)
(** * Walking through a listing page by page

    What the flag of [key_manager_enumerate_kem_keys] and
    [key_manager_enumerate_binding_keys] tells a caller who asks for the pages of
    a listing one after the other. *)

From S2P Require Import Prelude Effects RustStd Proto Platform RefPlatform SecretBox ProtectedMem X25519.
From S2P Require Import Crypto Telemetry KeyTypes Process Registry Reaper Boundary Service Lifetime.
From S2P Require Import KpsCore KpsSpec Kps WsCore WsSpec Layout Ws KpsTheorems WsTheorems.
Import RefInstances.

Section paging.
Context `{PlatformLaws}.

(** What a caller learns who asks [list] for the page of at most [max] entries at
    [offset], at [p], passing [a] for the flag: [next] is where the following page
    starts. *)
Definition flag_exact (list : N → N → N → option N → M Proc Empty_set Z) (out max offset a : N) (p : Proc) : Prop :=
  let metas := page (proc_now p) (p_keys p) offset max in
  let next := (offset + lenN metas)%N in
  let p' := snd (list out max offset (Some a) p) in
  fst (list out max offset (Some a) p) = Ok (as_i32 (lenN metas)) ∧ (next ≤ usize_max)%N ∧
  (p_mem p' !! a = Some x00 ∨ p_mem p' !! a = Some Byte.x01) ∧
  (p_mem p' !! a = Some Byte.x01 ↔ drop (N.to_nat next) (live_sorted (proc_now p) (p_keys p)) ≠ []) ∧
  ((0 < max)%N → p_mem p' !! a = Some Byte.x01 ↔ page (proc_now p) (p_keys p) next max ≠ []) ∧
  (p_mem p' !! a = Some x00 → fst (list out max next (Some a) p') = Ok 0%Z).

Lemma page_empty now keys offset limit :
  (lenN (live_sorted now keys) ≤ offset)%N → page now keys offset limit = [].
Proof.
  unfold page, lenN. intros Ho. rewrite drop_ge by lia. by rewrite take_nil.
Qed.

Lemma page_has_more_left now keys offset limit :
  page_has_more now keys offset limit = true ↔
  drop (N.to_nat (offset + lenN (page now keys offset limit))) (live_sorted now keys) ≠ [].
Proof.
  unfold page_has_more. rewrite N.ltb_lt, <- length_pos_nonempty, length_drop. unfold lenN. lia.
Qed.

Lemma page_has_more_next now keys offset limit :
  (0 < limit)%N →
  page_has_more now keys offset limit = true ↔
  page now keys (offset + lenN (page now keys offset limit)) limit ≠ [].
Proof.
  intros Hl. rewrite page_has_more_left, <- !length_pos_nonempty. generalize (offset + lenN (page now keys offset limit))%N as n.
  intros n. unfold page. rewrite length_fmap, length_take. lia.
Qed.

(** Time only takes keys away. *)
Lemma live_sorted_later now now' keys :
  (now ≤ now')%Z → (lenN (live_sorted now' keys) ≤ lenN (live_sorted now keys))%N.
Proof.
  intros Hle. unfold lenN, live_sorted. rewrite !merge_sort_Permutation.
  assert (filter (λ r, live now' r = true) (map_values keys)
          = filter (λ r, live now' r = true) (filter (λ r, live now r = true) (map_values keys))) as ->.
  { rewrite list_filter_filter_l; [done|]. unfold live. intros r. rewrite !Z.ltb_lt. lia. }
  pose proof (length_filter (λ r, live now' r = true) (filter (λ r, live now r = true) (map_values keys))). lia.
Qed.

(** Any listing handler that does what both do. *)
Lemma flag_exact_run (list : N → N → N → option N → M Proc Empty_set Z) (Q : Proc → Prop)
    (entry : KeyMetadata → Z → bytes) size out max offset a p :
  (∀ o q, Q q → (o ≤ usize_max)%N → is_Some (p_mem q !! a) → valid_buffer (p_mem q) out (max * size) →
     let metas := page (proc_now q) (p_keys q) o max in
     list out max o (Some a) q =
     (Ok (as_i32 (lenN metas)),
      set_mem (write_flag (Some a) (page_has_more (proc_now q) (p_keys q) o max)
                 (write_bytes (p_mem q) out (entries_bytes entry (S (clock_reads (p_sys q))) metas)))
        (ticks (S (length metas)) q))) →
  (∀ q q', Q q → p_keys q' = p_keys q → p_poisoned q' = p_poisoned q → Q q') →
  Q p → (N.of_nat (base.size (p_keys p)) ≤ usize_max)%N → (offset ≤ usize_max)%N → is_Some (p_mem p !! a) →
  valid_buffer (p_mem p) out (max * size) →
  flag_exact list out max offset a p.
Proof.
  intros Hrun HQ Hp Hs Ho Ha Hv. unfold flag_exact. rewrite (Hrun offset p) by done. cbv zeta. cbn [fst snd p_mem set_mem].
  set (now := proc_now p). set (metas := page now (p_keys p) offset max).
  set (more := page_has_more now (p_keys p) offset max).
  set (p' := set_mem _ _).
  assert (write_flag (Some a) more (write_bytes (p_mem p) out (entries_bytes entry (S (clock_reads (p_sys p))) metas)) !! a
          = Some (if more then Byte.x01 else x00)) as Hflag by apply lookup_insert_eq.
  pose proof (page_no_overflow now (p_keys p) offset max Ho Hs) as Hover. fold metas in Hover.
  rewrite Hflag. split_and!; [done|done|by destruct more; auto| | |].
  - unfold metas. rewrite <- page_has_more_left. fold more. by destruct more.
  - intros Hl. unfold metas. rewrite <- page_has_more_next by done. fold more. by destruct more.
  - intros Hclear. assert (more = false) as Hmore by (by destruct more).
    destruct (ticks_fields (S (length metas)) p) as (Hk&Hm&_&Hq&Hc).
    rewrite Hrun.
    + cbn [fst]. cbn [p_keys p' set_mem]. rewrite Hk, page_empty; [done|].
      unfold more, page_has_more in Hmore. apply N.ltb_ge in Hmore. etrans; [|exact Hmore]. apply live_sorted_later.
      apply clock_mono_le. cbn [p_sys p' set_mem]. lia.
    + by apply (HQ p).
    + done.
    + unfold p'. cbn [p_mem set_mem]. rewrite Hflag. eauto.
    + unfold p'. cbn [p_mem set_mem].
      eapply valid_buffer_dom, valid_buffer_write, Hv. cbn [write_flag].
      rewrite dom_insert_lookup_L by (by apply is_Some_write_bytes). done.
Qed.
End paging.

(** C36: the flag that [key_manager_enumerate_kem_keys] and
    [key_manager_enumerate_binding_keys] write is exact, for every limit, zero
    included: it is 1 if keys live at the listing's clock reading remain after the
    page, and 0 otherwise; so, unless the limit is zero, it is 1 if and only if the
    page that starts where this one ended is not empty. When it is 0, asking on
    from there yields no entry. The start of the next page, which the code computes
    to decide this, never overflows [usize]. *)
Theorem has_more_exact `{PlatformLaws} (out_entries max_entries offset out_has_more : N) (p : Proc) :
  (offset ≤ usize_max)%N → aligned8 out_entries = true → is_Some (p_mem p !! out_has_more) →
  (registry_ok (Svc := Kps) p → valid_buffer (p_mem p) out_entries (max_entries * KpsKeyInfo_size) →
   flag_exact key_manager_enumerate_kem_keys out_entries max_entries offset out_has_more p) ∧
  (registry_ok (Svc := Ws) p → valid_buffer (p_mem p) out_entries (max_entries * WsKeyInfo_size) →
   flag_exact key_manager_enumerate_binding_keys out_entries max_entries offset out_has_more p).
Proof.
  intros Ho Ha Hf.
  split; intros Hok Hv;
    [eapply (flag_exact_run _ (registry_ok (Svc := Kps)) (λ md now, KpsKeyInfo_bytes (kem_entry md now)))
    |eapply (flag_exact_run _ (registry_ok (Svc := Ws)) (λ md now, WsKeyInfo_bytes (binding_entry md now)))];
    try exact Hv; try apply Hok; try done.
  - intros o q Hq Hoq Hfq Hvq. pose proof Hq as (?&_&?).
    rewrite enumerate_kem_keys_run; try done; [by apply keys_ok|by intros ? [= <-]].
  - intros q q' Hq Hk Hp. unfold registry_ok. by rewrite Hk, Hp.
  - intros o q Hq Hoq Hfq Hvq. pose proof Hq as (?&_&?).
    rewrite enumerate_binding_keys_run; try done; [by apply ws_keys_ok|by intros ? [= <-]].
  - intros q q' Hq Hk Hp. unfold registry_ok. by rewrite Hk, Hp.
Qed.

(** Of one key, the page of no entry says that more follow, the page of one entry
    says that none do, and asking on from there finds none. *)
Lemma has_more_exact_witness :
  p_mem (snd (key_manager_enumerate_kem_keys 1024 0 0 (Some 700%N) kps_listing)) !! 700%N = Some Byte.x01 ∧
  fst (key_manager_enumerate_binding_keys 1024 1 0 (Some 700%N) ws_listing) = Ok 1%Z ∧
  p_mem (snd (key_manager_enumerate_binding_keys 1024 1 0 (Some 700%N) ws_listing)) !! 700%N = Some x00 ∧
  fst (key_manager_enumerate_binding_keys 1024 1 1 (Some 700%N)
    (snd (key_manager_enumerate_binding_keys 1024 1 0 (Some 700%N) ws_listing))) = Ok 0%Z.
Proof.
  assert (drop 0 (live_sorted (proc_now kps_listing) (p_keys kps_listing)) ≠ []) as Hleft by by_compute.
  assert (lenN (page (proc_now kps_listing) (p_keys kps_listing) 0 0) = 0%N) as Hnone by (vm_compute; reflexivity).
  assert (lenN (page (proc_now ws_listing) (p_keys ws_listing) 0 1) = 1%N) as Hone by (vm_compute; reflexivity).
  assert (drop 1 (live_sorted (proc_now ws_listing) (p_keys ws_listing)) = [])
    as Hdone by (apply nil_length_inv; vm_compute; reflexivity).
  pose proof (proj1 (has_more_exact 1024 0 0 700 kps_listing ltac:(by_compute) eq_refl ltac:(by_compute))
    (registry_ok_set_mem _ _ kps_1_registry) ltac:(by_compute)) as Hk.
  pose proof (proj2 (has_more_exact 1024 1 0 700 ws_listing ltac:(by_compute) eq_refl ltac:(by_compute))
    (registry_ok_set_mem _ _ ws_1_registry) ltac:(by_compute)) as Hw.
  unfold flag_exact in Hk, Hw. rewrite Hnone in Hk. rewrite Hone in Hw.
  destruct Hk as (_&_&_&Hk&_). destruct Hw as (Ho&_&[H0|H1]&Hw&_&Hon).
  - split; [exact (proj2 Hk Hleft)|]. split; [exact Ho|]. split; [exact H0|]. exact (Hon H0).
  - destruct (proj1 Hw H1 Hdone).
Defined.
