(* ===== verification/Hygiene.v ===== *)
(** * Both services keep their house clean

    What a running process has given back and what it has logged, for the two
    services: the laws of the interface, instantiated. *)

From S2P Require Import Prelude Effects RustStd Proto Platform RefPlatform SecretBox ProtectedMem X25519.
From S2P Require Import Crypto Telemetry KeyTypes Process Registry Reaper Boundary Service Lifetime.
From S2P Require Import KpsCore Kps WsCore Ws KpsTheorems WsTheorems.
Import RefInstances.

(** C6: in every reachable state of the key protection service and of the workload
    service: each secret-bearing buffer or mapping it gave back (boxes,
    over-allocated vectors, vaults of destroyed, displaced and reaped keys) was all
    zero when it was freed; no descriptor stays open between calls; and every
    telemetry event ever written is one of the two kinds of line, of static names
    and a status name, under exactly the service name that [SERVICE_NAME] holds,
    which the first initialisation sets to the name the host passed (or to the
    default, if it passed none) and no further step changes; before it is set
    nothing is written. *)
Theorem reachable_process_hygienic `{PlatformLaws} :
  let clean p :=
    Forall all_zero (released (p_sys p)) ∧ open_fds (p_sys p) = ∅ ∧
    match service_name (p_tel p) with
    | None => events (p_tel p) = []
    | Some name => Forall (λ e, e = panic_line name ∨ ∃ f, e = failure_line f name) (events (p_tel p))
    end in
  (∀ p, reachable (Svc := Kps) p → clean p) ∧
  (∀ p, reachable (Svc := Ws) p → clean p) ∧
  (∀ p p' name, rtc (serving (Svc := Kps) (λ _ _, True)) p p' →
     service_name (p_tel p) = Some name → service_name (p_tel p') = Some name) ∧
  (∀ p p' name, rtc (serving (Svc := Ws) (λ _ _, True)) p p' →
     service_name (p_tel p) = Some name → service_name (p_tel p') = Some name) ∧
  (∀ p ptr len m t,
     @key_manager_init_telemetry Status ptr len (p_mem p, p_tel p) = (Ok tt, (m, t)) →
     service_name (p_tel p) = None →
     service_name t = Some (if is_null ptr || (len =? 0)%N then default_service_name
                            else service_name_of (default [] (read_bytes (p_mem p) ptr (N.to_nat len))))).
Proof.
  intros clean.
  assert (∀ p, hygienic p → clean p) as Hclean.
  { intros p (Hr&Hf&He). split_and!; [done..|]. unfold named_events in He.
    by destruct (service_name (p_tel p)); [|destruct He]. }
  split_and!.
  - intros p (_&_&Hh)%reachable_inv. by apply Hclean.
  - intros p (_&_&Hh)%reachable_inv. by apply Hclean.
  - intros p p' name. by apply serving_name.
  - intros p p' name. by apply serving_name.
  - intros p ptr len m t Hrun Hn. by apply (init_telemetry_sets _ _ _ _ _ _ Hrun).
Qed.

(** The host names the workload service, whose two characters lie at 600, and asks
    for the destruction of a key without saying which. *)
Definition name_memory : Memory := write_bytes (p_mem ws_1) 600 (lit "ws").
Definition host_ws : Proc := set_mem name_memory ws_1.
Definition named_ws : Proc := set_tel (install_telemetry "ws" init_telemetry) (set_mem name_memory host_ws).
Definition failed_ws : Proc := snd (ws_run (DestroyBindingKeyCall 0) named_ws).
Definition failed_line : Event := failure_line (mkFailure DestroyBindingKey InvalidArgument FailureKind_Error) "ws".

Lemma failed_ws_reachable : reachable (Svc := Ws) failed_ws.
Proof.
  assert (reachable (Svc := Ws) host_ws) as Hh.
  { eapply reachable_step; [exact ws_1_reachable|by_compute|]. exact (step_env ws_1 _ (step_host ws_1 name_memory)). }
  assert (@key_manager_init_telemetry Status 600 2 (p_mem host_ws, p_tel host_ws) =
    (Ok tt, (name_memory, install_telemetry "ws" init_telemetry))) as Hinit by (vm_compute; reflexivity).
  assert (reachable (Svc := Ws) named_ws) as Hn.
  { eapply reachable_step; [exact Hh|by_compute|]. exact (step_env host_ws _ (step_telemetry 600 2 _ _ _ Hinit)). }
  assert (ws_run (DestroyBindingKeyCall 0) named_ws = (Ok (ws_code (DestroyBindingKeyCall 0) InvalidArgument), failed_ws))
    as Hrun by (unfold failed_ws; apply run_fst; vm_compute; reflexivity).
  eapply reachable_step; [exact Hn|by_compute|].
  exact (step_call (Svc := Ws) (DestroyBindingKeyCall 0) named_ws _ failed_ws (or_introl eq_refl) Hrun).
Qed.

Lemma reachable_process_hygienic_witness :
  events (p_tel failed_ws) = [failed_line] ∧ Forall all_zero (released (p_sys failed_ws)) ∧
  length (released (p_sys failed_ws)) = 1 ∧ Forall all_zero (released (p_sys kps_1)) ∧
  length (released (p_sys kps_1)) = 1 ∧
  service_name (install_telemetry "ws" init_telemetry) = Some (service_name_of (lit "ws")) ∧
  ∃ e, e ∈ events (p_tel failed_ws) ∧ (e = panic_line "ws" ∨ ∃ f, e = failure_line f "ws").
Proof.
  destruct reachable_process_hygienic as (Hkps&Hws&_&_&Hset).
  destruct (Hws failed_ws failed_ws_reachable) as (Hz&_&He), (Hkps kps_1 kps_1_reachable) as (Hzk&_).
  assert (events (p_tel failed_ws) = [failed_line]) as Hev by (vm_compute; reflexivity).
  split_and!; [exact Hev|exact Hz|vm_compute; reflexivity|exact Hzk|vm_compute; reflexivity| |].
  { exact (Hset host_ws 600%N 2%N name_memory _ ltac:(vm_compute; reflexivity) eq_refl). }
  exists failed_line. split; [rewrite Hev; left|].
  assert (service_name (p_tel failed_ws) = Some "ws") as Hn by (vm_compute; reflexivity).
  rewrite Hn, Hev in He. by apply Forall_inv in He.
Defined.
