(* ===== verification/Reporting.v ===== *)
(** * Calls report their failures among other threads

    An entry point meets the telemetry cells in one place: at its end, when
    [ffi_call] reports a failure, after the panic hook if it panicked.  Its body
    neither reads nor changes them.  So a call among other threads is its body
    followed by one thread of TelemetryThreads.v. *)

From S2P Require Import Prelude Effects RustStd Proto Platform RefPlatform SecretBox ProtectedMem X25519 Crypto.
From S2P Require Import Telemetry TelemetryThreads KeyTypes Process Registry Boundary Service Independence.
From S2P Require Import KpsCore WsCore Kps Ws Interleaving.
Import RefInstances.

(** ** What a call does to the telemetry *)

Section reports.
Context `{PlatformLaws}.

Definition told (failure : option Failure) (t : Telemetry) : Telemetry :=
  match failure with Some f => sequential (ReportFailure f) t | None => t end.

(** Whatever the cells hold when it ends, the call reports one failure, or none; the
    failure is the one it returns; and nothing else of it depends on the cells. *)
Definition reports {A} (op : KccOperation) (code : Status → A) (m : M Proc Empty_set A) : Prop :=
  ∀ p, ∃ failure,
    (∀ f, failure = Some f → operation f = op ∧ fst (m p) = Ok (code (status f))) ∧
    ∀ t, m (set_tel t p) = (fst (m p), set_tel (told failure t) (snd (m p))).

Lemma reports_ffi_call op f : telemetry_free f → reports op (λ st, st) (ffi_call op f).
Proof.
  intros Hf p. unfold ffi_call, ffi_call_with_reporter. destruct (f p) as [o q] eqn:Hp.
  exists (match o with
          | Err st => Some (mkFailure op st FailureKind_Error)
          | Panic => Some (mkFailure op InternalError FailureKind_Panic)
          | Ok _ | Ub => None
          end).
  split; [by destruct o as [[]|st| |]; intros ? [= <-]|].
  intros t. rewrite Hf, Hp. by destruct o as [[]|st| |].
Qed.

Lemma reports_ffi_call_i32 op f :
  telemetry_free f → reports op (λ st, - Status_as_i32 st)%Z (ffi_call_i32 op f).
Proof.
  intros Hf p. unfold ffi_call_i32, ffi_call_i32_with_reporter. destruct (f p) as [o q] eqn:Hp.
  exists (match o with
          | Err st => Some (mkFailure op st FailureKind_Error)
          | Panic => Some (mkFailure op InternalError FailureKind_Panic)
          | Ok _ | Ub => None
          end).
  split; [by destruct o as [v|st| |]; intros ? [= <-]|].
  intros t. rewrite Hf, Hp. by destruct o as [v|st| |].
Qed.

Lemma reports_status_code op m : reports op (λ st, st) m → reports op Status_as_i32 (status_code m).
Proof.
  intros Hm p. destruct (Hm p) as (failure&Ho&Ht). exists failure. unfold status_code, bind, ret.
  destruct (m p) as [o q]. cbn in *. split.
  - intros f Hf. destruct (Ho f Hf) as [-> ->]. by split.
  - intros t. rewrite Ht. by destruct o.
Qed.
End reports.

(** ** The entry points *)

Section calls.
Context `{PlatformLaws}.

Lemma kps_reports c : reports (kps_operation c) (kps_code c) (kps_run c).
Proof.
  destruct c; cbn [kps_run kps_operation kps_code]; try apply reports_status_code.
  - apply reports_ffi_call. unfold generate_kem_keypair_internal. free_go.
  - apply reports_ffi_call. free_go.
  - apply reports_ffi_call_i32. unfold enumerate_kem_keys_internal. free_go.
  - apply reports_ffi_call. unfold decap_and_seal_internal. free_go.
  - apply reports_ffi_call. unfold get_kem_key_internal. free_go.
Qed.

Lemma ws_reports c : reports (ws_operation c) (ws_code c) (ws_run c).
Proof.
  destruct c; cbn [ws_run ws_operation ws_code]; try apply reports_status_code.
  - apply reports_ffi_call. unfold generate_binding_keypair_internal. free_go.
  - apply reports_ffi_call. free_go.
  - apply reports_ffi_call. free_go.
  - apply reports_ffi_call. unfold open_internal. free_go.
  - apply reports_ffi_call_i32. unfold enumerate_binding_keys_internal. free_go.
  - apply reports_ffi_call. unfold get_binding_key_internal. free_go.
Qed.

(** Both together: a call whose registry and telemetry other threads change has the
    outcome, memory and registry of the undisturbed call at the registry its
    operation found, and writes its failure to the cells it finds at its end. *)
Theorem calls_among_threads op code (m : M Proc Empty_set Z) p at_op o q :
  reports op code m → interleaved m p at_op o q →
  ∀ before after, effect_at at_op before after →
    ∃ failure, (∀ f, failure = Some f → operation f = op ∧ o = Ok (code (status f))) ∧
      ∀ t, m (set_tel t (set_keys before p)) = (o, set_tel (told failure t) (set_keys after q)).
Proof.
  intros Hr Hi before after Hb. destruct (Hr (set_keys before p)) as (failure&Ho&Ht).
  rewrite (interleaved_effect _ _ _ _ _ Hi _ _ Hb) in Ho, Ht. by exists failure.
Qed.
End calls.

(** ** The process *)

(** C39: telemetry among threads.  Every entry point reports at most one failure,
    the one it returns, at its end, and nothing else of it depends on the telemetry
    cells; the functions of telemetry.rs, run step by step, do what the sequential
    definitions say.  Among any threads, the log consists of what the threads wrote;
    a failing call writes each of its lines at most once, under the configured name
    or, where the name was read before it was set, the default.  Once one call of
    [key_manager_init_telemetry] has returned, the configured name, which is the
    argument of one of the calls, never changes, and every failure that starts to be
    reported later is written in full, under that name. *)
Theorem telemetry_among_threads `{PlatformLaws} :
  (∀ c, reports (kps_operation c) (kps_code c) (kps_run c)) ∧
  (∀ c, reports (ws_operation c) (ws_code c) (ws_run c)) ∧
  (∀ r c, quiet c →
     snd (alone 7 c (first_task r)) = Done ∧ tel (fst (alone 7 c (first_task r))) = sequential r (tel c)) ∧
  ∀ w, world_reachable w →
    events (tel (cells w)) ≡ₚ concat (written <$> threads w) ∧
    (∀ i th, threads w !! i = Some th → wrote_at_most (admissible (cells w)) th) ∧
    ∀ i th name, threads w !! i = Some th → request th = InitTelemetry name → task th = Done →
      ∃ first, configured first (cells w) ∧
        (∃ j th', threads w !! j = Some th' ∧ request th' = InitTelemetry first) ∧
        ∀ w', rtc world_step w w' → configured first (cells w') ∧
          ∀ j th' f, length (threads w) ≤ j → threads w' !! j = Some th' → request th' = ReportFailure f →
            task th' = Done → written th' = report_lines f first first.
Proof.
  split_and!; [apply kps_reports|apply ws_reports|apply alone_sequential|].
  intros w Hw. pose proof (reachable_invariant w Hw) as Hinv. split_and!.
  - apply Hinv.
  - intros i th Hth. eapply reporting_at_most, (inv_reporting w Hinv i th Hth). by left.
  - intros i th name Hth Hq Ht. destruct (initialized_configured _ _ _ _ Hw Hth Hq Ht) as [first Hc].
    exists first. split_and!; [done|by apply (inv_name w Hinv), Hc|].
    intros w' Hs. split; [eapply configured_mono, Hc; by apply world_steps_le|].
    intros j th' f Hj Hth' Hq' Ht'. eapply reported_exactly; [|done..]. by eapply started_later.
Qed.

(** A call fails while the host initialises telemetry on two threads: it reads the
    default name; the subscriber is there when it writes.  The second host thread
    comes too late for the name, waits for the first one's closure and finds the
    work done.  A call that panics afterwards writes both lines under the name. *)
Definition early_failure : Failure := mkFailure Open NotFound FailureKind_Error.
Definition late_failure : Failure := mkFailure DecapAndSeal InternalError FailureKind_Panic.
Definition host_starts : list Choice :=
  [Start (ReportFailure early_failure); Step 0;
   Start (InitTelemetry "workload_service"); Start (InitTelemetry "other"); Step 1; Step 2; Step 1; Step 1;
   Step 0; Step 1; Step 2; Step 1; Step 1; Step 1].
Definition call_panics : list Choice :=
  [Start (ReportFailure late_failure); Step 3; Step 3; Step 2; Step 3; Step 3; Step 3].

Definition started_world : World := default init_world (run_schedule host_starts init_world).
Definition panicked_world : World := default init_world (run_schedule call_panics started_world).

Lemma telemetry_among_threads_witness :
  written <$> threads started_world !! 0 = Some [failure_line early_failure default_service_name] ∧
  written <$> threads panicked_world !! 3 =
    Some [failure_line late_failure "workload_service"; panic_line "workload_service"].
Proof.
  split; [by vm_compute|].
  assert (world_reachable started_world) as Hstarted by (apply (run_schedule_steps host_starts); by vm_compute).
  assert (rtc world_step started_world panicked_world) as Hlater by (apply (run_schedule_steps call_panics); by vm_compute).
  destruct (proj2 (proj2 (proj2 telemetry_among_threads)) started_world Hstarted) as (_&_&Hinit).
  destruct (Hinit 1 (mkThread (InitTelemetry "workload_service") Done []) "workload_service") as (first&[Hfirst _]&_&Hreports);
    [by vm_compute..|].
  assert (first = "workload_service") as -> by (vm_compute in Hfirst; congruence).
  destruct (threads panicked_world !! 3) as [th|] eqn:Hth; [|by vm_compute in Hth].
  cbn. f_equal. apply (proj2 (Hreports _ Hlater) 3 th late_failure); [by vm_compute|done|..];
    vm_compute in Hth; by injection Hth as <-.
Defined.

(** C32: every request of telemetry finishes.  Under any scheduler, in any reachable
    state, the threads that have started make at most as many steps as their tasks
    have left, none of them needing a later thread; and when no thread can step,
    all are done: nobody waits for a [Once] for ever. *)
Theorem telemetry_threads_finish (w : World) :
  world_reachable w →
  (∀ n w', nsteps advances n w w' → n ≤ work w) ∧
  (∀ w', rtc advances w w' → (∀ w'', ¬ advances w' w'') →
     ∀ i th, threads w' !! i = Some th → task th = Done).
Proof.
  intros Hw. split.
  - intros n w' Hn. apply nsteps_work in Hn. lia.
  - intros w' Hs Hstuck. apply stuck_done; [|done]. unfold world_reachable. etrans; [apply Hw|].
    eapply rtc_subrel, Hs. intros w1 w2. apply step_advance.
Qed.

(** Two initialisations and a panicking call, started together and scheduled in
    turns; while the first thread is inside a closure, the second one waits. *)
Definition crowd : list Choice :=
  [Start (InitTelemetry "a"); Start (InitTelemetry "b"); Start (ReportFailure late_failure)].
Definition crowded_world : World := default init_world (run_schedule crowd init_world).
Definition turns : list nat := [0; 1; 0; 2; 0; 2; 0; 1; 0; 0; 0; 1; 2].
Definition settled_world : World := default init_world (run_schedule (Step <$> turns) crowded_world).

Lemma telemetry_threads_finish_witness :
  advance 1 (default init_world (run_schedule (Step <$> [0; 1; 0]) crowded_world)) = None ∧
  ∀ i th, threads settled_world !! i = Some th → task th = Done.
Proof.
  split; [by vm_compute|].
  apply (telemetry_threads_finish crowded_world).
  - apply (run_schedule_steps crowd). by vm_compute.
  - apply (run_steps_advances turns). by vm_compute.
  - intros w' [[|[|[|i]]] Hi]; by vm_compute in Hi.
Defined.
