(* ===== verification/EndToEnd.v ===== *)
(** * From a client's secret to the workload

    The path the two services exist for: the workload service makes a binding
    key, the key protection service makes a KEM key bound to it, a client
    encapsulates to the KEM key, the key protection service reseals what it
    decapsulates, and the workload service opens it. *)

From S2P Require Import Prelude Effects RustStd Proto Platform RefPlatform SecretBox ProtectedMem X25519.
From S2P Require Import Crypto Telemetry KeyTypes Process Registry Reaper Boundary Service KpsCore.
From S2P Require Import KpsSpec WsCore WsSpec.
Import RefInstances.

Section lemmas.
Context `{PlatformLaws}.

Lemma generate_kem_keypair_internal_ok algo bpk expiry_secs p i kpk p' :
  p_poisoned p = false →
  generate_kem_keypair_internal algo (PublicKey_X25519 bpk) expiry_secs p = (Ok (i, kpk), p') →
  ∃ r, p_keys p' !! i = Some r ∧ spec (meta r) = KemWithBindingPub x25519_suite kpk (PublicKey_X25519 bpk) ∧
    is_key_pair kpk (mmap (private_key r)) ∧
    delete_after (meta r) = (proc_now p + Duration_from_secs expiry_secs)%Z.
Proof.
  intros Hp Hrun. apply bind_ok_inv in Hrun as (r&p1&Hr&Hrun).
  unfold in_sys, zoom in Hr.
  pose proof (create_bound_kem_key_cases algo bpk (Duration_from_secs expiry_secs) (p_sys p)) as Hc.
  unfold wp in Hc. destruct (create_bound_kem_key _ _ _ (p_sys p)) as [o s']. injection Hr as -> <-.
  cbn [fst] in Hc. case_decide; [|done]. destruct Hc as (pk&Hs&Hkp&_&Hcr&Hd&_).
  rewrite Hs, bind_ret in Hrun.
  rewrite (bind_ok _ _ _ _ _ (add_key_run _ r (set_sys s' p) Hp)) in Hrun. injection Hrun as <- <- <-.
  exists r. rewrite (proj1 (drop_records_fields _ _)). cbn [p_keys set_keys].
  rewrite lookup_insert_eq, Hd, Hcr. done.
Qed.

Lemma generate_binding_keypair_internal_ok algo expiry_secs p i pk p' :
  p_poisoned p = false →
  generate_binding_keypair_internal algo expiry_secs p = (Ok (i, pk), p') →
  ∃ r, p_keys p' !! i = Some r ∧ spec (meta r) = Binding x25519_suite pk ∧
    is_key_pair pk (mmap (private_key r)) ∧
    delete_after (meta r) = (proc_now p + Duration_from_secs expiry_secs)%Z.
Proof.
  intros Hp Hrun. apply bind_ok_inv in Hrun as (r&p1&Hr&Hrun).
  unfold in_sys, zoom in Hr.
  pose proof (create_binding_key_cases algo (Duration_from_secs expiry_secs) (p_sys p)) as Hc.
  unfold wp in Hc. destruct (create_binding_key _ _ (p_sys p)) as [o s']. injection Hr as -> <-.
  cbn [fst] in Hc. case_decide; [|done]. destruct Hc as (pk'&Hs&Hkp&_&Hcr&Hd&_).
  rewrite Hs, bind_ret in Hrun.
  rewrite (bind_ok _ _ _ _ _ (add_key_run _ r (set_sys s' p) Hp)) in Hrun. injection Hrun as <- <- <-.
  exists r. rewrite (proj1 (drop_records_fields _ _)). cbn [p_keys set_keys].
  rewrite lookup_insert_eq, Hd, Hcr. done.
Qed.

(** A registry of one key holds that key. *)
Lemma singleton_keys (keys : gmap Uuid KeyRecord) i j r r' :
  size keys = 1 → keys !! i = Some r → keys !! j = Some r' → r' = r.
Proof.
  intros Hs Hi%elem_of_map_to_list Hj%elem_of_map_to_list. rewrite <- length_map_to_list in Hs.
  destruct (map_to_list keys) as [|x [|]]; simplify_eq/=.
  apply list_elem_of_singleton in Hi, Hj. congruence.
Qed.

Lemma points_to_read m a b n :
  points_to m a b → lenN b = N.of_nat n → b = default [] (read_bytes m a n).
Proof. intros (_&_&Hr) Hl. apply lenN_length in Hl. rewrite Hl in Hr. by rewrite Hr. Qed.

(** The half of the path in the key protection service: decap-and-seal under a
    live KEM key, on a secret encapsulated to it. *)
Lemma resealed kps r kid kpk bpk client secret enc aad k_uuid k_enc k_aad k_aad_len out_enc out_ct :
  spec (meta r) = KemWithBindingPub x25519_suite kpk bpk → is_key_pair kpk (mmap (private_key r)) →
  fst (encap kpk client) = Ok (secret, enc) →
  p_poisoned kps = false → map_Forall (λ _, record_wf) (p_keys kps) → live_key kps kid = Some r →
  points_to (p_mem kps) k_uuid (Uuid_as_bytes kid) → points_to (p_mem kps) k_enc enc →
  opt_points_to (p_mem kps) k_aad k_aad_len aad →
  valid_buffer (p_mem kps) out_enc 32 → valid_buffer (p_mem kps) out_ct 48 → disjoint out_enc 32 out_ct 48 →
  ∃ st kps',
    key_manager_decap_and_seal k_uuid k_enc 32 k_aad k_aad_len out_enc 32 out_ct 48 kps = (Ok st, kps') ∧
    (st = EncryptionFailure ∨
     st = Success ∧
     ∃ enc2 ct2, points_to (p_mem kps') out_enc enc2 ∧ points_to (p_mem kps') out_ct ct2 ∧
       lenN enc2 = 32%N ∧ lenN ct2 = 48%N ∧ lenN (SecretBox_as_slice secret) = 32%N ∧
       Sealed (PublicKey_as_bytes bpk) (SecretBox_as_slice secret) aad enc2 ct2).
Proof.
  intros Hks Hkk Henc Hp Hwf Hlk Hu He Ha Hoe Hoc Hdis.
  destruct (encap_decaps _ _ _ _ _ Hkk Henc) as (Hle&Hlss&Hdec).
  pose proof (Hdec client) as Hd. rewrite decaps_outcome in Hd by apply Hkk. rewrite decide_True in Hd by done.
  destruct (Decap enc (mmap (private_key r))) as [ss|] eqn:HD; [|done]. injection Hd as <-. cbn [SecretBox_as_slice] in *.
  assert (lenN enc = 32%N) as Hlen by (unfold lenN; by rewrite Hle).
  pose proof (decap_and_seal_refines k_uuid k_enc 32 k_aad k_aad_len out_enc 32 out_ct 48 kps kid enc aad
    Hp Hwf Hu He (eq_sym Hlen) ltac:(done) Ha Hoe ltac:(done) Hoc ltac:(done)) as Hw.
  unfold wp in Hw. destruct (key_manager_decap_and_seal _ _ _ _ _ _ _ _ _ kps) as [o kps'].
  destruct Hw as (st&Ho&[_ HR]&_). cbn [fst snd] in *. subst o. exists st, kps'. split; [done|].
  rewrite Hlk, Hks, decide_True, HD in HR by done.
  destruct HR as [[-> _]|(enc2&ct2&Hsealed&Hl1&Hl2&HR)]; [by left|right].
  assert (lenN enc2 = 32%N ∧ lenN ct2 = 48%N) as [He2 Hc2] by (unfold lenN; rewrite Hl1, Hl2, Hlss; done).
  rewrite He2, Hc2, decide_True in HR by done. destruct HR as [-> Hm]. split; [done|].
  exists enc2, ct2. rewrite Hm. split_and!; [|apply points_to_write; rewrite Hc2; apply valid_buffer_write; exact Hoc|exact He2|exact Hc2|unfold lenN; by rewrite Hlss|exact Hsealed].
  apply points_to_write_disjoint; [rewrite He2, Hc2; exact Hdis|]. apply points_to_write. rewrite He2. exact Hoe.
Qed.

(** The half in the workload service: opening, under the live binding key, what was
    sealed to it. *)
Lemma opened ws r bid bpk secret enc ct aad w_uuid w_enc w_ct w_aad w_aad_len out_pt :
  spec (meta r) = Binding x25519_suite bpk → is_key_pair bpk (mmap (private_key r)) →
  Sealed (PublicKey_as_bytes bpk) secret aad enc ct → lenN enc = 32%N → lenN ct = 48%N → lenN secret = 32%N →
  p_poisoned ws = false → map_Forall (λ _, record_wf) (p_keys ws) → live_key ws bid = Some r →
  points_to (p_mem ws) w_uuid (Uuid_as_bytes bid) → points_to (p_mem ws) w_enc enc → points_to (p_mem ws) w_ct ct →
  opt_points_to (p_mem ws) w_aad w_aad_len aad → valid_buffer (p_mem ws) out_pt 32 →
  ∃ ws', key_manager_open w_uuid w_enc 32 w_ct 48 w_aad w_aad_len out_pt 32 ws = (Ok Success, ws') ∧
    points_to (p_mem ws') out_pt secret.
Proof.
  intros Hbs [Hbl Hbp] Hsealed Hle Hlc Hls Hp Hwf Hlb Hwu Hwe Hwc Hwa Hwo.
  pose proof (open_refines w_uuid w_enc 32 w_ct 48 w_aad w_aad_len out_pt 32 ws bid enc ct aad
    Hp Hwf Hwu Hwe (eq_sym Hle) Hwc (eq_sym Hlc) Hwa Hwo ltac:(done)) as Hw.
  unfold wp in Hw. destruct (key_manager_open _ _ _ _ _ _ _ _ _ ws) as [o ws'].
  destruct Hw as (st&Ho&[_ HR]&_). cbn [fst snd] in *. subst o. rewrite Hlb, Hbs in HR.
  rewrite Hbp in Hsealed. rewrite (Sealed_Opened _ _ _ _ _ Hbl Hsealed), Hls, decide_True in HR by done.
  destruct HR as [-> Hmw]. exists ws'. split; [done|]. rewrite Hmw. apply points_to_write. rewrite Hls. exact Hwo.
Qed.
End lemmas.

(** End to end. Suppose the workload service generated a binding key in state
    [ws], the key protection service a KEM key bound to its public key in state
    [kps], and a client encapsulated to the KEM public key. Then in any later
    state of the key protection service in which that KEM key is stored and not
    expired, decap-and-seal returns [Success] (or [EncryptionFailure], if
    BoringSSL refuses to seal), and in any later state of the workload service in
    which the binding key is stored and not expired, opening the two buffers it
    wrote, under the same additional data, returns [Success] and writes exactly
    the client's shared secret. *)
Theorem end_to_end_delivery `{PlatformLaws} (ws ws1 kps kps1 kps2 : Proc) (bid kid : Uuid)
    (bpk : X25519PublicKey) (kpk : PublicKey) (bexp kexp : N)
    (client : Sys) (secret : SecretBox) (enc aad : bytes)
    (k_uuid k_enc k_aad k_aad_len out_enc out_ct : N) :
  p_poisoned ws = false → p_poisoned kps = false →
  generate_binding_keypair_internal x25519_suite bexp ws = (Ok (bid, PublicKey_X25519 bpk), ws1) →
  generate_kem_keypair_internal x25519_suite (PublicKey_X25519 bpk) kexp kps = (Ok (kid, kpk), kps1) →
  fst (encap kpk client) = Ok (secret, enc) →
  (* the key protection service, later *)
  p_poisoned kps2 = false → map_Forall (λ _, record_wf) (p_keys kps2) →
  p_keys kps2 !! kid = p_keys kps1 !! kid → (proc_now kps2 < proc_now kps + Duration_from_secs kexp)%Z →
  points_to (p_mem kps2) k_uuid (Uuid_as_bytes kid) → points_to (p_mem kps2) k_enc enc →
  opt_points_to (p_mem kps2) k_aad k_aad_len aad →
  valid_buffer (p_mem kps2) out_enc 32 → valid_buffer (p_mem kps2) out_ct 48 → disjoint out_enc 32 out_ct 48 →
  ∃ st kps3,
    key_manager_decap_and_seal k_uuid k_enc 32 k_aad k_aad_len out_enc 32 out_ct 48 kps2 = (Ok st, kps3) ∧
    (st = EncryptionFailure ∨
     st = Success ∧
     ∃ enc2 ct2, points_to (p_mem kps3) out_enc enc2 ∧ points_to (p_mem kps3) out_ct ct2 ∧
       lenN enc2 = 32%N ∧ lenN ct2 = 48%N ∧
       (* the workload service, later, on those bytes *)
       ∀ ws2 w_uuid w_enc w_ct w_aad w_aad_len out_pt,
         p_poisoned ws2 = false → map_Forall (λ _, record_wf) (p_keys ws2) →
         p_keys ws2 !! bid = p_keys ws1 !! bid → (proc_now ws2 < proc_now ws + Duration_from_secs bexp)%Z →
         points_to (p_mem ws2) w_uuid (Uuid_as_bytes bid) →
         points_to (p_mem ws2) w_enc enc2 → points_to (p_mem ws2) w_ct ct2 →
         opt_points_to (p_mem ws2) w_aad w_aad_len aad → valid_buffer (p_mem ws2) out_pt 32 →
         ∃ ws3, key_manager_open w_uuid w_enc 32 w_ct 48 w_aad w_aad_len out_pt 32 ws2 = (Ok Success, ws3) ∧
           points_to (p_mem ws3) out_pt (SecretBox_as_slice secret)).
Proof.
  intros Hws Hkps Hgb Hgk Henc Hq2 Hwf2 Hk2 Hlive2 Hu He Ha Hoe Hoc Hdis.
  destruct (generate_binding_keypair_internal_ok _ _ _ _ _ _ Hws Hgb) as (br&Hbr&Hbs&Hbk&Hbd).
  destruct (generate_kem_keypair_internal_ok _ _ _ _ _ _ _ Hkps Hgk) as (kr&Hkr&Hks&Hkk&Hkd).
  assert (live_key kps2 kid = Some kr) as Hlk by (apply live_key_Some; rewrite Hk2, Hkr, Hkd; auto).
  destruct (resealed kps2 kr kid kpk _ client secret enc aad k_uuid k_enc k_aad k_aad_len out_enc out_ct
    Hks Hkk Henc Hq2 Hwf2 Hlk Hu He Ha Hoe Hoc Hdis) as (st&kps3&Hrun&Hst).
  exists st, kps3. split; [exact Hrun|]. destruct Hst as [->|(->&enc2&ct2&Hpe&Hpc&Hl1&Hl2&Hls&Hsealed)]; [by left|right].
  split; [done|]. exists enc2, ct2. split_and!; [done..|].
  intros ws2 w_uuid w_enc w_ct w_aad w_aad_len out_pt Hp Hwf Hb2 Hlive Hwu Hwe Hwc Hwa Hwo.
  assert (live_key ws2 bid = Some br) as Hlb by (apply live_key_Some; rewrite Hb2, Hbr, Hbd; auto).
  by eapply opened.
Qed.

(** ** The path on the reference platform *)

Definition e2e_memory : Memory := write_bytes ∅ 8 (zeros 800).
Definition e2e_ws : Proc := init_proc e2e_memory.
Definition e2e_ws_made : Outcome Status (Uuid * PublicKey) * Proc :=
  generate_binding_keypair_internal x25519_suite 3600 e2e_ws.
Definition e2e_bid : Uuid := match fst e2e_ws_made with Ok (i, _) => i | _ => u128_of 0 end.
Definition e2e_bpk : X25519PublicKey :=
  match fst e2e_ws_made with Ok (_, PublicKey_X25519 pk) => pk | _ => mkX25519PublicKey [] end.

Definition e2e_kps : Proc := set_sys (mkSys 0 10 0 ∅ []) (init_proc e2e_memory).
Definition e2e_kps_made : Outcome Status (Uuid * PublicKey) * Proc :=
  generate_kem_keypair_internal x25519_suite (PublicKey_X25519 e2e_bpk) 60 e2e_kps.
Definition e2e_kid : Uuid := match fst e2e_kps_made with Ok (i, _) => i | _ => u128_of 0 end.
Definition e2e_kpk : PublicKey :=
  match fst e2e_kps_made with Ok (_, pk) => pk | _ => PublicKey_X25519 (mkX25519PublicKey []) end.

Definition e2e_client : Sys := mkSys 0 20 0 ∅ [].
Definition e2e_encap : Outcome Status (SecretBox * bytes) := fst (encap e2e_kpk e2e_client).
Definition e2e_secret : SecretBox := match e2e_encap with Ok (ss, _) => ss | _ => mkSecretBox [] end.
Definition e2e_enc : bytes := match e2e_encap with Ok (_, enc) => enc | _ => [] end.

(** The handle, the encapsulated key and the additional data reach the service. *)
Definition e2e_kps2 : Proc :=
  set_mem (write_bytes (write_bytes (write_bytes e2e_memory 16 (Uuid_as_bytes e2e_kid)) 64 e2e_enc) 128 (lit "aad"))
    (snd e2e_kps_made).

Lemma e2e_ws_run : e2e_ws_made = (Ok (e2e_bid, PublicKey_X25519 e2e_bpk), snd e2e_ws_made).
Proof. apply run_fst. by_compute. Qed.
Lemma e2e_kps_run : e2e_kps_made = (Ok (e2e_kid, e2e_kpk), snd e2e_kps_made).
Proof. apply run_fst. by_compute. Qed.
Lemma e2e_encap_run : fst (encap e2e_kpk e2e_client) = Ok (e2e_secret, e2e_enc).
Proof. by_compute. Qed.

Definition e2e_kps3 : Proc := snd (key_manager_decap_and_seal 16 64 32 128 3 256 32 320 48 e2e_kps2).
Definition e2e_enc2 : bytes := default [] (read_bytes (p_mem e2e_kps3) 256 32).
Definition e2e_ct2 : bytes := default [] (read_bytes (p_mem e2e_kps3) 320 48).

(** The two buffers reach the workload service. *)
Definition e2e_ws2 : Proc :=
  set_mem (write_bytes (write_bytes (write_bytes (write_bytes e2e_memory 16 (Uuid_as_bytes e2e_bid)) 64 e2e_enc2)
    128 e2e_ct2) 256 (lit "aad")) (snd e2e_ws_made).

Lemma e2e_kps2_records : map_Forall (λ _, record_wf) (p_keys e2e_kps2).
Proof.
  pose proof (generate_kem_keypair_internal_ok x25519_suite e2e_bpk 60 e2e_kps _ _ _ eq_refl e2e_kps_run) as (r&Hr&Hs&Hk&Hd).
  assert (map_Forall (λ _ r, (created_at (meta r) ≤ delete_after (meta r))%Z ∧
    (delete_after (meta r) / nanos_per_sec ≤ i64_max)%Z) (p_keys e2e_kps2)) as Hc by by_compute.
  assert (size (p_keys e2e_kps2) = 1) as H1 by by_compute.
  intros i r' Hr'. assert (r' = r) as -> by exact (singleton_keys _ _ _ _ _ H1 Hr Hr').
  split; [|exact (Hc i r Hr')]. rewrite Hs. split_and!; [done|done|]. by_compute.
Qed.

Lemma e2e_ws2_records : map_Forall (λ _, record_wf) (p_keys e2e_ws2).
Proof.
  pose proof (generate_binding_keypair_internal_ok x25519_suite 3600 e2e_ws _ _ _ eq_refl e2e_ws_run) as (r&Hr&Hs&Hk&Hd).
  assert (map_Forall (λ _ r, (created_at (meta r) ≤ delete_after (meta r))%Z ∧
    (delete_after (meta r) / nanos_per_sec ≤ i64_max)%Z) (p_keys e2e_ws2)) as Hc by by_compute.
  assert (size (p_keys e2e_ws2) = 1) as H1 by by_compute.
  intros i r' Hr'. assert (r' = r) as -> by exact (singleton_keys _ _ _ _ _ H1 Hr Hr').
  split; [|exact (Hc i r Hr')]. rewrite Hs. by split.
Qed.

Lemma end_to_end_delivery_witness :
  ∃ ws3, key_manager_open 16 64 32 128 48 256 3 400 32 e2e_ws2 = (Ok Success, ws3) ∧
    points_to (p_mem ws3) 400 (SecretBox_as_slice e2e_secret).
Proof.
  destruct (end_to_end_delivery e2e_ws (snd e2e_ws_made) e2e_kps (snd e2e_kps_made) e2e_kps2 e2e_bid e2e_kid
    e2e_bpk e2e_kpk 3600 60 e2e_client e2e_secret e2e_enc (lit "aad") 16 64 128 3 256 320
    eq_refl eq_refl e2e_ws_run e2e_kps_run e2e_encap_run ltac:(by_compute) e2e_kps2_records eq_refl
    ltac:(by_compute) ltac:(by_compute) ltac:(by_compute) ltac:(by_compute) ltac:(by_compute) ltac:(by_compute)
    ltac:(left; by_compute)) as (st&kps3&Hrun&Hst).
  assert (fst (key_manager_decap_and_seal 16 64 32 128 3 256 32 320 48 e2e_kps2) = Ok Success) as Hok by by_compute.
  assert (kps3 = e2e_kps3) as -> by (unfold e2e_kps3; rewrite Hrun; reflexivity).
  rewrite Hrun in Hok. destruct Hst as [->|(_&enc2&ct2&He&Hc&Hle&Hlc&Hopen)]; [discriminate Hok|].
  assert (enc2 = e2e_enc2) as -> by (by apply (points_to_read _ _ _ 32)).
  assert (ct2 = e2e_ct2) as -> by (by apply (points_to_read _ _ _ 48)).
  apply Hopen; [by_compute|exact e2e_ws2_records|reflexivity|by_compute..].
Defined.
