(* ===== verification/Delivery.v ===== *)
(** * Delivery by services that serve other clients too

    The two services as running processes: between the calls of one client they
    make, use and destroy keys for others, reap, and let time pass.  The client's
    secret reaches the workload all the same. *)

From S2P Require Import Prelude Effects RustStd Proto Platform RefPlatform SecretBox ProtectedMem X25519.
From S2P Require Import Crypto Telemetry KeyTypes Process Registry Reaper Boundary Service Lifetime KpsCore.
From S2P Require Import KpsSpec Kps WsCore WsSpec Ws EndToEnd.
Import RefInstances.

(** ** What a successful generation leaves *)

Section generated.
Context `{PlatformLaws}.

(** Both buffers of a generation are read back. *)
Lemma read_generated m u k i pk uuid key :
  disjoint u 16 k 32 → length pk = 32 →
  let m' := write_bytes (write_bytes m u (Uuid_as_bytes i)) k pk in
  read_bytes m' u 16 = Some (Uuid_as_bytes uuid) → read_bytes m' k 32 = Some key → i = uuid ∧ pk = key.
Proof.
  intros Hd Hl m' Hu Hk. unfold m' in *.
  rewrite read_write_bytes_disjoint in Hu by (unfold lenN; by rewrite Hl).
  rewrite <- (Uuid_as_bytes_length i) in Hu at 1. rewrite read_write_bytes_same in Hu.
  rewrite <- Hl in Hk at 1. rewrite read_write_bytes_same in Hk. simplify_eq. split; [|done].
  apply (inj Some). by rewrite <- (Uuid_from_as i), <- (Uuid_from_as uuid), Hu.
Qed.

Lemma generated_binding_key a al expiry u k kl p p' i pk :
  let c := GenerateBindingKeypairCall a al expiry u k kl in
  p_poisoned p = false → ws_contract c p → ws_run c p = (Ok (Status_as_i32 Success), p') →
  disjoint u 16 k kl →
  read_bytes (p_mem p') u 16 = Some (Uuid_as_bytes i) → read_bytes (p_mem p') k 32 = Some pk →
  ∃ r, p_keys p' !! i = Some r ∧ spec (meta r) = Binding x25519_suite (PublicKey_X25519 (mkX25519PublicKey pk)) ∧
    is_key_pair (PublicKey_X25519 (mkX25519PublicKey pk)) (mmap (private_key r)) ∧
    delete_after (meta r) = (proc_now p + Duration_from_secs expiry)%Z.
Proof.
  intros c Hp Hc Hrun Hd Hu Hk. destruct (ws_malformed c) eqn:Hm.
  { rewrite (ws_malformed_run _ _ Hm) in Hrun. by injection Hrun. }
  destruct Hc as [Hc|(Ha&Hvu&Hvk)]; [congruence|]. cbn in Hm. bool_props.
  destruct (valid_points_to _ _ _ Ha) as (algo&Halgo&Hal).
  edestruct returns_run as (st&p2&Hr&HR&_);
    [by eapply (generate_binding_keypair_refines a al expiry u k kl p algo)|].
  cbn [ws_run c] in Hrun. unfold key_manager_generate_binding_keypair in Hrun. rewrite Hr in Hrun.
  injection Hrun as Hst <-. assert (st = Success) as -> by (destruct st; done).
  unfold GenerateBinding in HR. destruct (HpkeAlgorithm_decode algo) as [al'|]; [|by destruct HR].
  case_decide; [|by destruct HR].
  destruct HR as [([?|[? _]]&_)|(r&[[key]]&Hcr&Hs&Hkp&Hkeys&HR)]; [done..|].
  case_decide as Hl; destruct HR as [? Hmem]; [subst kl|done]. rewrite Hmem in Hu, Hk.
  destruct (read_generated _ _ _ _ _ _ _ Hd (is_key_pair_wf _ _ Hkp) Hu Hk) as [<- <-].
  exists r. rewrite Hkeys, lookup_insert_eq. split_and!; [done..|].
  destruct Hcr as (_&_&_&_&Hcr&->&_). by rewrite Hcr.
Qed.

Lemma generated_kem_key a al b bl expiry u k kl p p' i pk bpk :
  let c := GenerateKemKeypairCall a al b bl expiry u k kl in
  p_poisoned p = false → kps_contract c p → kps_run c p = (Ok (Status_as_i32 Success), p') →
  disjoint u 16 k kl → read_bytes (p_mem p) b (N.to_nat bl) = Some bpk →
  read_bytes (p_mem p') u 16 = Some (Uuid_as_bytes i) → read_bytes (p_mem p') k 32 = Some pk →
  ∃ r, p_keys p' !! i = Some r ∧
    spec (meta r) = KemWithBindingPub x25519_suite (PublicKey_X25519 (mkX25519PublicKey pk))
                      (PublicKey_X25519 (mkX25519PublicKey bpk)) ∧
    is_key_pair (PublicKey_X25519 (mkX25519PublicKey pk)) (mmap (private_key r)) ∧
    delete_after (meta r) = (proc_now p + Duration_from_secs expiry)%Z.
Proof.
  intros c Hp Hc Hrun Hd Hb Hu Hk. destruct (kps_malformed c) eqn:Hm.
  { rewrite (kps_malformed_run _ _ Hm) in Hrun. by injection Hrun. }
  destruct Hc as [Hc|(Ha&Hvb&Hvu&Hvk)]; [congruence|]. cbn in Hm. bool_props.
  destruct (valid_points_to _ _ _ Ha) as (algo&Halgo&Hal), (valid_points_to _ _ _ Hvb) as (bpk'&Hbpk&Hbl).
  assert (bpk' = bpk) as ->.
  { destruct Hbpk as (_&_&Hr). rewrite <- Hbl in Hb. unfold lenN in Hb. rewrite Nat2N.id, Hr in Hb. by injection Hb. }
  edestruct returns_run as (st&p2&Hr&HR&_);
    [by eapply (generate_kem_keypair_refines a al b bl expiry u k kl p algo bpk)|].
  cbn [kps_run c] in Hrun. unfold key_manager_generate_kem_keypair in Hrun. rewrite Hr in Hrun.
  injection Hrun as Hst <-. assert (st = Success) as -> by (destruct st; done).
  unfold GenerateKem in HR. destruct (if decide (length bpk = 32) then _ else _) as [al'|]; [|by destruct HR].
  case_decide; [|destruct HR; by destruct (kem al' =? 1)%Z].
  destruct HR as [([?|[? _]]&_)|(r&[[key]]&Hcr&Hs&Hkp&Hkeys&HR)]; [done..|].
  case_decide as Hl; destruct HR as [? Hmem]; [subst kl|done]. rewrite Hmem in Hu, Hk.
  destruct (read_generated _ _ _ _ _ _ _ Hd (is_key_pair_wf _ _ Hkp) Hu Hk) as [<- <-].
  exists r. rewrite Hkeys, lookup_insert_eq. split_and!; [done..|].
  destruct Hcr as (_&_&_&_&Hcr&->&_). by rewrite Hcr.
Qed.
End generated.

(** ** Delivery *)

(** C1: end to end, among other clients. A workload asked the workload service for
    a binding key; for its public key the key protection service made a KEM key;
    a client encapsulated a secret to that KEM key.  Each of these calls was made
    in some reachable state of its service.  Then, whatever steps the two services
    take in the meantime (calls of other clients within their contracts, rounds
    of the reaper, writes of the host, passing time), as long as no call
    destroys the key in question or draws its handle again and the key has not
    expired: decap-and-seal returns [Success] (or [EncryptionFailure], if
    BoringSSL refuses to seal), and opening the two buffers it wrote, under the
    same additional data, returns [Success] and writes exactly the client's
    secret. *)
Theorem delivery_among_other_clients `{PlatformLaws} (ws ws1 kps kps1 kps2 : Proc) (bid kid : Uuid)
    (bpk kpk : bytes) (client : Sys) (secret : SecretBox) (enc aad : bytes)
    (w_algo w_algo_len bexp w_uuid w_key w_key_len : N)
    (k_algo k_algo_len k_bpk k_bpk_len kexp k_uuid k_key k_key_len : N)
    (d_uuid d_enc d_aad d_aad_len out_enc out_ct : N) :
  (* a binding key *)
  let w_call := GenerateBindingKeypairCall w_algo w_algo_len bexp w_uuid w_key w_key_len in
  reachable (Svc := Ws) ws → fits ws → ws_contract w_call ws → disjoint w_uuid 16 w_key w_key_len →
  ws_run w_call ws = (Ok (Status_as_i32 Success), ws1) →
  read_bytes (p_mem ws1) w_uuid 16 = Some (Uuid_as_bytes bid) → read_bytes (p_mem ws1) w_key 32 = Some bpk →
  (* a KEM key bound to it *)
  let k_call := GenerateKemKeypairCall k_algo k_algo_len k_bpk k_bpk_len kexp k_uuid k_key k_key_len in
  reachable (Svc := Kps) kps → fits kps → kps_contract k_call kps → disjoint k_uuid 16 k_key k_key_len →
  read_bytes (p_mem kps) k_bpk (N.to_nat k_bpk_len) = Some bpk →
  kps_run k_call kps = (Ok (Status_as_i32 Success), kps1) →
  read_bytes (p_mem kps1) k_uuid 16 = Some (Uuid_as_bytes kid) → read_bytes (p_mem kps1) k_key 32 = Some kpk →
  (* a secret encapsulated to it *)
  fst (encap (PublicKey_X25519 (mkX25519PublicKey kpk)) client) = Ok (secret, enc) →
  (* the key protection service serves others, then reseals *)
  rtc (serving (Svc := Kps) (spares kid)) kps1 kps2 → fits kps2 →
  (proc_now kps2 < proc_now kps + Duration_from_secs kexp)%Z →
  points_to (p_mem kps2) d_uuid (Uuid_as_bytes kid) → points_to (p_mem kps2) d_enc enc →
  opt_points_to (p_mem kps2) d_aad d_aad_len aad →
  valid_buffer (p_mem kps2) out_enc 32 → valid_buffer (p_mem kps2) out_ct 48 → disjoint out_enc 32 out_ct 48 →
  ∃ st kps3,
    key_manager_decap_and_seal d_uuid d_enc 32 d_aad d_aad_len out_enc 32 out_ct 48 kps2 = (Ok st, kps3) ∧
    (st = EncryptionFailure ∨
     st = Success ∧
     ∃ enc2 ct2, points_to (p_mem kps3) out_enc enc2 ∧ points_to (p_mem kps3) out_ct ct2 ∧
       lenN enc2 = 32%N ∧ lenN ct2 = 48%N ∧
       (* the workload service serves others, then opens *)
       ∀ ws2 o_uuid o_enc o_ct o_aad o_aad_len out_pt,
         rtc (serving (Svc := Ws) (spares bid)) ws1 ws2 → fits ws2 →
         (proc_now ws2 < proc_now ws + Duration_from_secs bexp)%Z →
         points_to (p_mem ws2) o_uuid (Uuid_as_bytes bid) →
         points_to (p_mem ws2) o_enc enc2 → points_to (p_mem ws2) o_ct ct2 →
         opt_points_to (p_mem ws2) o_aad o_aad_len aad → valid_buffer (p_mem ws2) out_pt 32 →
         ∃ ws3, key_manager_open o_uuid o_enc 32 o_ct 48 o_aad o_aad_len out_pt 32 ws2 = (Ok Success, ws3) ∧
           points_to (p_mem ws3) out_pt (SecretBox_as_slice secret)).
Proof.
  intros w_call Hws Hfw Hcw Hdw Hrw Hbid Hbpk k_call Hkps Hfk Hck Hdk Hrb Hrk Hkid Hkpk Henc
    Hsk Hfk2 Hlk Hu He Ha Hoe Hoc Hdis.
  pose proof (reachable_inv _ Hws) as (Hpw&_). pose proof (reachable_inv _ Hkps) as (Hpk&_).
  destruct (generated_binding_key _ _ _ _ _ _ _ _ _ _ Hpw Hcw Hrw Hdw Hbid Hbpk) as (br&Hbr&Hbs&Hbk&Hbd).
  destruct (generated_kem_key _ _ _ _ _ _ _ _ _ _ _ _ _ Hpk Hck Hrk Hdk Hrb Hkid Hkpk) as (kr&Hkr&Hks&Hkk&Hkd).
  assert (reachable (Svc := Ws) ws1) as Hws1
    by exact (reachable_step ws ws1 Hws Hfw (step_call (Svc := Ws) w_call ws _ ws1 Hcw Hrw)).
  assert (reachable (Svc := Kps) kps1) as Hkps1
    by exact (reachable_step kps kps1 Hkps Hfk (step_call (Svc := Kps) k_call kps _ kps1 Hck Hrk)).
  pose proof (serving_reachable _ _ _ Hsk Hkps1) as Hkps2.
  pose proof (reachable_registry_ok _ Hkps2 Hfk2) as Hok2.
  assert (live_key kps2 kid = Some kr) as Hlive.
  { apply live_key_Some. rewrite Hkd. split; [|done]. apply (key_survives (Svc := Kps) kps1 kps2 kid kr Hkps1 Hsk Hkr). by rewrite Hkd. }
  destruct (resealed kps2 kr kid _ _ client secret enc aad d_uuid d_enc d_aad d_aad_len out_enc out_ct
    Hks Hkk Henc (proj1 Hok2) (keys_record_wf _ Hok2) Hlive Hu He Ha Hoe Hoc Hdis) as (st&kps3&Hrun&Hst).
  exists st, kps3. split; [exact Hrun|]. destruct Hst as [->|(->&enc2&ct2&Hpe&Hpc&Hl1&Hl2&Hls&Hsealed)]; [by left|right].
  split; [done|]. exists enc2, ct2. split_and!; [done..|].
  intros ws2 o_uuid o_enc o_ct o_aad o_aad_len out_pt Hsw Hfw2 Hlw Hwu Hwe Hwc Hwa Hwo.
  pose proof (reachable_registry_ok _ (serving_reachable _ _ _ Hsw Hws1) Hfw2) as Hokw.
  assert (live_key ws2 bid = Some br) as Hlivew.
  { apply live_key_Some. rewrite Hbd. split; [|done]. apply (key_survives (Svc := Ws) ws1 ws2 bid br Hws1 Hsw Hbr). by rewrite Hbd. }
  exact (opened ws2 br bid _ _ enc2 ct2 aad o_uuid o_enc o_ct o_aad o_aad_len out_pt Hbs Hbk Hsealed Hl1 Hl2 Hls
    (proj1 Hokw) (ws_record_wf _ Hokw) Hlivew Hwu Hwe Hwc Hwa Hwo).
Qed.

(** ** Two busy services on the reference platform *)

(** The host's memory: an algorithm at 128; then a binding public key at 160. *)
Definition busy_memory : Memory := write_bytes (write_bytes ∅ 8 (zeros 800)) 128 (HpkeAlgorithm_encode_to_vec x25519_suite).

(** The workload service makes a key for an hour, handle at 16, public key at 64,
    then one for another client, for a second, which the reaper removes. *)
Definition busy_ws_call : WsCall := GenerateBindingKeypairCall 128 6 3600 16 64 32.
Definition busy_ws_other : WsCall := GenerateBindingKeypairCall 128 6 1 600 640 32.
Definition busy_ws_1 : Proc := snd (ws_run busy_ws_call (init_proc busy_memory)).
Definition busy_bid : Uuid := Uuid_from_bytes (default [] (read_bytes (p_mem busy_ws_1) 16 16)).
Definition busy_bpk : bytes := default [] (read_bytes (p_mem busy_ws_1) 64 32).
Definition busy_ws_2 : Proc := snd (ws_run busy_ws_other busy_ws_1).
Definition busy_ws_3 : Proc := snd (@reaper_round _ Status (ticked busy_ws_2)).

(** The key protection service makes a key for another client, then ours, and
    destroys the first. *)
Definition busy_kps_0 : Proc := init_proc (write_bytes busy_memory 160 busy_bpk).
Definition busy_kps_other : KpsCall := GenerateKemKeypairCall 128 6 160 32 3600 600 640 32.
Definition busy_kps_call : KpsCall := GenerateKemKeypairCall 128 6 160 32 60 16 64 32.
Definition busy_kps_1 : Proc := snd (kps_run busy_kps_other busy_kps_0).
Definition busy_kps_2 : Proc := snd (kps_run busy_kps_call busy_kps_1).
Definition busy_kid : Uuid := Uuid_from_bytes (default [] (read_bytes (p_mem busy_kps_2) 16 16)).
Definition busy_kpk : bytes := default [] (read_bytes (p_mem busy_kps_2) 64 32).
Definition busy_kps_3 : Proc := snd (kps_run (DestroyKemKeyCall 600) busy_kps_2).

Definition busy_encap : Outcome Status (SecretBox * bytes) :=
  fst (encap (PublicKey_X25519 (mkX25519PublicKey busy_kpk)) (mkSys 0 20 0 ∅ [])).
Definition busy_secret : SecretBox := match busy_encap with Ok (ss, _) => ss | _ => mkSecretBox [] end.
Definition busy_enc : bytes := match busy_encap with Ok (_, enc) => enc | _ => [] end.

(** The request reaches the key protection service, its answer the workload service. *)
Definition busy_request : Memory := write_bytes (write_bytes (p_mem busy_kps_3) 256 busy_enc) 320 (lit "aad").
Definition busy_kps_4 : Proc := set_mem busy_request busy_kps_3.
Definition busy_kps_5 : Proc := snd (key_manager_decap_and_seal 16 256 32 320 3 384 32 448 48 busy_kps_4).
Definition busy_enc2 : bytes := default [] (read_bytes (p_mem busy_kps_5) 384 32).
Definition busy_ct2 : bytes := default [] (read_bytes (p_mem busy_kps_5) 448 48).
Definition busy_answer : Memory :=
  write_bytes (write_bytes (write_bytes (p_mem busy_ws_3) 256 busy_enc2) 320 busy_ct2) 400 (lit "aad").
Definition busy_ws_4 : Proc := set_mem busy_answer busy_ws_3.

Lemma busy_ws_1_run : ws_run busy_ws_call (init_proc busy_memory) = (Ok (Status_as_i32 Success), busy_ws_1).
Proof. unfold busy_ws_1. apply run_fst. by_compute. Qed.
Lemma busy_ws_2_run : ws_run busy_ws_other busy_ws_1 = (Ok (Status_as_i32 Success), busy_ws_2).
Proof. unfold busy_ws_2. apply run_fst. by_compute. Qed.
Lemma busy_kps_1_run : kps_run busy_kps_other busy_kps_0 = (Ok (Status_as_i32 Success), busy_kps_1).
Proof. unfold busy_kps_1. apply run_fst. by_compute. Qed.
Lemma busy_kps_2_run : kps_run busy_kps_call busy_kps_1 = (Ok (Status_as_i32 Success), busy_kps_2).
Proof. unfold busy_kps_2. apply run_fst. by_compute. Qed.
Lemma busy_kps_3_run : kps_run (DestroyKemKeyCall 600) busy_kps_2 = (Ok (Status_as_i32 Success), busy_kps_3).
Proof. unfold busy_kps_3. apply run_fst. by_compute. Qed.
Lemma busy_reaper_run : @reaper_round _ Status (ticked busy_ws_2) = (Ok tt, busy_ws_3).
Proof.
  assert (∀ p, @reaper_round _ Status p = (Ok tt, snd (@reaper_round _ Status p))) as Hr
    by (intros p; by rewrite reaper_round_run).
  exact (Hr (ticked busy_ws_2)).
Qed.

Lemma busy_kps_1_reachable : reachable (Svc := Kps) busy_kps_1.
Proof.
  assert (kps_contract busy_kps_other busy_kps_0) as Hc by (right; split_and!; by_compute).
  refine (reachable_step (Svc := Kps) busy_kps_0 busy_kps_1 (reachable_init _) ltac:(by_compute) _).
  exact (step_call (Svc := Kps) busy_kps_other _ _ _ Hc busy_kps_1_run).
Qed.

Lemma busy_ws_serving : rtc (serving (Svc := Ws) (spares busy_bid)) busy_ws_1 busy_ws_4.
Proof.
  assert (ws_contract busy_ws_other busy_ws_1) as Hc by (right; split_and!; by_compute).
  assert (fits busy_ws_1) as Hf1 by by_compute. assert (fits busy_ws_2) as Hf2 by by_compute.
  assert (fits (ticked busy_ws_2)) as Hf2' by by_compute. assert (fits busy_ws_3) as Hf3 by by_compute.
  assert (busy_bid ≠ Uuid_new_v4 (S (entropy (p_sys busy_ws_1)))) as Hne by by_compute.
  assert (spares (Svc := Ws) busy_bid busy_ws_other busy_ws_1) as Hs by (split; [exact Hne|by intros []]).
  refine (rtc_l _ _ busy_ws_2 _ _ (rtc_l _ _ (ticked busy_ws_2) _ _ (rtc_l _ _ busy_ws_3 _ _ (rtc_once _ _ _)))).
  - exact (serving_call (Svc := Ws) _ busy_ws_other busy_ws_1 _ busy_ws_2 Hf1 Hs Hc busy_ws_2_run).
  - exact (serving_env (Svc := Ws) _ busy_ws_2 _ Hf2 (step_clock busy_ws_2)).
  - exact (serving_env (Svc := Ws) _ (ticked busy_ws_2) busy_ws_3 Hf2' (step_reaper _ _ busy_reaper_run)).
  - exact (serving_env (Svc := Ws) _ busy_ws_3 busy_ws_4 Hf3 (step_host busy_ws_3 busy_answer)).
Qed.

Lemma busy_kps_serving : rtc (serving (Svc := Kps) (spares busy_kid)) busy_kps_2 busy_kps_4.
Proof.
  assert (kps_contract (DestroyKemKeyCall 600) busy_kps_2) as Hc by (right; by_compute).
  assert (fits busy_kps_2) as Hf2 by by_compute. assert (fits busy_kps_3) as Hf3 by by_compute.
  assert (read_bytes (p_mem busy_kps_2) 600 16 ≠ Some (Uuid_as_bytes busy_kid)) as Hne by by_compute.
  assert (spares (Svc := Kps) busy_kid (DestroyKemKeyCall 600) busy_kps_2) as Hs
    by (split; [intros []|intros [_ Hr]; exact (Hne Hr)]).
  refine (rtc_l _ _ busy_kps_3 _ _ (rtc_once _ _ _)).
  - exact (serving_call (Svc := Kps) _ (DestroyKemKeyCall 600) busy_kps_2 _ busy_kps_3 Hf2 Hs Hc busy_kps_3_run).
  - exact (serving_env (Svc := Kps) _ busy_kps_3 busy_kps_4 Hf3 (step_host busy_kps_3 busy_request)).
Qed.

Lemma delivery_among_other_clients_witness :
  size (p_keys busy_ws_2) = 2 ∧ size (p_keys busy_ws_4) = 1 ∧
  ∃ ws', key_manager_open 16 256 32 320 48 400 3 500 32 busy_ws_4 = (Ok Success, ws') ∧
    points_to (p_mem ws') 500 (SecretBox_as_slice busy_secret).
Proof.
  split; [vm_compute; reflexivity|]. split; [vm_compute; reflexivity|].
  destruct (delivery_among_other_clients (init_proc busy_memory) busy_ws_1 busy_kps_1 busy_kps_2 busy_kps_4
    busy_bid busy_kid busy_bpk busy_kpk (mkSys 0 20 0 ∅ []) busy_secret busy_enc (lit "aad")
    128 6 3600 16 64 32 128 6 160 32 60 16 64 32 16 256 320 3 384 448) as (st&kps'&Hrun&Hst).
  - apply reachable_init.
  - by_compute.
  - right. split_and!; by_compute.
  - left. by_compute.
  - exact busy_ws_1_run.
  - by_compute.
  - by_compute.
  - exact busy_kps_1_reachable.
  - by_compute.
  - right. split_and!; by_compute.
  - left. by_compute.
  - by_compute.
  - exact busy_kps_2_run.
  - by_compute.
  - by_compute.
  - by_compute.
  - exact busy_kps_serving.
  - by_compute.
  - by_compute.
  - by_compute.
  - by_compute.
  - by_compute.
  - by_compute.
  - by_compute.
  - left. by_compute.
  - assert (fst (key_manager_decap_and_seal 16 256 32 320 3 384 32 448 48 busy_kps_4) = Ok Success) as Hok by by_compute.
    assert (kps' = busy_kps_5) as -> by (unfold busy_kps_5; rewrite Hrun; reflexivity).
    rewrite Hrun in Hok. destruct Hst as [->|(_&enc2&ct2&He&Hc&Hle&Hlc&Hopen)]; [discriminate Hok|].
    assert (enc2 = busy_enc2) as -> by (by apply (points_to_read _ _ _ 32)).
    assert (ct2 = busy_ct2) as -> by (by apply (points_to_read _ _ _ 48)).
    apply Hopen; [exact busy_ws_serving|by_compute..].
Defined.

(** ** The life of a key *)

(** C12: the life of a key in the two services, whatever they do for other clients
    in the meantime: a stored key stays, unchanged, until it has expired or a call
    names it for destruction; what [key_manager_destroy_kem_key],
    [key_manager_destroy_binding_key] or [key_manager_destroy_all_binding_keys]
    destroyed, and whatever is gone for another reason, is found in no later state,
    unless a generation draws that very handle again. *)
Theorem keys_live_and_die `{PlatformLaws} (p p' : Proc) (i : Uuid) :
  (* the key protection service *)
  (reachable (Svc := Kps) p →
    (∀ r, p_keys p !! i = Some r → rtc (serving (Svc := Kps) (spares i)) p p' →
       (proc_now p' < delete_after (meta r))%Z → p_keys p' !! i = Some r) ∧
    (∀ u, fits p → points_to (p_mem p) u (Uuid_as_bytes i) →
       rtc (serving (Svc := Kps) (does_not_make i)) (snd (key_manager_destroy_kem_key u p)) p' →
       p_keys p' !! i = None) ∧
    (p_keys p !! i = None → rtc (serving (Svc := Kps) (does_not_make i)) p p' → p_keys p' !! i = None)) ∧
  (* the workload service *)
  (reachable (Svc := Ws) p →
    (∀ r, p_keys p !! i = Some r → rtc (serving (Svc := Ws) (spares i)) p p' →
       (proc_now p' < delete_after (meta r))%Z → p_keys p' !! i = Some r) ∧
    (∀ u, fits p → points_to (p_mem p) u (Uuid_as_bytes i) →
       rtc (serving (Svc := Ws) (does_not_make i)) (snd (key_manager_destroy_binding_key u p)) p' →
       p_keys p' !! i = None) ∧
    (fits p → rtc (serving (Svc := Ws) (does_not_make i)) (snd (key_manager_destroy_all_binding_keys p)) p' →
       p_keys p' !! i = None) ∧
    (p_keys p !! i = None → rtc (serving (Svc := Ws) (does_not_make i)) p p' → p_keys p' !! i = None)).
Proof.
  assert (∀ u, points_to (p_mem p) u (Uuid_as_bytes i) →
    valid_buffer (p_mem p) u 16 ∧ is_null u = false ∧ read_bytes (p_mem p) u 16 = Some (Uuid_as_bytes i)) as Hnamed.
  { intros u Hu. rewrite <- (lenN_uuid i) at 1.
    split_and!; [by apply points_to_valid|by eapply points_to_nonnull|by apply points_to_uuid]. }
  split; intros Hr; split_and!.
  - intros r Hi Hs Hlive. exact (key_survives (Svc := Kps) p p' i r Hr Hs Hi Hlive).
  - intros u Hf [Hv Hd]%Hnamed Hs.
    exact (key_destroyed_for_good (Svc := Kps) (DestroyKemKeyCall u) (key_manager_destroy_kem_key u) p p' i
      Hr Hf (or_intror Hv) Hd (λ F, F) eq_refl Hs).
  - intros Hi Hs. exact (key_stays_gone (Svc := Kps) p p' i Hr Hs Hi).
  - intros r Hi Hs Hlive. exact (key_survives (Svc := Ws) p p' i r Hr Hs Hi Hlive).
  - intros u Hf [Hv Hd]%Hnamed Hs.
    exact (key_destroyed_for_good (Svc := Ws) (DestroyBindingKeyCall u) (key_manager_destroy_binding_key u) p p' i
      Hr Hf (or_intror Hv) Hd (λ F, F) eq_refl Hs).
  - intros Hf Hs.
    exact (key_destroyed_for_good (Svc := Ws) DestroyAllBindingKeysCall key_manager_destroy_all_binding_keys p p' i
      Hr Hf (or_intror I) I (λ F, F) eq_refl Hs).
  - intros Hi Hs. exact (key_stays_gone (Svc := Ws) p p' i Hr Hs Hi).
Qed.

(** The key protection service destroys another client's key, which stays gone,
    while ours stays; the workload service destroys all its keys. *)
Definition other_kid : Uuid := Uuid_from_bytes (default [] (read_bytes (p_mem busy_kps_2) 600 16)).
Definition emptied_ws : Proc := snd (key_manager_destroy_all_binding_keys busy_ws_2).
Definition idle_ws : Proc := ticked emptied_ws.

Lemma busy_kps_2_reachable : reachable (Svc := Kps) busy_kps_2.
Proof.
  assert (kps_contract busy_kps_call busy_kps_1) as Hc by (right; split_and!; by_compute).
  refine (reachable_step (Svc := Kps) busy_kps_1 busy_kps_2 busy_kps_1_reachable ltac:(by_compute) _).
  exact (step_call (Svc := Kps) busy_kps_call _ _ _ Hc busy_kps_2_run).
Qed.

Lemma busy_ws_2_reachable : reachable (Svc := Ws) busy_ws_2.
Proof.
  assert (ws_contract busy_ws_call (init_proc busy_memory)) as Hc0 by (right; split_and!; by_compute).
  assert (ws_contract busy_ws_other busy_ws_1) as Hc1 by (right; split_and!; by_compute).
  assert (reachable (Svc := Ws) busy_ws_1) as Hr.
  { refine (reachable_step (Svc := Ws) (init_proc busy_memory) busy_ws_1 (reachable_init _) ltac:(by_compute) _).
    exact (step_call (Svc := Ws) busy_ws_call _ _ _ Hc0 busy_ws_1_run). }
  refine (reachable_step (Svc := Ws) busy_ws_1 busy_ws_2 Hr ltac:(by_compute) _).
  exact (step_call (Svc := Ws) busy_ws_other _ _ _ Hc1 busy_ws_2_run).
Qed.

Lemma keys_live_and_die_witness :
  (is_Some (p_keys busy_kps_2 !! other_kid) ∧ p_keys busy_kps_4 !! other_kid = None ∧
   p_keys busy_kps_4 !! busy_kid = p_keys busy_kps_2 !! busy_kid ∧ is_Some (p_keys busy_kps_4 !! busy_kid)) ∧
  is_Some (p_keys busy_ws_2 !! busy_bid) ∧ ∀ i, p_keys idle_ws !! i = None.
Proof.
  assert (fits busy_kps_3) as Hf3 by by_compute.
  assert (is_Some (p_keys busy_kps_2 !! busy_kid)) as [r Hkid] by by_compute.
  assert (map_Forall (λ _ r, (proc_now busy_kps_4 < delete_after (meta r))%Z) (p_keys busy_kps_2)) as Hall by by_compute.
  assert (p_keys busy_kps_4 !! busy_kid = Some r) as Hkept.
  { exact (proj1 (proj1 (keys_live_and_die busy_kps_2 busy_kps_4 busy_kid) busy_kps_2_reachable)
      r Hkid busy_kps_serving (Hall _ _ Hkid)). }
  assert (snd (key_manager_destroy_kem_key 600 busy_kps_2) = busy_kps_3) as Hgone.
  { unfold busy_kps_3. cbn [kps_run]. unfold status_code, bind.
    by destruct (key_manager_destroy_kem_key 600 busy_kps_2) as [[]?]. }
  split; split; [by_compute| |by_compute|].
  - split; [|split; [by rewrite Hkept, Hkid|by rewrite Hkept]].
    refine (proj1 (proj2 (proj1 (keys_live_and_die busy_kps_2 busy_kps_4 other_kid) busy_kps_2_reachable))
      600%N ltac:(by_compute) ltac:(by_compute) _).
    rewrite Hgone. apply rtc_once.
    exact (serving_env (Svc := Kps) _ busy_kps_3 busy_kps_4 Hf3 (step_host busy_kps_3 busy_request)).
  - intros i.
    refine (proj1 (proj2 (proj2 (proj2 (keys_live_and_die busy_ws_2 idle_ws i) busy_ws_2_reachable)))
      ltac:(by_compute) (rtc_once _ _ _)).
    exact (serving_env (Svc := Ws) _ emptied_ws idle_ws ltac:(by_compute) (step_clock emptied_ws)).
Defined.
