(* ===== verification/Harness.v ===== *)
(** * Programs that drive a custody core

    The fuzz targets (key_custody_core/fuzz/fuzz_targets of both services) and
    the unit tests are Rust programs around the entry points: they keep buffers
    on their stack or heap, take pointers into them, call across the FFI and look
    at what came back.  A program's state is the process, the next free address
    for its locals, and its statics. *)

From S2P Require Import Prelude Effects RustStd Proto Platform SecretBox ProtectedMem X25519 Crypto.
From S2P Require Import Telemetry KeyTypes Process Registry Reaper Boundary.

Record Prog `{Platform} (Statics : Type) := mkProg {
  prog_proc : Proc;
  prog_top : N;
  prog_statics : Statics;
}.
Arguments mkProg {_ _} prog_proc prog_top prog_statics.
Arguments prog_proc {_ _} _.
Arguments prog_top {_ _} _.
Arguments prog_statics {_ _} _.

(** A [&[u8]]: where it is and what it shows. *)
Record Slice := mkSlice { as_ptr : N; slice_bytes : bytes }.
Definition slice_len (s : Slice) : N := lenN (slice_bytes s).

Section harness.
Context `{Platform} {St : Type}.
Implicit Types (w : Prog St).

Definition set_proc (p : Proc) w : Prog St := mkProg p (prog_top w) (prog_statics w).
Definition set_top (a : N) w : Prog St := mkProg (prog_proc w) a (prog_statics w).
Definition set_statics (st : St) w : Prog St := mkProg (prog_proc w) (prog_top w) st.

(** ** Locals *)

(** A new local holding [b], at the next free address, the next one 8-aligned. *)
Definition alloc {E} (b : bytes) : M (Prog St) E N := λ w,
  let a := prog_top w in
  let p := prog_proc w in
  (Ok a, mkProg (set_mem (write_bytes (p_mem p) a b) p) (8 * ((a + lenN b + 7) / 8))%N (prog_statics w)).

(** A local array or vector, as a slice. *)
Definition alloc_slice {E} (b : bytes) : M (Prog St) E Slice :=
  let* a := alloc b in ret (mkSlice a b).

(** The body of a function or closure: its locals are gone when it is left. *)
Definition scope {E A} (body : M (Prog St) E A) : M (Prog St) E A := λ w,
  finally body (set_top (prog_top w)) w.

(** What the [n] bytes of a local are now. *)
Definition load {E} (a n : N) : M (Prog St) E bytes :=
  zoom prog_proc set_proc (in_mem (from_raw_parts a n)).

(** [s[i]], [&s[lo..hi]] and [&s[lo..]] panic out of range. *)
Definition index {E} (s : Slice) (i : nat) : M (Prog St) E N :=
  match slice_bytes s !! i with Some b => ret (Byte.to_N b) | None => panic end.
Definition subslice {E} (s : Slice) (lo hi : N) : M (Prog St) E Slice :=
  if (hi <? lo)%N || (slice_len s <? hi)%N then panic
  else ret (mkSlice (as_ptr s + lo) (takeN (hi - lo) (skipN lo (slice_bytes s)))).
Definition subslice_from {E} (s : Slice) (lo : N) : M (Prog St) E Slice := subslice s lo (slice_len s).

(** ** Calls *)

(** A call across the FFI. *)
Definition call {E A} (m : M Proc Empty_set A) : M (Prog St) E A :=
  zoom prog_proc set_proc (map_err (λ e : Empty_set, match e with end) m).

(** A call of the crate's own function, with its [Result]. *)
Definition result {E F A} (m : M Proc F A) : M (Prog St) E (F + A) := λ w,
  match m (prog_proc w) with
  | (Ok a, p) => (Ok (inr a), set_proc p w)
  | (Err e, p) => (Ok (inl e), set_proc p w)
  | (Panic, p) => (Panic, set_proc p w)
  | (Ub, p) => (Ub, set_proc p w)
  end.

(** [get_or_init] of a [OnceLock]. *)
Definition get_or_init {E A} (get : St → option A) (set : A → St → St) (init : M (Prog St) E A) : M (Prog St) E A :=
  let* st := gets prog_statics in
  match get st with
  | Some a => ret a
  | None =>
      let* a := init in
      do* modify (λ w, set_statics (set a (prog_statics w)) w);
      ret a
  end.

(** ** What other threads do meanwhile *)

Inductive background := ReaperWakes | ClockAdvances.

Definition run_background (b : background) (p : Proc) : Proc :=
  match b with
  | ReaperWakes => snd (@reaper_round _ Empty_set p)
  | ClockAdvances => ticked p
  end.

(** A driver feeds its target one input after the other; between two inputs
    other threads may have run. *)
Fixpoint drive {E I} (target : I → M (Prog St) E unit) (inputs : list (list background * I)) : M (Prog St) E unit :=
  match inputs with
  | [] => ret tt
  | (others, data) :: inputs =>
      do* modify (λ w, set_proc (foldl (flip run_background) (prog_proc w) others) w);
      do* target data;
      drive target inputs
  end.
End harness.

(** ** Buffers *)

Section buffers.
Context `{PlatformLaws} {St : Type} {E : Type}.
Implicit Types (w : Prog St) (p : Proc) (m : Memory).

(** The slice is where it says, in memory that can be read. *)
Definition slice_valid m (s : Slice) : Prop := valid_buffer m (as_ptr s) (slice_len s).

Lemma valid_buffer_sub m a n lo k :
  valid_buffer m a n → (lo + k ≤ n)%N → valid_buffer m (a + lo) k.
Proof.
  intros (Ha&Hn&Hs) Hle. split_and!; [lia|lia|]. rewrite read_bytes_is_Some in *. intros i Hi.
  replace (a + lo + N.of_nat i)%N with (a + N.of_nat (N.to_nat lo + i))%N by lia. apply Hs. lia.
Qed.

Lemma valid_buffer_written m a b :
  a ≠ 0%N → (lenN b ≤ isize_max)%N → valid_buffer (write_bytes m a b) a (lenN b).
Proof.
  intros Ha Hl. split_and!; [done|done|]. unfold lenN. rewrite Nat2N.id, read_write_bytes_same. eauto.
Qed.

(** A new local: every buffer there was is still there, and so is the new one. *)
Lemma wp_alloc b Q w :
  prog_top w ≠ 0%N → (lenN b ≤ isize_max)%N →
  (∀ a w', prog_top w' ≠ 0%N → prog_statics w' = prog_statics w →
     (∃ m, prog_proc w' = set_mem m (prog_proc w)) →
     (∀ q n, valid_buffer (p_mem (prog_proc w)) q n → valid_buffer (p_mem (prog_proc w')) q n) →
     valid_buffer (p_mem (prog_proc w')) a (lenN b) → Q (Ok a) w') →
  wp (@alloc _ St E b) Q w.
Proof.
  intros Ht Hl HQ. unfold wp, alloc. cbn [fst snd]. apply HQ; cbn [prog_top prog_statics prog_proc p_mem set_mem].
  - assert (1 ≤ (prog_top w + lenN b + 7) / 8)%N; [|lia]. apply N.div_le_lower_bound; lia.
  - done.
  - eauto.
  - intros q n. apply valid_buffer_write.
  - by apply valid_buffer_written.
Qed.

Lemma wp_subslice s lo hi Q w :
  (lo ≤ hi)%N → (hi ≤ slice_len s)%N →
  (∀ s', slice_len s' = (hi - lo)%N →
     (∀ m, slice_valid m s → slice_valid m s') → Q (Ok s') w) →
  wp (@subslice _ St E s lo hi) Q w.
Proof.
  intros Hlo Hhi HQ. unfold subslice. destruct (N.ltb_spec hi lo); [lia|].
  destruct (N.ltb_spec (slice_len s) hi); [lia|]. cbn [orb].
  assert (lenN (takeN (hi - lo) (skipN lo (slice_bytes s))) = hi - lo)%N as Hlen.
  { rewrite takeN_take, skipN_drop. unfold slice_len, lenN in *. rewrite length_take, length_drop. lia. }
  apply wp_ret, HQ; [done|]. intros m Hv. unfold slice_valid, slice_len. cbn [as_ptr slice_bytes].
  rewrite Hlen. eapply valid_buffer_sub; [exact Hv|lia].
Qed.

Lemma wp_index s i Q w :
  (N.of_nat i < slice_len s)%N → (∀ b, (b < 256)%N → Q (Ok b) w) → wp (@index _ St E s i) Q w.
Proof.
  intros Hi HQ. unfold index. unfold slice_len, lenN in Hi.
  destruct (slice_bytes s !! i) as [b|] eqn:Hb; [|apply lookup_ge_None in Hb; lia].
  apply wp_ret, HQ, byte_to_N_lt.
Qed.

Lemma wp_load a n Q w :
  valid_buffer (p_mem (prog_proc w)) a n → (∀ b, lenN b = n → Q (Ok b) w) → wp (@load _ St E a n) Q w.
Proof.
  intros (b&Hb&<-)%valid_points_to HQ. unfold wp, load, zoom.
  rewrite (in_mem_read _ _ _ (from_raw_parts_points_to _ _ _ Hb)). cbn [fst snd].
  destruct w. by apply HQ.
Qed.

Lemma wp_scope {A} (body : M (Prog St) E A) Q w :
  wp body (λ o w', Q o (set_top (prog_top w) w')) w → wp (scope body) Q w.
Proof. unfold wp, scope, finally. by destruct (body w). Qed.

Lemma wp_call {A} (m : M Proc Empty_set A) Q w a p :
  m (prog_proc w) = (Ok a, p) → Q (Ok a) (set_proc p w) → wp (@call _ St E A m) Q w.
Proof. intros Hm HQ. unfold wp, call, zoom, map_err. by rewrite Hm. Qed.
End buffers.
