(* ===== verification/Fuzzing.v ===== *)
(** * What the two fuzz targets share

    Each target makes one key on its first input, keeps its handle in a
    [OnceLock], and uses it for every input.  The invariant of such a driver over
    any core ([Service]), and the steps that preserve it. *)

From S2P Require Import Prelude Effects RustStd Proto Platform SecretBox ProtectedMem X25519 Crypto.
From S2P Require Import Telemetry KeyTypes Process Registry Reaper Boundary Service Harness.

(** [static VALID_UUID: OnceLock<Option<[u8; 16]>>] *)
Abbreviation VALID_UUID := (option (option bytes)).

(** The parameters of a target's first lines: three bytes say how the rest is split. *)
Definition u16_from_be_bytes (hi lo : N) : N := (256 * hi + lo)%N.

Section fuzzing.
Context `{PlatformLaws} {Svc : Service} {Laws : ServiceLaws}.
Implicit Types (w : Prog VALID_UUID) (p : Proc).

(** At most one key exists, and none before the first input got that far. *)
Record fuzz_inv w : Prop := mkFuzzInv {
  fuzz_top : prog_top w ≠ 0%N;
  fuzz_reachable : reachable (prog_proc w);
  fuzz_keys : size (p_keys (prog_proc w)) ≤ match prog_statics w with None => 0 | Some _ => 1 end;
  fuzz_uuid u : prog_statics w = Some (Some u) → length u = 16;
}.

Lemma fuzz_fits w : fuzz_inv w → fits (prog_proc w).
Proof.
  intros [_ _ Hk _]. unfold fits, usize_max. destruct (prog_statics w); lia.
Qed.

(** Writing locals keeps the invariant. *)
Lemma fuzz_inv_alloc w w' :
  fuzz_inv w → prog_top w' ≠ 0%N → prog_statics w' = prog_statics w →
  (∃ m, prog_proc w' = set_mem m (prog_proc w)) → fuzz_inv w'.
Proof.
  intros Hi Ht Hs [m Hm]. pose proof (fuzz_fits _ Hi). destruct Hi as [_ Hr Hk Hu].
  constructor; rewrite ?Hs, ?Hm; [done| |done|done].
  eapply reachable_step; [done..|]. apply step_env, step_host.
Qed.

(** A local of the target, under the invariant. *)
Lemma wp_fuzz_alloc b (Q : Outcome Empty_set N → Prog VALID_UUID → Prop) w :
  fuzz_inv w → (lenN b ≤ isize_max)%N →
  (∀ a w', fuzz_inv w' → prog_statics w' = prog_statics w → p_keys (prog_proc w') = p_keys (prog_proc w) →
     (∀ q n, valid_buffer (p_mem (prog_proc w)) q n → valid_buffer (p_mem (prog_proc w')) q n) →
     valid_buffer (p_mem (prog_proc w')) a (lenN b) → Q (Ok a) w') →
  wp (alloc b) Q w.
Proof.
  intros Hi Hl HQ. apply wp_alloc; [apply Hi|done|]. intros a w' Ht Hs Hm Hv Ha.
  apply HQ; [by eapply fuzz_inv_alloc|done| |done|done]. by destruct Hm as [m ->].
Qed.

(** A call of an entry point within its contract returns and leaves the process reachable. *)
Lemma wp_fuzz_call c m (Q : Outcome Empty_set Status → Prog VALID_UUID → Prop) w :
  service_run c = status_code m → fuzz_inv w → service_contract c (prog_proc w) →
  (∀ st p', m (prog_proc w) = (Ok st, p') → reachable p' → Q (Ok st) (set_proc p' w)) →
  wp (call m) Q w.
Proof.
  intros Hm Hi Hc HQ.
  destruct (reachable_returns _ _ (fuzz_reachable _ Hi) (fuzz_fits _ Hi) Hc) as (st&z&p'&Hrun&_&Hr').
  rewrite Hm in Hrun. apply bind_ok_inv in Hrun as (st'&p1&Hm1&[= _ ->]).
  eapply wp_call; [exact Hm1|]. by apply HQ.
Qed.

Lemma fuzz_inv_set_top a w : a ≠ 0%N → fuzz_inv w → fuzz_inv (set_top a w).
Proof. intros Ha []. by constructor. Qed.

(** Every buffer there was is still there. *)
Definition keeps_buffers w w' : Prop :=
  ∀ q n, valid_buffer (p_mem (prog_proc w)) q n → valid_buffer (p_mem (prog_proc w')) q n.

(** What the initialiser of the handle leaves: a core that made at most its first key. *)
Definition made_first_key w (o : Outcome Empty_set (option bytes)) w' : Prop :=
  ∃ v, o = Ok v ∧ reachable (prog_proc w') ∧ prog_top w' = prog_top w ∧
    size (p_keys (prog_proc w')) ≤ 1 ∧ (∀ u, v = Some u → length u = 16) ∧ keeps_buffers w w'.

Lemma wp_get_or_init init (Q : Outcome Empty_set (option bytes) → Prog VALID_UUID → Prop) w :
  (p_keys (prog_proc w) = ∅ → wp init (made_first_key w) w) → fuzz_inv w →
  (∀ v w', fuzz_inv w' → (∀ u, v = Some u → length u = 16) → keeps_buffers w w' → Q (Ok v) w') →
  wp (get_or_init (λ st, st) (λ v _, Some v) init) Q w.
Proof.
  intros Hinit Hi HQ. unfold get_or_init. apply wp_bind, wp_gets. cbn [chain].
  pose proof Hi as [Ht Hr Hk Hu]. destruct (prog_statics w) as [v|] eqn:Hs.
  - apply wp_ret, HQ; [done|intros u ->; by apply Hu|by intros q n].
  - assert (p_keys (prog_proc w) = ∅) as He by (apply map_size_empty_inv; lia).
    apply wp_bind. eapply wp_mono; [by apply Hinit|].
    intros o w' (v&->&Hr'&Ht'&Hk'&Hu'&Hv'). cbn [chain]. apply wp_bind, wp_modify. cbn [chain].
    apply wp_ret, HQ; [|done|done]. constructor; cbn [set_statics prog_proc prog_top prog_statics]; [congruence|done|done|].
    intros u [= ->]. by apply Hu'.
Qed.

(** What other threads do between two inputs. *)
Lemma fuzz_inv_background others w :
  fuzz_inv w → fuzz_inv (set_proc (foldl (flip run_background) (prog_proc w) others) w).
Proof.
  revert w. induction others as [|b others IH]; intros w Hi; [by destruct w|].
  cbn [foldl]. specialize (IH (set_proc (run_background b (prog_proc w)) w)).
  cbn [prog_proc set_proc] in IH. unfold flip at 2. unfold set_proc in *. cbn in IH. apply IH. clear IH.
  pose proof (fuzz_fits _ Hi) as Hf. destruct Hi as [Ht Hr Hk Hu]. constructor; cbn [prog_proc prog_top prog_statics set_proc]; try done.
  - eapply reachable_step; [done..|]. apply step_env. destruct b; [|apply step_clock].
    apply step_reaper. cbn [flip run_background]. by rewrite !reaper_round_run.
  - destruct b; [|done]. cbn [run_background]. rewrite reaper_round_run. cbn [snd].
    destruct (p_poisoned _); [done|]. etrans; [|exact Hk].
    apply map_subseteq_size. apply (retain_live_subseteq _ (ticked (prog_proc w))).
Qed.

(** If the target copes with one input, it copes with any sequence. *)
Lemma wp_drive {I} (P : I → Prop) (target : I → M (Prog VALID_UUID) Empty_set unit) inputs w :
  (∀ d w, P d → fuzz_inv w → wp (target d) (λ o w', o = Ok tt ∧ fuzz_inv w') w) →
  Forall P inputs.*2 → fuzz_inv w →
  wp (drive target inputs) (λ o w', o = Ok tt ∧ fuzz_inv w') w.
Proof.
  intros Htarget. revert w. induction inputs as [|[others d] inputs IH]; intros w HP Hi; [done|].
  rewrite fmap_cons in HP. apply list.Forall_cons in HP as [Hd HP]. cbn [drive].
  apply wp_bind, wp_modify. cbn [chain]. apply wp_bind.
  eapply wp_mono; [apply Htarget; [exact Hd|by apply fuzz_inv_background]|].
  intros o w' [-> Hi']. cbn [chain]. by apply IH.
Qed.
End fuzzing.
