(* ===== verification/FuzzDecapSeal.v ===== *)
(** * The fuzz target of the key protection service

    key_protection_service/key_custody_core/fuzz/fuzz_targets/fuzz_decap_seal.rs
    and the proof that no sequence of inputs makes it fail. *)

From S2P Require Import Prelude Effects RustStd Proto Platform RefPlatform SecretBox ProtectedMem X25519.
From S2P Require Import Crypto Telemetry KeyTypes Process Registry Reaper Boundary Service KpsCore.
From S2P Require Import KpsSpec Kps Harness Fuzzing.
Import RefInstances.

Section target.
Context `{Platform}.

(** The closure of [VALID_UUID.get_or_init]. *)
Definition init_valid_kem_uuid : M (Prog VALID_UUID) Empty_set (option bytes) :=
  scope
   (let algo := mkHpkeAlgorithm (KemAlgorithm_as_i32 DhkemX25519HkdfSha256)
                  (KdfAlgorithm_as_i32 HkdfSha256) (AeadAlgorithm_as_i32 Aes256Gcm) in
    let* algo_bytes := alloc_slice (HpkeAlgorithm_encode_to_vec algo) in
    let* binding_pubkey := alloc_slice (replicate 32 (byte_of_N 7)) in
    let* uuid := alloc (zeros 16) in
    let* pubkey := alloc (zeros 32) in
    let pubkey_len := 32%N in
    let* status := call (key_manager_generate_kem_keypair (as_ptr algo_bytes) (slice_len algo_bytes)
      (as_ptr binding_pubkey) (slice_len binding_pubkey) 3600 uuid pubkey pubkey_len) in
    if decide (status = Success) then
      let* uuid := load uuid 16 in
      ret (Some uuid)
    else ret None).

(** [fuzz_target!(|data: &[u8]| ..)]; the array in the static is an allocation of its own. *)
Definition fuzz_decap_seal (data : bytes) : M (Prog VALID_UUID) Empty_set unit :=
  scope
   (let* data := alloc_slice data in
    if (slice_len data <? 3)%N then ret tt
    else
      let* data0 := index data 0 in
      let enc_len := N.min data0 128 in
      let* data1 := index data 1 in
      let* data2 := index data 2 in
      let aad_len := N.min (u16_from_be_bytes data1 data2) 1024 in
      let* rest := subslice_from data 3 in
      let* needed := usize_add enc_len aad_len in
      if (slice_len rest <? needed)%N then ret tt
      else
        let* encapsulated_key := subslice rest 0 enc_len in
        let* aad_end := usize_add enc_len aad_len in
        let* aad := subslice rest enc_len aad_end in
        let* uuid_opt := get_or_init (λ st, st) (λ v _, Some v) init_valid_kem_uuid in
        match uuid_opt with
        | None => ret tt
        | Some uuid =>
            let* uuid := alloc uuid in
            let* out_enc := alloc (zeros 32) in
            let* out_ct := alloc (zeros 48) in
            do* call (key_manager_decap_and_seal uuid (as_ptr encapsulated_key) (slice_len encapsulated_key)
                        (as_ptr aad) (slice_len aad) out_enc 32 out_ct 48);
            ret tt
        end).
End target.

(** ** It never fails *)

Section never_fails.
Context `{PlatformLaws}.
Implicit Types (p : Proc) (w : Prog VALID_UUID).

(** Generation adds at most one key and takes no buffer away. *)
Lemma GenerateKem_bounds algo bpk e u k kl p st keys m :
  GenerateKem algo bpk e u k kl p st keys m →
  size keys ≤ S (size (p_keys p)) ∧ (∀ q n, valid_buffer (p_mem p) q n → valid_buffer m q n).
Proof.
  assert (∀ k' m', untouched p k' m' →
    size k' ≤ S (size (p_keys p)) ∧ (∀ q n, valid_buffer (p_mem p) q n → valid_buffer m' q n)) as Hu.
  { intros k' m' [-> ->]. split; [lia|done]. }
  unfold GenerateKem. destruct (if decide (length bpk = 32) then _ else _) as [al|]; [|by intros [_ ?]; apply Hu].
  case_decide; [|by intros [_ ?]; apply Hu]. intros [[_ ?]|(r&kpk&_&_&_&->&Hm)]; [by apply Hu|]. split.
  - rewrite map_size_insert. destruct (p_keys p !! _); [apply Nat.le_succ_diag_r|done].
  - case_decide; destruct Hm as [_ ->]; [|done]. intros q n Hv. by do 2 apply valid_buffer_write.
Qed.

Lemma wp_generate_kem_call a al b bl e u k kl (Q : Outcome Empty_set Status → Prog VALID_UUID → Prop) w :
  fuzz_inv w → kps_contract (GenerateKemKeypairCall a al b bl e u k kl) (prog_proc w) →
  (∀ st p', reachable p' → size (p_keys p') ≤ S (size (p_keys (prog_proc w))) →
     (∀ q n, valid_buffer (p_mem (prog_proc w)) q n → valid_buffer (p_mem p') q n) →
     Q (Ok st) (set_proc p' w)) →
  wp (call (key_manager_generate_kem_keypair a al b bl e u k kl)) Q w.
Proof.
  intros Hi Hc HQ. eapply (wp_fuzz_call (Svc := Kps) (GenerateKemKeypairCall a al b bl e u k kl)); [reflexivity|done|exact Hc|]. intros st p' Hrun Hr'.
  destruct (reachable_inv _ (fuzz_reachable _ Hi)) as (Hp&_).
  destruct (kps_malformed (GenerateKemKeypairCall a al b bl e u k kl)) eqn:Hm.
  { pose proof (kps_malformed_run _ (prog_proc w) Hm) as Hrun'. cbn [kps_run] in Hrun'.
    unfold status_code in Hrun'. rewrite (bind_ok _ _ _ _ _ Hrun) in Hrun'. injection Hrun' as _ ->.
    apply HQ; [done|cbn; lia|done]. }
  destruct Hc as [Hc|(Ha&Hb&Hu&Hk)]; [simpl in *; congruence|]. cbn in Hm. bool_props.
  destruct (valid_points_to _ _ _ Ha) as (algo&Halgo&Hal), (valid_points_to _ _ _ Hb) as (bpk&Hbpk&Hbl).
  pose proof (generate_kem_keypair_refines a al b bl e u k kl (prog_proc w) algo bpk) as Hw.
  eapply wp_run in Hw; [|by auto..]. destruct Hw as (st'&_&HR&_).
  apply GenerateKem_bounds in HR as [??]. by apply HQ.
Qed.

(** Decapsulation leaves the registry alone. *)
Lemma steps_decap_and_seal_keys u e el a al oe oel oc ocl :
  Steps (proc_rel eq anything tel_le) (key_manager_decap_and_seal u e el a al oe oel oc ocl).
Proof. unfold key_manager_decap_and_seal, decap_and_seal_internal. steps_handler. Qed.

Lemma wp_init_valid_kem_uuid w :
  fuzz_inv w → p_keys (prog_proc w) = ∅ → wp init_valid_kem_uuid (made_first_key w) w.
Proof.
  intros Hi He. apply wp_scope. unfold alloc_slice.
  set (algo := mkHpkeAlgorithm _ _ _).
  assert (lenN (HpkeAlgorithm_encode_to_vec algo) ≤ isize_max)%N as Hlen.
  { pose proof (length_encode algo x25519_suite_wf). unfold lenN, isize_max. lia. }
  apply wp_bind, wp_bind, wp_fuzz_alloc; [done..|]. intros a w1 Hi1 Hs1 Hk1 Hv1 Ha. apply wp_ret. cbn [chain].
  apply wp_bind, wp_bind, wp_fuzz_alloc; [done..|]. intros b w2 Hi2 Hs2 Hk2 Hv2 Hb. apply wp_ret. cbn [chain].
  apply wp_bind, wp_fuzz_alloc; [done..|]. intros u w3 Hi3 Hs3 Hk3 Hv3 Hu. cbn [chain].
  apply wp_bind, wp_fuzz_alloc; [done..|]. intros k w4 Hi4 Hs4 Hk4 Hv4 Hk. cbn [chain].
  apply wp_bind, wp_generate_kem_call; [done| |].
  { right. cbn [kps_buffers as_ptr slice_bytes slice_len]. unfold slice_len. cbn [slice_bytes]. split_and!; [by apply Hv4, Hv3, Hv2|by apply Hv4, Hv3|by apply Hv4|done]. }
  intros st p' Hr' Hsz Hv'. cbn [chain].
  assert (size (p_keys p') ≤ 1) as Hsz' by (rewrite Hk4, Hk3, Hk2, Hk1, He, map_size_empty in Hsz; lia).
  assert (∀ q n, valid_buffer (p_mem (prog_proc w)) q n → valid_buffer (p_mem p') q n) as Hv
    by (intros q n Hq; by apply Hv', Hv4, Hv3, Hv2, Hv1).
  assert (prog_statics w4 = prog_statics w) as Hs by congruence.
  case_decide.
  - apply wp_bind, wp_load; [by apply Hv', Hv4|]. intros u' Hu'. apply wp_ret. exists (Some u'). split_and!; try done.
    intros u'' [= <-]. unfold lenN in Hu'. lia.
  - apply wp_ret. by exists None.
Qed.

(** One input. *)
Lemma wp_fuzz_decap_seal data w :
  (lenN data ≤ isize_max)%N → fuzz_inv w →
  wp (fuzz_decap_seal data) (λ o w', o = Ok tt ∧ fuzz_inv w') w.
Proof.
  intros Hlen Hi. apply wp_scope.
  eapply (wp_mono _ (λ o w', o = Ok tt ∧ fuzz_inv w')).
  2: { intros o w' [-> Hi']. split; [done|]. apply fuzz_inv_set_top; [apply Hi|done]. }
  unfold alloc_slice. apply wp_bind, wp_bind, wp_fuzz_alloc; [done..|]. intros a w1 Hi1 _ _ _ Ha.
  apply wp_ret. cbn [chain]. set (d := mkSlice a data).
  assert (slice_valid (p_mem (prog_proc w1)) d) as Hd by exact Ha.
  destruct (N.ltb_spec (slice_len d) 3); [by apply wp_ret|].
  apply wp_bind, wp_index; [lia|]. intros d0 Hd0. cbn [chain].
  apply wp_bind, wp_index; [lia|]. intros d1 Hd1. cbn [chain].
  apply wp_bind, wp_index; [lia|]. intros d2 Hd2. cbn [chain].
  apply wp_bind, wp_subslice; [lia..|]. intros rest Hrest Hvr. cbn [chain]. apply Hvr in Hd.
  assert (u16_from_be_bytes d1 d2 < 65536)%N as Hu16 by (unfold u16_from_be_bytes; lia).
  set (enc_len := N.min d0 128) in *. set (aad_len := N.min (u16_from_be_bytes d1 d2) 1024) in *.
  apply wp_bind, wp_usize_add; [unfold usize_max; lia|]. cbn [chain].
  destruct (N.ltb_spec (slice_len rest) (enc_len + aad_len)); [by apply wp_ret|].
  apply wp_bind, wp_subslice; [lia..|]. intros enc Henc Hve. cbn [chain]. pose proof (Hve _ Hd) as He.
  apply wp_bind, wp_usize_add; [unfold usize_max; lia|]. cbn [chain].
  apply wp_bind, wp_subslice; [lia..|]. intros aad Haad Hva. cbn [chain]. pose proof (Hva _ Hd) as Hab.
  apply wp_bind, wp_get_or_init; [intros He'; by apply wp_init_valid_kem_uuid|done|].
  intros v w2 Hi2 Hv Hv2. cbn [chain]. destruct v as [uuid|]; [|by apply wp_ret].
  specialize (Hv _ eq_refl). assert (lenN uuid = 16%N) as Hu16' by (unfold lenN; by rewrite Hv).
  apply wp_bind, wp_fuzz_alloc; [done|by rewrite Hu16'|]. intros u w3 Hi3 _ _ Hv3 Hu. cbn [chain].
  apply wp_bind, wp_fuzz_alloc; [done..|]. intros oe w4 Hi4 _ _ Hv4 Hoe. cbn [chain].
  apply wp_bind, wp_fuzz_alloc; [done..|]. intros oc w5 Hi5 _ _ Hv5 Hoc. cbn [chain].
  apply wp_bind, (wp_fuzz_call (Svc := Kps)
    (DecapAndSealCall u (as_ptr enc) (slice_len enc) (as_ptr aad) (slice_len aad) oe 32 oc 48)); [done|done| |].
  { right. rewrite Hu16' in Hu. split_and!; [by apply Hv5, Hv4|by apply Hv5, Hv4, Hv3, Hv2| | |done].
    - intros _. by apply Hv5, Hv4, Hv3, Hv2.
    - by apply Hv5. }
  intros st p' Hrun Hr'. cbn [chain]. apply wp_ret. split; [done|].
  pose proof (steps_run _ _ _ _ _ (steps_decap_and_seal_keys _ _ _ _ _ _ _ _ _) Hrun) as [_ Hk _ _ _].
  destruct Hi5 as [? _ Hk5 ?]. constructor; cbn [set_proc prog_proc prog_top prog_statics]; [done|done| |done].
  by rewrite <- Hk.
Qed.
End never_fails.

(** C38: the fuzz target never finds a crash: on any platform that keeps its laws,
    whatever inputs the fuzzer feeds it, in whatever order, with the reaper and
    the clock running between them, no input panics or reaches undefined
    behaviour; the process holds at most the one key the target made, every
    secret given back was zeroed, and no descriptor stays open. *)
Theorem fuzz_decap_seal_never_fails `{PlatformLaws} (m : Memory) (top : N)
    (inputs : list (list background * bytes)) :
  top ≠ 0%N → Forall (λ data, (lenN data ≤ isize_max)%N) inputs.*2 →
  ∃ w, drive fuzz_decap_seal inputs (mkProg (init_proc m) top None) = (Ok tt, w) ∧
    size (p_keys (prog_proc w)) ≤ 1 ∧
    Forall all_zero (released (p_sys (prog_proc w))) ∧ open_fds (p_sys (prog_proc w)) = ∅.
Proof.
  intros Ht Hin. set (w0 := mkProg (init_proc m) top None).
  assert (fuzz_inv w0) as Hi by (constructor; [done|apply reachable_init|done|done]).
  pose proof (wp_drive _ fuzz_decap_seal inputs w0 wp_fuzz_decap_seal Hin Hi) as Hw.
  unfold wp in Hw. destruct (drive fuzz_decap_seal inputs w0) as [o w]. destruct Hw as [Ho [_ Hr Hk _]].
  cbn in Ho, Hr, Hk. subst o. exists w. destruct (reachable_inv _ Hr) as (_&_&Hz&Hf&_).
  split_and!; [done| |done|done]. etrans; [exact Hk|]. destruct (prog_statics w); lia.
Qed.

(** An input too short to split, then twice one with 32 bytes for the key and 3 for the data. *)
Definition fuzz_input : bytes := byte_of_N 32 :: byte_of_N 0 :: byte_of_N 3 :: X25519_to_public (le_bytes 32 99) ++ lit "aad".
Definition fuzz_inputs : list (list background * bytes) :=
  [([], lit "x"); ([ClockAdvances], fuzz_input); ([ReaperWakes], fuzz_input)].

Lemma fuzz_decap_seal_never_fails_witness :
  (∃ w, drive fuzz_decap_seal fuzz_inputs (mkProg (init_proc ∅) 8 None) = (Ok tt, w) ∧
     size (p_keys (prog_proc w)) ≤ 1 ∧
     Forall all_zero (released (p_sys (prog_proc w))) ∧ open_fds (p_sys (prog_proc w)) = ∅) ∧
  size (p_keys (prog_proc (snd (drive fuzz_decap_seal fuzz_inputs (mkProg (init_proc ∅) 8 None))))) = 1.
Proof.
  split; [|vm_compute; reflexivity].
  refine (fuzz_decap_seal_never_fails ∅ 8 fuzz_inputs _ _); [lia|by_compute].
Defined.
