(* ===== verification/TestKit.v ===== *)
(** * The vocabulary of the unit tests

    What the [#[cfg(test)]] modules of the crates use besides the entry points:
    assertions, unwrapping, the clean-up guard that removes a test's key, and
    sleeping.  A test passes when it returns: a failed assertion panics. *)

From S2P Require Import Prelude Effects RustStd Proto Platform SecretBox ProtectedMem X25519 Crypto.
From S2P Require Import Telemetry KeyTypes Process Registry Reaper Boundary Harness.

Section kit.
Context `{Platform}.

(** The tests have no statics of their own. *)
Definition UnitTest (A : Type) : Type := M (Prog unit) Empty_set A.

(** [assert!], [assert_eq!], [assert_ne!] *)
Definition assert (b : bool) : UnitTest unit := if b then ret tt else panic.
Definition assert_eq {A} `{EqDecision A} (a b : A) : UnitTest unit := assert (bool_decide (a = b)).
Definition assert_ne {A} `{EqDecision A} (a b : A) : UnitTest unit := assert (bool_decide (a ≠ b)).

(** [r.unwrap()] and [r.expect(..)] of a call's [Result], and of an [Option]. *)
Definition expect {F A} (m : M Proc F A) : UnitTest A :=
  let* r := result m in
  match r with inr a => ret a | inl _ => panic end.
Definition expect_some {A} (o : option A) : UnitTest A := unwrap o.

(** [x = v;] for a local. *)
Definition set_local (a : N) (v : bytes) : UnitTest unit :=
  modify (λ w, set_proc (set_mem (write_bytes (p_mem (prog_proc w)) a v) (prog_proc w)) w).

(** [[b; n]] *)
Definition filled (b : N) (n : nat) : bytes := replicate n (byte_of_N b).

(** [&v[..n]] of a local array. *)
Definition prefix_of (b : bytes) (n : N) : UnitTest bytes := if (n <=? lenN b)%N then ret (takeN n b) else panic.

(** [bytes.iter().all(|&b| b == 0)] *)
Definition all_zero_bytes (b : bytes) : bool := forallb (λ x, bool_decide (x = x00)) b.

(** [uuid.is_nil()] *)
Definition is_nil (u : Uuid) : bool := bool_decide (Uuid_as_bytes u = zeros 16).

(** [struct KeyCleanup(Uuid)]: its drop removes the key, whichever way the test ends. *)
Definition remove_and_drop (i : Uuid) (p : Proc) : Proc :=
  match @remove_key _ Empty_set i p with
  | (Ok (Some record), p) => drop_record record p
  | (_, p) => p
  end.
Definition KeyCleanup {A} (i : Uuid) (body : UnitTest A) : UnitTest A :=
  finally body (λ w, set_proc (remove_and_drop i (prog_proc w)) w).

(** The scope of a secret a test holds. *)
Definition scoped_local {A} (b : SecretBox) (body : UnitTest A) : UnitTest A :=
  finally body (λ w, set_proc (set_sys (SecretBox_drop b (p_sys (prog_proc w))) (prog_proc w)) w).

(** [drop(record)], and the scope of a record a test holds. *)
Definition drop_local (record : KeyRecord) : UnitTest unit :=
  modify (λ w, set_proc (drop_record record (prog_proc w)) w).
Definition scoped_record {A} (record : KeyRecord) (body : UnitTest A) : UnitTest A :=
  finally body (λ w, set_proc (drop_record record (prog_proc w)) w).

(** A test's own [KeyRegistry::default()], dropped at its end with what it holds. *)
Definition with_registry {A} (body : UnitTest A) : UnitTest A :=
  finally (do* modify (λ w, set_proc (set_keys ∅ (prog_proc w)) w); body)
    (λ w, set_proc (drop_records (map_values (p_keys (prog_proc w))) (set_keys ∅ (prog_proc w))) w).

(** [thread::sleep]: the clock has advanced by [d] when the test goes on; [fuel]
    bounds the readings that pass. *)
Fixpoint sleep_until (fuel : nat) (t : Z) (p : Proc) : Proc :=
  match fuel with
  | O => p
  | S fuel => if (t <=? proc_now p)%Z then p else sleep_until fuel t (ticked p)
  end.
Definition sleep (fuel : nat) (d : Z) : UnitTest unit :=
  modify (λ w, set_proc (sleep_until fuel (proc_now (prog_proc w) + d) (prog_proc w)) w).

(** The test sleeps for [n] seconds while the reaper, whose interval is a second
    under test, wakes up once in each. *)
Fixpoint sleep_reaping (fuel n : nat) : UnitTest unit :=
  match n with
  | O => ret tt
  | S n => do* sleep fuel nanos_per_sec; do* call reaper_round; sleep_reaping fuel n
  end.

(** Look at the first element that satisfies the test, as a [for] loop with a [break]. *)
Fixpoint for_until {A} (xs : list A) (body : A → UnitTest bool) : UnitTest bool :=
  match xs with
  | [] => ret false
  | x :: xs => let* stop := body x in if stop : bool then ret true else for_until xs body
  end.

(** ** Running tests *)

Definition passed {A} (o : Outcome Empty_set A) : bool := is_ok o.

(** The tests of a crate, one after the other in one process. *)
Fixpoint run_tests (tests : list (UnitTest unit)) (w : Prog unit) : list bool :=
  match tests with
  | [] => []
  | t :: tests => let '(o, w') := scope t w in passed o :: run_tests tests w'
  end.

Definition all_pass (tests : list (UnitTest unit)) : bool :=
  forallb (λ b, b) (run_tests tests (mkProg (init_proc ∅) 8 tt)).
End kit.

(** [HpkeAlgorithm { kem: .. as i32, kdf: .. as i32, aead: .. as i32 }] *)
Definition hpke_algorithm (k : KemAlgorithm) (d : KdfAlgorithm) (a : AeadAlgorithm) : HpkeAlgorithm :=
  mkHpkeAlgorithm (KemAlgorithm_as_i32 k) (KdfAlgorithm_as_i32 d) (AeadAlgorithm_as_i32 a).
Definition test_algo : HpkeAlgorithm := hpke_algorithm DhkemX25519HkdfSha256 HkdfSha256 Aes256Gcm.
