(* ===== verification/KmTests.v ===== *)
(** * The unit tests of the common crate

    The [tests] modules of km_common/src/key_types.rs, crypto.rs,
    crypto/secret_box.rs, protected_mem.rs and telemetry.rs, run against the model
    on the reference platform, its clock advancing by 20 milliseconds per reading.
    The tests with vectors of the real cryptography are in X25519Tests.v, those
    that need a reporter or a child process in ProcessTests.v, the redaction tests
    in RedactionTests.v, and the one that asks the kernel in KernelTests.v. *)

From S2P Require Import Prelude Effects RustStd Proto Platform RefPlatform SecretBox ProtectedMem X25519.
From S2P Require Import Crypto Telemetry KeyTypes Process Registry Reaper Boundary Harness TestKit.

Section tests.
Context `{Platform}.

(** ** key_types.rs *)

Definition test_create_binding_key_success : UnitTest unit :=
  let algo := test_algo in
  let expiry := Duration_from_secs 3600 in
  let* record := expect (in_sys (create_binding_key algo expiry)) in
  scoped_record record
   (do* assert (negb (is_nil (id (meta record))));
    do* assert (created_at (meta record) <? delete_after (meta record))%Z;
    match spec (meta record) with
    | Binding a pk =>
        do* assert_eq (kem a) (kem algo);
        assert_eq (length (PublicKey_as_bytes pk)) 32
    | _ => panic
    end).

Definition test_create_bound_kem_success : UnitTest unit :=
  let algo := test_algo in
  let* binding_pubkey := expect (in_sys (PublicKey_try_from (filled 42 32))) in
  let expiry := Duration_from_secs 3600 in
  let* record := expect (in_sys (create_bound_kem_key algo binding_pubkey expiry)) in
  scoped_record record
   (match spec (meta record) with
    | KemWithBindingPub a kpk bpk =>
        do* assert_eq (kem a) (kem algo);
        do* assert_eq (length (PublicKey_as_bytes kpk)) 32;
        assert_eq bpk binding_pubkey
    | _ => panic
    end).

Definition test_add_key : UnitTest unit :=
  with_registry
   (let* record := expect (in_sys (create_binding_key test_algo (Duration_from_secs 3600))) in
    let i := id (meta record) in
    do* call (add_key record);
    let* keys := call lock_keys in
    do* assert (bool_decide (is_Some (keys !! i)));
    let* found := expect_some (keys !! i) in
    assert_eq (id (meta found)) i).

(** The spy mapping shows the same memory as the vault's: what it holds before
    the drop, and after it what was given back. *)
Definition test_remove_key : UnitTest unit :=
  with_registry
   (let* record := expect (in_sys (create_binding_key test_algo (Duration_from_secs 3600))) in
    let i := id (meta record) in
    do* call (add_key record);
    let* removed := call (remove_key i) in
    let* removed := expect_some removed in
    let* secret := expect (in_sys (@Vault_get_secret _ Status (private_key removed))) in
    let len := length (SecretBox_as_slice secret) in
    do* scoped_local secret
     (do* assert_eq (take len (mmap (private_key removed))) (SecretBox_as_slice secret);
      assert (negb (all_zero_bytes (take len (mmap (private_key removed))))));
    do* drop_local removed;
    let* given_back := gets (λ w, released (p_sys (prog_proc w))) in
    let* spy := expect_some (head given_back) in
    do* assert (all_zero_bytes (take len spy));
    let* again := call (remove_key i) in
    assert (bool_decide (again = None))).

Definition test_get_key_liveness : UnitTest unit :=
  with_registry
   (let* record := expect (in_sys (create_binding_key test_algo (Duration_from_secs 0))) in
    let i := id (meta record) in
    do* call (add_key record);
    let* found := call (get_key i) in
    do* assert (bool_decide (found = None));
    let* record2 := expect (in_sys (create_binding_key test_algo (Duration_from_secs 3600))) in
    let i2 := id (meta record2) in
    do* call (add_key record2);
    let* found := call (get_key i2) in
    assert (bool_decide (is_Some found))).

Definition test_reaper_functionality : UnitTest unit :=
  with_registry
   (let algo := test_algo in
    let* binding_pubkey := expect (in_sys (PublicKey_try_from (filled 42 32))) in
    let expiry := Duration_from_secs 4 in
    let* kem_record := expect (in_sys (create_bound_kem_key algo binding_pubkey expiry)) in
    let* binding_record := expect (in_sys (create_binding_key algo expiry)) in
    let kem_id := id (meta kem_record) in
    let binding_id := id (meta binding_record) in
    do* call (add_key kem_record);
    do* call (add_key binding_record);
    do* sleep_reaping 100 1;
    let* found := call (get_key kem_id) in
    do* assert (bool_decide (is_Some found));
    let* found := call (get_key binding_id) in
    do* assert (bool_decide (is_Some found));
    do* sleep_reaping 100 6;
    let* keys := call lock_keys in
    do* assert (bool_decide (keys !! kem_id = None));
    assert (bool_decide (keys !! binding_id = None))).

Definition test_list_all_keys_filters_expired : UnitTest unit :=
  with_registry
   (let algo := test_algo in
    let* record1 := expect (in_sys (create_binding_key algo (Duration_from_secs 0))) in
    let* record2 := expect (in_sys (create_binding_key algo (Duration_from_secs 3600))) in
    let id2 := id (meta record2) in
    do* call (add_key record1);
    do* call (add_key record2);
    let* ' (keys, total_count) := call (list_all_keys 0 10) in
    do* assert_eq total_count 1%N;
    do* assert_eq (length keys) 1;
    let* first := expect_some (head keys) in
    assert_eq (id first) id2).

(** ** crypto.rs *)

(** [hpke::SenderContext::new(&params, pk, info).expect(..)] *)
Definition sender_context (pk info : bytes) : UnitTest (SenderContext * bytes) :=
  let* n := call (in_sys draw) in expect_some (SenderContext_new n hpke_params pk info).

(** [matches!(result, Err(e))] *)
Definition is_err {A} (r : Status + A) (e : Status) : bool :=
  match r with inl e' => bool_decide (e' = e) | inr _ => false end.

Definition test_decaps_wrapper : UnitTest unit :=
  let* ' (pk_r, sk_r) := expect (in_sys (generate_keypair DhkemX25519HkdfSha256)) in
  scoped_local (SecretBox_from sk_r)
   (let* ' (_, enc) := sender_context (PublicKey_as_bytes pk_r) [] in
    let* res := expect (in_sys (decaps sk_r enc)) in
    scoped_local res (assert_eq (length (SecretBox_as_slice res)) 32)).

Definition test_decaps_unsupported : UnitTest unit :=
  let* ' (_, sk_r) := expect (in_sys (generate_keypair DhkemX25519HkdfSha256)) in
  scoped_local (SecretBox_from sk_r)
   (let enc := zeros 32 in
    let algo := hpke_algorithm Kem_Unspecified HkdfSha256 Aes256Gcm in
    let* res := result (in_sys (hpke_open sk_r enc [] [] algo)) in
    assert (is_err res UnsupportedAlgorithm)).

Definition test_hpke_open_success : UnitTest unit :=
  let hpke_algo := test_algo in
  let* ' (pk_r, sk_r) := expect (in_sys (generate_keypair DhkemX25519HkdfSha256)) in
  scoped_local (SecretBox_from sk_r)
   (let pt := lit "hello world" in
    let aad := lit "additional data" in
    let* ' (sender_ctx, enc) := sender_context (PublicKey_as_bytes pk_r) [] in
    let ciphertext := snd (SenderContext_seal sender_ctx pt aad) in
    let* decrypted := expect (in_sys (hpke_open sk_r enc ciphertext aad hpke_algo)) in
    scoped_local decrypted (assert_eq (SecretBox_as_slice decrypted) pt)).

Definition test_hpke_open_failure : UnitTest unit :=
  let hpke_algo := test_algo in
  let* ' (pk_r, sk_r) := expect (in_sys (generate_keypair DhkemX25519HkdfSha256)) in
  scoped_local (SecretBox_from sk_r)
   (let pt := lit "hello world" in
    let aad := lit "additional data" in
    let* ' (sender_ctx, enc) := sender_context (PublicKey_as_bytes pk_r) [] in
    let ciphertext := snd (SenderContext_seal sender_ctx pt aad) in
    let ciphertext := alter (λ b, byte_of_N (N.lxor (Byte.to_N b) 1)) 0 ciphertext in
    let* res := result (in_sys (hpke_open sk_r enc ciphertext aad hpke_algo)) in
    assert (is_err res DecryptionFailure)).

Definition test_hpke_bad_aad : UnitTest unit :=
  let hpke_algo := test_algo in
  let* ' (pk_r, sk_r) := expect (in_sys (generate_keypair DhkemX25519HkdfSha256)) in
  scoped_local (SecretBox_from sk_r)
   (let pt := lit "hello world" in
    let aad := lit "foo" in
    let* ' (sender_ctx, enc) := sender_context (PublicKey_as_bytes pk_r) [] in
    let ciphertext := snd (SenderContext_seal sender_ctx pt aad) in
    let tampered_aad := lit "bar" in
    let* res := result (in_sys (hpke_open sk_r enc ciphertext tampered_aad hpke_algo)) in
    assert (is_err res DecryptionFailure)).

Definition test_hpke_seal_success : UnitTest unit :=
  let hpke_algo := test_algo in
  let* ' (pk_r, sk_r) := expect (in_sys (generate_keypair DhkemX25519HkdfSha256)) in
  scoped_local (SecretBox_from sk_r)
   (let* pt := expect (in_sys (@SecretBox_new _ Status (Vec_exact (lit "hello world")))) in
    scoped_local pt
     (let aad := lit "additional data" in
      let* ' (enc, ciphertext) := expect (in_sys (hpke_seal pk_r pt aad hpke_algo)) in
      let* decrypted := expect (in_sys (hpke_open sk_r enc ciphertext aad hpke_algo)) in
      scoped_local decrypted (assert_eq (SecretBox_as_slice decrypted) (SecretBox_as_slice pt)))).

Definition test_generate_kem_success : UnitTest unit :=
  let* ' (pub_key, priv_key) := expect (in_sys (generate_keypair DhkemX25519HkdfSha256)) in
  scoped_local (SecretBox_from priv_key) (assert_eq (length (PublicKey_as_bytes pub_key)) 32).

Definition test_generate_hpke_success : UnitTest unit :=
  let* ' (pub_key, priv_key) := expect (in_sys (generate_keypair DhkemX25519HkdfSha256)) in
  scoped_local (SecretBox_from priv_key) (assert_eq (length (PublicKey_as_bytes pub_key)) 32).

Definition test_generate_hpke_unsupported : UnitTest unit :=
  let* res := result (in_sys (generate_keypair Kem_Unspecified)) in
  assert (is_err res UnsupportedAlgorithm).

(** ** secret_box.rs *)

Definition bytes_of (l : list N) : bytes := byte_of_N <$> l.

Definition new_box (v : Vec) : UnitTest SecretBox := call (in_sys (SecretBox_new v)).

Definition test_secret_box_creation : UnitTest unit :=
  let data := bytes_of [1; 2; 3; 4]%N in
  let* secret := new_box (Vec_exact data) in
  scoped_local secret (assert_eq (SecretBox_as_slice secret) data).

Definition test_secret_box_modification : UnitTest unit :=
  let data := bytes_of [1; 2; 3; 4]%N in
  let* secret := new_box (Vec_exact data) in
  let* secret := call (in_sys (SecretBox_as_mut_slice secret 0 (byte_of_N 99))) in
  scoped_local secret (assert_eq (SecretBox_as_slice secret) (bytes_of [99; 2; 3; 4]%N)).

Definition test_secret_box_from_vec : UnitTest unit :=
  let data := bytes_of [10; 11; 12]%N in
  let* secret := call (in_sys (SecretBox_from_vec (Vec_exact data))) in
  scoped_local secret (assert_eq (SecretBox_as_slice secret) data).

Definition test_secret_box_as_ref : UnitTest unit :=
  let data := bytes_of [20; 21; 22]%N in
  let* secret := new_box (Vec_exact data) in
  scoped_local secret (assert_eq (SecretBox_as_ref secret) data).

Definition test_secret_box_with_excess_capacity_preserves_contents : UnitTest unit :=
  let data := mkVec (bytes_of [1; 2; 3; 4]%N ++ zeros 60) 4 in
  do* assert (vec_len data <? Vec_capacity data);
  let* secret := new_box data in
  scoped_local secret (assert_eq (SecretBox_as_slice secret) (bytes_of [1; 2; 3; 4]%N)).

(** ** protected_mem.rs *)

(** [Vault::new(SecretBox::new(data.to_vec())).expect(..)] *)
Definition new_vault (data : bytes) : UnitTest Vault :=
  let* secret := new_box (Vec_exact data) in
  expect (in_sys (Vault_new secret)).

Definition scoped_vault {A} (v : Vault) (body : UnitTest A) : UnitTest A :=
  finally body (λ w, set_proc (set_sys (Vault_drop v (p_sys (prog_proc w))) (prog_proc w)) w).

(** [vault.get_secret().as_slice()], the copy being a temporary. *)
Definition secret_of (v : Vault) : UnitTest bytes :=
  let* secret := call (in_sys (Vault_get_secret v)) in
  scoped_local secret (ret (SecretBox_as_slice secret)).

Definition test_vault_creation_and_retrieval : UnitTest unit :=
  let data := lit "sensitive information" in
  let* vault := new_vault data in
  scoped_vault vault (let* s := secret_of vault in assert_eq s data).

Definition test_vault_with_empty_data : UnitTest unit :=
  let* vault := new_vault [] in
  scoped_vault vault (let* s := secret_of vault in assert_eq s []).

Definition test_multiple_vaults : UnitTest unit :=
  let* v1 := new_vault (lit "secret1") in
  scoped_vault v1
   (let* v2 := new_vault (lit "secret2") in
    scoped_vault v2
     (let* s1 := secret_of v1 in
      let* s2 := secret_of v2 in
      do* assert_ne s1 s2;
      do* assert_eq s1 (lit "secret1");
      assert_eq s2 (lit "secret2"))).

(** The spy mapping again: what the vault holds, then what it gave back. *)
Definition test_zeroize_on_drop : UnitTest unit :=
  let data := lit "secret to be zeroed" in
  let* vault := new_vault data in
  do* assert_eq (mmap vault) data;
  do* scoped_vault vault (ret tt);
  let* given_back := gets (λ w, released (p_sys (prog_proc w))) in
  let* spy := expect_some (head given_back) in
  assert (all_zero_bytes spy).

(** ** telemetry.rs *)

Definition sample_failure : Failure := mkFailure Open DecryptionFailure FailureKind_Error.

Definition report (f : Failure) : UnitTest unit := modify (λ w, set_proc (report_to_tel f (prog_proc w)) w).

Definition test_report_failure_does_not_panic : UnitTest unit := report sample_failure.

(** [for op in KccOperation::iter()]: names not empty, in snake case, all different. *)
Fixpoint check_descriptors (seen : list string) (ops : list KccOperation) : UnitTest unit :=
  match ops with
  | [] => ret tt
  | op :: ops =>
      let name := descriptor_name (KccOperation_descriptor op) in
      do* assert_ne name ""%string;
      do* assert (forallb snake_case_char (lit name));
      do* assert (bool_decide (name ∉ seen));
      check_descriptors (name :: seen) ops
  end.
Definition test_all_operations_descriptor_invariants : UnitTest unit := check_descriptors [] all_operations.

Fixpoint for_each {A} (xs : list A) (body : A → UnitTest unit) : UnitTest unit :=
  match xs with
  | [] => ret tt
  | x :: xs => do* body x; for_each xs body
  end.
Definition test_all_operations_report_failure_without_panicking : UnitTest unit :=
  for_each all_operations (λ operation,
    for_each [FailureKind_Error; FailureKind_Panic] (λ kind,
      report (mkFailure operation Status_Unspecified kind))).

Definition km_tests : list (UnitTest unit) :=
  [test_create_binding_key_success; test_create_bound_kem_success; test_add_key; test_remove_key;
   test_get_key_liveness; test_reaper_functionality; test_list_all_keys_filters_expired;
   test_decaps_wrapper; test_decaps_unsupported; test_hpke_open_success; test_hpke_open_failure;
   test_hpke_bad_aad; test_hpke_seal_success; test_generate_kem_success; test_generate_hpke_success;
   test_generate_hpke_unsupported; test_secret_box_creation; test_secret_box_modification;
   test_secret_box_from_vec; test_secret_box_as_ref;
   test_secret_box_with_excess_capacity_preserves_contents; test_vault_creation_and_retrieval;
   test_vault_with_empty_data; test_multiple_vaults; test_zeroize_on_drop;
   test_report_failure_does_not_panic; test_all_operations_descriptor_invariants;
   test_all_operations_report_failure_without_panicking].
End tests.

(** The reference platform with a finer clock. *)
Definition fine_clock_os : Os := {|
  clock n := (Z.of_nat n * 20000000)%Z;
  memfd_secret := @memfd_secret ref_os;
  set_len := @set_len ref_os;
  map_mut := @map_mut ref_os;
|}.
Definition fine_clock_platform : Platform := {|
  platform_build := @platform_build ref_platform;
  platform_os := fine_clock_os;
  platform_zeroize := @platform_zeroize ref_platform;
  platform_clear_on_drop := @platform_clear_on_drop ref_platform;
  platform_uuid := @platform_uuid ref_platform;
  platform_prost := @platform_prost ref_platform;
  platform_bssl := @platform_bssl ref_platform;
|}.

(** Every one of these tests passes. *)
Example km_tests_pass : @all_pass fine_clock_platform (@km_tests fine_clock_platform) = true.
Proof. vm_compute. reflexivity. Qed.
