(* ===== verification/X25519Tests.v ===== *)
(** * The unit tests of the X25519 code, with the vectors of RFC 9180

    The [tests] module of km_common/src/crypto/x25519.rs, run against the model
    on a platform whose X25519 and HKDF are the real ones (Rfc7748.v): the model
    computes the shared secret of RFC 9180, appendix A.1, byte for byte. *)

From S2P Require Import Prelude Effects RustStd Proto Platform RefPlatform Rfc7748 SecretBox ProtectedMem.
From S2P Require Import X25519 Crypto Telemetry KeyTypes Process Registry Reaper Boundary Harness TestKit.

Section tests.
Context `{Platform}.

Definition new_secret (data : bytes) : UnitTest SecretBox := call (in_sys (SecretBox_new (Vec_exact data))).

Definition test_decaps_x25519_clamped_vector : UnitTest unit :=
  let sk_r_hex := "4612c550263fc8ad58375df3f557aac531d26850903e55a9f23f21d8534e8ac8"%string in
  let enc_hex := "37fda3567bdbd628e88668c3c8d7e97d1d1253b6d4ea6d44c150f741f1bf4431"%string in
  let expected_shared_secret_hex := "fe0e18c9f024ce43799ae393c7e8fe8fce9d218875e8227b0187c04e7d2ea1fc"%string in
  let* sk_r_bytes := expect_some (hex_decode sk_r_hex) in
  let* secret := new_secret sk_r_bytes in
  scoped_local secret
   (let sk_r := mkX25519PrivateKey secret in
    let* enc := expect_some (hex_decode enc_hex) in
    let* result := expect (in_sys (decaps_internal sk_r enc)) in
    scoped_local result (assert_eq (hex_encode (SecretBox_as_slice result)) expected_shared_secret_hex)).

(** [prk.expand_into(info, &mut out).unwrap()] on a buffer of [len] bytes. *)
Definition expanded (prk : Prk) (info : bytes) (len : nat) : UnitTest bytes :=
  expect_some (Hkdf_expand_into prk info len).

Definition test_labeled_extract_and_expand : UnitTest unit :=
  let suite_id := kem_suite_id in
  let salt := lit "test_salt" in
  let label := lit "test_label" in
  let ikm := lit "test_ikm" in
  let info := lit "test_info" in
  let* prk := call (in_sys (labeled_extract salt label ikm suite_id)) in
  let expected_labeled_ikm := lit "HPKE-v1" ++ suite_id ++ label ++ ikm in
  let expected_prk := Hkdf_extract expected_labeled_ikm salt in
  let* prk_output := expanded prk (lit "test") 32 in
  let* expected_prk_output := expanded expected_prk (lit "test") 32 in
  do* assert_eq prk_output expected_prk_output;
  let* result := expect (in_sys (labeled_expand prk label info suite_id 32)) in
  scoped_local result
   (let expected_labeled_info := be_bytes 2 32 ++ lit "HPKE-v1" ++ suite_id ++ label ++ info in
    let* expected_result := expanded expected_prk expected_labeled_info 32 in
    do* assert_eq (SecretBox_as_slice result) expected_result;
    let* result2 := expect (in_sys (labeled_expand prk label info suite_id 16)) in
    scoped_local result2
     (do* assert_eq (length (SecretBox_as_slice result2)) 16;
      let expected_labeled_info2 := be_bytes 2 16 ++ lit "HPKE-v1" ++ suite_id ++ label ++ info in
      let* expected_result2 := expanded expected_prk expected_labeled_info2 16 in
      do* assert_eq (SecretBox_as_slice result2) expected_result2;
      let* result3 := expect (in_sys (labeled_expand prk label (lit "other_info") suite_id 32)) in
      scoped_local result3
       (do* assert_ne (SecretBox_as_slice result) (SecretBox_as_slice result3);
        let* result4 := expect (in_sys (labeled_expand prk (lit "other_label") info suite_id 32)) in
        scoped_local result4 (assert_ne (SecretBox_as_slice result) (SecretBox_as_slice result4))))).

Definition test_encaps_x25519_clamped_vector : UnitTest unit :=
  let sk_e_hex := "52c4a758a802cd8b936eceea314432798d5baf2d7e9235dc084ab1b9cfa2f736"%string in
  let pk_e_hex := "37fda3567bdbd628e88668c3c8d7e97d1d1253b6d4ea6d44c150f741f1bf4431"%string in
  let pk_r_hex := "3948cfe0ad1ddb695d780e59077195da6c56506b027329794ab02bca80815c4d"%string in
  let expected_shared_secret_hex := "fe0e18c9f024ce43799ae393c7e8fe8fce9d218875e8227b0187c04e7d2ea1fc"%string in
  let* sk_e_bytes := expect_some (hex_decode sk_e_hex) in
  let* pk_r_bytes := expect_some (hex_decode pk_r_hex) in
  do* assert_eq (length pk_r_bytes) 32;
  let pk_r := mkX25519PublicKey pk_r_bytes in
  let* secret := new_secret sk_e_bytes in
  scoped_local secret
   (let sk_e := PrivateKey_X25519 (mkX25519PrivateKey secret) in
    let* ' (shared_secret, enc) := expect (in_sys (encap_internal pk_r (Some sk_e))) in
    scoped_local shared_secret
     (do* assert_eq (hex_encode enc) pk_e_hex;
      assert_eq (hex_encode (SecretBox_as_slice shared_secret)) expected_shared_secret_hex)).

Definition x25519_tests : list (UnitTest unit) :=
  [test_decaps_x25519_clamped_vector; test_labeled_extract_and_expand; test_encaps_x25519_clamped_vector].
End tests.

(** The reference platform with the real X25519 and HKDF-SHA256; its sealing stays
    the toy one, which no test here uses. *)
Definition rfc_bssl : BsslCrate := {|
  Prk := bytes;
  Params := @Params ref_bssl;
  SenderContext := @SenderContext ref_bssl;
  RecipientContext := @RecipientContext ref_bssl;
  hpke_params := @hpke_params ref_bssl;
  Kem_generate_keypair n := let sk := sha256 (le_bytes 32 (N.of_nat n)) in (x25519 sk x25519_base, sk);
  X25519_to_public sk := x25519 sk x25519_base;
  X25519_compute_shared_key := x25519_shared;
  Hkdf_extract := hkdf_extract;
  Hkdf_expand_into := hkdf_expand;
  SenderContext_new := @SenderContext_new ref_bssl;
  SenderContext_seal := @SenderContext_seal ref_bssl;
  RecipientContext_new := @RecipientContext_new ref_bssl;
  RecipientContext_open := @RecipientContext_open ref_bssl;
  Kem_generate_keypair_spare := @Kem_generate_keypair_spare ref_bssl;
  RecipientContext_open_spare := @RecipientContext_open_spare ref_bssl;
|}.

Definition rfc_platform : Platform := {|
  platform_build := @platform_build ref_platform;
  platform_os := @platform_os ref_platform;
  platform_zeroize := @platform_zeroize ref_platform;
  platform_clear_on_drop := @platform_clear_on_drop ref_platform;
  platform_uuid := @platform_uuid ref_platform;
  platform_prost := @platform_prost ref_platform;
  platform_bssl := rfc_bssl;
|}.

(** Every one of these tests passes. *)
Example x25519_tests_pass : @all_pass rfc_platform (@x25519_tests rfc_platform) = true.
Proof. vm_compute. reflexivity. Qed.
