(* ===== verification/ProcessTests.v ===== *)
(** * The unit tests that need a reporter or a process of their own

    The [tests] module of km_common/src/lib.rs, where the reporter writes to a
    local of the test, those of telemetry.rs that run the test again in a child
    process and look at its output, and the large vault of protected_mem.rs. *)

From S2P Require Import Prelude Effects RustStd Proto Platform RefPlatform SecretBox ProtectedMem X25519.
From S2P Require Import Crypto Telemetry KeyTypes Process Registry Reaper Boundary Formatting Harness TestKit KmTests.
Import RefInstances.

Section tests.
Context `{Platform}.

(** ** lib.rs *)

(** [let mut failure: Option<Failure>], as a local of the test: a tag and the three
    numbers of the enumerations. *)
Definition operation_index (op : KccOperation) : N :=
  match list_find (λ o, o = op) all_operations with Some (i, _) => N.of_nat i | None => 255 end.
Definition kind_index (k : FailureKind) : N := match k with FailureKind_Error => 0 | FailureKind_Panic => 1 end.
Definition option_failure_bytes (o : option Failure) : bytes :=
  match o with
  | None => zeros 4
  | Some f =>
      [byte_of_N 1; byte_of_N (operation_index (operation f));
       byte_of_N (Z.to_N (Status_as_i32 (status f))); byte_of_N (kind_index (kind f))]
  end.

(** [|event| failure = Some(event)] *)
Definition set_failure (failure : N) (event : Failure) (p : Proc) : Proc :=
  set_mem (write_bytes (p_mem p) failure (option_failure_bytes (Some event))) p.

Definition ffi_success_does_not_report_a_failure : UnitTest unit :=
  let* failure := alloc (option_failure_bytes None) in
  let* status :=
    call (ffi_call_with_reporter GenerateBindingKeypair (ret tt) (set_failure failure)) in
  do* assert_eq status Success;
  let* failure := load failure 4 in
  assert_eq failure (option_failure_bytes None).

Definition ffi_error_reports_one_typed_failure : UnitTest unit :=
  let* failure := alloc (option_failure_bytes None) in
  let* status := call (ffi_call_with_reporter Open (throw DecryptionFailure) (set_failure failure)) in
  do* assert_eq status DecryptionFailure;
  let* failure := load failure 4 in
  assert_eq failure (option_failure_bytes (Some (mkFailure Open DecryptionFailure FailureKind_Error))).

(** ** telemetry.rs *)

(** [Command::new(current_exe()).arg(test).env(CHILD_ENV, "1").output()]: the test
    runs in a fresh process; its success, and the events it wrote. *)
Definition child_output (child : UnitTest unit) : bool * list Event :=
  let '(o, w) := child (mkProg (init_proc ∅) 8 tt) in (passed o, events (p_tel (prog_proc w))).

(** [key_manager_init_telemetry(svc.as_ptr(), svc.len())] *)
Definition init_telemetry_with (svc : bytes) : UnitTest unit :=
  let* a := alloc svc in
  call (zoom (λ p, (p_mem p, p_tel p)) (λ mt p, set_tel (snd mt) (set_mem (fst mt) p))
          (key_manager_init_telemetry a (lenN svc))).

(** [panic!(..)] under the hook the process has. *)
Definition panic_with (payload : string) : UnitTest unit :=
  do* modify (λ w, set_proc (caught_panic (prog_proc w)) w);
  panic.

(** [output_text.contains(..)] of a field and of a message, and of any text. *)
Definition output_has_field (out : list Event) (field value : string) : bool :=
  existsb (λ e, bool_decide ((field, value) ∈ ev_fields e)) out.
Definition output_has_message (out : list Event) (message : string) : bool :=
  existsb (λ e, bool_decide (ev_message e = message)) out.
Definition output_contains (out : list Event) (text : string) : bool :=
  existsb (λ e, contains (ev_target e) text || contains (ev_message e) text ||
                existsb (λ kv, contains (fst kv) text || contains (snd kv) text) (ev_fields e)) out.

Definition test_report_failure_emits_configured_service_name_json : UnitTest unit :=
  let child :=
    do* init_telemetry_with (lit "my_custom_ws_service");
    report sample_failure in
  let '(success, output_text) := child_output child in
  do* assert success;
  do* assert (output_has_field output_text "service.name" "my_custom_ws_service");
  do* assert (output_has_field output_text "operation" "open");
  assert (output_has_message output_text "kcc_operation_failed").

Definition test_panic_after_init_emits_sanitized_fatal_panic_occurred : UnitTest unit :=
  let child :=
    do* init_telemetry_with (lit "test_panic_service");
    panic_with "super_secret_panic_payload_12345" in
  let '(success, output_text) := child_output child in
  do* assert (negb success);
  do* assert (output_has_field output_text "service.name" "test_panic_service");
  do* assert (output_has_field output_text "failure_kind" "panic");
  do* assert (output_has_message output_text "fatal_panic_occurred");
  assert (negb (output_contains output_text "super_secret_panic_payload_12345")).

(** ** protected_mem.rs *)

(** [n] is the size of the vault, a megabyte in the source. *)
Definition test_large_vault (n : nat) : UnitTest unit :=
  let data := zeros n in
  let len := length data in
  let* vault := new_vault data in
  scoped_vault vault (let* s := secret_of vault in assert_eq (length s) len).

Definition process_tests (n : nat) : list (UnitTest unit) :=
  [ffi_success_does_not_report_a_failure; ffi_error_reports_one_typed_failure;
   test_report_failure_emits_configured_service_name_json;
   test_panic_after_init_emits_sanitized_fatal_panic_occurred; test_large_vault n].
End tests.

(** Every one of these tests passes. *)
Example process_tests_pass : all_pass (process_tests 1024) = true.
Proof. vm_compute. reflexivity. Qed.
