(* ===== verification/RedactionTests.v ===== *)
(** * The tests of what is printed

    The integration tests km_common/tests/redaction.rs and panic_sanitization.rs,
    and the [redaction_tests] modules of secret_box.rs and crypto.rs. *)

From S2P Require Import Prelude Effects RustStd Proto Platform RefPlatform SecretBox ProtectedMem X25519.
From S2P Require Import Crypto Telemetry KeyTypes Process Registry Reaper Boundary Formatting Harness TestKit.
From S2P Require Import KmTests ProcessTests.
From stdpp Require Import pretty.
Import RefInstances.

Section tests.
Context `{DebugCrates}.

(** ** tests/redaction.rs: [assert_redacted] of a value's [{value:?}] *)

Definition assert_redacted (debug_str : string) : UnitTest unit :=
  do* assert (contains debug_str "[REDACTED]");
  assert (negb (contains debug_str "sentinel")).

Definition secret_box_is_redacted_for_debug_and_display : UnitTest unit :=
  let* secret_box := new_box (Vec_exact (lit "secret-box-sentinel")) in
  scoped_local secret_box (assert_redacted (SecretBox_fmt secret_box)).

Definition private_key_types_are_redacted_for_debug_and_display : UnitTest unit :=
  let* ' (_, private_key) := expect (in_sys (generate_keypair DhkemX25519HkdfSha256)) in
  scoped_local (SecretBox_from private_key)
   (do* assert_redacted (PrivateKey_fmt private_key);
    let '(PrivateKey_X25519 x25519_private_key) := private_key in
    assert_redacted (X25519PrivateKey_fmt x25519_private_key)).

Definition vault_is_redacted_for_debug_and_display : UnitTest unit :=
  let* vault := new_vault (lit "vault-sentinel") in
  scoped_vault vault (assert_redacted (Vault_fmt vault "")).

Definition key_record_is_redacted_for_debug_and_display : UnitTest unit :=
  let algorithm := hpke_algorithm DhkemX25519HkdfSha256 HkdfSha256 Aes256Gcm in
  let* key_record := expect (in_sys (create_binding_key algorithm (60 * nanos_per_sec))) in
  scoped_record key_record (assert_redacted (KeyRecord_fmt key_record)).

(** ** crypto.rs and secret_box.rs *)

Definition test_private_key_redaction : UnitTest unit :=
  let* ' (_pk, sk) := expect (in_sys (generate_keypair DhkemX25519HkdfSha256)) in
  scoped_local (SecretBox_from sk) (assert (contains (PrivateKey_fmt sk) "[REDACTED]")).

Definition test_secret_box_redaction : UnitTest unit :=
  let data := bytes_of [1; 2; 3; 4]%N in
  let* secret := new_box (Vec_exact data) in
  scoped_local secret
   (do* assert (negb (contains (SecretBox_fmt secret) "1, 2, 3, 4"));
    assert (contains (SecretBox_fmt secret) "[REDACTED]")).

(** ** tests/panic_sanitization.rs *)

Definition SECRET_SENTINEL : string := "panic-secret-sentinel-7a4f1d".

(** The closure panics with the sentinel as its payload, which the hook is the only
    one to see. *)
Definition caught_ffi_panics_do_not_emit_sensitive_diagnostics : UnitTest unit :=
  let child :=
    do* init_telemetry_with (lit "test_service");
    let* status := call (ffi_call Open panic) in
    assert_eq status InternalError in
  let '(success, output_text) := child_output child in
  do* assert success;
  do* assert (negb (output_contains output_text SECRET_SENTINEL));
  do* assert (negb (output_contains output_text "panicked at"));
  do* assert (negb (output_contains output_text "stack backtrace"));
  assert (output_contains output_text "kcc_operation_failed").

Definition redaction_tests : list (UnitTest unit) :=
  [secret_box_is_redacted_for_debug_and_display; private_key_types_are_redacted_for_debug_and_display;
   vault_is_redacted_for_debug_and_display; key_record_is_redacted_for_debug_and_display;
   test_private_key_redaction; test_secret_box_redaction;
   caught_ffi_panics_do_not_emit_sensitive_diagnostics].
End tests.

(** The texts of the crates on the reference platform. *)
#[export] Instance ref_debug : DebugCrates := {|
  secrecy_fmt _ := "SecretBox<[u8]>([REDACTED])";
  uuid_fmt u := array_fmt (Uuid_as_bytes u);
  HpkeAlgorithm_fmt a :=
    debug_struct "HpkeAlgorithm" [("kem", pretty (kem a)); ("kdf", pretty (kdf a)); ("aead", pretty (aead a))];
|}.

#[export] Instance ref_debug_laws : DebugLaws.
Proof. by split. Qed.

Example redaction_tests_pass : all_pass redaction_tests = true.
Proof. vm_compute. reflexivity. Qed.

(** What a private key prints. *)
Example private_key_debug :
  PrivateKey_fmt (PrivateKey_X25519 (mkX25519PrivateKey (mkSecretBox (zeros 32)))) =
  "X25519(X25519PrivateKey(SecretBox(SecretBox<[u8]>([REDACTED]))))".
Proof. vm_compute. reflexivity. Qed.
