(* ===== verification/KernelTests.v ===== *)
(** * The test that asks the kernel: km_common/src/protected_mem.rs

    [test_memfd_backing_verification] looks at a vault from outside: the file
    system of its descriptor, and the line of /proc/self/maps that covers its
    mapping.  What the kernel answers is [KernelView]; reading the text is the
    test's own code. *)

From Stdlib Require Import Ascii.
From S2P Require Import Prelude Effects RustStd Proto Platform RefPlatform SecretBox ProtectedMem X25519.
From S2P Require Import Crypto Telemetry KeyTypes Process Registry Reaper Boundary Formatting Harness TestKit.
From S2P Require Import KmTests.
Import RefInstances.
Open Scope string_scope.

(** ** Strings of the standard library, on ASCII text *)

(** [str::split] by a predicate on characters: one piece more than separators. *)
Fixpoint split_by (sep : Ascii.ascii → bool) (s : string) : list string :=
  match s with
  | "" => [""]
  | String c s =>
      if sep c then "" :: split_by sep s
      else match split_by sep s with
           | [] => [String c ""]
           | w :: ws => String c w :: ws
           end
  end.

Definition split_char (c : Ascii.ascii) : string → list string := split_by (Ascii.eqb c).
Definition is_whitespace (c : Ascii.ascii) : bool :=
  (let n := Ascii.N_of_ascii c in (n =? 32) || (9 <=? n) && (n <=? 13))%N.
Definition split_whitespace (s : string) : list string :=
  filter (λ w, w ≠ "") (split_by is_whitespace s).

(** [str::lines]: a final line feed ends the last line; a carriage return before one
    is not part of the line. *)
Definition strip_cr (s : string) : string :=
  match String.rev s with String "013"%char r => String.rev r | _ => s end.
Definition lines (s : string) : list string :=
  let pieces := split_char "010"%char s in
  strip_cr <$> (match list.last pieces with Some "" => take (length pieces - 1) pieces | _ => pieces end).

(** [usize::from_str_radix] and [u64::from_str]: at least one digit, an optional plus,
    no overflow. *)
Definition digit_of (radix : N) (c : Ascii.ascii) : option N :=
  let n := Ascii.N_of_ascii c in
  let d := (if (48 <=? n) && (n <=? 57) then n - 48
            else if (97 <=? n) && (n <=? 122) then n - 87
            else if (65 <=? n) && (n <=? 90) then n - 55
            else radix)%N in
  if (d <? radix)%N then Some d else None.
Fixpoint digits_from (radix acc : N) (s : string) : option N :=
  match s with
  | "" => Some acc
  | String c s =>
      d ← digit_of radix c;
      let acc := (acc * radix + d)%N in
      if (acc <=? usize_max)%N then digits_from radix acc s else None
  end.
Definition from_str_radix (s : string) (radix : N) : option N :=
  match s with
  | "" | "+" => None
  | String "+"%char s => digits_from radix 0 s
  | s => digits_from radix 0 s
  end.

Class KernelView `{Platform} := {
  (** [vault.as_raw_fd()] and [vault.mmap.as_ptr()] *)
  as_raw_fd : Vault → Z;
  as_ptr : Vault → N;
  (** [f_type] of [fstatfs] and [st_ino] of [fstat], where the call returns zero. *)
  fstatfs_type : Z → option N;
  fstat_ino : Z → option N;
  (** The text of /proc/self/maps. *)
  proc_self_maps : option string;
}.

Section test.
Context `{KernelView}.

Definition SECRETMEM_MAGIC : N := 0x5345434d.

(** The closure of [maps.lines().any(..)]: [range[1]] and the parses may panic. *)
Definition covers (ptr expected_inode : N) (line : string) : UnitTest bool :=
  let parts := split_whitespace line in
  if (length parts <? 6)%nat then ret false
  else
    let* part0 := expect_some (parts !! 0) in
    let range := split_char "-"%char part0 in
    let* range0 := expect_some (range !! 0) in
    let* start := expect_some (from_str_radix range0 16) in
    let* range1 := expect_some (range !! 1) in
    let* end_ := expect_some (from_str_radix range1 16) in
    if ((start <=? ptr) && (ptr <? end_))%N then
      let* part4 := expect_some (parts !! 4) in
      let inode := default 0%N (from_str_radix part4 10) in
      ret ((inode =? expected_inode)%N && contains line "/secretmem")
    else ret false.

Definition test_memfd_backing_verification : UnitTest unit :=
  let data := lit "verification data" in
  let* vault := new_vault data in
  scoped_vault vault
   (let fd := as_raw_fd vault in
    let* f_type := expect_some (fstatfs_type fd) in
    do* assert_eq f_type SECRETMEM_MAGIC;
    let ptr := as_ptr vault in
    let* expected_inode := expect_some (fstat_ino fd) in
    let* maps := expect_some proc_self_maps in
    let* found := for_until (lines maps) (covers ptr expected_inode) in
    assert found).
End test.

(** ** A kernel *)

(** Three mappings, of which the last holds the vault. *)
Definition example_maps : string :=
  "5581d0400000-5581d0428000 r--p 00000000 fd:01 1048602                    /usr/bin/tests" +:+
  String "010"%char ("7ffc1c5d2000-7ffc1c5f3000 rw-p 00000000 00:00 0                          [stack]" +:+
  String "010"%char ("7f2a3c000000-7f2a3c021000 rw-p 00000000 00:00 0" +:+
  String "010"%char ("7f2a44a6e000-7f2a44a6f000 rw-s 00000000 00:0e 17171                      /secretmem (deleted)" +:+
  String "010"%char ""))).

Definition example_kernel (ptr inode : N) : KernelView := {|
  as_raw_fd _ := 3%Z;
  as_ptr _ := ptr;
  fstatfs_type fd := if (fd =? 3)%Z then Some SECRETMEM_MAGIC else None;
  fstat_ino fd := if (fd =? 3)%Z then Some inode else None;
  proc_self_maps := Some example_maps;
|}.

Definition verification_passes (ptr inode : N) : bool :=
  all_pass [@test_memfd_backing_verification _ (example_kernel ptr inode)].

(** The test passes when the vault's mapping is the secret one, and fails when the
    vault lies in the next page, in the stack, or in another file. *)
Example memfd_backing_verified :
  verification_passes 0x7f2a44a6e010 17171 = true ∧
  verification_passes 0x7f2a44a6f000 17171 = false ∧
  verification_passes 0x7ffc1c5d2000 0 = false ∧
  verification_passes 0x7f2a44a6e010 17172 = false.
Proof. vm_compute. done. Qed.
