(* ===== verification/KpsTests.v ===== *)
(** * The unit tests of the key protection service's core

    The [tests] module of key_protection_service/key_custody_core/src/lib.rs, test
    by test, run against the model on the reference platform. *)

From S2P Require Import Prelude Effects RustStd Proto Platform RefPlatform SecretBox ProtectedMem X25519.
From S2P Require Import Crypto Telemetry KeyTypes Process Registry Reaper Boundary KpsCore KpsSpec WsCore WsSpec.
From S2P Require Import Layout Harness TestKit.
Import RefInstances.

Section tests.
Context `{Platform}.

(** ** Generation *)

Definition test_create_kem_key_success_and_zeroization : UnitTest unit :=
  let binding_pubkey := filled 1 32 in
  let algo := test_algo in
  let* binding_pubkey := expect (in_sys (PublicKey_try_from binding_pubkey)) in
  let* res := result (generate_kem_keypair_internal algo binding_pubkey 3600) in
  do* assert (match res with inr _ => true | inl _ => false end);
  let* ' (id, _) := match res with inr a => ret a | inl _ => panic end in
  KeyCleanup id (assert (negb (is_nil id))).

Definition test_generate_kem_keypair_ffi_success : UnitTest unit :=
  let* binding_pubkey := alloc_slice (filled 1 32) in
  let* uuid_bytes := alloc (zeros 16) in
  let* pubkey_bytes := alloc (zeros 32) in
  let pubkey_len := 32%N in
  let* algo_bytes := alloc_slice (HpkeAlgorithm_encode_to_vec test_algo) in
  let* res := call (key_manager_generate_kem_keypair (as_ptr algo_bytes) (slice_len algo_bytes)
    (as_ptr binding_pubkey) (slice_len binding_pubkey) 3600 uuid_bytes pubkey_bytes pubkey_len) in
  do* assert_eq res Success;
  let* uuid := load uuid_bytes 16 in
  KeyCleanup (Uuid_from_bytes uuid)
   (do* assert_ne uuid (zeros 16);
    do* assert_eq pubkey_len 32%N;
    let* pubkey := load pubkey_bytes 32 in
    assert_ne pubkey (zeros 32)).

Definition test_generate_kem_keypair_invalid_algo : UnitTest unit :=
  let* binding_pubkey := alloc_slice (filled 1 32) in
  let* uuid_bytes := alloc (zeros 16) in
  let* pubkey_bytes := alloc (zeros 32) in
  let pubkey_len := 32%N in
  let* algo_bytes := alloc_slice (filled 255 2) in
  let* res := call (key_manager_generate_kem_keypair (as_ptr algo_bytes) (slice_len algo_bytes)
    (as_ptr binding_pubkey) (slice_len binding_pubkey) 3600 uuid_bytes pubkey_bytes pubkey_len) in
  do* assert_eq res InvalidArgument;
  let* uuid := load uuid_bytes 16 in
  assert_eq uuid (zeros 16).

Definition test_generate_kem_keypair_invalid_pubkey_len : UnitTest unit :=
  let* binding_pubkey := alloc_slice (filled 1 32) in
  let* uuid_bytes := alloc (zeros 16) in
  let* pubkey_bytes := alloc (zeros 64) in
  let pubkey_len := 64%N in
  let* algo_bytes := alloc_slice (HpkeAlgorithm_encode_to_vec test_algo) in
  let* res := call (key_manager_generate_kem_keypair (as_ptr algo_bytes) (slice_len algo_bytes)
    (as_ptr binding_pubkey) (slice_len binding_pubkey) 3600 uuid_bytes pubkey_bytes pubkey_len) in
  do* assert_eq res InvalidArgument;
  let* uuid := load uuid_bytes 16 in
  do* assert_eq uuid (zeros 16);
  let* pubkey := load pubkey_bytes 32 in
  assert_eq pubkey (zeros 32).

Definition test_generate_kem_keypair_null_binding_key : UnitTest unit :=
  let* uuid_bytes := alloc (zeros 16) in
  let* algo_bytes := alloc_slice (HpkeAlgorithm_encode_to_vec test_algo) in
  let* res := call (key_manager_generate_kem_keypair (as_ptr algo_bytes) (slice_len algo_bytes)
    0 32 3600 uuid_bytes 0 0) in
  assert_eq res InvalidArgument.

Definition test_generate_kem_keypair_empty_binding_key_len : UnitTest unit :=
  let* binding_pubkey := alloc_slice (filled 1 32) in
  let* uuid_bytes := alloc (zeros 16) in
  let* algo_bytes := alloc_slice (HpkeAlgorithm_encode_to_vec test_algo) in
  let* res := call (key_manager_generate_kem_keypair (as_ptr algo_bytes) (slice_len algo_bytes)
    (as_ptr binding_pubkey) 0 3600 uuid_bytes 0 0) in
  assert_eq res InvalidArgument.

(** ** Destruction *)

Definition test_destroy_kem_key_success : UnitTest unit :=
  let* binding_pubkey := alloc_slice (filled 1 32) in
  let* uuid_bytes := alloc (zeros 16) in
  let* pubkey_bytes := alloc (zeros 32) in
  let pubkey_len := 32%N in
  let* algo_bytes := alloc_slice (HpkeAlgorithm_encode_to_vec test_algo) in
  let* res := call (key_manager_generate_kem_keypair (as_ptr algo_bytes) (slice_len algo_bytes)
    (as_ptr binding_pubkey) (slice_len binding_pubkey) 3600 uuid_bytes pubkey_bytes pubkey_len) in
  do* assert_eq res Success;
  let* uuid := load uuid_bytes 16 in
  KeyCleanup (Uuid_from_bytes uuid)
   (let* res := call (key_manager_destroy_kem_key uuid_bytes) in
    do* assert_eq res Success;
    let* res := call (key_manager_destroy_kem_key uuid_bytes) in
    assert_eq res NotFound).

Definition test_destroy_kem_key_not_found : UnitTest unit :=
  let* uuid_bytes := alloc (zeros 16) in
  let* res := call (key_manager_destroy_kem_key uuid_bytes) in
  assert_eq res NotFound.

Definition test_destroy_kem_key_null_ptr : UnitTest unit :=
  let* res := call (key_manager_destroy_kem_key 0) in
  assert_eq res InvalidArgument.

(** ** Enumeration *)

Definition test_enumerate_kem_keys_null_pointers : UnitTest unit :=
  let* res := call (key_manager_enumerate_kem_keys 0 10 0 None) in
  assert_eq res (- Status_as_i32 InvalidArgument)%Z.

(** [entries.resize_with(n, || KpsKeyInfo { uuid: [0; 16], .. })] *)
Definition zero_entries (n : N) : bytes := concat (replicate (N.to_nat n) (KpsKeyInfo_bytes KpsKeyInfo_default)).

(** [entries[i]] of the vector of [n] entries. *)
Definition entry_at (entries n i : N) : UnitTest KpsKeyInfo :=
  if (i <? n)%N then
    let* w := gets prog_proc in
    expect_some (read_KpsKeyInfo (p_mem w) (entries + i * KpsKeyInfo_size))
  else panic.

Definition test_enumerate_kem_keys_after_generate (n : N) : UnitTest unit :=
  let* binding_pubkey := alloc_slice (filled 7 32) in
  let* uuid_bytes := alloc (zeros 16) in
  let* pubkey_bytes := alloc (zeros 32) in
  let pubkey_len := 32%N in
  let* algo_bytes := alloc_slice (HpkeAlgorithm_encode_to_vec test_algo) in
  let* rc := call (key_manager_generate_kem_keypair (as_ptr algo_bytes) (slice_len algo_bytes)
    (as_ptr binding_pubkey) (slice_len binding_pubkey) 3600 uuid_bytes pubkey_bytes pubkey_len) in
  do* assert_eq rc Success;
  let* uuid := load uuid_bytes 16 in
  KeyCleanup (Uuid_from_bytes uuid)
   (let* entries := alloc (zero_entries n) in
    let* has_more := alloc [x00] in
    let* rc := call (key_manager_enumerate_kem_keys entries n 0 (Some has_more)) in
    do* assert (1 <=? rc)%Z;
    let count := Z.to_nat rc in
    let* found := for_until (seq 0 count) (λ i,
      let* entry := entry_at entries n (N.of_nat i) in
      if bool_decide (kps_uuid entry = uuid) then
        let* encoded_algo := prefix_of (kps_algorithm entry) (kps_algorithm_len entry) in
        let* decoded_algo := expect_some (HpkeAlgorithm_decode encoded_algo) in
        do* assert_eq (kem decoded_algo) (KemAlgorithm_as_i32 DhkemX25519HkdfSha256);
        do* assert_eq (kps_pub_key_len entry) 32%N;
        do* assert (0 <? kps_remaining_lifespan_secs entry)%N;
        ret true
      else ret false) in
    assert found).

Definition test_enumerate_kem_keys_has_more (n : N) : UnitTest unit :=
  let* uuid_bytes := alloc (zeros 16) in
  let* pubkey_bytes := alloc (zeros 32) in
  let* algo_bytes := alloc_slice (HpkeAlgorithm_encode_to_vec test_algo) in
  let* binding_key := alloc (filled 7 32) in
  do* call (key_manager_generate_kem_keypair (as_ptr algo_bytes) (slice_len algo_bytes)
    binding_key 32 3600 uuid_bytes pubkey_bytes 32);
  let* uuid := load uuid_bytes 16 in
  KeyCleanup (Uuid_from_bytes uuid)
   (let* entries := alloc (zero_entries n) in
    let* has_more := alloc [x00] in
    let* rc := call (key_manager_enumerate_kem_keys entries 0 0 (Some has_more)) in
    do* assert_eq rc 0%Z;
    let* flag := load has_more 1 in
    do* assert_eq flag (filled 1 1);
    do* set_local has_more (filled 1 1);
    let* rc := call (key_manager_enumerate_kem_keys entries n 0 (Some has_more)) in
    do* assert (1 <=? rc)%Z;
    let* flag := load has_more 1 in
    assert_eq flag (filled 0 1)).

(** ** Decapsulation and resealing *)

Definition test_decap_and_seal_success : UnitTest unit :=
  let* ' (binding_pk, binding_sk) := expect (in_sys (generate_keypair DhkemX25519HkdfSha256)) in
  scoped_local (SecretBox_from binding_sk)
   (let* uuid_bytes := alloc (zeros 16) in
    let* kem_pubkey_bytes := alloc (zeros 32) in
    let kem_pubkey_len := 32%N in
    let algo := test_algo in
    let* algo_bytes := alloc_slice (HpkeAlgorithm_encode_to_vec algo) in
    let* binding_pk_bytes := alloc_slice (PublicKey_as_bytes binding_pk) in
    do* call (key_manager_generate_kem_keypair (as_ptr algo_bytes) (slice_len algo_bytes)
      (as_ptr binding_pk_bytes) (slice_len binding_pk_bytes) 3600 uuid_bytes kem_pubkey_bytes kem_pubkey_len);
    let* uuid := load uuid_bytes 16 in
    KeyCleanup (Uuid_from_bytes uuid)
     (let* aad := alloc_slice (lit "test_aad") in
      let* kem_pubkey := load kem_pubkey_bytes 32 in
      let* pub_key_obj := expect (in_sys (PublicKey_try_from kem_pubkey)) in
      let* ' (client_shared_secret, client_enc) := expect (in_sys (encap pub_key_obj)) in
      scoped_local client_shared_secret
       (let* client_enc := alloc_slice client_enc in
        let* out_enc_key := alloc (zeros 32) in
        let out_enc_key_len := 32%N in
        let* out_ct := alloc (zeros 48) in
        let out_ct_len := 48%N in
        let* res := call (key_manager_decap_and_seal uuid_bytes (as_ptr client_enc) (slice_len client_enc)
          (as_ptr aad) (slice_len aad) out_enc_key out_enc_key_len out_ct out_ct_len) in
        do* assert_eq res Success;
        let* enc := load out_enc_key 32 in
        let* ct := load out_ct 48 in
        let* recovered_shared_secret := expect (in_sys (hpke_open binding_sk enc ct (slice_bytes aad) algo)) in
        scoped_local recovered_shared_secret
         (do* assert_eq (length (SecretBox_as_slice recovered_shared_secret)) 32;
          assert_eq (SecretBox_as_slice recovered_shared_secret) (SecretBox_as_slice client_shared_secret))))).

Definition test_decap_and_seal_invalid_uuid : UnitTest unit :=
  let* out_enc_key := alloc (zeros 32) in
  let out_enc_key_len := 32%N in
  let* out_ct := alloc (zeros 48) in
  let out_ct_len := 48%N in
  let* uuid := alloc (zeros 16) in
  let* enc := alloc (zeros 32) in
  let* res := call (key_manager_decap_and_seal uuid enc 32 0 0 out_enc_key out_enc_key_len out_ct out_ct_len) in
  assert_eq res NotFound.

Definition test_decap_and_seal_null_args : UnitTest unit :=
  let* out_enc_key := alloc (zeros 32) in
  let out_enc_key_len := 32%N in
  let* res := call (key_manager_decap_and_seal 0 0 0 0 0 out_enc_key out_enc_key_len 0 0) in
  assert_eq res InvalidArgument.

Definition test_decap_and_seal_decaps_fail : UnitTest unit :=
  let* ' (binding_pk, binding_sk) := expect (in_sys (generate_keypair DhkemX25519HkdfSha256)) in
  scoped_local (SecretBox_from binding_sk)
   (let* uuid_bytes := alloc (zeros 16) in
    let* kem_pubkey_bytes := alloc (zeros 32) in
    let kem_pubkey_len := 32%N in
    let* algo_bytes := alloc_slice (HpkeAlgorithm_encode_to_vec test_algo) in
    let* binding_pk_bytes := alloc_slice (PublicKey_as_bytes binding_pk) in
    let* res := call (key_manager_generate_kem_keypair (as_ptr algo_bytes) (slice_len algo_bytes)
      (as_ptr binding_pk_bytes) (slice_len binding_pk_bytes) 3600 uuid_bytes kem_pubkey_bytes kem_pubkey_len) in
    do* assert_eq res Success;
    let* uuid := load uuid_bytes 16 in
    KeyCleanup (Uuid_from_bytes uuid)
     (let* out_enc_key := alloc (zeros 32) in
      let out_enc_key_len := 32%N in
      let* out_ct := alloc (zeros 48) in
      let out_ct_len := 48%N in
      let* enc := alloc (zeros 31) in
      let* res := call (key_manager_decap_and_seal uuid_bytes enc 31 0 0
        out_enc_key out_enc_key_len out_ct out_ct_len) in
      assert_eq res DecapsulationFailure)).

Definition test_decap_and_seal_buffer_too_small : UnitTest unit :=
  let* ' (binding_pk, binding_sk) := expect (in_sys (generate_keypair DhkemX25519HkdfSha256)) in
  scoped_local (SecretBox_from binding_sk)
   (let* uuid_bytes := alloc (zeros 16) in
    let* kem_pubkey_bytes := alloc (zeros 32) in
    let kem_pubkey_len := 32%N in
    let algo := test_algo in
    let* algo_bytes := alloc_slice (HpkeAlgorithm_encode_to_vec algo) in
    let* binding_pk_bytes := alloc_slice (PublicKey_as_bytes binding_pk) in
    let* res := call (key_manager_generate_kem_keypair (as_ptr algo_bytes) (slice_len algo_bytes)
      (as_ptr binding_pk_bytes) (slice_len binding_pk_bytes) 3600 uuid_bytes kem_pubkey_bytes kem_pubkey_len) in
    do* assert_eq res Success;
    let* uuid := load uuid_bytes 16 in
    KeyCleanup (Uuid_from_bytes uuid)
     (let* kem_pubkey := load kem_pubkey_bytes 32 in
      let* pub_key_obj := expect (in_sys (PublicKey_try_from kem_pubkey)) in
      let* pt := expect (in_sys (@SecretBox_new _ Status (Vec_exact (lit "secret")))) in
      scoped_local pt
       (let* ' (client_enc, _) := expect (in_sys (hpke_seal pub_key_obj pt [] algo)) in
        let* client_enc := alloc_slice client_enc in
        let* out_enc_key := alloc (zeros 31) in
        let out_enc_key_len := 31%N in
        let* out_ct := alloc (zeros 47) in
        let out_ct_len := 47%N in
        let* res := call (key_manager_decap_and_seal uuid_bytes (as_ptr client_enc) (slice_len client_enc) 0 0
          out_enc_key out_enc_key_len out_ct out_ct_len) in
        assert_eq res InvalidArgument))).

(** ** Lookup *)

Definition test_get_kem_key_success : UnitTest unit :=
  let* binding_pubkey := alloc_slice (filled 42 32) in
  let* uuid_bytes := alloc (zeros 16) in
  let* generated_kem_pubkey_bytes := alloc (zeros 32) in
  let pubkey_len := 32%N in
  let* algo_bytes := alloc_slice (HpkeAlgorithm_encode_to_vec test_algo) in
  let* res := call (key_manager_generate_kem_keypair (as_ptr algo_bytes) (slice_len algo_bytes)
    (as_ptr binding_pubkey) (slice_len binding_pubkey) 3600 uuid_bytes generated_kem_pubkey_bytes pubkey_len) in
  do* assert_eq res Success;
  let* uuid := load uuid_bytes 16 in
  KeyCleanup (Uuid_from_bytes uuid)
   (let* retrieved_kem_pubkey_bytes := alloc (zeros 32) in
    let* retrieved_binding_pubkey_bytes := alloc (zeros 32) in
    let* retrieved_algo_bytes := alloc (zeros 128) in
    let* retrieved_algo_len := alloc (le_bytes 8 128) in
    let* remaining_lifespan_secs := alloc (le_bytes 8 0) in
    let* res := call (key_manager_get_kem_key uuid_bytes retrieved_kem_pubkey_bytes 32
      retrieved_binding_pubkey_bytes 32 retrieved_algo_bytes retrieved_algo_len remaining_lifespan_secs) in
    do* assert_eq res Success;
    let* generated := load generated_kem_pubkey_bytes 32 in
    let* retrieved := load retrieved_kem_pubkey_bytes 32 in
    do* assert_eq generated retrieved;
    let* retrieved_binding := load retrieved_binding_pubkey_bytes 32 in
    do* assert_eq (slice_bytes binding_pubkey) retrieved_binding;
    let* len := load retrieved_algo_len 8 in
    let* retrieved_algo := load retrieved_algo_bytes 128 in
    let* retrieved_algo := prefix_of retrieved_algo (le_value len) in
    do* assert_eq (slice_bytes algo_bytes) retrieved_algo;
    let* remaining := load remaining_lifespan_secs 8 in
    do* assert (0 <? le_value remaining)%N;
    assert (le_value remaining <=? 3600)%N).

Definition test_get_kem_key_not_found : UnitTest unit :=
  let* uuid_bytes := alloc (filled 42 16) in
  let* kem_pubkey_bytes := alloc (zeros 32) in
  let* binding_pubkey_bytes := alloc (zeros 32) in
  let* retrieved_algo_bytes := alloc (zeros 128) in
  let* retrieved_algo_len := alloc (le_bytes 8 128) in
  let* remaining_lifespan_secs := alloc (le_bytes 8 0) in
  let* res := call (key_manager_get_kem_key uuid_bytes kem_pubkey_bytes 32 binding_pubkey_bytes 32
    retrieved_algo_bytes retrieved_algo_len remaining_lifespan_secs) in
  assert_eq res NotFound.

Definition test_get_kem_key_invalid_buffer_len : UnitTest unit :=
  let* binding_pubkey := alloc_slice (filled 42 32) in
  let* uuid_bytes := alloc (zeros 16) in
  let* generated_kem_pubkey_bytes := alloc (zeros 32) in
  let pubkey_len := 32%N in
  let* algo_bytes := alloc_slice (HpkeAlgorithm_encode_to_vec test_algo) in
  let* res := call (key_manager_generate_kem_keypair (as_ptr algo_bytes) (slice_len algo_bytes)
    (as_ptr binding_pubkey) (slice_len binding_pubkey) 3600 uuid_bytes generated_kem_pubkey_bytes pubkey_len) in
  do* assert_eq res Success;
  let* uuid := load uuid_bytes 16 in
  KeyCleanup (Uuid_from_bytes uuid)
   (let* retrieved_kem_pubkey_bytes := alloc (zeros 32) in
    let* retrieved_binding_pubkey_bytes := alloc (zeros 32) in
    let* retrieved_algo_bytes := alloc (zeros 128) in
    let* retrieved_algo_len := alloc (le_bytes 8 128) in
    let* remaining_lifespan_secs := alloc (le_bytes 8 0) in
    let* res := call (key_manager_get_kem_key uuid_bytes retrieved_kem_pubkey_bytes 31
      retrieved_binding_pubkey_bytes 32 retrieved_algo_bytes retrieved_algo_len remaining_lifespan_secs) in
    do* assert_eq res InvalidArgument;
    let* res := call (key_manager_get_kem_key uuid_bytes retrieved_kem_pubkey_bytes 32
      retrieved_binding_pubkey_bytes 33 retrieved_algo_bytes retrieved_algo_len remaining_lifespan_secs) in
    assert_eq res InvalidArgument).

(** [n] is the length of the vectors that receive a listing, 100 in the source. *)
Definition kps_tests (n : N) : list (UnitTest unit) :=
  [test_create_kem_key_success_and_zeroization; test_generate_kem_keypair_ffi_success;
   test_generate_kem_keypair_invalid_algo; test_generate_kem_keypair_invalid_pubkey_len;
   test_generate_kem_keypair_null_binding_key; test_generate_kem_keypair_empty_binding_key_len;
   test_destroy_kem_key_success; test_destroy_kem_key_not_found; test_destroy_kem_key_null_ptr;
   test_enumerate_kem_keys_null_pointers; test_enumerate_kem_keys_after_generate n;
   test_enumerate_kem_keys_has_more n; test_decap_and_seal_success; test_decap_and_seal_invalid_uuid;
   test_decap_and_seal_null_args; test_decap_and_seal_decaps_fail; test_decap_and_seal_buffer_too_small;
   test_get_kem_key_success; test_get_kem_key_not_found; test_get_kem_key_invalid_buffer_len].
End tests.

(** Every test of the crate passes; a vector of three entries is large enough for
    the keys alive when the listings are made, and evaluates quickly. *)
Example kps_tests_pass : all_pass (kps_tests 3) = true.
Proof. vm_compute. reflexivity. Qed.
