(* ===== verification/WsTests.v ===== *)
(** * The unit tests of the workload service's core

    The [tests] module of workload_service/key_custody_core/src/lib.rs, test by
    test, run against the model on the reference platform. *)

From S2P Require Import Prelude Effects RustStd Proto Platform RefPlatform SecretBox ProtectedMem X25519.
From S2P Require Import Crypto Telemetry KeyTypes Process Registry Reaper Boundary KpsCore KpsSpec WsCore WsSpec.
From S2P Require Import Layout Harness TestKit.
Import RefInstances.

Section tests.
Context `{Platform}.

(** ** Generation *)

Definition test_create_binding_keypair_internal_success : UnitTest unit :=
  let algo := test_algo in
  let* res := result (generate_binding_keypair_internal algo 3600) in
  do* assert (match res with inr _ => true | inl _ => false end);
  let* ' (id, _) := match res with inr a => ret a | inl _ => panic end in
  KeyCleanup id (assert (negb (is_nil id))).

Definition test_generate_binding_keypair_ffi_success : UnitTest unit :=
  let* uuid_bytes := alloc (zeros 16) in
  let* pubkey_bytes := alloc (zeros 32) in
  let pubkey_len := 32%N in
  let* algo_bytes := alloc_slice (HpkeAlgorithm_encode_to_vec test_algo) in
  let* res := call (key_manager_generate_binding_keypair (as_ptr algo_bytes) (slice_len algo_bytes)
    3600 uuid_bytes pubkey_bytes pubkey_len) in
  do* assert_eq res Success;
  let* uuid := load uuid_bytes 16 in
  KeyCleanup (Uuid_from_bytes uuid)
   (do* assert_ne uuid (zeros 16);
    do* assert_eq pubkey_len 32%N;
    let* pubkey := load pubkey_bytes 32 in
    assert_ne pubkey (zeros 32)).

Definition test_generate_binding_keypair_invalid_algo : UnitTest unit :=
  let* uuid_bytes := alloc (zeros 16) in
  let* pubkey_bytes := alloc (zeros 32) in
  let pubkey_len := 32%N in
  let* algo_bytes := alloc_slice (filled 255 2) in
  let* res := call (key_manager_generate_binding_keypair (as_ptr algo_bytes) (slice_len algo_bytes)
    3600 uuid_bytes pubkey_bytes pubkey_len) in
  do* assert_eq res InvalidArgument;
  let* uuid := load uuid_bytes 16 in
  assert_eq uuid (zeros 16).

Definition test_generate_binding_keypair_null_uuid_ptr : UnitTest unit :=
  let* algo_bytes := alloc_slice (HpkeAlgorithm_encode_to_vec test_algo) in
  let* res := call (key_manager_generate_binding_keypair (as_ptr algo_bytes) (slice_len algo_bytes) 3600 0 0 0) in
  assert_eq res InvalidArgument.

Definition test_generate_binding_keypair_invalid_pubkey_len : UnitTest unit :=
  let* uuid_bytes := alloc (zeros 16) in
  let* pubkey_bytes := alloc (zeros 64) in
  let pubkey_len := 64%N in
  let* algo_bytes := alloc_slice (HpkeAlgorithm_encode_to_vec test_algo) in
  let* res := call (key_manager_generate_binding_keypair (as_ptr algo_bytes) (slice_len algo_bytes)
    3600 uuid_bytes pubkey_bytes pubkey_len) in
  do* assert_eq res InvalidArgument;
  let* uuid := load uuid_bytes 16 in
  do* assert_eq uuid (zeros 16);
  let* pubkey := load pubkey_bytes 32 in
  assert_eq pubkey (zeros 32).

(** ** Destruction *)

Definition test_destroy_binding_key_success : UnitTest unit :=
  let* uuid_bytes := alloc (zeros 16) in
  let* pubkey_bytes := alloc (zeros 32) in
  let pubkey_len := 32%N in
  let* algo_bytes := alloc_slice (HpkeAlgorithm_encode_to_vec test_algo) in
  let* res := call (key_manager_generate_binding_keypair (as_ptr algo_bytes) (slice_len algo_bytes)
    3600 uuid_bytes pubkey_bytes pubkey_len) in
  do* assert_eq res Success;
  let* uuid := load uuid_bytes 16 in
  KeyCleanup (Uuid_from_bytes uuid)
   (let* res := call (key_manager_destroy_binding_key uuid_bytes) in
    do* assert_eq res Success;
    let* res := call (key_manager_destroy_binding_key uuid_bytes) in
    assert_eq res NotFound).

Definition test_destroy_binding_key_not_found : UnitTest unit :=
  let* uuid_bytes := alloc (zeros 16) in
  let* res := call (key_manager_destroy_binding_key uuid_bytes) in
  assert_eq res NotFound.

Definition test_destroy_binding_key_null_ptr : UnitTest unit :=
  let* res := call (key_manager_destroy_binding_key 0) in
  assert_eq res InvalidArgument.

(** ** Decryption *)

Definition test_key_manager_open_success : UnitTest unit :=
  let* uuid_bytes := alloc (zeros 16) in
  let* pubkey_bytes := alloc (zeros 32) in
  let pubkey_len := 32%N in
  let algo := test_algo in
  let* algo_bytes := alloc_slice (HpkeAlgorithm_encode_to_vec algo) in
  do* call (key_manager_generate_binding_keypair (as_ptr algo_bytes) (slice_len algo_bytes)
    3600 uuid_bytes pubkey_bytes pubkey_len);
  let* uuid := load uuid_bytes 16 in
  KeyCleanup (Uuid_from_bytes uuid)
   (let PT := lit "secret message" in
    let* AAD := alloc_slice (lit "test aad") in
    let* pubkey := load pubkey_bytes 32 in
    let* pub_key := expect (in_sys (PublicKey_try_from pubkey)) in
    let* pt_box := expect (in_sys (@SecretBox_new _ Status (Vec_exact PT))) in
    scoped_local pt_box
     (let* ' (enc, ct) := expect (in_sys (hpke_seal pub_key pt_box (slice_bytes AAD) algo)) in
      let* enc := alloc_slice enc in
      let* ct := alloc_slice ct in
      let* out_pt := alloc (zeros (length PT)) in
      let out_pt_len := lenN PT in
      let* res := call (key_manager_open uuid_bytes (as_ptr enc) (slice_len enc) (as_ptr ct) (slice_len ct)
        (as_ptr AAD) (slice_len AAD) out_pt out_pt_len) in
      do* assert_eq res Success;
      let* pt := load out_pt out_pt_len in
      assert_eq pt PT)).

Definition test_key_manager_open_invalid_uuid : UnitTest unit :=
  let* uuid_bytes := alloc (zeros 16) in
  let* out_pt := alloc (zeros 64) in
  let out_pt_len := 64%N in
  let* enc := alloc (zeros 32) in
  let* ct := alloc (zeros 32) in
  let* aad := alloc (zeros 8) in
  let* res := call (key_manager_open uuid_bytes enc 32 ct 32 aad 8 out_pt out_pt_len) in
  assert_eq res NotFound.

Definition test_key_manager_open_buffer_too_small : UnitTest unit :=
  let* uuid_bytes := alloc (zeros 16) in
  let* pubkey_bytes := alloc (zeros 32) in
  let pubkey_len := 32%N in
  let algo := test_algo in
  let* algo_bytes := alloc_slice (HpkeAlgorithm_encode_to_vec algo) in
  let* res := call (key_manager_generate_binding_keypair (as_ptr algo_bytes) (slice_len algo_bytes)
    3600 uuid_bytes pubkey_bytes pubkey_len) in
  do* assert_eq res Success;
  let* uuid := load uuid_bytes 16 in
  KeyCleanup (Uuid_from_bytes uuid)
   (let pt := lit "secret message" in
    let* pubkey := load pubkey_bytes 32 in
    let* pub_key := expect (in_sys (PublicKey_try_from pubkey)) in
    let* pt_box := expect (in_sys (@SecretBox_new _ Status (Vec_exact pt))) in
    scoped_local pt_box
     (let* ' (enc, ct) := expect (in_sys (hpke_seal pub_key pt_box [] algo)) in
      let* enc := alloc_slice enc in
      let* ct := alloc_slice ct in
      let* out_pt := alloc (zeros 5) in
      let out_pt_len := 5%N in
      let* empty := alloc [] in
      let* res := call (key_manager_open uuid_bytes (as_ptr enc) (slice_len enc) (as_ptr ct) (slice_len ct)
        empty 0 out_pt out_pt_len) in
      do* assert_eq res InvalidArgument;
      let* out := load out_pt 5 in
      assert_eq out (zeros 5))).

(** ** Enumeration *)

(** [[WsKeyInfo::default(); 32]] *)
Definition default_entries : bytes := concat (replicate 32 (WsKeyInfo_bytes WsKeyInfo_default)).

(** [out_entries[i]] of the array of 32 entries. *)
Definition out_entry_at (entries i : N) : UnitTest WsKeyInfo :=
  if (i <? 32)%N then
    let* w := gets prog_proc in
    expect_some (read_WsKeyInfo (p_mem w) (entries + i * WsKeyInfo_size))
  else panic.

Definition test_key_manager_enumerate_binding_keys_success : UnitTest unit :=
  let* uuid_bytes := alloc (zeros 16) in
  let* pubkey_bytes := alloc (zeros 32) in
  let pubkey_len := 32%N in
  let* algo_bytes := alloc_slice (HpkeAlgorithm_encode_to_vec test_algo) in
  let* res := call (key_manager_generate_binding_keypair (as_ptr algo_bytes) (slice_len algo_bytes)
    3600 uuid_bytes pubkey_bytes pubkey_len) in
  do* assert_eq res Success;
  let* uuid := load uuid_bytes 16 in
  KeyCleanup (Uuid_from_bytes uuid)
   (let* out_entries := alloc default_entries in
    let* out_has_more := alloc [x00] in
    let* enum_result := call (key_manager_enumerate_binding_keys out_entries 32 0 (Some out_has_more)) in
    do* assert (1 <=? enum_result)%Z;
    let* found_uuid := for_until (seq 0 (Z.to_nat enum_result)) (λ i,
      let* entry := out_entry_at out_entries (N.of_nat i) in
      ret (bool_decide (ws_uuid entry = uuid))) in
    assert found_uuid).

(** ** Lookup *)

Definition test_get_binding_key_success : UnitTest unit :=
  let* uuid_bytes := alloc (zeros 16) in
  let* generated_pubkey_bytes := alloc (zeros 32) in
  let pubkey_len := 32%N in
  let* algo_bytes := alloc_slice (HpkeAlgorithm_encode_to_vec test_algo) in
  let* res := call (key_manager_generate_binding_keypair (as_ptr algo_bytes) (slice_len algo_bytes)
    3600 uuid_bytes generated_pubkey_bytes pubkey_len) in
  do* assert_eq res Success;
  let* uuid := load uuid_bytes 16 in
  KeyCleanup (Uuid_from_bytes uuid)
   (let* retrieved_pubkey_bytes := alloc (zeros 32) in
    let* retrieved_algo_bytes := alloc (zeros 64) in
    let* retrieved_algo_len := alloc (le_bytes 8 64) in
    let* res := call (key_manager_get_binding_key uuid_bytes retrieved_pubkey_bytes 32
      retrieved_algo_bytes retrieved_algo_len) in
    do* assert_eq res Success;
    let* generated := load generated_pubkey_bytes 32 in
    let* retrieved := load retrieved_pubkey_bytes 32 in
    do* assert_eq generated retrieved;
    let* len := load retrieved_algo_len 8 in
    let* retrieved_algo := load retrieved_algo_bytes 64 in
    let* retrieved_algo := prefix_of retrieved_algo (le_value len) in
    assert_eq (slice_bytes algo_bytes) retrieved_algo).

Definition test_get_binding_key_not_found : UnitTest unit :=
  let* uuid_bytes := alloc (filled 42 16) in
  let* pubkey_bytes := alloc (zeros 32) in
  let* retrieved_algo_bytes := alloc (zeros 64) in
  let* retrieved_algo_len := alloc (le_bytes 8 64) in
  let* res := call (key_manager_get_binding_key uuid_bytes pubkey_bytes 32
    retrieved_algo_bytes retrieved_algo_len) in
  assert_eq res NotFound.

Definition ws_tests : list (UnitTest unit) :=
  [test_create_binding_keypair_internal_success; test_generate_binding_keypair_ffi_success;
   test_generate_binding_keypair_invalid_algo; test_generate_binding_keypair_null_uuid_ptr;
   test_generate_binding_keypair_invalid_pubkey_len; test_destroy_binding_key_success;
   test_destroy_binding_key_not_found; test_destroy_binding_key_null_ptr; test_key_manager_open_success;
   test_key_manager_open_invalid_uuid; test_key_manager_open_buffer_too_small;
   test_key_manager_enumerate_binding_keys_success; test_get_binding_key_success;
   test_get_binding_key_not_found].
End tests.

(** Every test of the crate passes. *)
Example ws_tests_pass : all_pass ws_tests = true.
Proof. vm_compute. reflexivity. Qed.
